(* ===== verification/_CoqProject ===== *)
-Q . S2P
Prelude.v
Error.v
Page.v
DataPage.v
FreeMap.v
Lru.v
Store.v
MemStore.v
PageIo.v
Spillway.v
Crypto.v
PageCache.v
CacheInv.v
CacheEvict.v
CacheOps.v
CacheStore.v
Reuse.v
CacheFlush.v
CacheReset.v
CacheProps.v
Radix.v
RadixPath.v
RadixSession.v
HandleTable.v
HandleTableRead.v
HandleTableProps.v
Durability.v
RadixU64.v
RadixU64Write.v
RadixU64Read.v
MembershipIndex.v
MembershipInv.v
MembershipOps.v
MembershipWrite.v
MembershipProps.v
FreeMapTree.v
FreeMapTreeRead.v
FreeMapTreeWrite.v
FreeMapTreeSpec.v
FreeMapTreeProps.v
Overflow.v
CryptoHeader.v
Superblock.v
SuperblockFacts.v
SuperblockProps.v
TxnAlloc.v
StructuralStore.v
AllocStore.v
AllocProps.v
SlotPacker.v
Defer.v
TxnState.v
TxnOps.v
TxnCommit.v
NamedRoots.v
Recovery.v
Keys.v
Defrag.v
Api.v
Rekey.v
Slots.v
Keeps.v
TxnKeeps.v
TxnGuards.v
TxnFile.v
FlushUnits.v
CommitStore.v
CommitProps.v
OpenProps.v
RekeyPath.v
RekeyBuild.v
KeyProps.v
RekeyProps.v
