(* ===== verification/Prelude.v ===== *)
(** * Chisel: a verification library for the storage engine

    Chisel is a transactional, single-writer key-value store in one file.  A
    commit writes fresh pages (shadow paging) and then one of several superblocks;
    a crash leaves the file as the last complete superblock describes it.  This
    library models the engine of [src/src/*.rs] in Rocq and proves what each part
    promises the parts above it.

    ** The program and the files here

    From the bottom up; each file opens with its own summary.

    - [Prelude] (this file): tactics, hint databases, and the shared lemmas on
      lists, byte strings, little-endian fields and saturating 64-bit arithmetic.
    - [Error]: [ChiselError] and [is_fatal] of [error.rs]; the outcome type
      ([Ok], [Err], [Panic] with its reason); the effect monad [M] in which every
      fallible or stateful function is written; and [spec], the judgement that most
      lemmas state: a frame that holds on every outcome, a postcondition on success,
      and the faults that may come from below.  Integers are [Z] with the width
      written out ([is_u8], [is_u64], [sat_add], checked sums that panic).
    - [Page]: [page.rs]: page layout, page types, format versions, the checksum.
      The hash xxh3-64 is a parameter (class [Xxh3]).
    - [DataPage]: [data_page.rs]: slotted pages of small values.
    - [FreeMap]: [freemap.rs]: bitmap leaves.
    - [Lru]: [lru.rs]: the eviction order of the cache, a doubly linked list threaded
      through a map.
    - [Store]: what the page modules call of [PageCache] (class [PageStore]) and what
      it promises them (class [StoreOk]): a logical view of the pages, a set of live
      pages, exact reads, writes that change one page, allocations that never return
      a live page.  The modules above are proved against this interface.
      [MemStore] is its smallest implementation; the examples run on it.
    - [PageIo], [Spillway]: [page_io.rs] and [spillway.rs]: the bytes of the page file
      and of the side file, read and written in units and slots.  What the operating
      system answers to the coming operations is part of the state, a failing write
      leaving any prefix of its bytes.
    - [PageCache]: [page_cache.rs], every operation.  [CacheInv]: what the stored bytes
      stand for and the invariant; [CacheEvict], [CacheOps], [CacheFlush],
      [CacheReset]: the operations; [CacheStore]: the cache as an instance of
      [StoreOk]; [CacheProps]: its properties; [Durability]: the handle table over it,
      across a flush and a reopening.
    - [Radix]: what the radix trees share: which pages a root reaches, what it maps a
      key to, and that a copied path keeps the old tree and changes one key of the
      new.  [RadixPath]: the steps of an insertion, a deletion and an enumeration the
      trees have in common.  [RadixSession]: the same for a tree that writes its own
      pages in place and copies the others once per session.
    - [HandleTable], [HandleTableRead], [HandleTableProps]: [handle_table.rs], the
      copy-on-write map from handles to entries: definitions and insertion; deletion,
      lookup, iteration and recovery of the depth; the properties.
    - [RadixU64], [RadixU64Write], [RadixU64Read]: the radix tree from words to words of
      [membership_index.rs]; [MembershipIndex]: the two-level index over it, from tags
      to sets of handles; [MembershipInv]: what a root denotes and the invariant of both
      levels; [MembershipOps], [MembershipWrite]: the operations; [MembershipProps]: the
      properties.
    - [FreeMapTree], [FreeMapTreeRead], [FreeMapTreeWrite], [FreeMapTreeSpec],
      [FreeMapTreeProps]: [freemap_tree.rs], the tree of bitmap leaves over all page
      ids: definitions; reads; writes; what one call does to the set; the properties.
    - [Overflow]: [overflow.rs]: chains of pages for large values.
    - [Crypto], [CryptoHeader]: [crypto/mod.rs] and [superblock/crypto_header.rs]:
      key derivation, key wrapping and page sealing over the library primitives
      (class [Primitives]: Argon2id, HKDF and XChaCha20-Poly1305 are parameters, with
      the documented law that opening undoes sealing under the same key, nonce and
      associated data), and the key-slot table.
    - [Superblock], [SuperblockFacts], [SuperblockProps]: [superblock/mod.rs]: both
      page images, validation, diagnosis, slot selection and the counters.
    - [Reuse]: what the transaction layer needs of the cache beyond [StoreOk]: a page
      handed out again ([PageCache::new_page_at]) and pages given up (class [ReuseOk],
      with the cache as an instance).
    - [TxnAlloc]: [transaction/freemap.rs]: where a transaction takes its pages from
      (those it freed itself, the committed freemap, the end of the file), and how the
      pages it supersedes are retired.  [StructuralStore], [AllocStore]: the two ways
      the page structures allocate through it, each again a [StoreOk], so that what is
      proved of the trees holds of the trees of a transaction.  [AllocProps]: the
      properties.
    - [SlotPacker]: [transaction/packing.rs]: which data page a small value goes to.
    - [TxnState]: the fields of [TransactionManager] ([transaction/mod.rs]), the guards
      of every public call and the poisoning on a fatal error.  [TxnOps]: reads,
      staging and mutation ([read.rs], [staging.rs], [mutate.rs]).  [TxnCommit]: named
      roots, savepoints, begin, rollback, commit and configuration.  [Recovery]:
      creation and opening of a file, and the counters ([recovery.rs], [stats.rs]).
    - [Keys]: adding, rotating and removing a credential ([keys.rs]).  [Defrag]: one pass
      of defragmentation ([defrag.rs]), with the binary64 densities of the sparse pages.
      [Api]: opening a path or a store in memory, and every method of [Chisel]
      ([lib.rs], [handle.rs], [stats.rs]).  [Rekey]: the copy of a file under a new data
      key ([rekey.rs]).
    - [NamedRoots]: the named roots as a finite map.  [Keeps], [TxnKeeps]: what every
      operation, whatever its outcome, leaves of the state below it; the first for the
      page structures, the second for the operations of the manager.  [TxnGuards],
      [TxnFile]: the properties of sequences of calls.
    - [Slots]: the superblock slots of a file and which of them an opening takes.
      [FlushUnits]: which units a flush writes.  [CommitStore]: the store under a commit,
      in which the pages of the last commit are nobody's.  [CommitProps]: commits.
      [OpenProps]: openings.  [KeyProps]: key changes.  [RekeyPath], [RekeyBuild],
      [RekeyProps]: what a rotation of the data key does to the path and to the scratch
      file, and the call as a whole.

    A Rust function is the definition of the same name; a loop of a function is a
    [Fixpoint] named after it ([find_loop], [grow_loop], [descend_loop]).  A function
    that takes [&mut PageCache] runs in [M St] for the store type [St]; further
    [&mut] arguments ([freed], [self], a hint) are the other components of the state.
    Random arrays and allocation closures are arguments.

    ** What the theorems show

    - Commits: on every outcome of a commit, torn writes included, the pages of the last
      commit and the other superblock slots keep their bytes, the slot is written only when
      every page is in the file, and an opening finds the last commit or the new one
      ([commit_atomic]); after a success the file is opened again to the committed roots
      and pages, in the clear or encrypted ([commit_survives_reopen]); the selection
      of a slot is the one that [Superblock::select] makes ([select_winner]).
    - Key changes: the new key-slot table is complete in one slot before another is
      written, so an opening finds the old superblock or the new one
      ([key_switch_atomic]); which keys open the file after a removal
      ([remove_key_exact]): a key that was added twice still does.
    - Rotation of the data key: a call that fails leaves the path as it was, and one that
      succeeds leaves a file that opens to the same database under the fresh key
      ([rekey_same_database]); without an error of the system it succeeds
      ([rekey_completes]); what its failures leave at the scratch path ([rekey_scratch]).
    - Transactions: a public call on a poisoned manager, or without a transaction it
      needs, fails and changes nothing ([calls_guarded]); the manager is poisoned by a
      fatal error and by nothing else ([poison_exact]); no sequence of calls before a
      commit, failing ones included, writes a page of the committed file
      ([committed_pages_untouched]), and a rollback brings back the state at [begin]
      ([rollback_restores]); the named roots are a finite map
      ([named_roots_refine_map]).
    - Allocation in a transaction: a page handed out is in no committed tree and was not
      handed out before ([cow_alloc_fresh]); a page is retired at most once, and only to
      where a later transaction may take it ([retire_sound]).
    - Handle table: over any history of calls it is a finite map
      ([table_refines_map]); each call on each outcome ([insert_outcomes],
      [delete_outcomes], [lookup_exact]), the old root intact throughout; exact
      accounting of superseded pages ([insert_freed]); [iter_live] complete, ordered
      and without repetition; the depth found again on open.
    - Membership index: over any history of calls a finite relation between tags and
      handles ([index_refines_relation]), with exact accounting of superseded pages over
      both levels ([index_freed]).  Its one assertion that can fail is on a page id
      beyond 58 bits; the theorem states that outcome too ([runs]).
    - Freemap tree: over any history it is a finite set of page ids with
      least-element allocation, and committed pages are not written whatever the
      outcome ([freemap_refines_set]); accounting ([mark_free_superseded]);
      [allocate_first_outcomes]; lemmas on [reachable_pages] and on the guards against a
      damaged depth or an id out of reach.
    - Overflow chains: what is written is read back and collected, and a read of any
      page of any file ends with a value or a reported corruption.
    - Superblock and keys: round trips of the plain and of the encrypted image and of
      the header; [diagnose] exact; counters never wrap; a wrapped key unlocks; a
      sealed page opens.
    - Page cache: over any history of calls two maps from page ids to pages, what the
      clients see and what the file has ([cache_refines_pages]); reads of intact pages
      never report corruption ([get_outcomes]); eviction ends within the limit and
      changes no page ([evict_within_cap]); a flush makes everything durable and on no
      outcome touches a page that was not dirty ([flush_durable]); rollback and
      truncation; a flushed handle table is found again on open
      ([table_survives_reopen]).
    - LRU list: a list without repetition under any history ([lru_refines_list]).
    - Pages: the data page as a list of values, the bitmap as a set, the checksum.

    ** Bounds and fuel

    The trees have at most [MAX_DEPTH] interior levels (6 for handles and for tags, 5
    for the freemap), and the loops that grow a tree add one per turn, so [MAX_DEPTH] turns
    of fuel are enough; [recover_loop] stops with corruption after [MAX_DEPTH + 1]
    levels and has one turn more.  Descents recurse on the level.  The loops over an
    overflow chain recurse on the page budget the code itself computes from the
    stored length, and a chain that is longer is corruption there too.  The loops of
    the cache take away one entry or one slot per turn, and have as many turns as there
    are entries or slots: on success the loop's own exit condition holds.  No theorem is
    conditional on fuel.  An allocation or a cache call below may fail ([Fault]); the
    theorems then say which state is left, and where nothing below faults, the call
    succeeds ([spec_total]).

    ** What is not modelled

    - The file lock, permissions, links and the sync of a directory in [page_io.rs],
      [spillway.rs] and [rekey.rs]: the operating system.  The byte offset of a spill slot
      is not bounded by 64 bits.
    - The wall clock; the [Display] texts of errors; [Chisel::close], which drops the
      value; the fault injection and the helpers of the tests.
    - The bindings and benchmarks: no logic of the store. *)

From stdpp Require Export base numbers list gmap.
From Stdlib Require Export ZArith Lia Sorted.

#[global] Open Scope Z_scope.

(** ** Tactics and hint databases *)

Create HintDb chisel.
Create HintDb bytes.

(** Splits conjunctions in the context and the goal, then calls the closers. *)
Ltac crush :=
  repeat match goal with
    | H : _ ∧ _ |- _ => destruct H
    | H : ∃ _, _ |- _ => destruct H
    end;
  repeat split; simplify_eq/=; try lia; eauto with chisel.

(** Splits the conjunctions of the goal that are written as such. *)
Ltac ands := repeat match goal with |- _ ∧ _ => split end.

(** Case analysis on the comparison tests that the code's guards use. *)
Ltac case_tests :=
  repeat match goal with
    | |- context [ ?a <? ?b ] => destruct (Z.ltb_spec a b)
    | |- context [ ?a <=? ?b ] => destruct (Z.leb_spec a b)
    | |- context [ ?a =? ?b ] => destruct (Z.eqb_spec a b)
    end.

Ltac case_tests_in H :=
  repeat match type of H with
    | context [ ?a <? ?b ] => destruct (Z.ltb_spec a b)
    | context [ ?a <=? ?b ] => destruct (Z.leb_spec a b)
    | context [ ?a =? ?b ] => destruct (Z.eqb_spec a b)
    end.

(** ** Machine integers

    A [uN] is a [Z] in [0 .. 2^N).  [saturating_*] and [wrap] write out the
    Rust operations on that range. *)

Definition u16_max : Z := 2 ^ 16 - 1.
Definition u32_max : Z := 2 ^ 32 - 1.
Definition u64_max : Z := 2 ^ 64 - 1.

Definition is_u8 (z : Z) : Prop := 0 ≤ z < 2 ^ 8.
Definition is_u16 (z : Z) : Prop := 0 ≤ z < 2 ^ 16.
Definition is_u32 (z : Z) : Prop := 0 ≤ z < 2 ^ 32.
Definition is_u64 (z : Z) : Prop := 0 ≤ z < 2 ^ 64.

Definition sat_add (a b : Z) : Z := Z.min (a + b) u64_max.
Definition sat_mul (a b : Z) : Z := Z.min (a * b) u64_max.
Definition sat_sub (a b : Z) : Z := Z.max (a - b) 0.

(** [x as uN] for a non-negative [x]. *)
Definition cast (n x : Z) : Z := x mod 2 ^ n.

Lemma cast_small n x : 0 ≤ x < 2 ^ n → cast n x = x.
Proof. apply Z.mod_small. Qed.

(** ** Lists indexed by [Z] *)

Definition zlen {A} (l : list A) : Z := Z.of_nat (length l).

Lemma zlen_nonneg {A} (l : list A) : 0 ≤ zlen l.
Proof. unfold zlen. lia. Qed.

Lemma zlen_app {A} (l k : list A) : zlen (l ++ k) = zlen l + zlen k.
Proof. unfold zlen. rewrite length_app. lia. Qed.

Lemma zlen_replicate {A} n (x : A) : 0 ≤ n → zlen (replicate (Z.to_nat n) x) = n.
Proof. intros. unfold zlen. rewrite length_replicate. lia. Qed.

#[export] Hint Resolve zlen_nonneg : chisel.

(** Distinct integers of a range are at most as many as the range has. *)
Lemma nodup_range (l : list Z) n :
  0 ≤ n → NoDup l → (∀ x, x ∈ l → 0 ≤ x < n) → zlen l ≤ n.
Proof.
  intros Hn Hd Hr. assert (Hs : l ⊆+ seqZ 0 n).
  { apply NoDup_submseteq; [done |]. intros x Hx%Hr. apply elem_of_seqZ. lia. }
  apply submseteq_length in Hs. rewrite length_seqZ in Hs. unfold zlen. lia.
Qed.

(** ** Partial maps over ranges *)

Lemma omap_ext_in {A B} (f g : A → option B) (xs : list A) :
  (∀ x, x ∈ xs → f x = g x) → omap f xs = omap g xs.
Proof.
  induction xs as [| x xs IH]; intros Hfg; [done |]. csimpl.
  rewrite (Hfg x) by left. by rewrite IH by (intros; apply Hfg; by right).
Qed.

Lemma omap_none {A B} (xs : list A) : omap (λ _, @None B) xs = [].
Proof. by induction xs. Qed.

Lemma omap_fmap {A B C} (f : A → B) (g : B → option C) (xs : list A) :
  omap g (f <$> xs) = omap (λ x, g (f x)) xs.
Proof. induction xs as [| x xs IH]; [done |]. csimpl. by rewrite IH. Qed.

(** The pairs collected over an ascending list of keys are in key order. *)
Lemma omap_sorted {B} (f : Z → option (Z * B)) (xs : list Z) :
  StronglySorted Z.lt xs → (∀ k y, f k = Some y → y.1 = k) →
  StronglySorted (λ a b, a.1 < b.1) (omap f xs).
Proof.
  intros Hs Hf. induction Hs as [| x xs Hs IH Hx]; [constructor |]. csimpl.
  destruct (f x) as [y |] eqn:E; [| done]. constructor; [done |].
  apply Forall_forall. intros z (k & Hk & Ez)%list_elem_of_omap.
  rewrite (Hf _ _ E), (Hf _ _ Ez). rewrite Forall_forall in Hx. by apply Hx.
Qed.

Lemma seqZ_sorted a n : StronglySorted Z.lt (seqZ a n).
Proof.
  unfold seqZ. revert a. induction (Z.to_nat n) as [| m IH]; intros a; [constructor |].
  cbn [seq fmap list_fmap]. constructor.
  - rewrite <- fmap_S_seq, <- list_fmap_compose.
    rewrite (list_fmap_ext _ (λ i, Z.of_nat i + (a + 1))); [apply IH |]. intros ? i _. simpl. lia.
  - apply Forall_forall. intros z (i & -> & Hi%elem_of_seq)%list_elem_of_fmap. lia.
Qed.

(** A range of [n * m] keys is [m] blocks of [n]. *)
Lemma omap_blocks {B} (f : Z → option B) n m :
  0 ≤ n →
  omap f (seqZ 0 (n * Z.of_nat m)) =
    concat (map (λ i, omap (λ k, f (i * n + k)) (seqZ 0 n)) (seqZ 0 (Z.of_nat m))).
Proof.
  intros Hn. induction m as [| m IH]; [by rewrite Z.mul_0_r |].
  rewrite Nat2Z.inj_succ, Z.mul_succ_r, seqZ_app by lia.
  unfold Z.succ. rewrite (seqZ_app 0 (Z.of_nat m) 1) by lia.
  rewrite omap_app, IH, map_app, concat_app. f_equal.
  rewrite (seqZ_cons (0 + Z.of_nat m) 1) by lia. cbn [map concat]. rewrite app_nil_r.
  rewrite <- (Z.add_0_r (0 + n * Z.of_nat m)) at 1. rewrite <- fmap_add_seqZ, omap_fmap.
  apply omap_ext_in. intros k _. simpl. f_equal. lia.
Qed.

(** [buf[i]] *)
Definition getb (i : Z) (l : list Z) : Z := default 0 (l !! Z.to_nat i).

(** [&buf[off..off + n]] *)
Definition slice (off n : Z) (l : list Z) : list Z :=
  take (Z.to_nat n) (drop (Z.to_nat off) l).

(** [buf[off..off + bs.len()].copy_from_slice(bs)] *)
Definition splice (off : Z) (bs l : list Z) : list Z :=
  take (Z.to_nat off) l ++ bs ++ drop (Z.to_nat (off + zlen bs)) l.

(** [buf[i] = v] *)
Definition setb (i v : Z) (l : list Z) : list Z := splice i [v] l.

Definition zeros (n : Z) : list Z := replicate (Z.to_nat n) 0.

Lemma length_slice off n l :
  0 ≤ off → 0 ≤ n → off + n ≤ zlen l → zlen (slice off n l) = n.
Proof. unfold slice, zlen. intros. rewrite length_take, length_drop. lia. Qed.

Lemma zlen_splice off bs l :
  0 ≤ off → off + zlen bs ≤ zlen l → zlen (splice off bs l) = zlen l.
Proof.
  unfold splice, zlen. intros.
  rewrite !length_app, length_take, length_drop. lia.
Qed.

Lemma lookup_slice off n l i :
  0 ≤ off → 0 ≤ n →
  slice off n l !! i =
    if decide (i < Z.to_nat n)%nat then l !! (Z.to_nat off + i)%nat else None.
Proof.
  intros. unfold slice. case_decide.
  - by rewrite lookup_take_lt, lookup_drop.
  - rewrite lookup_take_ge; [done | lia].
Qed.

Lemma lookup_splice off bs l i :
  0 ≤ off → off + zlen bs ≤ zlen l →
  splice off bs l !! i =
    if decide (Z.to_nat off ≤ i < Z.to_nat off + length bs)%nat
    then bs !! (i - Z.to_nat off)%nat else l !! i.
Proof.
  intros Ho Hl. unfold splice, zlen in *.
  destruct (decide (i < Z.to_nat off)%nat).
  { rewrite lookup_app_l by (rewrite length_take; lia).
    rewrite lookup_take_lt by done. rewrite decide_False by lia. done. }
  rewrite lookup_app_r by (rewrite length_take; lia).
  rewrite length_take, Nat.min_l by lia.
  destruct (decide (i < Z.to_nat off + length bs)%nat).
  - rewrite lookup_app_l by lia. rewrite decide_True by lia. done.
  - rewrite lookup_app_r by lia. rewrite lookup_drop, decide_False by lia.
    f_equal. lia.
Qed.

(** Reading back inside the written range. *)
Lemma slice_splice_in off n o bs l :
  0 ≤ o → o + zlen bs ≤ zlen l →
  o ≤ off → 0 ≤ n → off + n ≤ o + zlen bs →
  slice off n (splice o bs l) = slice (off - o) n bs.
Proof.
  intros. unfold zlen in *. apply list_eq. intros i.
  rewrite !lookup_slice by lia. case_decide; [| done].
  rewrite lookup_splice by (unfold zlen; lia).
  rewrite decide_True by lia. f_equal. lia.
Qed.

(** Reading outside the written range. *)
Lemma slice_splice_out off n o bs l :
  0 ≤ off → 0 ≤ n → 0 ≤ o → o + zlen bs ≤ zlen l →
  off + n ≤ o ∨ o + zlen bs ≤ off →
  slice off n (splice o bs l) = slice off n l.
Proof.
  intros. unfold zlen in *. apply list_eq. intros i.
  rewrite !lookup_slice by lia. case_decide; [| done].
  rewrite lookup_splice by (unfold zlen; lia).
  rewrite decide_False by lia. done.
Qed.

Lemma slice_full n l : zlen l = n → slice 0 n l = l.
Proof.
  intros. unfold slice, zlen in *. rewrite drop_0. apply take_ge. lia.
Qed.

Lemma slice_splice_same o n bs l :
  0 ≤ o → o + zlen bs ≤ zlen l → n = zlen bs → slice o n (splice o bs l) = bs.
Proof.
  intros ?? ->. rewrite slice_splice_in by (auto with chisel; lia).
  rewrite Z.sub_diag. by apply slice_full.
Qed.

Lemma slice_slice o1 n1 o2 n2 l :
  0 ≤ o1 → 0 ≤ o2 → 0 ≤ n2 → o2 + n2 ≤ n1 →
  slice o2 n2 (slice o1 n1 l) = slice (o1 + o2) n2 l.
Proof.
  intros. apply list_eq. intros i. rewrite !lookup_slice by lia.
  case_decide; [| done]. rewrite decide_True by lia. f_equal. lia.
Qed.

Lemma getb_slice i l : 0 ≤ i → i < zlen l → slice i 1 l = [getb i l].
Proof.
  intros. unfold zlen in *. apply list_eq. intros k. rewrite lookup_slice by lia.
  unfold getb. destruct (lookup_lt_is_Some_2 l (Z.to_nat i)) as [x Hx]; [lia |].
  rewrite Hx. case_decide as Hk.
  - assert (k = 0%nat) as -> by lia. rewrite Nat.add_0_r. done.
  - rewrite (lookup_ge_None_2 [_]); simpl; [done | lia].
Qed.

Lemma getb_splice_in i o bs l :
  0 ≤ o → o + zlen bs ≤ zlen l → o ≤ i < o + zlen bs →
  getb i (splice o bs l) = getb (i - o) bs.
Proof.
  intros. unfold getb. rewrite lookup_splice by done. unfold zlen in *.
  rewrite decide_True by lia. do 2 f_equal. lia.
Qed.

Lemma getb_splice_out i o bs l :
  0 ≤ i → 0 ≤ o → o + zlen bs ≤ zlen l → i < o ∨ o + zlen bs ≤ i →
  getb i (splice o bs l) = getb i l.
Proof.
  intros. unfold getb. rewrite lookup_splice by done. unfold zlen in *.
  rewrite decide_False by lia. done.
Qed.

(** ** Bytes and little-endian fields *)

Definition bytes_ok (l : list Z) : Prop := Forall is_u8 l.

(** [v.to_le_bytes()] of an [n]-byte integer. *)
Fixpoint le_encode (n : nat) (v : Z) : list Z :=
  match n with
  | O => []
  | S n => v mod 256 :: le_encode n (v / 256)
  end.

(** [uN::from_le_bytes]. *)
Fixpoint le_decode (l : list Z) : Z :=
  match l with
  | [] => 0
  | b :: l => b + 256 * le_decode l
  end.

Lemma length_le_encode n v : length (le_encode n v) = n.
Proof. revert v; induction n; intros; simpl; auto. Qed.

Lemma zlen_le_encode n v : zlen (le_encode n v) = Z.of_nat n.
Proof. unfold zlen. by rewrite length_le_encode. Qed.

Lemma le_encode_bytes n v : bytes_ok (le_encode n v).
Proof.
  revert v; induction n; intros; simpl; constructor; [| apply IHn].
  apply Z.mod_pos_bound. lia.
Qed.

Lemma le_decode_encode n v : 0 ≤ v < 256 ^ Z.of_nat n → le_decode (le_encode n v) = v.
Proof.
  revert v; induction n as [| n IH]; intros v Hv.
  - simpl in *. lia.
  - cbn [le_encode le_decode].
    rewrite Nat2Z.inj_succ, Z.pow_succ_r in Hv by lia.
    rewrite IH; [pose proof (Z.div_mod v 256); lia |].
    split; [apply Z.div_pos; lia | apply Z.div_lt_upper_bound; lia].
Qed.

Lemma le_decode_bound l : bytes_ok l → 0 ≤ le_decode l < 256 ^ zlen l.
Proof.
  unfold zlen. induction 1 as [| b l [H1 H2] _ IH]; cbn [le_decode length]; [lia |].
  rewrite Nat2Z.inj_succ, Z.pow_succ_r by lia. change (2 ^ 8) with 256 in *. lia.
Qed.

Lemma le_encode_decode l : bytes_ok l → le_encode (length l) (le_decode l) = l.
Proof.
  induction 1 as [| b l [H1 H2] _ IH]; cbn [le_decode length le_encode]; [done |].
  change (2 ^ 8) with 256 in *. f_equal.
  - rewrite Z.mul_comm, Z.mod_add by lia. apply Z.mod_small. lia.
  - rewrite Z.mul_comm, Z.div_add by lia. rewrite Z.div_small by lia. apply IH.
Qed.

(** An [n]-byte little-endian field at offset [off]. *)
Definition get_le (n : nat) (off : Z) (l : list Z) : Z :=
  le_decode (slice off (Z.of_nat n) l).

Definition put_le (n : nat) (off v : Z) (l : list Z) : list Z :=
  splice off (le_encode n v) l.

Abbreviation get_u16 := (get_le 2).
Abbreviation get_u32 := (get_le 4).
Abbreviation get_u64 := (get_le 8).
Abbreviation put_u16 := (put_le 2).
Abbreviation put_u32 := (put_le 4).
Abbreviation put_u64 := (put_le 8).

Lemma zlen_put_le n off v l :
  0 ≤ off → off + Z.of_nat n ≤ zlen l → zlen (put_le n off v l) = zlen l.
Proof. intros. apply zlen_splice; rewrite ?zlen_le_encode; lia. Qed.

Lemma zlen_setb i v l : 0 ≤ i < zlen l → zlen (setb i v l) = zlen l.
Proof. intros. apply zlen_splice; unfold zlen in *; simpl; lia. Qed.

Lemma get_put_same n off v l :
  0 ≤ off → off + Z.of_nat n ≤ zlen l → 0 ≤ v < 256 ^ Z.of_nat n →
  get_le n off (put_le n off v l) = v.
Proof.
  intros. unfold get_le, put_le.
  rewrite slice_splice_same by (rewrite ?zlen_le_encode; lia).
  by apply le_decode_encode.
Qed.

Lemma get_splice_out n off o bs l :
  0 ≤ off → 0 ≤ o → o + zlen bs ≤ zlen l →
  off + Z.of_nat n ≤ o ∨ o + zlen bs ≤ off →
  get_le n off (splice o bs l) = get_le n off l.
Proof. intros. unfold get_le. rewrite slice_splice_out by lia. done. Qed.

Lemma get_put_other n off m o v l :
  0 ≤ off → 0 ≤ o → o + Z.of_nat m ≤ zlen l →
  off + Z.of_nat n ≤ o ∨ o + Z.of_nat m ≤ off →
  get_le n off (put_le m o v l) = get_le n off l.
Proof. intros. apply get_splice_out; rewrite ?zlen_le_encode; lia. Qed.

Lemma get_setb_other n off i v l :
  0 ≤ off → 0 ≤ i < zlen l → off + Z.of_nat n ≤ i ∨ i < off →
  get_le n off (setb i v l) = get_le n off l.
Proof. intros. apply get_splice_out; unfold zlen in *; simpl; lia. Qed.

Lemma getb_put_other i m o v l :
  0 ≤ i → 0 ≤ o → o + Z.of_nat m ≤ zlen l → i < o ∨ o + Z.of_nat m ≤ i →
  getb i (put_le m o v l) = getb i l.
Proof. intros. apply getb_splice_out; rewrite ?zlen_le_encode; lia. Qed.

Lemma getb_setb_same i v l : 0 ≤ i < zlen l → getb i (setb i v l) = v.
Proof.
  intros. unfold setb. rewrite getb_splice_in by (unfold zlen in *; simpl; lia).
  by rewrite Z.sub_diag.
Qed.

Lemma getb_setb_other i j v l :
  0 ≤ i → 0 ≤ j < zlen l → i ≠ j → getb i (setb j v l) = getb i l.
Proof. intros. apply getb_splice_out; unfold zlen in *; simpl; lia. Qed.

Lemma get_le_u64 off l : bytes_ok l → is_u64 (get_u64 off l).
Proof.
  intros Hb. assert (Hs : bytes_ok (slice off 8 l)).
  { apply Forall_take, Forall_drop, Hb. }
  pose proof (le_decode_bound _ Hs) as [H1 H2]. unfold is_u64, get_le.
  change (Z.of_nat 8) with 8. split; [done |].
  eapply Z.lt_le_trans; [apply H2 |]. change (2 ^ 64) with (256 ^ 8).
  apply Z.pow_le_mono_r; [lia |].
  unfold slice, zlen. rewrite length_take. lia.
Qed.

Lemma bytes_ok_splice off bs l : bytes_ok bs → bytes_ok l → bytes_ok (splice off bs l).
Proof.
  intros. unfold splice. repeat apply Forall_app_2; auto.
  - by apply Forall_take.
  - by apply Forall_drop.
Qed.

Lemma bytes_ok_put n off v l : bytes_ok l → bytes_ok (put_le n off v l).
Proof. intros. apply bytes_ok_splice; [apply le_encode_bytes | done]. Qed.

Lemma bytes_ok_setb i v l : is_u8 v → bytes_ok l → bytes_ok (setb i v l).
Proof. intros. apply bytes_ok_splice; [by constructor | done]. Qed.

Lemma bytes_ok_zeros n : bytes_ok (zeros n).
Proof. apply Forall_replicate. split; lia. Qed.

Lemma zlen_zeros n : 0 ≤ n → zlen (zeros n) = n.
Proof. apply zlen_replicate. Qed.

Lemma getb_zeros i n : getb i (zeros n) = 0.
Proof.
  unfold getb, zeros. destruct (_ !! _) eqn:E; [| done].
  apply lookup_replicate in E as [-> _]. done.
Qed.

Lemma le_decode_zero l : Forall (λ b, b = 0) l → le_decode l = 0.
Proof. induction 1; simpl; lia. Qed.

Lemma get_le_zeros n off m : get_le n off (zeros m) = 0.
Proof.
  apply le_decode_zero, Forall_take, Forall_drop, Forall_replicate. done.
Qed.

Lemma getb_bound i l : bytes_ok l → is_u8 (getb i l).
Proof.
  intros H. unfold getb. destruct (_ !! _) eqn:E; simpl; [| split; lia].
  eapply Forall_lookup_1 in H; eauto.
Qed.

(** [get_le] and [getb] only look at the prefix they reach. *)
Lemma get_le_take n off k l :
  0 ≤ off → off + Z.of_nat n ≤ Z.of_nat k → get_le n off (take k l) = get_le n off l.
Proof.
  intros. unfold get_le. f_equal. apply list_eq. intros i.
  rewrite !lookup_slice by lia. case_decide; [| done].
  rewrite lookup_take_lt by lia. done.
Qed.

Lemma getb_take i k l : 0 ≤ i → i < Z.of_nat k → getb i (take k l) = getb i l.
Proof. intros. unfold getb. by rewrite lookup_take_lt by lia. Qed.

#[export] Hint Resolve bytes_ok_put bytes_ok_setb bytes_ok_zeros bytes_ok_splice
  le_encode_bytes getb_bound : bytes.

(** ** Arrays of fixed-size records

    [for (i, x) in xs.iter().enumerate() { write x at base + i * stride }] and the
    loop that reads them back. *)

Section arrays.
Context {A : Type} (wr : Z → A → list Z → list Z) (rd : Z → list Z → A) (stride : Z).

Fixpoint write_array (base : Z) (xs : list A) (buf : list Z) : list Z :=
  match xs with
  | [] => buf
  | x :: xs => write_array (base + stride) xs (wr base x buf)
  end.

Fixpoint read_array (base : Z) (n : nat) (buf : list Z) : list A :=
  match n with
  | O => []
  | S n => rd base buf :: read_array (base + stride) n buf
  end.

Context (ok : A → Prop).
Hypothesis stride_pos : 0 < stride.
Hypothesis wr_len : ∀ base x buf, ok x → 0 ≤ base → base + stride ≤ zlen buf →
  zlen (wr base x buf) = zlen buf.
Hypothesis wr_out : ∀ base x buf off n, ok x → 0 ≤ base → base + stride ≤ zlen buf →
  0 ≤ off → 0 ≤ n → off + n ≤ base ∨ base + stride ≤ off →
  slice off n (wr base x buf) = slice off n buf.
Hypothesis wr_rd : ∀ base x buf, ok x → 0 ≤ base → base + stride ≤ zlen buf →
  rd base (wr base x buf) = x.
Hypothesis rd_slice : ∀ base buf buf', 0 ≤ base →
  slice base stride buf = slice base stride buf' → rd base buf = rd base buf'.

Lemma zlen_write_array xs base buf :
  Forall ok xs → 0 ≤ base → base + zlen xs * stride ≤ zlen buf →
  zlen (write_array base xs buf) = zlen buf.
Proof.
  revert base buf. induction xs as [| x xs IH]; intros base buf Hok Hb Hl; [done |].
  inversion Hok; subst. assert (zlen (x :: xs) = zlen xs + 1) as Hz by (unfold zlen; simpl; lia).
  pose proof (zlen_nonneg xs). assert (base + stride ≤ zlen buf) by nia.
  cbn [write_array]. rewrite IH; rewrite ?wr_len; auto; nia.
Qed.

Lemma write_array_out xs base buf off n :
  Forall ok xs → 0 ≤ base → base + zlen xs * stride ≤ zlen buf → 0 ≤ off → 0 ≤ n →
  off + n ≤ base ∨ base + zlen xs * stride ≤ off →
  slice off n (write_array base xs buf) = slice off n buf.
Proof.
  revert base buf. induction xs as [| x xs IH]; intros base buf Hok Hb Hl Ho Hn Hd; [done |].
  inversion Hok; subst. assert (zlen (x :: xs) = zlen xs + 1) as Hz by (unfold zlen; simpl; lia).
  pose proof (zlen_nonneg xs). assert (base + stride ≤ zlen buf) by nia.
  cbn [write_array]. rewrite IH; rewrite ?wr_len; auto; [| nia.. ]. apply wr_out; auto; nia.
Qed.

Lemma read_write_array xs base buf :
  Forall ok xs → 0 ≤ base → base + zlen xs * stride ≤ zlen buf →
  read_array base (length xs) (write_array base xs buf) = xs.
Proof.
  revert base buf. induction xs as [| x xs IH]; intros base buf Hok Hb Hl; [done |].
  inversion Hok; subst. assert (zlen (x :: xs) = zlen xs + 1) as Hz by (unfold zlen; simpl; lia).
  pose proof (zlen_nonneg xs). assert (base + stride ≤ zlen buf) by nia.
  cbn [write_array read_array length]. f_equal.
  - rewrite (rd_slice base _ (wr base x buf)); [by apply wr_rd | done |].
    apply write_array_out; rewrite ?wr_len; auto; nia.
  - apply IH; rewrite ?wr_len; auto; nia.
Qed.

Lemma read_array_slice n base buf buf' :
  0 ≤ base → (∀ off k, base ≤ off → 0 ≤ k → off + k ≤ base + Z.of_nat n * stride →
    slice off k buf = slice off k buf') →
  read_array base n buf = read_array base n buf'.
Proof.
  revert base. induction n as [| n IH]; intros base Hb Hs; [done |]. cbn [read_array]. f_equal.
  - apply rd_slice; [done |]. apply Hs; nia.
  - apply IH; [lia |]. intros off k ???. apply Hs; nia.
Qed.

Lemma length_read_array base n buf : length (read_array base n buf) = n.
Proof. revert base. induction n as [| n IH]; intros base; simpl; auto. Qed.
End arrays.
