(* ===== verification/Error.v ===== *)
(** * Errors, outcomes and the effect monad

    [ChiselError] and [is_fatal] are [src/error.rs]; [SuperblockDefect] and
    [SlotDefect] (named by one error variant) are [src/superblock/mod.rs].
    A Rust call that takes [&mut] state and returns [Result<T>] is a function
    of [M S T]: it returns an [outcome] and the state it leaves, on error too.
    [Panic] is the third outcome, with its reason; the model is that of a build
    with overflow checks and debug assertions on, as the test profile is. *)

From stdpp Require Export strings.
From S2P Require Export Prelude.

Inductive SuperblockDefect :=
  | BadChecksum
  | BadMagic
  | BadCount (n : Z)
  | BadTxnCounter (n : Z)
  | TooShort.

Record SlotDefect := { slot : Z; defect : SuperblockDefect }.

(** The [std::io::ErrorKind]s that the engine tells apart or produces. *)
Inductive ErrorKind :=
  | NotFound | AlreadyExists | PermissionDenied | UnexpectedEof | OtherKind.

Inductive ChiselError :=
  | InvalidHandle (h : Z)
  | NoActiveTransaction
  | TransactionAlreadyActive
  | SavepointNotFound (name : string)
  | DuplicateSavepoint (name : string)
  | ReadOnlyMode
  | FileNotFound
  | InvalidRootName
  | RootNameTableFull
  | InvalidSuperblockCount (value : Z)
  | InvalidArgon2Params (m_cost t_cost p_cost : Z)
  | CacheFull (limit : Z)
  | SpillwayFull (limit_bytes : Z)
  | TransactionInProgress
  | TagMismatch (handle expected actual : Z)
  | IoError (kind : ErrorKind)
  | ChecksumMismatch (page_id : Z)
  | CorruptSuperblock (defects : list SlotDefect)
  | FileSizeMismatch (expected actual : Z)
  | LockFailed
  | UnsupportedFormatVersion (found expected : Z)
  | Poisoned
  | CorruptPage (page_id : Z)
  | InvalidPageId (page_id : Z)
  | UnsupportedPageSize (stored compiled : Z)
  | InvalidFreemapDepth (stored max : Z)
  | InvalidNextHandle (stored max : Z)
  | TxnCounterExhausted (current : Z)
  | HandleSpaceExhausted (current : Z)
  | NoEncryptionKey
  | InvalidEncryptionKey
  | EncryptionNotSupported
  | NoFreeKeySlot
  | LastKeySlot
  | DecryptionFailed (page_id : Z).

(** [ChiselError::is_fatal]: the errors that poison the manager. *)
Definition is_fatal (e : ChiselError) : bool :=
  match e with
  | IoError _
  | ChecksumMismatch _
  | CorruptSuperblock _
  | FileSizeMismatch _ _
  | LockFailed
  | UnsupportedFormatVersion _ _
  | CorruptPage _
  | InvalidPageId _
  | UnsupportedPageSize _ _
  | InvalidFreemapDepth _ _
  | InvalidNextHandle _ _
  | TxnCounterExhausted _
  | HandleSpaceExhausted _
  | DecryptionFailed _ => true
  | _ => false
  end.

(** [impl From<io::Error> for ChiselError]. *)
Definition from_io_error (k : ErrorKind) : ChiselError :=
  match k with
  | NotFound => FileNotFound
  | k => IoError k
  end.

#[export] Instance SuperblockDefect_eq_dec : EqDecision SuperblockDefect.
Proof. solve_decision. Defined.
#[export] Instance SlotDefect_eq_dec : EqDecision SlotDefect.
Proof. solve_decision. Defined.
#[export] Instance ErrorKind_eq_dec : EqDecision ErrorKind.
Proof. solve_decision. Defined.
#[export] Instance ChiselError_eq_dec : EqDecision ChiselError.
Proof. solve_decision. Defined.

(** ** Outcomes *)

Inductive panic :=
  | PanicOverflow  (* checked arithmetic *)
  | PanicSlice     (* an index or range outside the buffer *)
  | PanicAssert    (* assert! and debug_assert! *)
  | PanicExpect.   (* expect and unwrap *)

#[export] Instance panic_eq_dec : EqDecision panic.
Proof. solve_decision. Defined.

Inductive outcome (A : Type) :=
  | Ok (a : A)
  | Err (e : ChiselError)
  | Panic (p : panic).
Arguments Ok {A} a.
Arguments Err {A} e.
Arguments Panic {A} p.

(** The run succeeds. *)
Definition is_ok {A} (r : outcome A) : bool := match r with Ok _ => true | _ => false end.

Lemma is_ok_run {S A} (m : outcome A * S) r s : m = (r, s) → is_ok m.1 = true → ∃ a, r = Ok a.
Proof. intros ->. destruct r; [eauto | done | done]. Qed.

(** ** The monad: state passing with an outcome *)

Definition M (S A : Type) : Type := S → outcome A * S.

Section monad.
Context {S : Type}.

Definition ret {A} (a : A) : M S A := λ s, (Ok a, s).
Definition fail {A} (e : ChiselError) : M S A := λ s, (Err e, s).
Definition crash {A} (p : panic) : M S A := λ s, (Panic p, s).

Definition bind {A B} (m : M S A) (k : A → M S B) : M S B := λ s,
  match m s with
  | (Ok a, s') => k a s'
  | (Err e, s') => (Err e, s')
  | (Panic p, s') => (Panic p, s')
  end.

Definition reads {A} (f : S → A) : M S A := λ s, (Ok (f s), s).
Definition writes (f : S → S) : M S unit := λ s, (Ok tt, f s).

(** [assert!(b)] and the bounds check of [buf[off..off + n]]. *)
Definition assert_that (p : panic) (b : bool) : M S unit :=
  if b then ret tt else crash p.

(** [match m { Ok(a) => Ok(a), Err(e) => { h; Err(e) } }] *)
Definition on_err {A} (m : M S A) (h : S → S) : M S A := λ s,
  match m s with
  | (Err e, s') => (Err e, h s')
  | r => r
  end.
End monad.

Declare Scope chisel_scope.
Delimit Scope chisel_scope with chisel.
Notation "'let*' x := m 'in' k" := (bind m (λ x, k))
  (at level 10, x name, m at level 100, k at level 200) : chisel_scope.
Notation "'let*' ' p := m 'in' k" := (bind m (λ x, match x with p => k end))
  (at level 10, p strict pattern, m at level 100, k at level 200)
  : chisel_scope.
Notation "m ;;; k" := (bind m (λ _, k))
  (at level 100, k at level 200, right associativity) : chisel_scope.
#[global] Open Scope chisel_scope.

(** ** Specifications

    [Fault] says which errors and panics the calls below a module may raise of
    their own accord.  [spec F m s Q]: from [s], [m] leaves a state that satisfies
    the frame [F] whatever the outcome; on success the result satisfies [Q]; any
    error or panic is one the calls below may raise.  Where those never fault, [m]
    therefore succeeds ([spec_total]). *)

Class Fault := {
  may_err : ChiselError → Prop;
  may_panic : panic → Prop
}.

(** Nothing below faults. *)
Definition no_fault : Fault := {| may_err _ := False; may_panic _ := False |}.

Definition post {S A} `{Fault} (Q : A → S → Prop) (r : outcome A) (s' : S) : Prop :=
  match r with
  | Ok a => Q a s'
  | Err e => may_err e
  | Panic p => may_panic p
  end.

Definition spec {S A} `{Fault} (F : S → Prop) (m : M S A) (s : S) (Q : A → S → Prop) : Prop :=
  F (m s).2 ∧ post Q (m s).1 (m s).2.

Section spec.
Context {S : Type} `{HF : Fault}.
Implicit Types (F : S → Prop) (s : S).

Lemma spec_ret {A} F (a : A) s (Q : A → S → Prop) : F s → Q a s → spec F (ret a) s Q.
Proof. by split. Qed.

Lemma spec_fail {A} F e s (Q : A → S → Prop) : F s → may_err e → spec F (fail e) s Q.
Proof. by split. Qed.

Lemma spec_reads {A} F (f : S → A) s (Q : A → S → Prop) :
  F s → Q (f s) s → spec F (reads f) s Q.
Proof. by split. Qed.

Lemma spec_writes F (f : S → S) s (Q : unit → S → Prop) :
  F (f s) → Q tt (f s) → spec F (writes f) s Q.
Proof. by split. Qed.

Lemma spec_assert F p b s (Q : unit → S → Prop) :
  b = true → F s → Q tt s → spec F (assert_that p b) s Q.
Proof. intros -> ??. by split. Qed.

Lemma spec_bind {A B} F (m : M S A) (k : A → M S B) s Q1 Q :
  spec F m s Q1 →
  (∀ a s', F s' → Q1 a s' → spec F (k a) s' Q) →
  spec F (bind m k) s Q.
Proof.
  intros [HF' Hp] Hk. unfold bind. unfold spec in *.
  destruct (m s) as [[a | e | p] s']; simpl in *; auto.
Qed.

(** The same where the frame need not hold between the two. *)
Lemma spec_bind_ok {A B} G F (m : M S A) (k : A → M S B) s Q1 Q :
  spec G m s Q1 → (G (m s).2 → is_ok (m s).1 = false → F (m s).2) →
  (∀ a s', G s' → Q1 a s' → spec F (k a) s' Q) → spec F (bind m k) s Q.
Proof.
  intros [HG Hp] HGF Hk. unfold bind. unfold spec in *.
  destruct (m s) as [[a | e | p] s']; simpl in *; auto.
Qed.

Lemma spec_conseq {A} (F F' : S → Prop) (m : M S A) s (Q Q' : A → S → Prop) :
  spec F m s Q → (∀ s', F s' → F' s') →
  (∀ a s', F s' → Q a s' → Q' a s') → spec F' m s Q'.
Proof.
  intros [HF' Hp] H1 H2. split; [by apply H1 |].
  unfold post in *. destruct (m s).1; auto.
Qed.

Lemma spec_ok {A} F (m : M S A) s (Q : A → S → Prop) a s' :
  spec F m s Q → m s = (Ok a, s') → F s' ∧ Q a s'.
Proof. intros [HF' Hp] E. rewrite E in *. done. Qed.

Lemma spec_err {A} F (m : M S A) s (Q : A → S → Prop) e s' :
  spec F m s Q → m s = (Err e, s') → F s' ∧ may_err e.
Proof. intros [HF' Hp] E. by rewrite E in *. Qed.

Lemma spec_panic {A} F (m : M S A) s (Q : A → S → Prop) p s' :
  spec F m s Q → m s = (Panic p, s') → F s' ∧ may_panic p.
Proof. intros [HF' Hp] E. by rewrite E in *. Qed.
End spec.

(** More faults allowed below. *)
Lemma spec_weaken {S A} (HF HF' : Fault) F (m : M S A) s (Q : A → S → Prop) :
  (∀ e, @may_err HF e → @may_err HF' e) → (∀ p, @may_panic HF p → @may_panic HF' p) →
  spec (H := HF) F m s Q → spec (H := HF') F m s Q.
Proof. intros He Hp [H1 H2]. split; [done |]. unfold post in *. destruct (m s).1; auto. Qed.

Lemma spec_total {S A} F (m : M S A) s (Q : A → S → Prop) :
  spec (H := no_fault) F m s Q → ∃ a s', m s = (Ok a, s') ∧ F s' ∧ Q a s'.
Proof. intros [HF Hp]. destruct (m s) as [[a | e | p] s'] eqn:E; [eauto | done | done]. Qed.

(** Applies the rule of the head of a program in a [spec] goal. *)
Ltac spec_step :=
  lazymatch goal with
  | |- spec _ (ret _) _ _ => apply spec_ret
  | |- spec _ (fail _) _ _ => apply spec_fail
  | |- spec _ (reads _) _ _ => apply spec_reads
  | |- spec _ (writes _) _ _ => apply spec_writes
  | |- spec _ (assert_that _ _) _ _ => apply spec_assert
  | |- spec _ (bind _ _) _ _ => eapply spec_bind
  | |- spec _ (if ?b then _ else _) _ _ => destruct b eqn:?
  end.
