(* ===== verification/Page.v ===== *)
(** * The page format ([src/page.rs])

    A page is the list of its 8192 bytes.  [compute_checksum], [stamp_checksum]
    and [verify_checksum] are the checksum primitives; the hash itself,
    [xxhash_rust::xxh3::xxh3_64], is third-party code and a parameter ([Xxh3]),
    of which only the return type is used.  [body] is the part of a page the
    checksum covers: what every page module reads and writes lies in it. *)

From S2P Require Export Error.

Definition PAGE_SIZE : Z := 8192.
Definition CHECKSUM_SIZE : Z := 8.
Definition CHECKSUM_OFFSET : Z := PAGE_SIZE - CHECKSUM_SIZE.
Definition DATA_PAGE_HEADER_SIZE : Z := 16.
Definition PAGE_BODY_SIZE : Z := PAGE_SIZE - DATA_PAGE_HEADER_SIZE - CHECKSUM_SIZE.
Definition PAGE_FORMAT_VERSION_CURRENT : Z := 0.
Definition MAGIC : Z := 0x4348534C.
Definition FORMAT_MAJOR_VERSION : Z := 1.
Definition FORMAT_MINOR_VERSION : Z := 1.
Definition FORMAT_MAJOR_VERSION_ENCRYPTED : Z := 2.
Definition FORMAT_MINOR_VERSION_ENCRYPTED : Z := 0.
Definition PAGE_ID_NONE : Z := u64_max.

(** ** Packed format versions *)

Definition pack_format_version (major minor : Z) : Z :=
  Z.lor (cast 32 (Z.shiftl major 16)) minor.

Definition format_major (version : Z) : Z := cast 16 (Z.shiftr version 16).

Definition format_minor (version : Z) : Z := Z.land version 0xFFFF.

Definition FORMAT_VERSION : Z :=
  pack_format_version FORMAT_MAJOR_VERSION FORMAT_MINOR_VERSION.

Definition format_version_encrypted : Z :=
  pack_format_version FORMAT_MAJOR_VERSION_ENCRYPTED FORMAT_MINOR_VERSION_ENCRYPTED.

(** ** Page types *)

Inductive PageType :=
  | HandleTablePage
  | DataPageType
  | OverflowPage
  | FreeMapPage
  | MembershipInterior
  | MembershipLeaf
  | FreeMapInterior.

#[export] Instance PageType_eq_dec : EqDecision PageType.
Proof. solve_decision. Defined.

(** [page_type as u8] *)
Definition type_tag (t : PageType) : Z :=
  match t with
  | HandleTablePage => 0x01
  | DataPageType => 0x02
  | OverflowPage => 0x03
  | FreeMapPage => 0x04
  | MembershipInterior => 0x05
  | MembershipLeaf => 0x06
  | FreeMapInterior => 0x07
  end.

Definition current_version (t : PageType) : Z :=
  match t with
  | HandleTablePage | DataPageType | OverflowPage | FreeMapPage
  | MembershipInterior | MembershipLeaf | FreeMapInterior => PAGE_FORMAT_VERSION_CURRENT
  end.

Definition page_format_version (buf : list Z) : Z :=
  if getb 0 buf =? type_tag HandleTablePage then getb 2 buf else getb 1 buf.

(** ** Checksums *)

Class Xxh3 := {
  xxh3_64 : list Z → Z;
  xxh3_64_range : ∀ l, is_u64 (xxh3_64 l)
}.

(** What a [[u8; PAGE_SIZE]] is. *)
Definition wf_page (p : list Z) : Prop := zlen p = PAGE_SIZE ∧ bytes_ok p.

Definition zero_page : list Z := zeros PAGE_SIZE.

(** The checksummed part of a page. *)
Definition body (p : list Z) : list Z := take (Z.to_nat CHECKSUM_OFFSET) p.

Section checksum.
Context `{Xxh3}.

Definition compute_checksum (buf : list Z) : Z :=
  xxh3_64 (slice 0 CHECKSUM_OFFSET buf).

Definition stamp_checksum (buf : list Z) : list Z :=
  splice CHECKSUM_OFFSET (le_encode 8 (compute_checksum buf)) buf.

Definition verify_checksum (buf : list Z) : bool :=
  get_u64 CHECKSUM_OFFSET buf =? compute_checksum buf.
End checksum.

(** ** Arithmetic over the layout constants *)

Ltac consts :=
  unfold PAGE_BODY_SIZE, CHECKSUM_OFFSET, DATA_PAGE_HEADER_SIZE, CHECKSUM_SIZE, PAGE_SIZE in *.

Ltac plia := consts; unfold is_u8, is_u16, is_u32, is_u64 in *; cbn [length] in *; lia.

#[export] Hint Extern 4 (_ ≤ _) => plia : chisel.
#[export] Hint Extern 4 (_ < _) => plia : chisel.
#[export] Hint Extern 4 (_ ≤ _ < _) => plia : chisel.
#[export] Hint Extern 4 (is_u8 _) => plia : chisel.

(** ** Lemmas *)

Lemma type_tag_u8 t : is_u8 (type_tag t).
Proof. destruct t; split; simpl; lia. Qed.

Lemma current_version_u8 t : is_u8 (current_version t).
Proof. destruct t; split; simpl; unfold PAGE_FORMAT_VERSION_CURRENT; lia. Qed.

#[export] Hint Resolve type_tag_u8 current_version_u8 : chisel.

Lemma wf_zero_page : wf_page zero_page.
Proof. split; [by apply zlen_zeros | apply bytes_ok_zeros]. Qed.

Lemma wf_page_zlen p : wf_page p → zlen p = PAGE_SIZE.
Proof. by intros []. Qed.

Lemma wf_splice off bs p :
  wf_page p → bytes_ok bs → 0 ≤ off → off + zlen bs ≤ PAGE_SIZE → wf_page (splice off bs p).
Proof.
  intros [Hl Hb] ???. split; [| auto with bytes].
  rewrite zlen_splice by (rewrite ?Hl; lia). done.
Qed.

Lemma wf_put_le n off v p :
  wf_page p → 0 ≤ off → off + Z.of_nat n ≤ PAGE_SIZE → wf_page (put_le n off v p).
Proof. intros. apply wf_splice; auto with bytes. rewrite zlen_le_encode. done. Qed.

Lemma wf_setb i v p : wf_page p → is_u8 v → 0 ≤ i < PAGE_SIZE → wf_page (setb i v p).
Proof.
  intros. apply wf_splice; auto; [by constructor | lia |].
  unfold zlen. simpl. lia.
Qed.

#[export] Hint Resolve wf_zero_page wf_put_le wf_setb wf_page_zlen : chisel.

Lemma body_splice_tail off bs p :
  zlen p = PAGE_SIZE → CHECKSUM_OFFSET ≤ off → off + zlen bs ≤ PAGE_SIZE →
  body (splice off bs p) = body p.
Proof.
  intros Hl Ho Hb. unfold body. apply list_eq. intros i.
  unfold CHECKSUM_OFFSET, CHECKSUM_SIZE, PAGE_SIZE in *.
  destruct (decide (i < Z.to_nat (8192 - 8))%nat).
  - rewrite !lookup_take_lt by done. rewrite lookup_splice by (rewrite ?Hl; lia).
    rewrite decide_False by lia. done.
  - rewrite !lookup_take_ge by lia. done.
Qed.

Lemma zlen_body p : wf_page p → zlen (body p) = CHECKSUM_OFFSET.
Proof.
  intros [Hl _]. unfold body, zlen in *. rewrite length_take.
  unfold CHECKSUM_OFFSET, PAGE_SIZE, CHECKSUM_SIZE in *. lia.
Qed.

Lemma body_bytes p : wf_page p → bytes_ok (body p).
Proof. intros [_ Hb]. by apply Forall_take. Qed.

(** Fields below the checksum are fields of the body. *)
Lemma get_le_body n off p :
  0 ≤ off → off + Z.of_nat n ≤ CHECKSUM_OFFSET → get_le n off (body p) = get_le n off p.
Proof.
  intros. apply get_le_take; [done |]. unfold CHECKSUM_OFFSET, PAGE_SIZE, CHECKSUM_SIZE in *. lia.
Qed.

Lemma getb_body i p : 0 ≤ i < CHECKSUM_OFFSET → getb i (body p) = getb i p.
Proof.
  intros. apply getb_take; [lia |]. unfold CHECKSUM_OFFSET, PAGE_SIZE, CHECKSUM_SIZE in *. lia.
Qed.

Section checksum_lemmas.
Context `{Xxh3}.

Lemma wf_stamp p : wf_page p → wf_page (stamp_checksum p).
Proof. intros. apply wf_put_le; [done | done |]. done. Qed.

Lemma body_stamp p : wf_page p → body (stamp_checksum p) = body p.
Proof. intros [Hl _]. by apply body_splice_tail. Qed.

Lemma compute_checksum_stamp p :
  wf_page p → compute_checksum (stamp_checksum p) = compute_checksum p.
Proof. intros Hp. unfold compute_checksum. f_equal. by apply body_stamp. Qed.

(** Stamping makes the stored checksum the computed one. *)
Lemma stamp_stores_checksum p :
  wf_page p → verify_checksum (stamp_checksum p) = true.
Proof.
  intros Hp. unfold verify_checksum. rewrite compute_checksum_stamp by done.
  apply Z.eqb_eq. apply get_put_same; [done | |].
  - destruct Hp as [-> _]. done.
  - apply xxh3_64_range.
Qed.

(** A data page carries its checksum; the other pages are stamped by their writers. *)
Definition data_stamped (p : list Z) : Prop := getb 0 p = type_tag DataPageType → verify_checksum p = true.

Lemma data_stamped_stamp p : wf_page p → data_stamped (stamp_checksum p).
Proof. intros Hp _. by apply stamp_stores_checksum. Qed.

(** A checksum-valid page is determined by its body. *)
Lemma verify_checksum_stamp p :
  wf_page p → verify_checksum p = true → stamp_checksum p = p.
Proof.
  intros [Hl Hb] Hv%Z.eqb_eq. unfold stamp_checksum. rewrite <- Hv.
  assert (Hs : bytes_ok (slice CHECKSUM_OFFSET 8 p)) by (by apply Forall_take, Forall_drop).
  unfold get_le. change (Z.of_nat 8) with 8.
  pose proof (le_encode_decode _ Hs) as He.
  assert (Hlen : length (slice CHECKSUM_OFFSET 8 p) = 8%nat).
  { assert (zlen (slice CHECKSUM_OFFSET 8 p) = 8) as Hz.
    { apply length_slice; [done | done |]. rewrite Hl. done. }
    unfold zlen in Hz. lia. }
  rewrite Hlen in He. rewrite He. apply list_eq. intros i.
  assert (Hz : zlen (slice CHECKSUM_OFFSET 8 p) = 8) by (unfold zlen; rewrite Hlen; done).
  rewrite lookup_splice by (rewrite ?Hz, ?Hl; done). case_decide as Hi; [| done].
  rewrite lookup_slice by done. rewrite Hlen in Hi.
  rewrite decide_True by lia. f_equal. lia.
Qed.
End checksum_lemmas.

#[export] Hint Resolve wf_stamp : chisel.

(** ** Fields of a well-formed page: the rewriting rules of the page modules *)

Lemma pget_same n off v p :
  wf_page p → 0 ≤ off → off + Z.of_nat n ≤ PAGE_SIZE → 0 ≤ v < 256 ^ Z.of_nat n →
  get_le n off (put_le n off v p) = v.
Proof. intros [Hl _] ???. apply get_put_same; rewrite ?Hl; done. Qed.

Lemma pget_other n off m o v p :
  wf_page p → 0 ≤ off → 0 ≤ o → o + Z.of_nat m ≤ PAGE_SIZE →
  off + Z.of_nat n ≤ o ∨ o + Z.of_nat m ≤ off →
  get_le n off (put_le m o v p) = get_le n off p.
Proof. intros [Hl _] ????. apply get_put_other; rewrite ?Hl; done. Qed.

Lemma pget_setb n off i v p :
  wf_page p → 0 ≤ off → 0 ≤ i < PAGE_SIZE → off + Z.of_nat n ≤ i ∨ i < off →
  get_le n off (setb i v p) = get_le n off p.
Proof. intros [Hl _] ???. apply get_setb_other; rewrite ?Hl; done. Qed.

Lemma pget_splice n off o bs p :
  wf_page p → 0 ≤ off → 0 ≤ o → o + zlen bs ≤ PAGE_SIZE →
  off + Z.of_nat n ≤ o ∨ o + zlen bs ≤ off →
  get_le n off (splice o bs p) = get_le n off p.
Proof. intros [Hl _] ????. apply get_splice_out; rewrite ?Hl; done. Qed.

Lemma pgetb_put i m o v p :
  wf_page p → 0 ≤ i → 0 ≤ o → o + Z.of_nat m ≤ PAGE_SIZE → i < o ∨ o + Z.of_nat m ≤ i →
  getb i (put_le m o v p) = getb i p.
Proof. intros [Hl _] ????. apply getb_put_other; rewrite ?Hl; done. Qed.

Lemma pgetb_same i v p : wf_page p → 0 ≤ i < PAGE_SIZE → getb i (setb i v p) = v.
Proof. intros [Hl _] ?. apply getb_setb_same; rewrite ?Hl; done. Qed.

Lemma pgetb_setb i j v p :
  wf_page p → 0 ≤ i → 0 ≤ j < PAGE_SIZE → i ≠ j → getb i (setb j v p) = getb i p.
Proof. intros [Hl _] ???. apply getb_setb_other; rewrite ?Hl; done. Qed.

Lemma pgetb_splice i o bs p :
  wf_page p → 0 ≤ i → 0 ≤ o → o + zlen bs ≤ PAGE_SIZE → i < o ∨ o + zlen bs ≤ i →
  getb i (splice o bs p) = getb i p.
Proof. intros [Hl _] ????. apply getb_splice_out; rewrite ?Hl; done. Qed.

Lemma pslice_splice off n o bs p :
  wf_page p → 0 ≤ off → 0 ≤ n → 0 ≤ o → o + zlen bs ≤ PAGE_SIZE →
  off + n ≤ o ∨ o + zlen bs ≤ off →
  slice off n (splice o bs p) = slice off n p.
Proof. intros [Hl _] ?????. apply slice_splice_out; rewrite ?Hl; done. Qed.

Lemma pslice_put off n m o v p :
  wf_page p → 0 ≤ off → 0 ≤ n → 0 ≤ o → o + Z.of_nat m ≤ PAGE_SIZE →
  off + n ≤ o ∨ o + Z.of_nat m ≤ off →
  slice off n (put_le m o v p) = slice off n p.
Proof. intros [Hl _] ?????. apply slice_splice_out; rewrite ?zlen_le_encode, ?Hl; done. Qed.

#[export] Hint Resolve wf_splice : chisel.

(** Reads through the writes of a page module, one at a time. *)
Ltac fields_by tac :=
  repeat first
    [ rewrite pget_same by tac
    | rewrite pget_other by tac
    | rewrite pget_setb by tac
    | rewrite pget_splice by tac
    | rewrite pgetb_same by tac
    | rewrite pgetb_put by tac
    | rewrite pgetb_setb by tac
    | rewrite pgetb_splice by tac
    | rewrite pslice_splice by tac
    | rewrite pslice_put by tac
    | rewrite cast_small by tac ].

Ltac page_side := solve [ plia | eauto 12 with chisel | split; plia ].
Ltac fields := fields_by page_side.

(** ** Properties *)

Section page_props.
Context `{Xxh3}.

(** The page checksum: [stamp_checksum] changes no byte below the checksum
    field and leaves a page that verifies; and the pages that verify are exactly
    those that stamping does not change, so a page read back with a valid checksum
    is determined by its body. *)
Theorem checksum_fixpoint p :
  wf_page p →
  wf_page (stamp_checksum p) ∧ body (stamp_checksum p) = body p ∧
  verify_checksum (stamp_checksum p) = true ∧
  (verify_checksum p = true ↔ stamp_checksum p = p).
Proof.
  intros Hp. split; [by apply wf_stamp |]. split; [by apply body_stamp |].
  split; [by apply stamp_stores_checksum |]. split; [by apply verify_checksum_stamp |].
  intros <-. by apply stamp_stores_checksum.
Qed.
End page_props.

(** A hash for examples: any function into the 64-bit range will do. *)
Definition sum_hash_fn (l : list Z) : Z := foldr (λ b acc, (31 * acc + b + 1) mod 2 ^ 64) 0 l.

Lemma sum_hash_range l : is_u64 (sum_hash_fn l).
Proof. destruct l as [| b l]; [by split |]. cbn [sum_hash_fn foldr]. apply Z.mod_pos_bound. lia. Qed.

Definition sum_hash : Xxh3 := {| xxh3_64 := sum_hash_fn; xxh3_64_range := sum_hash_range |}.

Lemma checksum_fixpoint_witness : verify_checksum (H := sum_hash) (stamp_checksum (H := sum_hash) zero_page) = true.
Proof. destruct (checksum_fixpoint (H := sum_hash) zero_page wf_zero_page) as (_ & _ & Hv & _). exact Hv. Defined.
