(* ===== verification/DataPage.v ===== *)
(** * Slotted data pages ([src/data_page.rs])

    One definition per function of [impl DataPage].  The abstract view of a
    page is the list of its values in slot order ([contents]); [inv] says when
    a page has one, and [insert] appends to it. *)

From S2P Require Export Page.

Definition SLOT_ENTRY_SIZE : Z := 6.
Definition SLOT_FLAG_LIVE : Z := 1.

(** [transaction/mod.rs] derives the inline threshold from this layout. *)
Definition MAX_INLINE_VALUE : Z := CHECKSUM_OFFSET - DATA_PAGE_HEADER_SIZE - SLOT_ENTRY_SIZE.

Module DataPage.

Definition init_page (buf : list Z) : list Z :=
  let buf := zeros (zlen buf) in
  let buf := setb 0 (type_tag DataPageType) buf in
  let buf := setb 1 (current_version DataPageType) buf in
  let free_start := cast 16 DATA_PAGE_HEADER_SIZE in
  let buf := put_u16 4 free_start buf in
  let free_end := cast 16 CHECKSUM_OFFSET in
  put_u16 6 free_end buf.

Definition slot_count (buf : list Z) : Z := get_u16 2 buf.

Definition validate_header (buf : list Z) : option (Z * Z * Z) :=
  if negb (getb 0 buf =? type_tag DataPageType) then None else
  let slot_count := get_u16 2 buf in
  let free_start := get_u16 4 buf in
  let free_end := get_u16 6 buf in
  if free_start <? DATA_PAGE_HEADER_SIZE then None else
  if CHECKSUM_OFFSET <? free_end then None else
  if free_end <? free_start then None else
  let dir_end := DATA_PAGE_HEADER_SIZE + slot_count * SLOT_ENTRY_SIZE in
  if free_start <? dir_end then None else
  Some (free_start, free_end, slot_count).

Definition free_space (buf : list Z) : Z :=
  match validate_header buf with
  | Some (free_start, free_end, _) => free_end - free_start
  | None => 0
  end.

Definition insert (buf value : list Z) : option (Z * list Z) :=
  match validate_header buf with
  | None => None
  | Some (free_start, free_end, slot_count) =>
      let needed := SLOT_ENTRY_SIZE + zlen value in
      if free_end - free_start <? needed then None else
      let data_offset := free_end - zlen value in
      let buf := splice data_offset value buf in
      let slot_offset := free_start in
      let buf := put_u16 slot_offset (cast 16 data_offset) buf in
      let buf := put_u16 (slot_offset + 2) (cast 16 (zlen value)) buf in
      let buf := put_u16 (slot_offset + 4) SLOT_FLAG_LIVE buf in
      let new_slot_count := slot_count + 1 in
      let buf := put_u16 2 new_slot_count buf in
      let new_free_start := cast 16 (free_start + SLOT_ENTRY_SIZE) in
      let buf := put_u16 4 new_free_start buf in
      let new_free_end := cast 16 data_offset in
      let buf := put_u16 6 new_free_end buf in
      Some (slot_count, buf)
  end.

Definition read_slot_entry (buf : list Z) (slot : Z) : option (Z * Z * Z) :=
  let base := DATA_PAGE_HEADER_SIZE + slot * SLOT_ENTRY_SIZE in
  if CHECKSUM_OFFSET <? base + SLOT_ENTRY_SIZE then None else
  let offset := get_u16 base buf in
  let length := get_u16 (base + 2) buf in
  let flags := get_u16 (base + 4) buf in
  if offset <? DATA_PAGE_HEADER_SIZE then None else
  let end_ := offset + length in
  if CHECKSUM_OFFSET <? end_ then None else
  Some (offset, length, flags).

Definition read (buf : list Z) (slot : Z) : option (list Z) :=
  match validate_header buf with
  | None => None
  | Some (_, _, slot_count) =>
      if slot_count <=? slot then None else
      match read_slot_entry buf slot with
      | None => None
      | Some (offset, length, flags) =>
          if negb (flags =? SLOT_FLAG_LIVE) then None
          else Some (slice offset length buf)
      end
  end.

(** The loop of [used_space]: [None] is its early [return 0]. *)
Fixpoint used_loop (buf : list Z) (idx : list Z) (data_bytes live_slots : Z) : option (Z * Z) :=
  match idx with
  | [] => Some (data_bytes, live_slots)
  | i :: idx =>
      match read_slot_entry buf i with
      | None => None
      | Some (_, length, flags) =>
          if flags =? SLOT_FLAG_LIVE
          then used_loop buf idx (data_bytes + length) (live_slots + 1)
          else used_loop buf idx data_bytes live_slots
      end
  end.

Definition used_space (buf : list Z) : Z :=
  match validate_header buf with
  | None => 0
  | Some (_, _, count) =>
      match used_loop buf (seqZ 0 count) 0 0 with
      | None => 0
      | Some (data_bytes, live_slots) => live_slots * SLOT_ENTRY_SIZE + data_bytes
      end
  end.

(** The loop of [iter_live]: [None] is its early [return Vec::new()]. *)
Fixpoint iter_loop (buf : list Z) (idx : list Z) : option (list (Z * list Z)) :=
  match idx with
  | [] => Some []
  | i :: idx =>
      match read_slot_entry buf i with
      | None => None
      | Some (offset, length, flags) =>
          match iter_loop buf idx with
          | None => None
          | Some result =>
              if flags =? SLOT_FLAG_LIVE
              then Some ((i, slice offset length buf) :: result)
              else Some result
          end
      end
  end.

Definition iter_live (buf : list Z) : list (Z * list Z) :=
  match validate_header buf with
  | None => []
  | Some (_, _, count) => default [] (iter_loop buf (seqZ 0 count))
  end.

(** ** Invariant and abstraction *)

(** Slot [i]'s entry is live and its payload lies in the packed region. *)
Definition slot_ok (buf : list Z) (free_end i : Z) : Prop :=
  ∃ offset length, read_slot_entry buf i = Some (offset, length, SLOT_FLAG_LIVE) ∧
    free_end ≤ offset.

(** The states [init_page] and [insert] produce. *)
Definition inv (buf : list Z) : Prop :=
  wf_page buf ∧ ∃ free_end count,
    validate_header buf = Some (DATA_PAGE_HEADER_SIZE + count * SLOT_ENTRY_SIZE, free_end, count) ∧
    ∀ i, 0 ≤ i < count → slot_ok buf free_end i.

(** The values of a page, in slot order. *)
Definition contents (buf : list Z) : list (list Z) :=
  map (λ i, default [] (read buf i)) (seqZ 0 (slot_count buf)).
End DataPage.

(** ** Lemmas *)

Ltac consts ::=
  unfold MAX_INLINE_VALUE, PAGE_BODY_SIZE, CHECKSUM_OFFSET, DATA_PAGE_HEADER_SIZE,
    SLOT_ENTRY_SIZE, SLOT_FLAG_LIVE, CHECKSUM_SIZE, PAGE_SIZE in *.

Module DataPageFacts.
Import DataPage.

Lemma validate_header_Some buf fs fe n :
  validate_header buf = Some (fs, fe, n) ↔
  getb 0 buf = type_tag DataPageType ∧
  n = get_u16 2 buf ∧ fs = get_u16 4 buf ∧ fe = get_u16 6 buf ∧
  DATA_PAGE_HEADER_SIZE + n * SLOT_ENTRY_SIZE ≤ fs ∧
  DATA_PAGE_HEADER_SIZE ≤ fs ≤ fe ∧ fe ≤ CHECKSUM_OFFSET.
Proof.
  unfold validate_header. case_tests; simpl;
    split; intros; destruct_and?; simplify_eq; try done; try lia; auto 10 with lia.
Qed.

Lemma validate_header_count buf fs fe n :
  validate_header buf = Some (fs, fe, n) → slot_count buf = n.
Proof. intros (_ & -> & _)%validate_header_Some. done. Qed.

Lemma read_slot_entry_Some buf i off len fl :
  read_slot_entry buf i = Some (off, len, fl) ↔
  let base := DATA_PAGE_HEADER_SIZE + i * SLOT_ENTRY_SIZE in
  base + SLOT_ENTRY_SIZE ≤ CHECKSUM_OFFSET ∧
  off = get_u16 base buf ∧ len = get_u16 (base + 2) buf ∧ fl = get_u16 (base + 4) buf ∧
  DATA_PAGE_HEADER_SIZE ≤ off ∧ off + len ≤ CHECKSUM_OFFSET.
Proof.
  unfold read_slot_entry. cbv zeta. case_tests; simpl;
    split; intros; destruct_and?; simplify_eq; try done; try lia; auto 10 with lia.
Qed.

Lemma get_u16_range off buf : wf_page buf → 0 ≤ get_u16 off buf < 65536.
Proof.
  intros [_ Hb]. unfold get_le. change (Z.of_nat 2) with 2.
  assert (Hs : bytes_ok (slice off 2 buf)) by (by apply Forall_take, Forall_drop).
  pose proof (le_decode_bound _ Hs) as [H1 H2]. split; [done |].
  eapply Z.lt_le_trans; [apply H2 |]. change 65536 with (256 ^ 2).
  apply Z.pow_le_mono_r; [lia |]. unfold slice, zlen. rewrite length_take. lia.
Qed.

(** [insert], unfolded on a page that satisfies the invariant. *)
Lemma insert_unfold buf v fe n :
  validate_header buf = Some (DATA_PAGE_HEADER_SIZE + n * SLOT_ENTRY_SIZE, fe, n) →
  insert buf v =
    (let fs := DATA_PAGE_HEADER_SIZE + n * SLOT_ENTRY_SIZE in
     let off := fe - zlen v in
     if fe - fs <? SLOT_ENTRY_SIZE + zlen v then None else
     Some (n, put_u16 6 (cast 16 off) (put_u16 4 (cast 16 (fs + SLOT_ENTRY_SIZE))
       (put_u16 2 (n + 1) (put_u16 (fs + 4) SLOT_FLAG_LIVE
         (put_u16 (fs + 2) (cast 16 (zlen v)) (put_u16 fs (cast 16 off)
           (splice off v buf)))))))).
Proof. unfold insert. intros ->. done. Qed.

Section insert.
Variables (buf v : list Z) (fe n : Z).
Hypothesis Hwf : wf_page buf.
Hypothesis Hv : bytes_ok v.
Hypothesis Hhdr :
  validate_header buf = Some (DATA_PAGE_HEADER_SIZE + n * SLOT_ENTRY_SIZE, fe, n).
Hypothesis Hfits :
  SLOT_ENTRY_SIZE + zlen v ≤ fe - (DATA_PAGE_HEADER_SIZE + n * SLOT_ENTRY_SIZE).

Let fs := DATA_PAGE_HEADER_SIZE + n * SLOT_ENTRY_SIZE.
Let off := fe - zlen v.
Let buf' :=
  put_u16 6 (cast 16 off) (put_u16 4 (cast 16 (fs + SLOT_ENTRY_SIZE))
     (put_u16 2 (n + 1) (put_u16 (fs + 4) SLOT_FLAG_LIVE
       (put_u16 (fs + 2) (cast 16 (zlen v)) (put_u16 fs (cast 16 off)
         (splice off v buf)))))).

Lemma header_facts :
  getb 0 buf = type_tag DataPageType ∧ n = get_u16 2 buf ∧ 0 ≤ n ∧
  fe = get_u16 6 buf ∧ fe ≤ CHECKSUM_OFFSET ∧ 0 ≤ zlen v.
Proof.
  apply validate_header_Some in Hhdr. pose proof (get_u16_range 2 buf Hwf).
  pose proof (zlen_nonneg v). destruct_and!. subst n. auto with lia.
Qed.

Lemma insert_wf : wf_page buf'.
Proof. destruct header_facts; destruct_and!. unfold buf', fs, off in *. eauto 12 with chisel. Qed.

Lemma insert_header : validate_header buf' = Some (fs + SLOT_ENTRY_SIZE, off, n + 1).
Proof.
  destruct header_facts; destruct_and!. apply validate_header_Some.
  unfold buf', fs, off in *. fields. repeat split; auto; plia.
Qed.

Lemma insert_new_slot : read_slot_entry buf' n = Some (off, zlen v, SLOT_FLAG_LIVE).
Proof.
  destruct header_facts; destruct_and!. apply read_slot_entry_Some. cbv zeta.
  unfold buf', fs, off in *. fields. repeat split; auto; plia.
Qed.

Lemma insert_old_slot i : 0 ≤ i < n → read_slot_entry buf' i = read_slot_entry buf i.
Proof.
  intros Hi. destruct header_facts; destruct_and!. unfold read_slot_entry.
  unfold buf', fs, off in *. fields. done.
Qed.

Lemma insert_new_data : slice off (zlen v) buf' = v.
Proof.
  destruct header_facts; destruct_and!. unfold buf', fs, off in *. fields.
  apply slice_splice_same; [plia | | done]. destruct Hwf as [-> _]. plia.
Qed.

Lemma insert_old_data o len :
  fe ≤ o → 0 ≤ len → slice o len buf' = slice o len buf.
Proof.
  intros. destruct header_facts; destruct_and!. unfold buf', fs, off in *.
  fields. done.
Qed.
End insert.
End DataPageFacts.

Module DataPageProps.
Import DataPage DataPageFacts.

Lemma inv_header buf :
  inv buf → ∃ fe, wf_page buf ∧
    validate_header buf = Some (DATA_PAGE_HEADER_SIZE + slot_count buf * SLOT_ENTRY_SIZE,
      fe, slot_count buf) ∧ 0 ≤ slot_count buf ∧
    ∀ i, 0 ≤ i < slot_count buf → slot_ok buf fe i.
Proof.
  intros (Hwf & fe & n & Hh & Hs). exists fe.
  pose proof (get_u16_range 2 buf Hwf).
  assert (n = slot_count buf) as -> by (symmetry; by eapply validate_header_count).
  unfold slot_count in *. auto with lia.
Qed.

(** Under the invariant a slot below the count reads its recorded payload. *)
Lemma read_slot buf fe i :
  validate_header buf = Some (DATA_PAGE_HEADER_SIZE + slot_count buf * SLOT_ENTRY_SIZE,
    fe, slot_count buf) →
  0 ≤ i < slot_count buf → slot_ok buf fe i →
  ∃ off len, read_slot_entry buf i = Some (off, len, SLOT_FLAG_LIVE) ∧ fe ≤ off ∧
    read buf i = Some (slice off len buf).
Proof.
  intros Hh Hi (off & len & He & Ho). exists off, len. split; [done |]. split; [done |].
  unfold read. rewrite Hh, He. case_tests; [lia | done | done].
Qed.

Lemma free_space_header buf fs fe n : validate_header buf = Some (fs, fe, n) → free_space buf = fe - fs.
Proof. unfold free_space. by intros ->. Qed.

Lemma seqZ_snoc n : 0 ≤ n → seqZ 0 (n + 1) = seqZ 0 n ++ [n].
Proof.
  intros. rewrite (seqZ_app 0 n 1) by lia. f_equal.
Qed.

Lemma contents_snoc buf buf' v :
  0 ≤ slot_count buf → slot_count buf' = slot_count buf + 1 →
  (∀ i, 0 ≤ i < slot_count buf → read buf' i = read buf i) →
  read buf' (slot_count buf) = Some v →
  contents buf' = contents buf ++ [v].
Proof.
  intros Hn Hc Hold Hnew. unfold contents. rewrite Hc, seqZ_snoc, map_app by done.
  simpl. rewrite Hnew. f_equal. apply map_ext_in. intros i Hi%list_elem_of_In%elem_of_seqZ.
  by rewrite Hold by lia.
Qed.

Lemma insert_preserves buf v slot buf' :
  inv buf → bytes_ok v → insert buf v = Some (slot, buf') →
  slot = slot_count buf ∧ slot_count buf' = slot_count buf + 1 ∧ inv buf' ∧
  free_space buf' = free_space buf - (SLOT_ENTRY_SIZE + zlen v) ∧
  read buf' slot = Some v ∧
  (∀ i, 0 ≤ i < slot_count buf → read buf' i = read buf i).
Proof.
  intros (fe & Hwf & Hh & Hn & Hs)%inv_header Hv Hins. set (n := slot_count buf) in *.
  rewrite (insert_unfold _ _ _ _ Hh) in Hins. cbv zeta in Hins.
  case_tests_in Hins; [done |]. injection Hins as <- <-.
  assert (Hfit : SLOT_ENTRY_SIZE + zlen v ≤ fe - (DATA_PAGE_HEADER_SIZE + n * SLOT_ENTRY_SIZE)) by lia.
  set (buf' := put_u16 6 _ _).
  pose proof (insert_wf _ _ _ _ Hwf Hv Hh Hfit) as Hwf'. fold buf' in Hwf'.
  pose proof (insert_header _ _ _ _ Hwf Hv Hh Hfit) as Hh'. fold buf' in Hh'.
  pose proof (insert_new_slot _ _ _ _ Hwf Hv Hh Hfit) as Hnew. fold buf' in Hnew.
  pose proof (insert_new_data _ _ _ _ Hwf Hv Hh Hfit) as Hdata. fold buf' in Hdata.
  pose proof (insert_old_slot _ _ _ _ Hwf Hv Hh Hfit) as Hold. fold buf' in Hold.
  pose proof (insert_old_data _ _ _ _ Hwf Hv Hh Hfit) as Hodata. fold buf' in Hodata.
  assert (Hc : slot_count buf' = n + 1).
  { by eapply validate_header_count. }
  assert (Hzv := zlen_nonneg v).
  replace (DATA_PAGE_HEADER_SIZE + n * SLOT_ENTRY_SIZE + SLOT_ENTRY_SIZE)
    with (DATA_PAGE_HEADER_SIZE + (n + 1) * SLOT_ENTRY_SIZE) in Hh' by lia.
  split; [done |]. split; [done |]. split; [| split; [| split]].
  - split; [done |]. exists (fe - zlen v), (n + 1). split; [done |]. intros i Hi.
    destruct (decide (i = n)) as [-> |]; [by exists (fe - zlen v), (zlen v) |].
    destruct (Hs i) as (off & len & He & Ho); [lia |].
    exists off, len. rewrite Hold by lia. split; [done | lia].
  - rewrite (free_space_header _ _ _ _ Hh), (free_space_header _ _ _ _ Hh'). lia.
  - unfold read. rewrite Hh', Hnew. case_tests; [lia | | done]. simpl. by rewrite Hdata.
  - intros i Hi. destruct (read_slot buf fe i Hh Hi (Hs i Hi)) as (off & len & He & Ho & Hr).
    rewrite Hr. unfold read. rewrite Hh', Hold, He by lia. case_tests; [lia | | done]. simpl.
    rewrite Hodata; [done | done |].
    apply read_slot_entry_Some in He. destruct He as (_ & _ & -> & _).
    apply (get_u16_range _ buf Hwf).
Qed.

(** C34 The slotted page is an append-only list of values: on a page that
    satisfies the invariant, a successful [insert] returns the old slot count
    as the slot index, keeps the invariant, appends exactly the given bytes to
    the page's values (so every earlier slot still reads what it read) and uses
    six bytes plus the value's length of the free space. *)
Theorem insert_appends buf v slot buf' :
  inv buf → bytes_ok v → insert buf v = Some (slot, buf') →
  slot = slot_count buf ∧ inv buf' ∧ contents buf' = contents buf ++ [v] ∧
  read buf' slot = Some v ∧
  free_space buf' = free_space buf - (SLOT_ENTRY_SIZE + zlen v).
Proof.
  intros Hi Hv Hins. destruct (inv_header _ Hi) as (fe & _ & _ & Hn & _).
  destruct (insert_preserves _ _ _ _ Hi Hv Hins) as (-> & Hc & Hi' & Hf & Hr & Ho).
  auto 10 using contents_snoc.
Qed.

(** [insert] refuses a value exactly when the free hole is too small for the
    value and its slot entry; the header check never rejects a page that
    satisfies the invariant. *)
Theorem insert_full_iff buf v :
  inv buf → insert buf v = None ↔ free_space buf < SLOT_ENTRY_SIZE + zlen v.
Proof.
  intros (fe & _ & Hh & _ & _)%inv_header.
  rewrite (insert_unfold _ _ _ _ Hh), (free_space_header _ _ _ _ Hh).
  cbv zeta. case_tests; split; intros; try done; lia.
Qed.

Lemma init_page_header buf :
  wf_page buf → wf_page (init_page buf) ∧
  validate_header (init_page buf) = Some (DATA_PAGE_HEADER_SIZE, CHECKSUM_OFFSET, 0).
Proof.
  intros [Hl _]. assert (Hz : wf_page (zeros (zlen buf))) by (rewrite Hl; apply wf_zero_page).
  split; [unfold init_page; cbv zeta; eauto 12 with chisel |].
  apply validate_header_Some. unfold init_page. cbv zeta. fields.
  rewrite !get_le_zeros. repeat split; auto; plia.
Qed.

Lemma init_page_inv buf : wf_page buf → inv (init_page buf).
Proof.
  intros [Hwf Hh]%init_page_header. split; [done |].
  exists CHECKSUM_OFFSET, 0. split; [done |]. intros. lia.
Qed.

(** [init_page] turns any buffer into an empty page of the invariant, with
    the whole body free; so a value no longer than [MAX_INLINE_VALUE] always
    fits a fresh page, which the packer's [expect] relies on. *)
Theorem init_page_fits buf v :
  wf_page buf → zlen v ≤ MAX_INLINE_VALUE →
  inv (init_page buf) ∧ contents (init_page buf) = [] ∧
  is_Some (insert (init_page buf) v).
Proof.
  intros Hb Hv. destruct (init_page_header _ Hb) as [Hwf Hh].
  split; [by apply init_page_inv |]. split.
  - unfold contents. replace (slot_count (init_page buf)) with 0; [done |].
    symmetry. by eapply validate_header_count.
  - rewrite (insert_unfold _ _ CHECKSUM_OFFSET 0) by done. cbv zeta.
    case_tests; [exfalso; plia | done].
Qed.

(** Whatever the bytes of a page are, a value [read] returns lies inside the
    page body, between the header and the checksum: no page contents make the
    slice go out of bounds. *)
Theorem read_in_bounds buf slot v :
  wf_page buf → read buf slot = Some v →
  ∃ off, DATA_PAGE_HEADER_SIZE ≤ off ∧ off + zlen v ≤ CHECKSUM_OFFSET ∧
    v = slice off (zlen v) buf.
Proof.
  intros Hwf Hr. unfold read in Hr.
  destruct (validate_header buf) as [[[fs fe] n] |]; [| done].
  case_tests_in Hr; [done |].
  destruct (read_slot_entry buf slot) as [[[off len] fl] |] eqn:He; [| done].
  apply read_slot_entry_Some in He. destruct He as (_ & _ & Hlen & _ & Ho & Hb).
  destruct (negb _); [done |]. injection Hr as <-.
  pose proof (get_u16_range (DATA_PAGE_HEADER_SIZE + slot * SLOT_ENTRY_SIZE + 2) buf Hwf).
  assert (zlen (slice off len buf) = len) as ->.
  { apply length_slice; [plia | lia |]. destruct Hwf as [-> _]. plia. }
  exists off. auto.
Qed.

Lemma iter_loop_read buf fe (idx : list Z) :
  validate_header buf = Some (DATA_PAGE_HEADER_SIZE + slot_count buf * SLOT_ENTRY_SIZE,
    fe, slot_count buf) →
  (∀ i, i ∈ idx → 0 ≤ i < slot_count buf ∧ slot_ok buf fe i) →
  iter_loop buf idx = Some (map (λ i, (i, default [] (read buf i))) idx).
Proof.
  intros Hh. induction idx as [| i idx IH]; intros Hs; [done |]. cbn [iter_loop map].
  destruct (Hs i) as [Hi Hok]; [by left |].
  destruct (read_slot buf fe i Hh Hi Hok) as (off & len & -> & _ & Hr).
  rewrite IH; [| intros; apply Hs; by right]. rewrite Z.eqb_refl, Hr. done.
Qed.

(** [iter_live] enumerates the values of a page with their slot indices, in
    slot order. *)
Theorem iter_live_enumerates buf :
  inv buf →
  iter_live buf = zip (seqZ 0 (slot_count buf)) (contents buf).
Proof.
  intros (fe & _ & Hh & Hn & Hs)%inv_header. unfold iter_live. rewrite Hh.
  rewrite (iter_loop_read buf fe) by
    (done || (intros i Hi%elem_of_seqZ; split; [lia | apply Hs; lia])).
  simpl. unfold contents. generalize (seqZ 0 (slot_count buf)) as l.
  induction l as [| i l IH]; [done |]. simpl. by f_equal.
Qed.

(** ** Witnesses *)

Definition demo_page : list Z := init_page zero_page.

Lemma demo_page_inv : inv demo_page.
Proof. apply init_page_inv, wf_zero_page. Qed.

Lemma demo_bytes : bytes_ok [1; 2; 3].
Proof. repeat (constructor; [by split |]). constructor. Qed.

Lemma insert_appends_witness :
  match insert demo_page [1; 2; 3] with
  | Some (slot, buf') => slot = 0 ∧ read buf' 0 = Some [1; 2; 3]
  | None => False
  end.
Proof.
  destruct (insert demo_page [1; 2; 3]) as [[slot buf'] |] eqn:E; [| by vm_compute in E].
  destruct (insert_appends _ _ _ _ demo_page_inv demo_bytes E) as (Hs & _ & _ & Hr & _).
  assert (slot = 0) as -> by (rewrite Hs; by vm_compute). exact (conj eq_refl Hr).
Defined.

Lemma insert_full_iff_witness : insert demo_page (zeros 8200) = None.
Proof.
  assert (Hf : free_space demo_page < SLOT_ENTRY_SIZE + zlen (zeros 8200)) by by vm_compute.
  exact (proj2 (insert_full_iff demo_page (zeros 8200) demo_page_inv) Hf).
Defined.

Lemma init_page_fits_witness : is_Some (insert (init_page zero_page) [1; 2; 3]).
Proof.
  assert (Hv : zlen [1; 2; 3] ≤ MAX_INLINE_VALUE) by by vm_compute.
  destruct (init_page_fits zero_page [1; 2; 3] wf_zero_page Hv) as (_ & _ & H). exact H.
Defined.

Lemma read_in_bounds_witness :
  match insert demo_page [1; 2; 3] with
  | Some (slot, buf') => ∃ off, DATA_PAGE_HEADER_SIZE ≤ off ∧ off + 3 ≤ CHECKSUM_OFFSET
  | None => False
  end.
Proof.
  destruct (insert demo_page [1; 2; 3]) as [[slot buf'] |] eqn:E; [| by vm_compute in E].
  destruct (insert_preserves _ _ _ _ demo_page_inv demo_bytes E) as (_ & _ & Hi & _ & Hr & _).
  destruct (read_in_bounds buf' slot [1; 2; 3] (proj1 Hi) Hr) as (off & H1 & H2 & _).
  exact (ex_intro _ off (conj H1 H2)).
Defined.

Lemma iter_live_enumerates_witness : iter_live demo_page = [].
Proof. rewrite (iter_live_enumerates demo_page demo_page_inv). by vm_compute. Defined.
End DataPageProps.
