(* ===== verification/FreeMap.v ===== *)
(** * Bitmap leaves of the freemap ([src/freemap.rs])

    One definition per function of [impl FreeMap].  The abstract view of a leaf
    is the predicate [is_free]; the mutators change it at one id, and
    [first_free_bit_from] is its least element at or above a bound. *)

From S2P Require Export Page.

Definition BITMAP_OFFSET : Z := DATA_PAGE_HEADER_SIZE.

(** [u8::trailing_zeros] *)
Fixpoint trailing_zeros_from (n : nat) (i b : Z) : Z :=
  match n with
  | O => i
  | S n => if Z.testbit b i then i else trailing_zeros_from n (i + 1) b
  end.
Definition trailing_zeros (b : Z) : Z := trailing_zeros_from 8 0 b.

(** [!b] on a [u8] *)
Definition not8 (b : Z) : Z := Z.lxor b 255.

Module FreeMap.

Definition init_page (buf : list Z) : list Z :=
  let buf := zeros (zlen buf) in
  let buf := setb 0 (type_tag FreeMapPage) buf in
  setb 1 (current_version FreeMapPage) buf.

Definition bit_position (page_id : Z) : Z * Z := (page_id / 8, page_id mod 8).

Definition is_free (buf : list Z) (page_id : Z) : bool :=
  let '(byte_idx, bit_idx) := bit_position page_id in
  if PAGE_BODY_SIZE <=? byte_idx then false
  else Z.land (Z.shiftr (getb (BITMAP_OFFSET + byte_idx) buf) bit_idx) 1 =? 1.

Definition mark_free (buf : list Z) (page_id : Z) : list Z :=
  let '(byte_idx, bit_idx) := bit_position page_id in
  if byte_idx <? PAGE_BODY_SIZE
  then setb (BITMAP_OFFSET + byte_idx)
    (Z.lor (getb (BITMAP_OFFSET + byte_idx) buf) (Z.shiftl 1 bit_idx)) buf
  else buf.

Definition clear_bit (buf : list Z) (page_id : Z) : list Z :=
  let '(byte_idx, bit_idx) := bit_position page_id in
  if byte_idx <? PAGE_BODY_SIZE
  then setb (BITMAP_OFFSET + byte_idx)
    (Z.land (getb (BITMAP_OFFSET + byte_idx) buf) (not8 (Z.shiftl 1 bit_idx))) buf
  else buf.

(** The loop of [first_free_bit_from] over the byte indices left to visit. *)
Fixpoint scan_bytes (buf : list Z) (start_byte start_bit : Z) (idx : list Z) : option Z :=
  match idx with
  | [] => None
  | byte_idx :: idx =>
      let byte := getb (BITMAP_OFFSET + byte_idx) buf in
      let byte :=
        if byte_idx =? start_byte
        then Z.land byte (not8 (Z.shiftl 1 start_bit - 1)) else byte in
      if negb (byte =? 0) then Some (byte_idx * 8 + trailing_zeros byte)
      else scan_bytes buf start_byte start_bit idx
  end.

Definition first_free_bit_from (buf : list Z) (lo : Z) : option Z :=
  let start_byte := lo / 8 in
  if PAGE_BODY_SIZE <=? start_byte then None else
  let start_bit := lo mod 8 in
  scan_bytes buf start_byte start_bit (seqZ start_byte (PAGE_BODY_SIZE - start_byte)).

(** ** Lemmas *)

(** The bit of a page id, without the range check. *)
Definition bit (buf : list Z) (id : Z) : bool :=
  Z.testbit (getb (BITMAP_OFFSET + id / 8) buf) (id mod 8).

Lemma land1_testbit x : (Z.land x 1 =? 1) = Z.testbit x 0.
Proof.
  assert (Z.land x 1 = x mod 2) as -> by (apply (Z.land_ones x 1); lia).
  rewrite <- Z.bit0_mod. by destruct (Z.testbit x 0).
Qed.

Lemma is_free_bit buf id :
  is_free buf id = (id / 8 <? PAGE_BODY_SIZE) && bit buf id.
Proof.
  unfold is_free, bit_position, bit. rewrite land1_testbit, Z.shiftr_spec by lia.
  rewrite Z.add_0_l. case_tests; done || lia.
Qed.

Lemma not8_bit b i : 0 ≤ i < 8 → Z.testbit (not8 b) i = negb (Z.testbit b i).
Proof.
  intros. unfold not8. rewrite Z.lxor_spec. change 255 with (Z.ones 8).
  rewrite Z.ones_spec_low by lia. by destruct (Z.testbit b i).
Qed.

Lemma u8_testbit_high b i : is_u8 b → 8 ≤ i → Z.testbit b i = false.
Proof.
  intros [H1 H2] Hi. destruct (decide (b = 0)) as [-> |]; [apply Z.bits_0 |].
  apply Z.bits_above_log2; [lia |].
  pose proof (Z.log2_lt_pow2 b 8). lia.
Qed.

Lemma is_u8_bits b : 0 ≤ b → (∀ i, 8 ≤ i → Z.testbit b i = false) → is_u8 b.
Proof.
  intros Hb Hi. split; [done |]. destruct (decide (b = 0)) as [-> |]; [lia |].
  apply Z.log2_lt_pow2; [lia |].
  destruct (Z.lt_ge_cases (Z.log2 b) 8) as [| Hge]; [done |].
  specialize (Hi _ Hge). rewrite Z.bit_log2 in Hi by lia. done.
Qed.

Lemma set_bit_u8 b i : is_u8 b → 0 ≤ i < 8 → is_u8 (Z.lor b (Z.shiftl 1 i)).
Proof.
  intros Hb Hi. rewrite Z.shiftl_1_l. apply is_u8_bits.
  - apply Z.lor_nonneg. split; [by destruct Hb |]. apply Z.pow_nonneg. lia.
  - intros j Hj. rewrite Z.lor_spec, u8_testbit_high, Z.pow2_bits_eqb by (done || lia).
    case_tests; [lia | done].
Qed.

Lemma land_u8 b m : is_u8 b → is_u8 (Z.land b m).
Proof.
  intros Hb. apply is_u8_bits.
  - apply Z.land_nonneg. left. by destruct Hb.
  - intros j Hj. by rewrite Z.land_spec, u8_testbit_high.
Qed.

Lemma id_of_position id j : id / 8 = j / 8 → id mod 8 = j mod 8 → id = j.
Proof. intros. rewrite (Z.div_mod id 8), (Z.div_mod j 8) by lia. lia. Qed.

Section leaf.
Variable buf : list Z.
Hypothesis Hwf : wf_page buf.

Lemma mark_free_wf id : 0 ≤ id → wf_page (mark_free buf id).
Proof.
  intros Hid. unfold mark_free, bit_position. pose proof (Z.mod_pos_bound id 8).
  pose proof (Z.div_pos id 8). case_tests; [| done]. unfold BITMAP_OFFSET.
  apply wf_setb; [done | | plia]. apply set_bit_u8; [| lia]. apply getb_bound, Hwf.
Qed.

Lemma clear_bit_wf id : 0 ≤ id → wf_page (clear_bit buf id).
Proof.
  intros Hid. unfold clear_bit, bit_position. pose proof (Z.div_pos id 8).
  case_tests; [| done]. unfold BITMAP_OFFSET.
  apply wf_setb; [done | | plia]. apply land_u8, getb_bound, Hwf.
Qed.

(** A write to the byte of [id] leaves the bits of the other bytes. *)
Lemma bit_other_byte id j b :
  0 ≤ id → 0 ≤ j → id / 8 < PAGE_BODY_SIZE → id / 8 ≠ j / 8 →
  bit (setb (BITMAP_OFFSET + id / 8) b buf) j = bit buf j.
Proof.
  intros. pose proof (Z.div_pos id 8). pose proof (Z.div_pos j 8).
  unfold bit, BITMAP_OFFSET. rewrite pgetb_setb; [done | done | plia | plia | plia].
Qed.

Lemma bit_same_byte id j b :
  0 ≤ id → id / 8 < PAGE_BODY_SIZE → id / 8 = j / 8 →
  bit (setb (BITMAP_OFFSET + id / 8) b buf) j = Z.testbit b (j mod 8).
Proof.
  intros ?? Hij. pose proof (Z.div_pos id 8). unfold bit, BITMAP_OFFSET.
  rewrite <- Hij. rewrite pgetb_same; [done | done | plia].
Qed.

Lemma is_free_mark id j :
  0 ≤ id → 0 ≤ j → id / 8 < PAGE_BODY_SIZE →
  is_free (mark_free buf id) j = bool_decide (j = id) || is_free buf j.
Proof.
  intros Hid Hj Hr. rewrite !is_free_bit. unfold mark_free, bit_position.
  pose proof (Z.mod_pos_bound id 8). pose proof (Z.mod_pos_bound j 8).
  destruct (Z.ltb_spec (id / 8) PAGE_BODY_SIZE); [| lia].
  destruct (decide (id / 8 = j / 8)) as [Hb | Hb].
  - rewrite bit_same_byte by done. rewrite Z.shiftl_1_l, Z.lor_spec, Z.pow2_bits_eqb by lia.
    unfold bit. rewrite <- Hb. destruct (Z.ltb_spec (id / 8) PAGE_BODY_SIZE); [| lia].
    case_bool_decide as Hd; [subst j; rewrite Z.eqb_refl; by destruct (Z.testbit _ _) |].
    destruct (Z.eqb_spec (id mod 8) (j mod 8)); [by destruct Hd; apply id_of_position |].
    by rewrite orb_false_r.
  - rewrite bit_other_byte by done. rewrite bool_decide_eq_false_2 by congruence. done.
Qed.

Lemma is_free_clear id j :
  0 ≤ id → 0 ≤ j →
  is_free (clear_bit buf id) j = negb (bool_decide (j = id)) && is_free buf j.
Proof.
  intros Hid Hj. rewrite !is_free_bit. unfold clear_bit, bit_position.
  pose proof (Z.mod_pos_bound id 8). pose proof (Z.mod_pos_bound j 8).
  destruct (Z.ltb_spec (id / 8) PAGE_BODY_SIZE) as [Hr | Hr].
  2: { case_bool_decide as Hd; [| done]. subst j.
       destruct (Z.ltb_spec (id / 8) PAGE_BODY_SIZE); [lia | done]. }
  destruct (decide (id / 8 = j / 8)) as [Hb | Hb].
  - rewrite bit_same_byte by done. rewrite Z.land_spec, not8_bit by lia.
    rewrite Z.shiftl_1_l, Z.pow2_bits_eqb by lia. unfold bit. rewrite <- Hb.
    case_bool_decide as Hd; [subst j; rewrite Z.eqb_refl, andb_false_r; apply andb_false_r |].
    destruct (Z.eqb_spec (id mod 8) (j mod 8)); [by destruct Hd; apply id_of_position |].
    by rewrite andb_true_r.
  - rewrite bit_other_byte by done. rewrite bool_decide_eq_false_2 by congruence. done.
Qed.
End leaf.

Lemma trailing_zeros_from_spec n i b :
  (∃ k, i ≤ k < i + Z.of_nat n ∧ Z.testbit b k = true) →
  let t := trailing_zeros_from n i b in
  i ≤ t < i + Z.of_nat n ∧ Z.testbit b t = true ∧
  ∀ j, i ≤ j < t → Z.testbit b j = false.
Proof.
  revert i. induction n as [| n IH]; intros i (k & Hk & Hb); [lia |].
  cbn [trailing_zeros_from]. destruct (Z.testbit b i) eqn:E.
  { repeat split; auto with lia. }
  destruct (IH (i + 1)) as (H1 & H2 & H3).
  { exists k. assert (k ≠ i) by congruence. auto with lia. }
  cbv zeta. repeat split; [lia | lia | done |].
  intros j Hj. destruct (decide (j = i)) as [-> |]; [done | apply H3; lia].
Qed.

Lemma trailing_zeros_spec b :
  is_u8 b → b ≠ 0 →
  0 ≤ trailing_zeros b < 8 ∧ Z.testbit b (trailing_zeros b) = true ∧
  ∀ j, 0 ≤ j < trailing_zeros b → Z.testbit b j = false.
Proof.
  intros Hb Hn. apply (trailing_zeros_from_spec 8 0 b).
  exists (Z.log2 b). destruct Hb as [H0 H1].
  pose proof (Z.log2_nonneg b). pose proof (proj1 (Z.log2_lt_pow2 b 8 ltac:(lia)) H1).
  rewrite Z.bit_log2 by lia. auto with lia.
Qed.

(** The byte that the scan examines at [byte_idx]: the bits below [lo] masked. *)
Definition scan_byte (buf : list Z) (lo byte_idx : Z) : Z :=
  let byte := getb (BITMAP_OFFSET + byte_idx) buf in
  if byte_idx =? lo / 8 then Z.land byte (not8 (Z.shiftl 1 (lo mod 8) - 1)) else byte.

Lemma scan_byte_bit buf lo byte_idx k :
  0 ≤ lo → lo / 8 ≤ byte_idx → 0 ≤ k < 8 →
  Z.testbit (scan_byte buf lo byte_idx) k =
    (lo <=? byte_idx * 8 + k) && bit buf (byte_idx * 8 + k).
Proof.
  intros Hlo Hb Hk. pose proof (Z.div_mod lo 8). pose proof (Z.mod_pos_bound lo 8).
  assert (Hd : (byte_idx * 8 + k) / 8 = byte_idx) by (symmetry; apply (Z.div_unique _ 8 _ k); lia).
  assert (Hm : (byte_idx * 8 + k) mod 8 = k) by (symmetry; apply (Z.mod_unique _ 8 byte_idx); lia).
  unfold scan_byte, bit. rewrite Hd, Hm.
  destruct (Z.eqb_spec byte_idx (lo / 8)), (Z.leb_spec lo (byte_idx * 8 + k)); try lia; simpl.
  - rewrite Z.land_spec, not8_bit, Z.shiftl_1_l, Z.sub_1_r, <- Z.ones_equiv by lia.
    rewrite Z.ones_spec_high by lia. apply andb_true_r.
  - rewrite Z.land_spec, not8_bit, Z.shiftl_1_l, Z.sub_1_r, <- Z.ones_equiv by lia.
    rewrite Z.ones_spec_low by lia. apply andb_false_r.
  - done.
Qed.

Lemma scan_byte_u8 buf lo i : wf_page buf → is_u8 (scan_byte buf lo i).
Proof.
  intros [_ Hb]. unfold scan_byte. destruct (_ =? _); [apply land_u8 |]; auto with bytes.
Qed.

Lemma scan_byte_zero buf lo i :
  wf_page buf → scan_byte buf lo i = 0 ↔ ∀ k, 0 ≤ k < 8 → Z.testbit (scan_byte buf lo i) k = false.
Proof.
  intros Hwf. split; [intros -> ??; apply Z.bits_0 |]. intros Hk.
  apply Z.bits_inj_0. intros k. destruct (decide (k < 0)); [by rewrite Z.testbit_neg_r by lia |].
  destruct (decide (k < 8)); [apply Hk; lia |].
  apply u8_testbit_high; [by apply scan_byte_u8 | lia].
Qed.

(** The part of the specification that the scan's induction carries. *)
Definition least_from (buf : list Z) (lo from upto : Z) (r : option Z) : Prop :=
  match r with
  | Some id => lo ≤ id ∧ from ≤ id / 8 < upto ∧ bit buf id = true ∧
      ∀ j, lo ≤ j < id → from ≤ j / 8 → bit buf j = false
  | None => ∀ j, lo ≤ j → from ≤ j / 8 < upto → bit buf j = false
  end.

Lemma byte_bits buf lo from j :
  0 ≤ lo → lo / 8 ≤ from → lo ≤ j → j / 8 = from →
  Z.testbit (scan_byte buf lo from) (j mod 8) = bit buf j.
Proof.
  intros. pose proof (Z.div_mod j 8). pose proof (Z.mod_pos_bound j 8).
  rewrite scan_byte_bit by lia. replace (from * 8 + j mod 8) with j by lia.
  case_tests; [done | lia].
Qed.

Lemma scan_bytes_spec buf lo n from :
  wf_page buf → 0 ≤ lo → lo / 8 ≤ from →
  least_from buf lo from (from + Z.of_nat n)
    (scan_bytes buf (lo / 8) (lo mod 8) (seqZ from (Z.of_nat n))).
Proof.
  intros Hwf Hlo. revert from. induction n as [| n IH]; intros from Hf.
  { simpl. intros. lia. }
  rewrite seqZ_cons by lia. cbn [scan_bytes].
  cbv zeta. fold (scan_byte buf lo from).
  assert (Hnext : ∀ j, lo ≤ j → from ≤ j / 8 → j / 8 = from ∨ from + 1 ≤ j / 8) by lia.
  pose proof (scan_byte_zero buf lo from Hwf) as Hz.
  destruct (Z.eqb_spec (scan_byte buf lo from) 0) as [E | E]; simpl.
  - replace (Z.pred (Z.of_nat (S n))) with (Z.of_nat n) by lia.
    assert (H0 : ∀ j, lo ≤ j → j / 8 = from → bit buf j = false).
    { intros j Hj Hd. rewrite <- (byte_bits buf lo from) by done. apply Hz; [done |].
      apply Z.mod_pos_bound. lia. }
    specialize (IH (Z.succ from)).
    destruct (scan_bytes _ _ _ _) as [id |]; simpl in *.
    + destruct IH as (H1 & H2 & H3 & H4); [lia |]. repeat split; [lia | lia | lia | done |].
      intros j Hj Hfj. destruct (Hnext j) as [Hd | Hd]; [lia | lia | auto with lia |].
      apply H4; lia.
    + intros j Hj Hfj. destruct (Hnext j) as [Hd | Hd]; [lia | lia | auto with lia |].
      apply IH; lia.
  - destruct (trailing_zeros_spec (scan_byte buf lo from)) as (H1 & H2 & H3);
      [by apply scan_byte_u8 | done |].
    set (t := trailing_zeros _) in *.
    rewrite scan_byte_bit in H2 by lia. apply andb_true_iff in H2 as [H2 H2'].
    apply Z.leb_le in H2.
    assert (Hd : (from * 8 + t) / 8 = from) by (symmetry; apply (Z.div_unique _ 8 _ t); lia).
    repeat split; [lia | lia | lia | done |]. intros j Hj Hfj.
    assert (j / 8 = from) by (pose proof (Z.div_le_mono j (from * 8 + t) 8); lia).
    rewrite <- (byte_bits buf lo from) by lia. apply H3.
    pose proof (Z.div_mod j 8). pose proof (Z.mod_pos_bound j 8). lia.
Qed.
End FreeMap.

Module FreeMapProps.
Import FreeMap.

(** The bitmap is a set of page ids: marking a page free adds exactly that
    id, claiming one removes exactly that id, and every other id of the leaf
    reads as before; both leave a well-formed page and never touch its header. *)
Theorem bitmap_is_a_set buf id j :
  wf_page buf → 0 ≤ id < PAGE_BODY_SIZE * 8 → 0 ≤ j →
  is_free (mark_free buf id) j = bool_decide (j = id) || is_free buf j ∧
  is_free (clear_bit buf id) j = negb (bool_decide (j = id)) && is_free buf j ∧
  wf_page (mark_free buf id) ∧ wf_page (clear_bit buf id) ∧
  slice 0 DATA_PAGE_HEADER_SIZE (mark_free buf id) = slice 0 DATA_PAGE_HEADER_SIZE buf ∧
  slice 0 DATA_PAGE_HEADER_SIZE (clear_bit buf id) = slice 0 DATA_PAGE_HEADER_SIZE buf.
Proof.
  intros Hwf Hid Hj.
  assert (id / 8 < PAGE_BODY_SIZE) by (apply Z.div_lt_upper_bound; lia).
  pose proof (Z.div_pos id 8).
  assert (∀ b, slice 0 DATA_PAGE_HEADER_SIZE (setb (BITMAP_OFFSET + id / 8) b buf) =
    slice 0 DATA_PAGE_HEADER_SIZE buf).
  { intros b. apply pslice_splice; auto; unfold BITMAP_OFFSET, zlen; plia. }
  repeat split; try (apply mark_free_wf || apply clear_bit_wf); auto with lia.
  - apply is_free_mark; lia || done.
  - apply is_free_clear; lia || done.
  - unfold mark_free, bit_position. by destruct (_ <? _).
  - unfold clear_bit, bit_position. by destruct (_ <? _).
Qed.

(** [first_free_bit_from] finds the least element. *)
Lemma first_free_least buf lo :
  wf_page buf → 0 ≤ lo →
  match first_free_bit_from buf lo with
  | Some id => lo ≤ id ∧ is_free buf id = true ∧ ∀ j, lo ≤ j < id → is_free buf j = false
  | None => ∀ j, lo ≤ j → is_free buf j = false
  end.
Proof.
  intros Hwf Hlo. unfold first_free_bit_from. pose proof (Z.div_pos lo 8).
  destruct (Z.leb_spec PAGE_BODY_SIZE (lo / 8)) as [Hr | Hr].
  { intros j Hj. rewrite is_free_bit. pose proof (Z.div_le_mono lo j 8).
    case_tests; [lia | done]. }
  pose proof (scan_bytes_spec buf lo (Z.to_nat (PAGE_BODY_SIZE - lo / 8)) (lo / 8) Hwf Hlo) as Hs.
  rewrite Z2Nat.id in Hs by lia.
  replace (lo / 8 + (PAGE_BODY_SIZE - lo / 8)) with PAGE_BODY_SIZE in Hs by lia.
  destruct (scan_bytes _ _ _ _) as [id |]; simpl in Hs.
  - destruct Hs as (H1 & H2 & H3 & H4); [lia |].
    rewrite is_free_bit, H3. case_tests; [| lia]. repeat split; [lia |].
    intros j Hj. rewrite is_free_bit, H4; [by rewrite andb_false_r | lia |].
    apply Z.div_le_mono; lia.
  - intros j Hj. rewrite is_free_bit. case_tests; [| done].
    rewrite Hs; [done | lia | lia |]. split; [apply Z.div_le_mono; lia | lia].
Qed.

(** [first_free_bit_from] is the least free id at or above the bound, and
    [None] exactly when the leaf has no free id there: the masked first byte
    neither skips an id nor reports one below the bound. *)
Theorem first_free_bit_from_least buf lo :
  wf_page buf → 0 ≤ lo →
  match first_free_bit_from buf lo with
  | Some id => lo ≤ id ∧ is_free buf id = true ∧ ∀ j, lo ≤ j < id → is_free buf j = false
  | None => ∀ j, lo ≤ j → is_free buf j = false
  end.
Proof. apply first_free_least. Qed.

Lemma demo_leaf_wf : wf_page (init_page zero_page).
Proof. unfold init_page. cbv zeta. rewrite (wf_page_zlen _ wf_zero_page). auto with chisel. Qed.

Lemma bitmap_is_a_set_witness : is_free (mark_free (init_page zero_page) 77) 77 = true.
Proof. destruct (bitmap_is_a_set (init_page zero_page) 77 77 demo_leaf_wf) as [-> _]; done. Defined.

Lemma first_free_bit_from_least_witness :
  match first_free_bit_from (mark_free (init_page zero_page) 77) 13 with
  | Some id => 13 ≤ id ∧ is_free (mark_free (init_page zero_page) 77) id = true
  | None => False
  end.
Proof.
  assert (Hw : wf_page (mark_free (init_page zero_page) 77)) by (apply mark_free_wf; [apply demo_leaf_wf | done]).
  pose proof (first_free_bit_from_least (mark_free (init_page zero_page) 77) 13 Hw ltac:(done)) as H.
  destruct (first_free_bit_from _ _) as [id |] eqn:E; [| by vm_compute in E].
  destruct H as (H1 & H2 & _). exact (conj H1 H2).
Defined.
End FreeMapProps.
