(* ===== verification/Lru.v ===== *)
(** * The LRU list of the page cache ([src/lru.rs])

    A doubly linked list threaded through a hash map: [push_front], [push_back] and
    [remove] relink a constant number of nodes.  The abstract list has the most
    recently used id first; the operations refine list operations, and the iterator
    visits the list backwards. *)

From S2P Require Export Prelude.

Module Lru.

Record Node := { prev : option Z; next : option Z }.

Record LruIndex := { head : option Z; tail : option Z; nodes : gmap Z Node }.

Definition new : LruIndex := {| head := None; tail := None; nodes := ∅ |}.

Definition len (self : LruIndex) : nat := size (nodes self).
Definition is_empty (self : LruIndex) : bool := bool_decide (nodes self = ∅).
Definition contains (self : LruIndex) (id : Z) : bool := bool_decide (is_Some (nodes self !! id)).

(** [n.prev = p] and [n.next = p] on a node borrowed from the map. *)
Definition set_prev (p : option Z) (n : Node) : Node := {| prev := p; next := next n |}.
Definition set_next (p : option Z) (n : Node) : Node := {| prev := prev n; next := p |}.

(** [if let Some(n) = self.nodes.get_mut(&id)]: nothing where [id] is absent. *)
Definition update (id : Z) (f : Node → Node) (self : LruIndex) : LruIndex :=
  {| head := head self; tail := tail self; nodes := alter f id (nodes self) |}.

Definition set_head (h : option Z) (self : LruIndex) : LruIndex :=
  {| head := h; tail := tail self; nodes := nodes self |}.
Definition set_tail (t : option Z) (self : LruIndex) : LruIndex :=
  {| head := head self; tail := t; nodes := nodes self |}.
Definition insert_node (id : Z) (n : Node) (self : LruIndex) : LruIndex :=
  {| head := head self; tail := tail self; nodes := <[id := n]> (nodes self) |}.
Definition remove_node (id : Z) (self : LruIndex) : LruIndex :=
  {| head := head self; tail := tail self; nodes := delete id (nodes self) |}.

(** The node itself stays in the map. *)
Definition unlink (id : Z) (self : LruIndex) : LruIndex :=
  match nodes self !! id with
  | None => self
  | Some node =>
      let self :=
        match prev node with
        | Some prev_id => update prev_id (set_next (next node)) self
        | None => set_head (next node) self
        end in
      match next node with
      | Some next_id => update next_id (set_prev (prev node)) self
      | None => set_tail (prev node) self
      end
  end.

Definition push_front (id : Z) (self : LruIndex) : LruIndex :=
  let self := if contains self id then unlink id self else self in
  let new_node := {| prev := None; next := head self |} in
  let self :=
    match head self with
    | Some old_head => update old_head (set_prev (Some id)) self
    | None => set_tail (Some id) self
    end in
  set_head (Some id) (insert_node id new_node self).

Definition push_back (id : Z) (self : LruIndex) : LruIndex :=
  let self := if contains self id then unlink id self else self in
  let new_node := {| prev := tail self; next := None |} in
  let self :=
    match tail self with
    | Some old_tail => update old_tail (set_next (Some id)) self
    | None => set_head (Some id) self
    end in
  set_tail (Some id) (insert_node id new_node self).

Definition remove (id : Z) (self : LruIndex) : bool * LruIndex :=
  if negb (contains self id) then (false, self) else (true, remove_node id (unlink id self)).

(** [LruIter::next]: the item and the new cursor. *)
Definition iter_next (idx : LruIndex) (cursor : option Z) : option (Z * option Z) :=
  match cursor with
  | None => None
  | Some cur => Some (cur, match nodes idx !! cur with Some n => prev n | None => None end)
  end.

(** The ids an iterator yields in at most [fuel] calls, and its last cursor. *)
Fixpoint iter (idx : LruIndex) (fuel : nat) (cursor : option Z) : list Z * option Z :=
  match fuel with
  | O => ([], cursor)
  | S fuel =>
      match iter_next idx cursor with
      | None => ([], cursor)
      | Some (cur, cursor) => let '(ids, last) := iter idx fuel cursor in (cur :: ids, last)
      end
  end.

Definition iter_lru_to_mru (self : LruIndex) : list Z := (iter self (len self) (tail self)).1.
End Lru.

Module LruProps.
Import Lru.

(** The nodes of a list: each linked to its neighbours. *)
Definition linked (m : gmap Z Node) (xs : list Z) : Prop :=
  ∀ l x r, xs = l ++ x :: r → m !! x = Some {| prev := last l; next := list.head r |}.

(** The index holds the list, most recently used first. *)
Record rep (self : LruIndex) (xs : list Z) : Prop := {
  rp_nodup : NoDup xs;
  rp_head : head self = list.head xs;
  rp_tail : tail self = last xs;
  rp_nodes : linked (nodes self) xs;
  rp_none : ∀ x, x ∉ xs → nodes self !! x = None
}.

(** The list operation behind all three. *)
Definition without (id : Z) (xs : list Z) : list Z := filter (λ x, x ≠ id) xs.

Lemma without_notin id xs : id ∉ xs → without id xs = xs.
Proof.
  intros Hn. unfold without. induction xs as [| x xs IH]; [done |]. apply not_elem_of_cons in Hn as [Hne Hn].
  rewrite filter_cons, decide_True by done. by rewrite IH.
Qed.

Lemma without_split id l r : NoDup (l ++ id :: r) → without id (l ++ id :: r) = l ++ r.
Proof.
  intros Hnd. apply NoDup_app in Hnd as (Hl & Hd & Hr). apply NoDup_cons in Hr as [Hn _].
  assert (Hnl : id ∉ l) by (intros Hin; apply (Hd id Hin); left).
  unfold without. rewrite filter_app, filter_cons, decide_False by tauto.
  fold (without id l) (without id r). by rewrite !without_notin.
Qed.

Lemma without_nodup id xs : NoDup xs → NoDup (without id xs) ∧ id ∉ without id xs.
Proof.
  intros Hnd. split; [by apply NoDup_filter |]. intros Hin. by apply list_elem_of_filter in Hin as [? _].
Qed.

(** Where an element of a concatenation is. *)
Lemma app_split (l r l' r' : list Z) x :
  l ++ r = l' ++ x :: r' →
  (∃ k, l = l' ++ x :: k ∧ r' = k ++ r) ∨ (∃ k, l' = l ++ k ∧ r = k ++ x :: r').
Proof.
  revert l'. induction l as [| y l IH]; intros l' E; [by right; exists l' |].
  destruct l' as [| z l']; injection E as [= -> E].
  - left. exists l. by subst.
  - destruct (IH l' E) as [(k & -> & ->) | (k & -> & ->)]; [left | right]; by exists k.
Qed.

Lemma contains_rep self xs id : rep self xs → contains self id = bool_decide (id ∈ xs).
Proof.
  intros Hr. unfold contains. apply bool_decide_ext. split.
  - intros [n Hn]. destruct (decide (id ∈ xs)) as [| Hi]; [done |]. by rewrite (rp_none _ _ Hr id Hi) in Hn.
  - intros (l & r & E)%list_elem_of_split. exists {| prev := last l; next := list.head r |}. by apply (rp_nodes _ _ Hr).
Qed.
(** ** Unlinking *)

(** A node at [y] after its neighbour's links were rewritten. *)
Definition relink (y : Z) (before after : option Z) (n : Node) : Node :=
  let n := if decide (before = Some y) then set_next after n else n in
  if decide (after = Some y) then set_prev before n else n.

Lemma update_lookup i f self y :
  nodes (update i f self) !! y = if decide (i = y) then f <$> nodes self !! y else nodes self !! y.
Proof. cbn. case_decide as Hd; [subst; apply lookup_alter_eq | by apply lookup_alter_ne]. Qed.

Section unlink.
Variables (self : LruIndex) (l r : list Z) (id : Z).
Hypothesis Hrep : rep self (l ++ id :: r).

Lemma unlink_node : nodes self !! id = Some {| prev := last l; next := list.head r |}.
Proof. by apply (rp_nodes _ _ Hrep). Qed.

Lemma unlink_lookup y :
  nodes (unlink id self) !! y = relink y (last l) (list.head r) <$> nodes self !! y.
Proof.
  unfold unlink. rewrite unlink_node. cbn [prev next]. unfold relink.
  destruct (last l) as [p |], (list.head r) as [n |]; rewrite ?update_lookup; cbn [nodes set_head set_tail];
    rewrite ?update_lookup; repeat case_decide; simplify_eq/=; destruct (nodes self !! y); done.
Qed.

Lemma unlink_ends :
  head (unlink id self) = list.head (l ++ r) ∧ tail (unlink id self) = last (l ++ r).
Proof.
  unfold unlink. rewrite unlink_node. cbn [prev next].
  pose proof (rp_head _ _ Hrep) as Hh. pose proof (rp_tail _ _ Hrep) as Ht.
  rewrite last_app, last_cons in Ht. rewrite last_app. destruct l as [| a l'].
  - cbn [last app]. destruct r as [| b r']; cbn [list.head]; [done |]. cbn. rewrite Ht. destruct (last (b :: r')) eqn:E; [done | by apply last_None in E].
  - rewrite last_cons in *. cbn [list.head app] in *. destruct (last l') as [p |];
      (destruct r as [| b r']; cbn [list.head last]; [done |]); cbn; rewrite Ht, Hh;
      (destruct (last (b :: r')) eqn:E; [done | by apply last_None in E]).
Qed.

Lemma unlink_apart : NoDup (l ++ r) ∧ (id ∉ l ++ r) ∧ ∀ x y, x ∈ l → y ∈ r → x ≠ y.
Proof.
  pose proof (rp_nodup _ _ Hrep) as Hnd. apply NoDup_app in Hnd as (Hl & Hd & Hr).
  apply NoDup_cons in Hr as [Hn Hr]. ands.
  - apply NoDup_app. ands; [done | | done]. intros x Hx Hx'. apply (Hd x Hx). by right.
  - rewrite elem_of_app. intros [Hx | Hx]; [| done]. apply (Hd id Hx). left.
  - intros x y Hx Hy ->. apply (Hd y Hx). by right.
Qed.

Lemma relink_left l' y k :
  l = l' ++ y :: k →
  relink y (last l) (list.head r) {| prev := last l'; next := list.head (k ++ id :: r) |} =
    {| prev := last l'; next := list.head (k ++ r) |}.
Proof.
  intros El. destruct unlink_apart as (Hnd & _ & Hd). unfold relink.
  rewrite (decide_False (P := list.head r = Some y)).
  2: { intros E. destruct r as [| z r']; [done |]. injection E as ->. apply (Hd y y); [rewrite El | left | done].
       apply elem_of_app. right. left. }
  rewrite El, last_app, last_cons in *. destruct k as [| z k]; [by rewrite decide_True |].
  rewrite decide_False; [done |]. intros E. apply NoDup_app in Hnd as (Hnd & _ & _).
  apply NoDup_app in Hnd as (_ & _ & Hnd). apply NoDup_cons in Hnd as [Hn _]. apply Hn.
  destruct (last (z :: k)) as [w |] eqn:Ew; [| by apply last_None in Ew].
  injection E as ->. by apply last_Some_elem_of.
Qed.

Lemma relink_right k y r' :
  r = k ++ y :: r' →
  relink y (last l) (list.head r) {| prev := last (l ++ id :: k); next := list.head r' |} =
    {| prev := last (l ++ k); next := list.head r' |}.
Proof.
  intros Er. destruct unlink_apart as (Hnd & _ & Hd). unfold relink.
  rewrite (decide_False (P := last l = Some y)).
  2: { intros E. apply last_Some_elem_of in E. apply (Hd y y); [done | rewrite Er | done].
       apply elem_of_app. right. left. }
  destruct k as [| z k].
  - rewrite Er. cbn [app list.head]. rewrite decide_True by done. by rewrite app_nil_r.
  - rewrite Er. cbn [app list.head]. rewrite decide_False.
    + f_equal. rewrite !last_app, !last_cons. by destruct (last k).
    + intros [= ->]. apply NoDup_app in Hnd as (_ & _ & Hnd). rewrite Er in Hnd. cbn [app] in Hnd.
      apply NoDup_cons in Hnd as [Hn _]. apply Hn, elem_of_app. right. left.
Qed.

Lemma unlink_rep : rep (remove_node id (unlink id self)) (l ++ r).
Proof.
  destruct unlink_apart as (Hnd & Hn & Hd), unlink_ends as [Hh Ht]. split; cbn [head tail nodes remove_node]; auto.
  - intros l' y r' E. assert (Hy : y ≠ id).
    { intros ->. apply Hn. rewrite E. apply elem_of_app. right. left. }
    rewrite lookup_delete_ne, unlink_lookup by done.
    destruct (app_split _ _ _ _ _ E) as [(k & El & ->) | (k & -> & Er)].
    + rewrite (rp_nodes _ _ Hrep l' y (k ++ id :: r)) by (by rewrite El, <- app_assoc).
      cbn. f_equal. by apply relink_left.
    + rewrite (rp_nodes _ _ Hrep (l ++ id :: k) y r') by (by rewrite Er, <- app_assoc).
      cbn. f_equal. by apply relink_right.
  - intros x Hx. destruct (decide (id = x)) as [-> | Hne]; [apply lookup_delete_eq |].
    rewrite lookup_delete_ne, unlink_lookup by done. rewrite (rp_none _ _ Hrep); [done |].
    rewrite elem_of_app in *. rewrite elem_of_cons. intros [? | [-> | ?]]; auto.
Qed.
End unlink.
(** An id that is not there can be unlinked too. *)
Lemma detach_rep self xs id :
  rep self xs →
  rep (remove_node id (if contains self id then unlink id self else self)) (without id xs).
Proof.
  intros Hr. rewrite (contains_rep self xs id Hr). case_bool_decide as Hin.
  - apply list_elem_of_split in Hin as (l & r & ->). rewrite without_split by apply Hr. by apply unlink_rep.
  - rewrite without_notin by done. replace (remove_node id self) with self; [done |].
    unfold remove_node. destruct self as [h t m]; cbn in *. f_equal. symmetry. apply delete_id. by apply (rp_none _ _ Hr).
Qed.

(** ** Pushing a detached id *)

Section push.
Variables (self : LruIndex) (xs : list Z) (id : Z).
Hypothesis Hrep : rep (remove_node id self) xs.
Hypothesis Hid : id ∉ xs.

Lemma detached_lookup x : x ≠ id → nodes (remove_node id self) !! x = nodes self !! x.
Proof. intros. cbn. by rewrite lookup_delete_ne. Qed.

Lemma detached_linked l x r :
  xs = l ++ x :: r → x ≠ id ∧ nodes self !! x = Some {| prev := last l; next := list.head r |}.
Proof.
  intros E. assert (Hx : x ≠ id) by (intros ->; apply Hid; rewrite E; apply elem_of_app; right; left).
  split; [done |]. rewrite <- detached_lookup by done. by apply (rp_nodes _ _ Hrep).
Qed.

Lemma push_front_rep :
  rep (set_head (Some id) (insert_node id {| prev := None; next := head self |}
    (match head self with
     | Some old_head => update old_head (set_prev (Some id)) self
     | None => set_tail (Some id) self
     end))) (id :: xs).
Proof.
  pose proof (rp_head _ _ Hrep) as Hh. pose proof (rp_tail _ _ Hrep) as Ht. cbn in Hh, Ht.
  split; cbn [head tail nodes set_head insert_node].
  - apply NoDup_cons. split; [done | apply Hrep].
  - done.
  - rewrite last_cons. destruct xs as [| a xs']; rewrite Hh; cbn; [done |].
    rewrite Ht. destruct (last (a :: xs')) eqn:E; [done | by apply last_None in E].
  - intros l x r E. destruct l as [| a l]; injection E as <- E.
    { rewrite lookup_insert_eq, Hh. by subst. }
    destruct (detached_linked l x r E) as [Hx Hl]. rewrite lookup_insert_ne by done.
    rewrite Hh, last_cons. destruct l as [| b l]; cbn [app] in E; rewrite E; cbn [list.head];
      rewrite update_lookup, Hl.
    + by rewrite decide_True.
    + rewrite decide_False; [cbn; by destruct (last (b :: l)) eqn:El; [| apply last_None in El] |].
      intros ->. pose proof (rp_nodup _ _ Hrep) as Hnd. rewrite E in Hnd. apply NoDup_cons in Hnd as [Hn _].
      apply Hn, elem_of_app. right. left.
  - intros x [Hx Hn]%not_elem_of_cons. rewrite lookup_insert_ne by done.
    assert (Hno : nodes self !! x = None) by (rewrite <- detached_lookup by done; by apply (rp_none _ _ Hrep)).
    destruct (head self); [rewrite update_lookup, Hno; by case_decide | exact Hno].
Qed.

Lemma push_back_rep :
  rep (set_tail (Some id) (insert_node id {| prev := tail self; next := None |}
    (match tail self with
     | Some old_tail => update old_tail (set_next (Some id)) self
     | None => set_head (Some id) self
     end))) (xs ++ [id]).
Proof.
  pose proof (rp_head _ _ Hrep) as Hh. pose proof (rp_tail _ _ Hrep) as Ht. cbn in Hh, Ht.
  pose proof (rp_nodup _ _ Hrep) as Hnd.
  split; cbn [head tail nodes set_tail insert_node].
  - apply NoDup_app. ands; [done | | apply NoDup_singleton]. intros x Hx ->%list_elem_of_singleton. done.
  - destruct xs as [| a xs'] eqn:E; rewrite Ht; [done |].
    destruct (last (a :: xs')) eqn:El; [by cbn; rewrite Hh | by apply last_None in El].
  - by rewrite last_snoc.
  - intros l x r E. destruct (app_split _ _ _ _ _ E) as [(k & Ex & ->) | (k & -> & Er)].
    + destruct (detached_linked l x k Ex) as [Hx Hl]. rewrite lookup_insert_ne by done.
      rewrite Ht, Ex, last_app, last_cons. destruct k as [| b k].
      * cbn [last]. rewrite update_lookup, Hl. by rewrite decide_True.
      * destruct (last (b :: k)) as [w |] eqn:El; [| by apply last_None in El].
        rewrite update_lookup, Hl, decide_False; [done |]. intros ->. rewrite Ex in Hnd.
        apply NoDup_app in Hnd as (_ & _ & Hnd). apply NoDup_cons in Hnd as [Hn _]. by apply Hn, last_Some_elem_of.
    + destruct k as [| b k]; [| by destruct k]. injection Er as <- <-. by rewrite lookup_insert_eq, app_nil_r, Ht.
  - intros x Hx. rewrite elem_of_app, list_elem_of_singleton in Hx. rewrite lookup_insert_ne by (intros ->; tauto).
    assert (Hno : nodes self !! x = None) by (rewrite <- detached_lookup by tauto; apply (rp_none _ _ Hrep); tauto).
    destruct (tail self); [rewrite update_lookup, Hno; by case_decide | exact Hno].
Qed.
End push.
(** ** Reading *)

Lemma len_rep self xs : rep self xs → len self = length xs.
Proof.
  intros Hr. unfold len. rewrite <- size_dom.
  rewrite <- (size_list_to_set (C := gset Z) xs) by apply Hr. f_equal. apply set_eq. intros x.
  rewrite elem_of_dom, elem_of_list_to_set. pose proof (contains_rep self xs x Hr) as Hc.
  unfold contains in Hc. split; intros H.
  - rewrite bool_decide_eq_true_2 in Hc by done. symmetry in Hc. by apply bool_decide_eq_true in Hc.
  - rewrite (bool_decide_eq_true_2 (x ∈ xs)) in Hc by done. by apply bool_decide_eq_true in Hc.
Qed.

Lemma iter_rep self xs fuel l r :
  rep self xs → xs = l ++ r → (length l ≤ fuel)%nat → iter self fuel (last l) = (reverse l, None).
Proof.
  intros Hr. revert l r. induction fuel as [| fuel IH]; intros l r E Hl.
  { by destruct l; [| cbn in Hl; lia]. }
  destruct l as [| x l _] using rev_ind; [done |]. rewrite last_snoc. cbn [iter iter_next].
  rewrite (rp_nodes _ _ Hr l x r) by (by rewrite E, <- app_assoc). cbn [prev].
  rewrite (IH l (x :: r)); [by rewrite reverse_snoc | by rewrite E, <- app_assoc |].
  rewrite length_app in Hl. cbn in Hl. lia.
Qed.

Lemma iter_run_rep self xs : rep self xs → iter self (len self) (tail self) = (reverse xs, None).
Proof.
  intros Hr. rewrite (rp_tail _ _ Hr), (len_rep self xs Hr).
  apply (iter_rep self xs _ xs []); [done | by rewrite app_nil_r | done].
Qed.

Lemma iter_lru_rep self xs : rep self xs → iter_lru_to_mru self = reverse xs.
Proof. intros Hr. unfold iter_lru_to_mru. by rewrite (iter_run_rep self xs). Qed.

Lemma new_rep : rep new [].
Proof. split; [apply NoDup_nil_2 | done | done | by intros [] ? ? ? | intros x _; apply lookup_empty]. Qed.

(** ** A history of operations *)

Inductive op := PushFront (id : Z) | PushBack (id : Z) | Remove (id : Z).

Definition apply_op (self : LruIndex) (o : op) : LruIndex :=
  match o with PushFront id => push_front id self | PushBack id => push_back id self | Remove id => (remove id self).2 end.

(** The specification: a list without repetition. *)
Definition abs_op (xs : list Z) (o : op) : list Z :=
  match o with
  | PushFront id => id :: without id xs
  | PushBack id => without id xs ++ [id]
  | Remove id => without id xs
  end.

Lemma apply_op_rep self xs o : rep self xs → rep (apply_op self o) (abs_op xs o).
Proof.
  intros Hr. destruct o as [id | id | id]; cbn [apply_op abs_op]; pose proof (detach_rep self xs id Hr) as Hd;
    destruct (without_nodup id xs (rp_nodup _ _ Hr)) as [_ Hn].
  - by apply push_front_rep.
  - by apply push_back_rep.
  - unfold remove. destruct (contains self id) eqn:E; cbn; [exact Hd |]. rewrite (contains_rep self xs id Hr) in E.
    apply bool_decide_eq_false in E. by rewrite without_notin.
Qed.

Lemma history_rep ops self xs : rep self xs → rep (foldl apply_op self ops) (foldl abs_op xs ops).
Proof.
  revert self xs. induction ops as [| o ops IH]; intros self xs Hr; [done |]. cbn. by apply IH, apply_op_rep.
Qed.

(** C23 The linked list in the map is a list without repetition: after any history of
    [push_front], [push_back] and [remove] from the empty index, the iterator yields
    the ids of the list from least to most recently used and then ends, [len],
    [is_empty] and [contains] are those of the list, and [remove] reports whether the
    id was there. *)
Theorem lru_refines_list ops :
  let self := foldl apply_op new ops in
  let xs := foldl abs_op [] ops in
  NoDup xs ∧ iter self (len self) (tail self) = (reverse xs, None) ∧ iter_lru_to_mru self = reverse xs ∧
  len self = length xs ∧ is_empty self = bool_decide (xs = []) ∧
  ∀ id, contains self id = bool_decide (id ∈ xs) ∧ (remove id self).1 = bool_decide (id ∈ xs).
Proof.
  cbv zeta. pose proof (history_rep ops new [] new_rep) as Hr. revert Hr.
  generalize (foldl apply_op new ops) (foldl abs_op [] ops). intros self xs Hr.
  ands; [apply Hr | by apply iter_run_rep | by apply iter_lru_rep | by apply len_rep | |].
  - unfold is_empty. apply bool_decide_ext. rewrite <- map_size_empty_iff. fold (len self).
    rewrite (len_rep self xs Hr). apply length_zero_iff_nil.
  - intros id. pose proof (contains_rep self xs id Hr) as Hc. split; [done |]. unfold remove. rewrite Hc.
    by destruct (bool_decide (id ∈ xs)).
Qed.
End LruProps.
