(* ===== verification/Store.v ===== *)
(** * The page-store interface

    What the page modules use of [PageCache] ([src/page_cache.rs]) and what it
    promises them.  [PageStore] lists the calls; [StoreOk] states the promise in
    terms of a logical [view] (page id to page, whatever is cached, spilled or on
    disk) and of the set of [live] pages: a page that is live keeps its contents
    until a client writes it, and an allocation never returns a live id.  Reads
    are exact up to the checksum field, which the cache may stamp on its own
    (a deferred stamp).  The tree modules are proved against this interface. *)

From S2P Require Export Page.

(** ** The calls *)

Class PageStore (St : Type) := {
  (** [cache.get(id)?] *)
  ps_get : Z → M St (list Z);
  (** [cache.get_mut(id)?] followed by in-place writes to the buffer, which is
      returned as it was found *)
  ps_modify : Z → (list Z → list Z) → M St (list Z);
  (** [cache.new_page()?] *)
  ps_new_page : M St Z;
  (** [cache.next_page_id()] *)
  ps_next_page_id : St → Z
}.

(** [cache.copy_page(src, dst)?]: [PageCache::copy_page]. *)
Definition copy_page {St} `{PageStore St} (src dst : Z) : M St unit :=
  let* bytes := ps_get src in
  ps_modify dst (λ _, bytes) ;;;
  ret tt.

(** ** The promise *)

(** Writes that leave a data page stamped. *)
Definition stamps `{Xxh3} (f : list Z → list Z) : Prop := ∀ p, wf_page p → data_stamped p → data_stamped (f p).

Lemma stamps_stamp `{Xxh3} f : (∀ p, wf_page p → wf_page (f p)) → stamps (λ p, stamp_checksum (f p)).
Proof. intros Hf p Hp _. by apply data_stamped_stamp, Hf. Qed.

Lemma stamps_tag `{Xxh3} f : (∀ p, wf_page p → getb 0 (f p) ≠ type_tag DataPageType) → stamps f.
Proof. intros Hf p Hp _ Ht. by destruct (Hf p Hp). Qed.

Section frames.
Context {St : Type} (view : St → gmap Z (list Z)) (live : St → Z → Prop).

(** Every page live in [s] is live in [s'] with the same contents. *)
Definition extends (s s' : St) : Prop :=
  ∀ j, live s j → live s' j ∧ view s' !! j = view s !! j.

(** The two states agree on which pages are live and on their contents. *)
Definition same (s s' : St) : Prop :=
  ∀ j, (live s' j ↔ live s j) ∧ (live s j → view s' !! j = view s !! j).

(** [s'] differs from [s] in the contents of page [id] at most. *)
Definition only_at (id : Z) (s s' : St) : Prop :=
  ∀ j, (live s' j ↔ live s j) ∧ (live s j → j ≠ id → view s' !! j = view s !! j).
End frames.

Class StoreOk (St : Type) `{Xxh3} `{Fault} `{PageStore St} := {
  st_inv : St → Prop;
  view : St → gmap Z (list Z);
  live : St → Z → Prop;
  (** Page ids below the high-water mark only. *)
  live_next : ∀ s id, st_inv s → live s id → 0 ≤ id < ps_next_page_id s;
  (** The sentinel is no page. *)
  live_none : ∀ s id, st_inv s → live s id → id < PAGE_ID_NONE;
  view_wf : ∀ s id v, st_inv s → view s !! id = Some v → wf_page v;
  (** A read has no logical effect and returns the body the view has. *)
  get_ok : ∀ s id, st_inv s →
    spec (λ s', st_inv s' ∧ same view live s s') (ps_get id) s
      (λ p _, wf_page p ∧ ∀ v, view s !! id = Some v → body p = body v);
  (** A write changes the one page. *)
  modify_ok : ∀ s id f, st_inv s → live s id → (∀ p, wf_page p → wf_page (f p)) → stamps f →
    spec (λ s', st_inv s' ∧ only_at view live id s s') (ps_modify id f) s
      (λ p s', wf_page p ∧ (∀ v, view s !! id = Some v → body p = body v) ∧
        ∃ v', view s' !! id = Some v' ∧ body v' = body (f p) ∧
          (verify_checksum (f p) = true → v' = f p));
  (** A write that fails has no effect. *)
  modify_fail : ∀ s id f, st_inv s → live s id → is_ok (ps_modify id f s).1 = false →
    same view live s (ps_modify id f s).2;
  new_page_ok : ∀ s, st_inv s →
    spec (λ s', st_inv s' ∧ extends view live s s') ps_new_page s
      (λ id s', ¬ live s id ∧ live s' id ∧ 0 < id < PAGE_ID_NONE)
}.

(** A module that may also raise the errors of [HF'] itself. *)
Definition weaken_store {St} `{HX : Xxh3} (HF HF' : Fault) `{HP : !PageStore St}
    (HS : StoreOk (H0 := HF) St)
    (He : ∀ e, @may_err HF e → @may_err HF' e) (Hp : ∀ p, @may_panic HF p → @may_panic HF' p)
    : StoreOk (H0 := HF') St := {|
  st_inv := st_inv; view := view; live := live;
  live_next := live_next; live_none := live_none; view_wf := view_wf;
  get_ok s id Hs := spec_weaken HF HF' _ _ _ _ He Hp (get_ok s id Hs);
  modify_ok s id f Hs Hl Hf Hst := spec_weaken HF HF' _ _ _ _ He Hp (modify_ok s id f Hs Hl Hf Hst);
  modify_fail := modify_fail;
  new_page_ok s Hs := spec_weaken HF HF' _ _ _ _ He Hp (new_page_ok s Hs)
|}.

(** The faults below, and corruption found by the module itself. *)
Definition or_corrupt (HF : Fault) : Fault := {|
  may_err e := may_err e ∨ ∃ id, e = CorruptPage id;
  may_panic := may_panic
|}.

Definition corrupt_store {St} `{HX : Xxh3} {HF : Fault} `{HP : !PageStore St}
    (HS : StoreOk (H0 := HF) St) : StoreOk (H0 := or_corrupt HF) St :=
  weaken_store HF (or_corrupt HF) HS (λ e He, or_introl He) (λ p Hp, Hp).

(** What a tree module asks of the [alloc] closure it is given. *)
Definition alloc_ok {St} `{StoreOk St} (alloc : M St Z) : Prop :=
  ∀ s, st_inv s →
    spec (λ s', st_inv s' ∧ extends view live s s') alloc s
      (λ id s', ¬ live s id ∧ live s' id ∧ 0 < id < PAGE_ID_NONE).

Definition ext {St} `{StoreOk St} : relation St := extends view live.

(** The page is live and its contents are [v]. *)
Definition holds {St} `{StoreOk St} (s : St) (id : Z) (v : list Z) : Prop :=
  live s id ∧ view s !! id = Some v.

(** The frame of an operation started in [s0]. *)
Definition frame {St} `{StoreOk St} (s0 s : St) : Prop := st_inv s ∧ ext s0 s.

(** What a program may assume of a buffer it read at [id]. *)
Definition buf_of {St} `{StoreOk St} (s : St) (id : Z) (p : list Z) : Prop :=
  wf_page p ∧ ∀ v, holds s id v → body p = body v.

(** ** Extension is a preorder that reads and fresh writes respect *)

Section store.
Context {St : Type} `{HX : Xxh3} `{HF : Fault} `{HP : !PageStore St} `{HS : !StoreOk St}.
Implicit Types (s : St).

#[export] Instance ext_preorder : PreOrder ext.
Proof.
  split; [intros s j; done |]. intros s1 s2 s3 H12 H23 j Hj.
  destruct (H12 j Hj) as [Hl He]. destruct (H23 j Hl) as [Hl' He'].
  split; [done | congruence].
Qed.

Lemma frame_refl s : st_inv s → frame s s.
Proof. by split. Qed.

Lemma frame_trans s0 s1 s2 : ext s0 s1 → frame s1 s2 → frame s0 s2.
Proof. intros ? [? ?]. split; [done | by etrans]. Qed.

Lemma frame_ext s0 s : frame s0 s → ext s0 s.
Proof. by intros []. Qed.

Lemma holds_ext s s' id v : ext s s' → holds s id v → holds s' id v.
Proof. intros He [Hl Hv]. destruct (He id Hl). split; [done | congruence]. Qed.

Lemma live_ext s s' id : ext s s' → live s id → live s' id.
Proof. intros He Hl. by destruct (He id Hl). Qed.

Lemma same_ext s s' : same view live s s' → ext s s'.
Proof. intros Hs j Hj. destruct (Hs j) as [Hl Hv]. split; [by apply Hl | by apply Hv]. Qed.

Lemma only_at_ext id s0 s s' : ext s0 s → ¬ live s0 id → only_at view live id s s' → ext s0 s'.
Proof.
  intros He Hn Ho j Hj. destruct (He j Hj) as [Hl Hv]. destruct (Ho j) as [Hl' Hv'].
  split; [by apply Hl' |]. rewrite Hv'; [done | done | congruence].
Qed.

Lemma only_at_live id s s' j : only_at view live id s s' → live s' j ↔ live s j.
Proof. intros Ho. apply Ho. Qed.

Lemma only_at_holds id s s' j v :
  only_at view live id s s' → j ≠ id → holds s j v → holds s' j v.
Proof.
  intros Ho Hj [Hl Hv]. destruct (Ho j) as [H1 H2].
  split; [by apply H1 | by rewrite H2].
Qed.

Lemma holds_fun s id v v' : holds s id v → holds s id v' → v = v'.
Proof. intros [_ H1] [_ H2]. congruence. Qed.

Lemma holds_wf s id v : st_inv s → holds s id v → wf_page v.
Proof. intros Hi [_ Hv]. by eapply view_wf. Qed.

Lemma holds_live s id v : holds s id v → live s id.
Proof. by intros []. Qed.

(** ** Rules for programs, relative to the initial state [s0] *)

Lemma get_rule s0 s id (Q : list Z → St → Prop) :
  frame s0 s →
  (∀ p s', buf_of s id p → frame s0 s' → ext s s' → same view live s s' → Q p s') →
  spec (frame s0) (ps_get id) s Q.
Proof.
  intros [Hi He] HQ. eapply spec_conseq; [by apply get_ok | |].
  - intros s' [Hi' Hs]. split; [done |]. etrans; [done |]. by apply same_ext.
  - intros p s' [Hi' Hs] [Hp Hb]. assert (ext s s') by by apply same_ext.
    apply HQ; auto; [split; [done | intros v []; auto] |]. split; [done | by etrans].
Qed.

Lemma alloc_rule alloc s0 s (Q : Z → St → Prop) :
  alloc_ok alloc → frame s0 s →
  (∀ id s', ¬ live s id → live s' id → 0 < id < PAGE_ID_NONE → frame s0 s' → ext s s' → Q id s') →
  spec (frame s0) alloc s Q.
Proof.
  intros Ha [Hi He] HQ. eapply spec_conseq; [by apply Ha | |].
  - intros s' [Hi' Hs]. split; [done | by etrans].
  - intros id s' [Hi' Hs] (H1 & H2 & H3). apply HQ; auto. split; [done | by etrans].
Qed.

(** A write to a page that is not live in [s0]. *)
Lemma modify_rule s0 s id f (Q : list Z → St → Prop) :
  frame s0 s → live s id → ¬ live s0 id →
  (∀ p, wf_page p → wf_page (f p)) → stamps f →
  (∀ p v' s', buf_of s id p → frame s0 s' → only_at view live id s s' →
    holds s' id v' → body v' = body (f p) →
    (verify_checksum (f p) = true → v' = f p) → Q p s') →
  spec (frame s0) (ps_modify id f) s Q.
Proof.
  intros [Hi He] Hl Hn Hf Hst HQ. eapply spec_conseq; [by apply (modify_ok s id f) | |].
  - intros s' [Hi' Ho]. split; [done | by eapply only_at_ext].
  - intros p s' [Hi' Ho] (Hp & Hb & v' & Hv & Hbv & Hver). apply (HQ p v'); auto.
    + split; [done | intros v []; auto].
    + split; [done | by eapply only_at_ext].
    + split; [by apply (Ho id) | done].
Qed.

Lemma copy_page_rule s0 s src dst v (Q : unit → St → Prop) :
  frame s0 s → holds s src v → getb 0 v ≠ type_tag DataPageType → live s dst → ¬ live s0 dst →
  (∀ v' s', frame s0 s' → only_at view live dst s s' → holds s' dst v' → body v' = body v → Q tt s') →
  spec (frame s0) (copy_page src dst) s Q.
Proof.
  intros Hf Hs Htag Hl Hn HQ. unfold copy_page. eapply spec_bind.
  { apply get_rule with (Q := λ p s', wf_page p ∧ body p = body v ∧ frame s0 s' ∧ ext s s' ∧ same view live s s');
      [done |]. intros p s' [Hp Hb] ???. split; auto. }
  intros p s' _ (Hp & Hb & Hf' & He & Hsame).
  eapply (spec_bind _ _ _ _ (λ _ s'', Q tt s'')); [| intros ? ? ? ?; by apply spec_ret].
  apply modify_rule; auto.
  { by eapply live_ext. }
  { apply stamps_tag. intros _ _. rewrite <- (getb_body 0 p), Hb, getb_body by done. done. }
  intros p' v' s'' _ Hf'' Ho Hh Hbv _. apply (HQ v'); [done | | done | congruence].
  intros j. destruct (Ho j) as [H1 H2], (Hsame j) as [H3 H4]. split; [by rewrite H1 |].
  intros Hj Hne. rewrite H2, H4; auto. by apply H3.
Qed.

(** Fields of a buffer read at [id] are fields of the page. *)
Lemma body_get_le n off p v :
  body p = body v → 0 ≤ off → off + Z.of_nat n ≤ CHECKSUM_OFFSET →
  get_le n off p = get_le n off v.
Proof. intros Hb ??. rewrite <- (get_le_body n off p), Hb by done. by apply get_le_body. Qed.

Lemma body_slice off n p v :
  body p = body v → 0 ≤ off → 0 ≤ n → off + n ≤ CHECKSUM_OFFSET → slice off n p = slice off n v.
Proof.
  intros Hb ???. rewrite <- (Z.add_0_l off), <- !(slice_slice 0 CHECKSUM_OFFSET) by done.
  unfold slice at 2 4. rewrite !drop_0. unfold body in Hb. by rewrite Hb.
Qed.

Lemma body_getb i p v : body p = body v → 0 ≤ i < CHECKSUM_OFFSET → getb i p = getb i v.
Proof. intros Hb ?. rewrite <- (getb_body i p), Hb by done. by apply getb_body. Qed.
End store.

(** ** Reads

    A program that only reads: the logical state is as it was. *)

Definition quiet {St} `{StoreOk St} (s0 s : St) : Prop := st_inv s ∧ same view live s0 s.

Section quiet.
Context {St : Type} `{HX : Xxh3} `{HF : Fault} `{HP : !PageStore St} `{HS : !StoreOk St}.
Implicit Types (s : St).

Lemma quiet_refl s : st_inv s → quiet s s.
Proof. by split. Qed.

Lemma quiet_trans s0 s1 s2 : quiet s0 s1 → quiet s1 s2 → quiet s0 s2.
Proof.
  intros [_ H1] [Hi H2]. split; [done |]. intros j.
  destruct (H1 j) as [Hl1 Hv1], (H2 j) as [Hl2 Hv2].
  split; [by rewrite Hl2 |]. intros Hj. rewrite Hv2, Hv1; [done | done | by apply Hl1].
Qed.

Lemma quiet_frame s0 s : quiet s0 s → frame s0 s.
Proof. intros [Hi Hs]. split; [done | by apply same_ext]. Qed.

Lemma quiet_holds s0 s id v : quiet s0 s → holds s0 id v → holds s id v.
Proof. intros [_ Hq]%quiet_frame. by apply holds_ext. Qed.

(** A read of a page of the initial state. *)
Lemma bind_read {B} s0 s id v (k : list Z → M St B) Q :
  quiet s0 s → holds s0 id v →
  (∀ p s', wf_page p → body p = body v → quiet s0 s' → spec (quiet s0) (k p) s' Q) →
  spec (quiet s0) (bind (ps_get id) k) s Q.
Proof.
  intros Hq Hv Hk. eapply (spec_bind _ _ _ _ (λ p _, wf_page p ∧ body p = body v)).
  - eapply spec_conseq; [apply get_ok, Hq | |].
    + intros s' Hs'. eapply quiet_trans; [done | exact Hs'].
    + intros p s' _ [Hp Hb]. split; [done |]. apply Hb. by apply (quiet_holds s0).
  - intros p s' Hs' []. auto.
Qed.
End quiet.

(** ** Steps of a program with no state but the store *)

Section steps.
Context {St : Type} `{HX : Xxh3} `{HF : Fault} `{HP : !PageStore St} `{HS : !StoreOk St}.
Implicit Types (s : St).

Lemma step_new_page {B} s0 s (k : Z → M St B) Q :
  frame s0 s →
  (∀ id s', ¬ live s id → live s' id → 0 < id < PAGE_ID_NONE → frame s0 s' → ext s s' →
    spec (frame s0) (k id) s' Q) →
  spec (frame s0) (bind ps_new_page k) s Q.
Proof.
  intros Hf Hk. eapply (spec_bind _ _ _ _ (λ id s', ¬ live s id ∧ live s' id ∧
    0 < id < PAGE_ID_NONE ∧ ext s s')).
  - apply alloc_rule; [intros s1 H1; by apply new_page_ok | done | auto].
  - intros id s' Hf' (H1 & H2 & H3 & H4). auto.
Qed.

(** A write whose result is stamped. *)
Lemma step_modify {B} s0 s id f (k : list Z → M St B) Q :
  frame s0 s → live s id → ¬ live s0 id → (∀ p, wf_page p → wf_page (f p)) →
  (∀ p s', buf_of s id p → frame s0 s' → only_at view live id s s' →
    holds s' id (stamp_checksum (f p)) → spec (frame s0) (k p) s' Q) →
  spec (frame s0) (bind (ps_modify id (λ buf, stamp_checksum (f buf))) k) s Q.
Proof.
  intros Hf Hl Hn Hw Hk. eapply (spec_bind _ _ _ _ (λ p s', buf_of s id p ∧
    only_at view live id s s' ∧ holds s' id (stamp_checksum (f p)))).
  - apply modify_rule; auto using stamps_stamp with chisel. intros p v' s' Hp Hf' Ho Hh Hb Hst.
    destruct Hp as [Hp Hp'].
    rewrite <- Hst by (apply stamp_stores_checksum; auto). ands; auto. by split.
  - intros p s' Hf' (H1 & H2 & H3). eauto.
Qed.

(** A read of any page id: what comes back is a page. *)
Lemma step_get {B} s0 s id (k : list Z → M St B) Q :
  quiet s0 s →
  (∀ p s', wf_page p → (∀ v, holds s0 id v → body p = body v) → quiet s0 s' →
    spec (quiet s0) (k p) s' Q) →
  spec (quiet s0) (bind (ps_get id) k) s Q.
Proof.
  intros Hq Hk. eapply (spec_bind _ _ _ _ (λ p _, wf_page p ∧ ∀ v, holds s0 id v → body p = body v)).
  - eapply spec_conseq; [apply get_ok, Hq | |].
    + intros s' Hs'. eapply quiet_trans; [done | exact Hs'].
    + intros p s' _ [Hp Hb]. split; [done |]. intros v Hv. apply Hb. by apply (quiet_holds s0).
  - intros p s' Hs' []. auto.
Qed.
End steps.

(** ** Extra state: the [freed] vector and the module's own fields *)

Definition lift {St X A} (m : M St A) : M (St * X) A := λ sx,
  let '(r, s') := m sx.1 in (r, (s', sx.2)).

(** [freed.push(id)] *)
Definition push_freed {St} (id : Z) : M (St * list Z) unit :=
  writes (λ sx, (sx.1, sx.2 ++ [id])).

Lemma spec_lift {St X A} `{Fault} (F : St * X → Prop) (m : M St A) s x (Q : A → St * X → Prop) :
  spec (λ s', F (s', x)) m s (λ a s', Q a (s', x)) → spec F (lift m) (s, x) Q.
Proof. unfold spec, lift. simpl. destruct (m s) as [r s']. done. Qed.

(** ** Rules for a store with extra state, in continuation form *)

Definition framed {St X} `{StoreOk St} (s0 : St) (sx : St * X) : Prop := frame s0 sx.1.

Section cps.
Context {St X : Type} `{HX : Xxh3} `{HF : Fault} `{HP : !PageStore St} `{HS : !StoreOk St}.
Implicit Types (s : St) (x : X).

Lemma bind_alloc {B} alloc s0 s x (k : Z → M (St * X) B) Q :
  alloc_ok alloc → frame s0 s →
  (∀ id s', ¬ live s id → live s' id → 0 < id < PAGE_ID_NONE → frame s0 s' → ext s s' →
    spec (framed s0) (k id) (s', x) Q) →
  spec (framed s0) (bind (lift alloc) k) (s, x) Q.
Proof.
  intros Ha Hf Hk. eapply (spec_bind _ _ _ _ (λ id sx, ¬ live s id ∧ live sx.1 id ∧
    0 < id < PAGE_ID_NONE ∧ ext s sx.1 ∧ sx.2 = x)).
  - apply spec_lift. apply alloc_rule; [done | done | simpl; auto].
  - intros id [s' x'] Hf' (H1 & H2 & H3 & H4 & H5). simpl in *. subst x'. auto.
Qed.

Lemma bind_get {B} s0 s x id (k : list Z → M (St * X) B) Q :
  frame s0 s →
  (∀ p s', buf_of s id p → frame s0 s' → ext s s' → same view live s s' →
    spec (framed s0) (k p) (s', x) Q) →
  spec (framed s0) (bind (lift (ps_get id)) k) (s, x) Q.
Proof.
  intros Hf Hk. eapply (spec_bind _ _ _ _ (λ p sx, buf_of s id p ∧ ext s sx.1 ∧
    same view live s sx.1 ∧ sx.2 = x)).
  - apply spec_lift. apply get_rule; [done | simpl; auto].
  - intros p [s' x'] Hf' (H1 & H2 & H3 & H4). simpl in *. subst x'. auto.
Qed.

(** A write whose result is stamped. *)
Lemma bind_modify {B} s0 s x id f (k : list Z → M (St * X) B) Q :
  frame s0 s → live s id → ¬ live s0 id → (∀ p, wf_page p → wf_page (f p)) →
  (∀ p s', buf_of s id p → frame s0 s' → only_at view live id s s' →
    holds s' id (stamp_checksum (f p)) →
    spec (framed s0) (k p) (s', x) Q) →
  spec (framed s0) (bind (lift (ps_modify id (λ buf, stamp_checksum (f buf)))) k) (s, x) Q.
Proof.
  intros Hf Hl Hn Hw Hk. eapply (spec_bind _ _ _ _ (λ p sx, buf_of s id p ∧
    only_at view live id s sx.1 ∧ holds sx.1 id (stamp_checksum (f p)) ∧ sx.2 = x)).
  - apply spec_lift. apply modify_rule; auto using stamps_stamp with chisel.
    intros p v' s' Hp Hf' Ho Hh Hb Hst. destruct Hp as [Hp Hp']. simpl.
    rewrite <- Hst by (apply stamp_stores_checksum; auto). ands; auto. by split.
  - intros p [s' x'] Hf' (H1 & H2 & H3 & H4). simpl in *. subst x'. eauto.
Qed.

Lemma bind_copy {B} s0 s x src dst v (k : unit → M (St * X) B) Q :
  frame s0 s → holds s src v → getb 0 v ≠ type_tag DataPageType → live s dst → ¬ live s0 dst →
  (∀ v' s', frame s0 s' → only_at view live dst s s' → holds s' dst v' → body v' = body v →
    spec (framed s0) (k tt) (s', x) Q) →
  spec (framed s0) (bind (lift (copy_page src dst)) k) (s, x) Q.
Proof.
  intros Hf Hs Htag Hl Hn Hk. eapply (spec_bind _ _ _ _ (λ _ sx, ∃ v',
    only_at view live dst s sx.1 ∧ holds sx.1 dst v' ∧ body v' = body v ∧ sx.2 = x)).
  - apply spec_lift. eapply copy_page_rule; eauto.
  - intros [] [s' x'] Hf' (v' & H1 & H2 & H3 & H4). simpl in *. subst x'. eauto.
Qed.
End cps.

Lemma bind_push {St B} `{StoreOk St} (s0 s : St) fr id (k : unit → M (St * list Z) B) Q :
  frame s0 s → spec (framed s0) (k tt) (s, fr ++ [id]) Q →
  spec (framed s0) (bind (push_freed id) k) (s, fr) Q.
Proof.
  intros Hf Hk. eapply (spec_bind _ _ _ _ (λ _ sx, sx = (s, fr ++ [id]))).
  - by split.
  - intros [] sx _ ->. done.
Qed.

Lemma bind_assert {St B} `{Fault} (F : St → Prop) s p b (k : unit → M St B) Q :
  b = true → F s → spec F (k tt) s Q → spec F (bind (assert_that p b) k) s Q.
Proof. intros -> Hf Hk. done. Qed.

Lemma bind_lift {St X A B} `{Fault} (F : St * X → Prop) (m : M St A) s x (k : A → M (St * X) B) Q1 Q :
  spec (λ s', F (s', x)) m s Q1 →
  (∀ a s', F (s', x) → Q1 a s' → spec F (k a) (s', x) Q) →
  spec F (bind (lift m) k) (s, x) Q.
Proof.
  intros Hm Hk. eapply (spec_bind _ _ _ _ (λ a sx, Q1 a sx.1 ∧ sx.2 = x)).
  - apply spec_lift. eapply spec_conseq; [apply Hm | done | done].
  - intros a [s' x'] HF [HQ Hx]. simpl in *. subst. auto.
Qed.

Lemma bind_reads {St A B} `{Fault} (F : St → Prop) (f : St → A) s (k : A → M St B) Q :
  spec F (k (f s)) s Q → spec F (bind (reads f) k) s Q.
Proof. done. Qed.

Lemma bind_writes {St B} `{Fault} (F : St → Prop) (f : St → St) s (k : unit → M St B) Q :
  spec F (k tt) (f s) Q → spec F (bind (writes f) k) s Q.
Proof. done. Qed.

Lemma bind_ret {St A B} `{Fault} (F : St → Prop) (a : A) s (k : A → M St B) Q :
  spec F (k a) s Q → spec F (bind (ret a) k) s Q.
Proof. done. Qed.

Lemma spec_on_err {St A} `{Fault} (F : St → Prop) (m : M St A) h s (Q : A → St → Prop) :
  spec F m s Q → (∀ s', F s' → F (h s')) → spec F (on_err m h) s Q.
Proof.
  intros [HF' HQ] Hh. unfold spec, on_err in *. destruct (m s) as [[a | e | p] s']; simpl in *; auto.
Qed.

(** Steps through the calls of a tree operation. *)
Ltac step_alloc H :=
  apply (bind_alloc _ _ _ _ _ _ H); [done |].
Ltac step_assert := apply bind_assert; [| done |].
