(* ===== verification/MemStore.v ===== *)
(** * A reference page store

    The smallest implementation of the store interface: pages in a finite map and
    a page-id counter, nothing cached and no I/O.  It shows that the interface can
    be met, and the concrete examples of the other files run on it. *)

From S2P Require Export Store.

#[export] Existing Instance sum_hash.

Record MemStore := { mem_pages : gmap Z (list Z); mem_next : Z }.

(** The one fault: the id counter reaches [PAGE_ID_NONE]. *)
#[export] Instance mem_fault : Fault :=
  {| may_err _ := False; may_panic p := p = PanicOverflow |}.

Definition mem_page (s : MemStore) (id : Z) : list Z := default zero_page (mem_pages s !! id).

#[export] Instance mem_store : PageStore MemStore := {|
  ps_get id := λ s, (Ok (mem_page s id), s);
  ps_modify id f := λ s,
    (Ok (mem_page s id), {| mem_pages := <[id := f (mem_page s id)]> (mem_pages s); mem_next := mem_next s |});
  ps_new_page := λ s,
    if mem_next s <? PAGE_ID_NONE then
      (Ok (mem_next s),
       {| mem_pages := <[mem_next s := zero_page]> (mem_pages s); mem_next := mem_next s + 1 |})
    else (Panic PanicOverflow, s);
  ps_next_page_id := mem_next
|}.

Definition mem_inv (s : MemStore) : Prop :=
  0 < mem_next s ≤ PAGE_ID_NONE ∧ ∀ id v, mem_pages s !! id = Some v → wf_page v ∧ 0 ≤ id < mem_next s.

Definition mem_live (s : MemStore) (id : Z) : Prop := is_Some (mem_pages s !! id).

Lemma mem_page_wf s id : mem_inv s → wf_page (mem_page s id).
Proof.
  intros [_ Hw]. unfold mem_page. destruct (mem_pages s !! id) as [v |] eqn:E; [| apply wf_zero_page].
  by apply (Hw id).
Qed.

#[export] Instance mem_store_ok : StoreOk MemStore.
Proof.
  refine {| st_inv := mem_inv; view := mem_pages; live := mem_live |}.
  - intros s id [_ Hw] [v Hv]. by apply (Hw id v).
  - intros s id [Hn Hw] [v Hv]. destruct (Hw id v Hv). lia.
  - intros s id v [_ Hw] Hv. by apply (Hw id).
  - intros s id Hi. split; [split; [done | by intros j] |]. split; [by apply mem_page_wf |].
    intros v Hv. cbn. unfold mem_page. by rewrite Hv.
  - intros s id f Hi Hl Hf _. assert (Hw : wf_page (f (mem_page s id))) by by apply Hf, mem_page_wf.
    split; cbn.
    + split; [split; [apply Hi |] | intros j; split].
      * intros j v. cbn. rewrite lookup_insert_Some. intros [[<- <-] | [_ Hv]]; [| by apply Hi].
        split; [done |]. destruct Hl as [w Hw']. by apply (proj2 Hi id w).
      * unfold mem_live. cbn. destruct (decide (j = id)) as [-> |].
        { rewrite lookup_insert_eq. split; eauto. }
        by rewrite lookup_insert_ne.
      * intros _ Hj. cbn. by rewrite lookup_insert_ne.
    + ands; [by apply mem_page_wf | |].
      * intros v Hv. unfold mem_page. by rewrite Hv.
      * exists (f (mem_page s id)). by rewrite lookup_insert_eq.
  - done.
  - intros s [Hn Hw]. unfold spec. cbn. destruct (Z.ltb_spec (mem_next s) PAGE_ID_NONE); cbn.
    2: by split; [split; [by split | by intros j] |].
    assert (Hnl : mem_pages s !! mem_next s = None).
    { apply eq_None_not_Some. intros [v Hv]. specialize (Hw _ _ Hv). lia. }
    split; [split; [split; cbn; [lia |] |] |].
    + intros j v. rewrite lookup_insert_Some. intros [[<- <-] | [_ Hv]].
      * split; [apply wf_zero_page | lia].
      * specialize (Hw _ _ Hv) as [? ?]. split; [done | lia].
    + intros j [v Hv]. unfold mem_live. cbn.
      rewrite lookup_insert_ne by congruence. rewrite Hv. eauto.
    + unfold mem_live. cbn. rewrite Hnl, lookup_insert_eq. ands; [by intros [] | eauto | lia | done].
Defined.

Definition mem_empty : MemStore := {| mem_pages := ∅; mem_next := 1 |}.

Lemma mem_empty_inv : st_inv mem_empty.
Proof. split; [done |]. intros id v. cbn. by rewrite lookup_empty. Qed.

(** [new_page] is the allocator of a transaction with nothing to recycle. *)
Lemma new_page_alloc_ok {St} `{StoreOk St} : alloc_ok ps_new_page.
Proof. intros s Hs. by apply new_page_ok. Qed.
