(* ===== verification/PageIo.v ===== *)
(** * The page file ([src/page_io.rs])

    The backing bytes (a file or a vector) and the page units in them.  What the
    operating system answers to the coming file operations is part of the state: no
    answer is success; an error comes with the number of bytes that a failing write
    had written.  Locking, permissions and paths are left out. *)

From S2P Require Export Page.

(** ** Backing bytes *)

(** [Vec::resize(n, 0)] where it grows; also a file written past its end. *)
Definition extend_to (n : Z) (l : list Z) : list Z := l ++ zeros (n - zlen l).

(** [Vec::resize(n, 0)] and [set_len(n)]. *)
Definition resize_to (n : Z) (l : list Z) : list Z := take (Z.to_nat n) (extend_to n l).

(** Write [data] at [off], past the end if need be. *)
Definition overwrite (off : Z) (data l : list Z) : list Z :=
  match data with
  | [] => l
  | _ => splice off data (extend_to (off + zlen data) l)
  end.

Module Backing.

Record Backing := {
  file_backed : bool;
  bytes : list Z;
  answers : list (option (ErrorKind * nat))
}.

Definition set_bytes (b : list Z) (self : Backing) : Backing :=
  {| file_backed := file_backed self; bytes := b; answers := answers self |}.

(** The answer to the next file operation; memory operations ask for none. *)
Definition ask : M Backing (option (ErrorKind * nat)) := λ self,
  if file_backed self then
    match answers self with
    | [] => (Ok None, self)
    | a :: rest => (Ok a, {| file_backed := true; bytes := bytes self; answers := rest |})
    end
  else (Ok None, self).

(** [seek] and [read_exact], or a slice of the vector; [short] is what the code does
    with a vector that is too short. *)
Definition read_at (off n : Z) (short : M Backing (list Z)) : M Backing (list Z) :=
  let* a := ask in
  match a with
  | Some (k, _) => fail (from_io_error k)
  | None =>
      let* self := reads id in
      if zlen (bytes self) <? off + n then
        if file_backed self then fail (from_io_error UnexpectedEof) else short
      else ret (slice off n (bytes self))
  end.

(** [seek] and [write_all], or a write to the vector. *)
Definition write_at (off : Z) (data : list Z) : M Backing unit :=
  let* a := ask in
  match a with
  | Some (k, written) =>
      writes (λ self, set_bytes (overwrite off (take written data) (bytes self)) self) ;;;
      fail (from_io_error k)
  | None => writes (λ self, set_bytes (overwrite off data (bytes self)) self)
  end.

Definition set_len (n : Z) : M Backing unit :=
  let* a := ask in
  match a with
  | Some (k, _) => fail (from_io_error k)
  | None => writes (λ self, set_bytes (resize_to n (bytes self)) self)
  end.

(** [sync_all], or a [seek] by itself *)
Definition sync : M Backing unit :=
  let* a := ask in
  match a with
  | Some (k, _) => fail (from_io_error k)
  | None => ret tt
  end.
End Backing.

(** ** Page units *)

Module PageIo.
Import Backing.

Record PageIo := {
  backing : Backing;
  read_only : bool;
  stride : Z;
  fsync_calls : Z;
  cached_page_count : Z
}.

Definition set_backing (b : Backing) (io : PageIo) : PageIo :=
  {| backing := b; read_only := read_only io; stride := stride io; fsync_calls := fsync_calls io;
     cached_page_count := cached_page_count io |}.

Definition set_count (n : Z) (io : PageIo) : PageIo :=
  {| backing := backing io; read_only := read_only io; stride := stride io; fsync_calls := fsync_calls io;
     cached_page_count := n |}.

Definition on_backing {A} (m : M Backing A) : M PageIo A := λ io,
  let '(r, b) := m (backing io) in (r, set_backing b io).

(** [PageIo::open] once the file is open and locked. *)
Definition open (file_bytes : list Z) (answers : list (option (ErrorKind * nat))) (read_only : bool) : PageIo :=
  {| backing := {| file_backed := true; bytes := file_bytes; answers := answers |};
     read_only := read_only; stride := PAGE_SIZE; fsync_calls := 0;
     cached_page_count := zlen file_bytes / PAGE_SIZE |}.

Definition open_in_memory : PageIo :=
  {| backing := {| file_backed := false; bytes := []; answers := [] |};
     read_only := false; stride := PAGE_SIZE; fsync_calls := 0; cached_page_count := 0 |}.

Definition is_read_only (io : PageIo) : bool := read_only io.

Definition force_read_only (io : PageIo) : PageIo :=
  {| backing := backing io; read_only := true; stride := stride io; fsync_calls := fsync_calls io;
     cached_page_count := cached_page_count io |}.

(** A failing [seek] counts as length 0. *)
Definition set_stride (n : Z) : M PageIo unit :=
  let* a := on_backing ask in
  writes (λ io,
    let len := match a with Some _ => 0 | None => zlen (bytes (backing io)) end in
    {| backing := backing io; read_only := read_only io; stride := n; fsync_calls := fsync_calls io;
       cached_page_count := len / n |}).

Definition page_count (io : PageIo) : Z := cached_page_count io.

Definition byte_len : M PageIo Z :=
  let* a := on_backing ask in
  match a with
  | Some (k, _) => fail (from_io_error k)
  | None => reads (λ io, zlen (bytes (backing io)))
  end.

(** [page_id * stride as u64] is checked. *)
Definition read_page_unit (page_id : Z) : M PageIo (list Z) :=
  let* io := reads id in
  if page_count io <=? page_id then fail (InvalidPageId page_id) else
  if u64_max <? page_id * stride io then crash PanicOverflow else
  on_backing (read_at (page_id * stride io) (stride io) (crash PanicSlice)).

(** The same into the caller's buffer, whose length the caller passes. *)
Definition read_page_unit_into (page_id buf_len : Z) : M PageIo (list Z) :=
  let* io := reads id in
  if page_count io <=? page_id then fail (InvalidPageId page_id) else
  assert_that PanicAssert (buf_len =? stride io) ;;;
  if u64_max <? page_id * stride io then crash PanicOverflow else
  on_backing (read_at (page_id * stride io) (stride io) (crash PanicSlice)).

Definition write_page_unit (page_id : Z) (blob : list Z) : M PageIo unit :=
  let* io := reads id in
  if read_only io then fail ReadOnlyMode else
  if negb (zlen blob =? stride io) then fail (IoError OtherKind) else
  if u64_max <? page_id * stride io then crash PanicOverflow else
  on_backing (write_at (page_id * stride io) blob) ;;;
  if u64_max <? page_id + 1 then crash PanicOverflow else
  let needed := page_id + 1 in
  writes (λ io, if cached_page_count io <? needed then set_count needed io else io).

Definition read_page (page_id : Z) : M PageIo (list Z) :=
  let* io := reads id in
  if negb (stride io =? PAGE_SIZE) then fail (IoError OtherKind) else
  read_page_unit page_id.

Definition write_page (page_id : Z) (buf : list Z) : M PageIo unit :=
  let* io := reads id in
  assert_that PanicAssert (stride io =? PAGE_SIZE) ;;;
  write_page_unit page_id buf.

Definition fsync : M PageIo unit :=
  let* io := reads id in
  if read_only io then fail ReadOnlyMode else
  on_backing sync ;;;
  writes (λ io, {| backing := backing io; read_only := read_only io; stride := stride io;
    fsync_calls := fsync_calls io + 1; cached_page_count := cached_page_count io |}).

Definition fsync_count (io : PageIo) : Z := fsync_calls io.

Definition set_page_count (n : Z) : M PageIo unit :=
  let* io := reads id in
  if read_only io then fail ReadOnlyMode else
  if u64_max <? n * stride io then crash PanicOverflow else
  on_backing (set_len (n * stride io)) ;;;
  writes (set_count n).
End PageIo.

(** ** Lemmas on bytes *)

Lemma zlen_extend n l : zlen (extend_to n l) = Z.max n (zlen l).
Proof.
  unfold extend_to, zeros. rewrite zlen_app. unfold zlen. rewrite length_replicate. lia.
Qed.

Lemma slice_extend o k n l : 0 ≤ o → 0 ≤ k → o + k ≤ zlen l → slice o k (extend_to n l) = slice o k l.
Proof.
  intros. unfold slice, extend_to, zlen in *. rewrite drop_app_le by lia. rewrite take_app_le; [done |].
  rewrite length_drop. lia.
Qed.

Lemma extend_bytes n l : bytes_ok l → bytes_ok (extend_to n l).
Proof. intros. apply Forall_app. split; [done | apply bytes_ok_zeros]. Qed.

Lemma overwrite_cons off data l :
  data ≠ [] → overwrite off data l = splice off data (extend_to (off + zlen data) l).
Proof. by destruct data. Qed.

Lemma zlen_overwrite off data l :
  0 ≤ off → data ≠ [] → zlen (overwrite off data l) = Z.max (zlen l) (off + zlen data).
Proof.
  intros Ho Hd. rewrite overwrite_cons by done. rewrite zlen_splice; rewrite ?zlen_extend; lia.
Qed.

Lemma zlen_overwrite_ge off data l : 0 ≤ off → zlen l ≤ zlen (overwrite off data l).
Proof. intros Ho. destruct data as [| x data]; [done |]. rewrite zlen_overwrite by done. lia. Qed.

Lemma slice_overwrite_same off data l n :
  0 ≤ off → n = zlen data → data ≠ [] → slice off n (overwrite off data l) = data.
Proof.
  intros Ho -> Hd. rewrite overwrite_cons by done. apply slice_splice_same; [done | | done].
  rewrite zlen_extend. lia.
Qed.

Lemma slice_overwrite_out o n off data l :
  0 ≤ o → 0 ≤ n → 0 ≤ off → o + n ≤ zlen l → o + n ≤ off ∨ off + zlen data ≤ o →
  slice o n (overwrite off data l) = slice o n l.
Proof.
  intros. destruct data as [| x data]; [done |]. rewrite overwrite_cons by done.
  rewrite slice_splice_out by (rewrite ?zlen_extend; lia). by apply slice_extend.
Qed.

Lemma overwrite_bytes off data l : bytes_ok data → bytes_ok l → bytes_ok (overwrite off data l).
Proof.
  intros Hd Hl. destruct data as [| x data]; [done |]. rewrite overwrite_cons by done.
  apply bytes_ok_splice; [done | by apply extend_bytes].
Qed.

Lemma slice_bytes o n l : bytes_ok l → bytes_ok (slice o n l).
Proof. intros. by apply Forall_take, Forall_drop. Qed.

Lemma take_bytes n l : bytes_ok l → bytes_ok (take n l).
Proof. apply Forall_take. Qed.

Lemma zlen_take_le {A} n (l : list A) : zlen (take n l) ≤ zlen l.
Proof. unfold zlen. rewrite length_take. lia. Qed.

(** ** The faults of the storage stack *)

(** What the page file, the spill file and the cache may report: an error of the
    operating system, a limit, or, where [bad] holds, that a page is not there or not
    intact.  The one panic, where [over] holds, is an arithmetic overflow. *)
Definition cache_fault (bad over : Prop) : Fault := {|
  may_err e := match e with
    | IoError _ | FileNotFound | ReadOnlyMode | CacheFull _ | SpillwayFull _ => True
    | InvalidPageId _ | ChecksumMismatch _ | DecryptionFailed _ => bad
    | _ => False
    end;
  may_panic p := over ∧ p = PanicOverflow
|}.

Lemma cache_fault_mono {S A} (bad over bad' over' : Prop) F (m : M S A) s (Q : A → S → Prop) :
  spec (H := cache_fault bad over) F m s Q → (bad → bad') → (over → over') → spec (H := cache_fault bad' over') F m s Q.
Proof.
  intros Hm Hb Ho. eapply spec_weaken; [| | exact Hm]; cbn; [intros [] | intros p []]; auto.
Qed.

Module PageIoFacts.
Import Backing PageIo.

Section backing.
Variables bad over : Prop.
#[local] Instance backing_fault : Fault := cache_fault bad over.

Lemma io_err k : may_err (from_io_error k).
Proof. by destruct k. Qed.

(** Reads change the pending answers only. *)
Definition same_bytes (b b' : Backing) : Prop :=
  file_backed b' = file_backed b ∧ bytes b' = bytes b.

Lemma ask_spec b : spec (same_bytes b) ask b (λ _ _, True).
Proof. unfold spec, ask. destruct b as [[] bs [| a rest]]; by split. Qed.

Lemma read_at_spec b off n short :
  off + n ≤ zlen (bytes b) → spec (same_bytes b) (read_at off n short) b (λ r _, r = slice off n (bytes b)).
Proof.
  intros Hl. unfold read_at. eapply spec_bind; [apply ask_spec |]. intros [[k w] |] b1 Hb _.
  - by apply spec_fail, io_err.
  - unfold reads, bind. destruct Hb as [Hf Hb]. unfold spec. cbn. rewrite Hb.
    destruct (Z.ltb_spec (zlen (bytes b)) (off + n)); [lia |]. by rewrite <- Hb.
Qed.

(** A write replaces [data], or on an error a prefix of it. *)
Lemma write_at_spec b off data :
  spec (λ b', file_backed b' = file_backed b ∧ ∃ n, bytes b' = overwrite off (take n data) (bytes b) ∨ bytes b' = bytes b)
    (write_at off data) b (λ _ b', bytes b' = overwrite off data (bytes b)).
Proof.
  unfold write_at. eapply spec_bind.
  { eapply spec_conseq; [apply ask_spec | | exact (λ _ _ H _, H)]. intros b' [Hf Hb]. split; [done |]. exists 0%nat. by right. }
  intros [[k w] |] b1 [Hf1 _] [Hf Hb]; cbn beta in *.
  - unfold bind, writes, fail, spec. cbn. split; [| apply io_err]. split; [by rewrite Hf |]. exists w. left. by rewrite Hb.
  - apply spec_writes; cbn; [| by rewrite Hb]. split; [by rewrite Hf |]. exists (length data). left.
    by rewrite Hb, firstn_all.
Qed.

End backing.

(** ** Page units *)

Section facts.
Variable bad : Prop.
#[local] Instance io_fault : Fault := cache_fault bad True.

Definition unit_at (io : PageIo) (page_id : Z) : list Z :=
  slice (page_id * stride io) (stride io) (bytes (backing io)).

Record io_inv (io : PageIo) : Prop := {
  io_stride : 0 < stride io;
  io_bytes : bytes_ok (bytes (backing io));
  io_count : 0 ≤ cached_page_count io ∧ cached_page_count io * stride io ≤ zlen (bytes (backing io))
}.

(** All but the pending answers. *)
Definition io_same (io io' : PageIo) : Prop :=
  same_bytes (backing io) (backing io') ∧ read_only io' = read_only io ∧ stride io' = stride io ∧
  cached_page_count io' = cached_page_count io.

Lemma io_backing {A} `{HF : Fault} (F : PageIo → Prop) (m : M Backing A) io (Q : A → PageIo → Prop) :
  spec (λ b, F (set_backing b io)) m (backing io) (λ a b, Q a (set_backing b io)) → spec F (on_backing m) io Q.
Proof. unfold spec, on_backing. by destruct (m (backing io)). Qed.

Lemma unit_range io id :
  io_inv io → 0 ≤ id < cached_page_count io → 0 ≤ id * stride io ∧ id * stride io + stride io ≤ zlen (bytes (backing io)).
Proof. intros [Hs _ [_ Hc]] Hid. nia. Qed.

Lemma unit_ok io id :
  io_inv io → 0 ≤ id < cached_page_count io → zlen (unit_at io id) = stride io ∧ bytes_ok (unit_at io id).
Proof.
  intros Hi Hid. pose proof (unit_range io id Hi Hid). pose proof (io_stride _ Hi). split; [apply length_slice; lia |].
  by apply slice_bytes, io_bytes.
Qed.

Lemma io_same_unit io io' id : io_same io io' → unit_at io' id = unit_at io id.
Proof. intros ([_ Hb] & _ & Hs & _). unfold unit_at. by rewrite Hb, Hs. Qed.

Lemma io_same_inv io io' : io_same io io' → io_inv io → io_inv io'.
Proof. intros ([_ Hb] & _ & Hs & Hc) [H1 H2 H3]. split; rewrite ?Hb, ?Hs, ?Hc; done. Qed.

Lemma io_same_refl io : io_same io io.
Proof. done. Qed.

Lemma read_unit_spec io id n :
  io_inv io → 0 ≤ id → n = stride io → (cached_page_count io ≤ id → bad) →
  spec (io_same io) (read_page_unit_into id n) io (λ u _, 0 ≤ id < cached_page_count io ∧ u = unit_at io id).
Proof.
  intros Hi Hid -> Hbad. unfold read_page_unit_into, page_count. apply (spec_bind _ _ _ _ (λ x io', x = io ∧ io' = io)); [done |].
  intros x io' _ [-> ->]. destruct (Z.leb_spec (cached_page_count io) id); [apply spec_fail; [done | by apply Hbad] |].
  rewrite Z.eqb_refl. unfold assert_that, bind at 1. cbn [ret].
  destruct (Z.ltb_spec u64_max (id * stride io)); [split; [done | done] |].
  apply io_backing. eapply spec_conseq; [apply read_at_spec | |].
  - apply unit_range; [done | lia].
  - intros b Hb. done.
  - intros u b _ ->. split; [lia | done].
Qed.
(** Between [io] and [io'] the units other than [id] are as they were. *)
Record io_wrote (id : Z) (io io' : PageIo) : Prop := {
  iw_inv : io_inv io';
  iw_mode : read_only io' = read_only io ∧ stride io' = stride io;
  iw_count : cached_page_count io ≤ cached_page_count io' ≤ Z.max (cached_page_count io) (id + 1);
  iw_other : ∀ j, 0 ≤ j < cached_page_count io → j ≠ id → unit_at io' j = unit_at io j
}.

Lemma io_wrote_refl id io : io_inv io → io_wrote id io io.
Proof. split; [done | done | lia | done]. Qed.

(** The bytes of unit [id] were overwritten, in part or in whole. *)
Lemma overwrite_wrote io id data b n :
  io_inv io → 0 ≤ id → zlen data ≤ stride io → bytes_ok data →
  cached_page_count io ≤ n ≤ Z.max (cached_page_count io) (id + 1) →
  bytes b = overwrite (id * stride io) data (bytes (backing io)) → n * stride io ≤ zlen (bytes b) →
  io_wrote id io (set_count n (set_backing b io)).
Proof.
  intros Hi Hid Hd Hb Hn E Hlen. pose proof (io_stride _ Hi). pose proof (io_count _ Hi) as [Hc0 _].
  split; cbn [backing read_only stride cached_page_count set_count set_backing]; [| done | done |].
  - split; cbn; [done | rewrite E; apply overwrite_bytes; [done | apply Hi] | lia].
  - intros j Hj Hji. unfold unit_at. cbn. rewrite E. pose proof (unit_range io j Hi Hj).
    apply slice_overwrite_out; [lia.. |]. destruct (Z.lt_ge_cases j id); [left | right]; nia.
Qed.

Lemma write_unit_spec io id blob :
  io_inv io → 0 ≤ id → bytes_ok blob →
  spec (io_wrote id io) (write_page_unit id blob) io
    (λ _ io', unit_at io' id = blob ∧ cached_page_count io' = Z.max (cached_page_count io) (id + 1)).
Proof.
  intros Hi Hid Hb. unfold write_page_unit. apply (spec_bind _ _ _ _ (λ x io', x = io ∧ io' = io));
    [split; [by apply io_wrote_refl | done] |].
  intros x io' _ [-> ->]. pose proof (io_stride _ Hi) as Hs. pose proof (io_count _ Hi) as [Hc0 Hc].
  destruct (read_only io); [apply spec_fail; [by apply io_wrote_refl | done] |].
  destruct (Z.eqb_spec (zlen blob) (stride io)) as [Hl |]; cbn [negb]; [| apply spec_fail; [by apply io_wrote_refl | done]].
  destruct (Z.ltb_spec u64_max (id * stride io)); [split; [by apply io_wrote_refl | done] |].
  assert (Hne : blob ≠ []) by (intros ->; unfold zlen in Hl; cbn in Hl; lia).
  assert (Hw1 : ∀ b data, zlen data ≤ stride io → bytes_ok data →
    bytes b = overwrite (id * stride io) data (bytes (backing io)) → io_wrote id io (set_backing b io)).
  { intros b data Hd Hdb E. change (set_backing b io) with (set_count (cached_page_count io) (set_backing b io)).
    eapply overwrite_wrote; [done | done | done | done | lia | exact E |]. rewrite E. etrans; [exact Hc | apply zlen_overwrite_ge; nia]. }
  assert (Hw : ∀ b n, bytes b = overwrite (id * stride io) (take n blob) (bytes (backing io)) ∨ bytes b = bytes (backing io) →
    io_wrote id io (set_backing b io)).
  { intros b n [E | E]; [apply (Hw1 b (take n blob)); [| by apply take_bytes | done] | apply (Hw1 b []); [unfold zlen; cbn; lia | constructor | done]].
    pose proof (zlen_take_le n blob). lia. }
  apply (spec_bind _ _ _ _ (λ _ io', ∃ b, io' = set_backing b io ∧ bytes b = overwrite (id * stride io) blob (bytes (backing io)))).
  { apply io_backing. eapply spec_conseq; [apply write_at_spec | |].
    - intros b (_ & n & Hbb). by apply (Hw b n).
    - intros [] b _ Hbb. by exists b. }
  intros [] io' Hio (b & -> & Hbb).
  destruct (Z.ltb_spec u64_max (id + 1)); [split; [done | done] |].
  assert (Hlen : zlen (bytes b) = Z.max (zlen (bytes (backing io))) (id * stride io + stride io)).
  { rewrite Hbb, zlen_overwrite by (nia || done). by rewrite Hl. }
  assert (Hunit : unit_at (set_backing b io) id = blob).
  { unfold unit_at. cbn. rewrite Hbb. apply slice_overwrite_same; [nia | done | done]. }
  apply spec_writes; cbn [cached_page_count set_backing]; destruct (Z.ltb_spec (cached_page_count io) (id + 1)).
  - apply (overwrite_wrote io id blob); [done | done | lia | done | lia | exact Hbb |]. rewrite Hlen. nia.
  - done.
  - split; [exact Hunit | cbn; lia].
  - split; [exact Hunit | cbn; lia].
Qed.
End facts.
End PageIoFacts.
