(* ===== verification/Spillway.v ===== *)
(** * The spillway ([src/spillway.rs])

    Dirty pages that do not fit the cache are kept in slots of a side file until the
    commit.  A slot is a header (page id and checksum) and the page's blob.  The
    order in which the hash map lists its keys is a parameter. *)

From S2P Require Export PageIo Store.

(** [HashMap::keys]: every key once, in some order. *)
Class HashOrder := {
  key_order : ∀ {A}, gmap Z A → list Z;
  key_order_perm : ∀ {A} (m : gmap Z A), key_order m ≡ₚ (map_to_list m).*1
}.

Module Spillway.
Import Backing.

Definition SLOT_HEADER_SIZE : Z := 16.

Record Spillway := {
  backing : Backing;
  slots : gmap Z Z;
  next_slot_index : Z;
  max_bytes : Z;
  payload_size : Z
}.

(** [open_file] once the side file is created empty, with its pending answers. *)
Definition open_file (answers : list (option (ErrorKind * nat))) (max_bytes payload_size : Z) : Spillway :=
  {| backing := {| file_backed := true; bytes := []; answers := answers |};
     slots := ∅; next_slot_index := 0; max_bytes := max_bytes; payload_size := payload_size |}.

Definition open_memory (max_bytes payload_size : Z) : Spillway :=
  {| backing := {| file_backed := false; bytes := []; answers := [] |};
     slots := ∅; next_slot_index := 0; max_bytes := max_bytes; payload_size := payload_size |}.

Definition is_resident (self : Spillway) (page_id : Z) : bool := bool_decide (is_Some (slots self !! page_id)).
Definition slot_count (self : Spillway) : Z := Z.of_nat (size (slots self)).
Definition logical_bytes (self : Spillway) : Z := slot_count self * payload_size self.

Definition set_max_bytes (n : Z) (self : Spillway) : Spillway :=
  {| backing := backing self; slots := slots self; next_slot_index := next_slot_index self;
     max_bytes := n; payload_size := payload_size self |}.

Definition set_slots (m : gmap Z Z) (next : Z) (self : Spillway) : Spillway :=
  {| backing := backing self; slots := m; next_slot_index := next;
     max_bytes := max_bytes self; payload_size := payload_size self |}.

Definition on_backing {A} (m : M Backing A) : M Spillway A := λ self,
  let '(r, b) := m (backing self) in
  (r, {| backing := b; slots := slots self; next_slot_index := next_slot_index self;
         max_bytes := max_bytes self; payload_size := payload_size self |}).

Section ops.
Context `{HX : Xxh3} `{HO : HashOrder}.

(** The streaming hash of the id and the blob is the hash of their concatenation. *)
Definition slot_checksum (page_id : Z) (blob : list Z) : Z := xxh3_64 (le_encode 8 page_id ++ blob).

Definition slot_size (self : Spillway) : Z := SLOT_HEADER_SIZE + payload_size self.

(** The byte offset of a slot is exact: it leaves 64 bits only after more than
    [2^50] spills with no commit between them. *)
Definition write_slot (slot_index page_id : Z) (blob : list Z) : M Spillway unit :=
  let* self := reads id in
  let checksum := slot_checksum page_id blob in
  let offset := slot_index * slot_size self in
  let header := le_encode 8 page_id ++ le_encode 8 checksum in
  on_backing (write_at offset (header ++ blob)).

Definition read_slot (slot_index : Z) : M Spillway (Z * Z * list Z) :=
  let* self := reads id in
  let offset := slot_index * slot_size self in
  let* slot := on_backing (read_at offset (slot_size self) (fail (IoError UnexpectedEof))) in
  let header := slice 0 SLOT_HEADER_SIZE slot in
  let blob := slice SLOT_HEADER_SIZE (payload_size self) slot in
  ret (le_decode (slice 0 8 header), le_decode (slice 8 8 header), blob).

Definition spill (page_id : Z) (blob : list Z) : M Spillway unit :=
  let* self := reads id in
  assert_that PanicAssert (zlen blob =? payload_size self) ;;;
  let* slot_index :=
    match slots self !! page_id with
    | Some existing => ret existing
    | None =>
        let post_write_bytes := (slot_count self + 1) * payload_size self in
        if max_bytes self <? post_write_bytes then fail (SpillwayFull (max_bytes self)) else
        let new_index := next_slot_index self in
        writes (set_slots (<[page_id := new_index]> (slots self)) (new_index + 1)) ;;;
        ret new_index
    end in
  write_slot slot_index page_id blob.

Definition truncate : M Spillway unit :=
  writes (set_slots ∅ 0) ;;;
  on_backing (set_len 0) ;;;
  on_backing sync.  (* the seek to the start *)

Definition drain_batch (self : Spillway) (batch_size : Z) : list Z :=
  take (Z.to_nat batch_size) (key_order (slots self)).

Definition forget (page_id : Z) (self : Spillway) : Spillway :=
  set_slots (delete page_id (slots self)) (next_slot_index self) self.

Definition forget_above (n : Z) (self : Spillway) : Spillway :=
  set_slots (filter (λ kv, kv.1 < n) (slots self)) (next_slot_index self) self.

Definition rehydrate (page_id : Z) : M Spillway (list Z) :=
  let* self := reads id in
  match slots self !! page_id with
  | None => fail (InvalidPageId page_id)
  | Some slot_index =>
      let* '(stored_page_id, stored_checksum, blob) := read_slot slot_index in
      if negb (stored_page_id =? page_id) then fail (ChecksumMismatch page_id) else
      let computed := slot_checksum page_id blob in
      if negb (computed =? stored_checksum) then fail (ChecksumMismatch page_id) else
      ret blob
  end.
End ops.
End Spillway.

Module SpillwayFacts.
Import Backing PageIoFacts Spillway.

Section facts.
Context `{HX : Xxh3}.
Variable bad : Prop.
#[local] Instance sp_fault : Fault := cache_fault bad False.

(** What the slot at an index decodes to for a page id: what [rehydrate] returns. *)
Definition decode_slot (self : Spillway) (page_id slot_index : Z) : option (list Z) :=
  let off := slot_index * slot_size self in
  let blob := slice (off + SLOT_HEADER_SIZE) (payload_size self) (bytes (backing self)) in
  if (off + slot_size self <=? zlen (bytes (backing self)))
     && (le_decode (slice off 8 (bytes (backing self))) =? page_id)
     && (slot_checksum page_id blob =? le_decode (slice (off + 8) 8 (bytes (backing self))))
  then Some blob else None.

(** The blob of a spilled page. *)
Definition spilled (self : Spillway) (page_id : Z) : option (list Z) :=
  match slots self !! page_id with
  | Some i => decode_slot self page_id i
  | None => None
  end.

Record sp_inv (self : Spillway) : Prop := {
  sp_bytes : bytes_ok (bytes (backing self));
  sp_payload : 0 < payload_size self;
  sp_next : 0 ≤ next_slot_index self;
  sp_range : ∀ id i, slots self !! id = Some i → 0 ≤ i < next_slot_index self;
  sp_inj : ∀ id id' i, slots self !! id = Some i → slots self !! id' = Some i → id = id'
}.

Lemma spilled_blob self id blob :
  sp_inv self → spilled self id = Some blob → zlen blob = payload_size self ∧ bytes_ok blob.
Proof.
  intros Hi. unfold spilled, decode_slot. destruct (slots self !! id) as [i |] eqn:E; [| done].
  pose proof (sp_range _ Hi _ _ E). pose proof (sp_payload _ Hi). unfold slot_size, SLOT_HEADER_SIZE in *.
  destruct (Z.leb_spec (i * (16 + payload_size self) + (16 + payload_size self)) (zlen (bytes (backing self)))); [| done].
  cbn [andb]. destruct (_ && _); [| done]. intros [= <-]. split; [apply length_slice; nia |].
  by apply slice_bytes, sp_bytes.
Qed.

(** All but the pending answers. *)
Definition sp_same (self self' : Spillway) : Prop :=
  same_bytes (backing self) (backing self') ∧ slots self' = slots self ∧ next_slot_index self' = next_slot_index self ∧
  max_bytes self' = max_bytes self ∧ payload_size self' = payload_size self.

Lemma sp_same_inv self self' : sp_same self self' → sp_inv self → sp_inv self'.
Proof. intros ([_ Hb] & Hs & Hn & _ & Hp) [H1 H2 H3 H4 H5]. split; rewrite ?Hb, ?Hs, ?Hn, ?Hp; done. Qed.

Lemma sp_same_spilled self self' id : sp_same self self' → spilled self' id = spilled self id.
Proof. intros ([_ Hb] & Hs & _ & _ & Hp). unfold spilled, decode_slot, slot_size. by rewrite Hb, Hs, Hp. Qed.

Lemma spec_backing {A} `{HF : Fault} (F : Spillway → Prop) (m : M Backing A) self (Q : A → Spillway → Prop) :
  let put b := {| backing := b; slots := slots self; next_slot_index := next_slot_index self;
                  max_bytes := max_bytes self; payload_size := payload_size self |} in
  spec (λ b, F (put b)) m (backing self) (λ a b, Q a (put b)) → spec F (on_backing m) self Q.
Proof. unfold spec, on_backing. by destruct (m (backing self)). Qed.
Lemma reads_id {S B} `{HF : Fault} (F : S → Prop) s (k : S → M S B) Q :
  spec F (k s) s Q → spec F (bind (reads id) k) s Q.
Proof. done. Qed.

(** A step that is known to succeed. *)
Lemma bind_run {S A B} `{HF : Fault} (F : S → Prop) (m : M S A) (k : A → M S B) s a s' Q :
  m s = (Ok a, s') → spec F (k a) s' Q → spec F (bind m k) s Q.
Proof. intros E. unfold spec, bind. by rewrite E. Qed.

(** The fields of a slot. *)
Lemma slot_fields (l : list Z) off p :
  0 ≤ off → 0 ≤ p →
  slice 0 8 (slice 0 16 (slice off (16 + p) l)) = slice off 8 l ∧
  slice 8 8 (slice 0 16 (slice off (16 + p) l)) = slice (off + 8) 8 l ∧
  slice 16 p (slice off (16 + p) l) = slice (off + 16) p l.
Proof. intros. rewrite !slice_slice by lia. rewrite ?Z.add_0_l, ?Z.add_0_r. done. Qed.

Lemma rehydrate_spec self page_id :
  sp_inv self → (spilled self page_id = None → bad) →
  spec (sp_same self) (rehydrate page_id) self (λ blob _, spilled self page_id = Some blob).
Proof.
  intros Hi Hbad. unfold rehydrate. apply reads_id. unfold spilled in *.
  destruct (slots self !! page_id) as [i |] eqn:E; [| apply spec_fail; [done | by apply Hbad]].
  pose proof (sp_range _ Hi _ _ E) as Hr. pose proof (sp_payload _ Hi) as Hp.
  set (off := i * slot_size self) in *.
  assert (Hoff : 0 ≤ off) by (unfold off, slot_size, SLOT_HEADER_SIZE; nia).
  eapply (spec_bind _ _ _ _ (λ r _, r = (le_decode (slice off 8 (bytes (backing self))),
    le_decode (slice (off + 8) 8 (bytes (backing self))),
    slice (off + SLOT_HEADER_SIZE) (payload_size self) (bytes (backing self))) ∧
    off + slot_size self ≤ zlen (bytes (backing self)))).
  - unfold read_slot. apply reads_id. fold off.
    eapply (spec_bind _ _ _ _ (λ r _, r = slice off (slot_size self) (bytes (backing self)) ∧
      off + slot_size self ≤ zlen (bytes (backing self)))).
    + apply spec_backing. destruct (Z.le_gt_cases (off + slot_size self) (zlen (bytes (backing self)))) as [Hle | Hgt].
      * eapply spec_conseq; [by apply read_at_spec | |]; [intros b Hb; done | intros r b _ ->; done].
      * unfold read_at. eapply spec_bind; [eapply spec_conseq; [apply ask_spec | | exact (λ _ _ H _, H)]; intros b Hb; done |].
        intros [[k w] |] b Hf Hb; [by apply spec_fail, io_err |]. apply reads_id. destruct Hb as [_ ->].
        destruct (Z.ltb_spec (zlen (bytes (backing self))) (off + slot_size self)); [| lia].
        destruct (file_backed b); [by apply spec_fail, io_err | by apply spec_fail].
    + intros r self1 Hs [-> Hle]. apply spec_ret; [done |]. unfold slot_size, SLOT_HEADER_SIZE in *.
      destruct (slot_fields (bytes (backing self)) off (payload_size self)) as (-> & -> & ->); [done | lia |]. done.
  - intros [[stored ck] blob] self1 Hs [[= -> -> ->] Hle]. unfold decode_slot in *. fold off in Hbad |- *.
    destruct (Z.leb_spec (off + slot_size self) (zlen (bytes (backing self)))); [| lia]. cbn [andb] in *.
    destruct (Z.eqb_spec (le_decode (slice off 8 (bytes (backing self)))) page_id); cbn [negb andb] in *;
      [| apply spec_fail; [done | by apply Hbad]].
    destruct (_ =? _); cbn [negb andb] in *; [by apply spec_ret | apply spec_fail; [done | by apply Hbad]].
Qed.
(** ** Spilling *)

Record sp_wrote (page_id : Z) (self self' : Spillway) : Prop := {
  sw_inv : sp_inv self';
  sw_modes : payload_size self' = payload_size self ∧ max_bytes self' = max_bytes self;
  sw_slots : ∀ j, j ≠ page_id → slots self' !! j = slots self !! j;
  sw_keep : ∀ j b, j ≠ page_id → spilled self j = Some b → spilled self' j = Some b
}.

Lemma sp_wrote_refl page_id self : sp_inv self → sp_wrote page_id self self.
Proof. by split. Qed.

Lemma sp_wrote_trans page_id s1 s2 s3 : sp_wrote page_id s1 s2 → sp_wrote page_id s2 s3 → sp_wrote page_id s1 s3.
Proof.
  intros [I1 [P1 M1] S1 K1] [I2 [P2 M2] S2 K2]. split; [done | split; congruence | |].
  - intros j Hj. by rewrite S2, S1.
  - intros j b Hj Hb. auto.
Qed.

(** Bytes written within slot [i], which is the page's own. *)
Lemma slot_wrote page_id self b data i n :
  sp_inv self → slots self !! page_id = Some i → zlen data = slot_size self → bytes_ok data →
  bytes b = overwrite (i * slot_size self) (take n data) (bytes (backing self)) →
  sp_wrote page_id self {| backing := b; slots := slots self; next_slot_index := next_slot_index self;
    max_bytes := max_bytes self; payload_size := payload_size self |}.
Proof.
  intros Hi Hs Hl Hb E. pose proof (sp_range _ Hi _ _ Hs) as Hri. pose proof (sp_payload _ Hi) as Hp.
  pose proof (zlen_take_le n data) as Hn.
  assert (Hss : 0 < slot_size self) by (unfold slot_size, SLOT_HEADER_SIZE; lia).
  split; cbn [backing slots next_slot_index max_bytes payload_size]; [| done | done |].
  - split; cbn; try apply Hi. rewrite E. apply overwrite_bytes; [by apply take_bytes | apply Hi].
  - intros j bl Hj. unfold spilled. cbn [slots]. destruct (slots self !! j) as [k |] eqn:Ek; [| done].
    pose proof (sp_range _ Hi _ _ Ek) as Hrk.
    assert (Hki : k ≠ i) by (intros ->; apply Hj; by eapply (sp_inj _ Hi)).
    unfold decode_slot. change (slot_size {| backing := b; slots := _; next_slot_index := _; max_bytes := _; payload_size := _ |})
      with (slot_size self). cbn [backing payload_size].
    set (off := k * slot_size self). assert (Hoff : 0 ≤ off) by nia.
    destruct (Z.leb_spec (off + slot_size self) (zlen (bytes (backing self)))) as [Hle |]; [| done].
    assert (Hlen : zlen (bytes (backing self)) ≤ zlen (bytes b)) by (rewrite E; apply zlen_overwrite_ge; nia).
    assert (Hout : ∀ o m, off ≤ o → 0 ≤ m → o + m ≤ off + slot_size self →
      slice o m (bytes b) = slice o m (bytes (backing self))).
    { intros o m H1 H2 H3. rewrite E. apply slice_overwrite_out; [lia | lia | nia | lia |].
      destruct (Z.lt_ge_cases k i); [left | right]; unfold off in *; nia. }
    unfold slot_size, SLOT_HEADER_SIZE in *.
    destruct (Z.leb_spec (off + (16 + payload_size self)) (zlen (bytes b))); [| lia].
    rewrite !Hout by lia. done.
Qed.

(** The slot just written decodes. *)
Lemma decode_written self page_id blob i b :
  is_u64 page_id → zlen blob = payload_size self → 0 < payload_size self → 0 ≤ i →
  bytes b = overwrite (i * slot_size self)
    ((le_encode 8 page_id ++ le_encode 8 (slot_checksum page_id blob)) ++ blob) (bytes (backing self)) →
  decode_slot {| backing := b; slots := slots self; next_slot_index := next_slot_index self;
    max_bytes := max_bytes self; payload_size := payload_size self |} page_id i = Some blob.
Proof.
  intros Hu Hl Hp Hi E. unfold decode_slot. cbn [backing payload_size slot_size].
  change (slot_size {| backing := b; slots := _; next_slot_index := _; max_bytes := _; payload_size := _ |})
    with (slot_size self). set (data := (_ ++ _) ++ blob) in E. set (off := i * slot_size self) in *.
  assert (Hdl : zlen data = slot_size self).
  { unfold data, slot_size, SLOT_HEADER_SIZE. rewrite !zlen_app, !zlen_le_encode. lia. }
  assert (Hss : slot_size self = 16 + payload_size self) by done.
  assert (Hoff : 0 ≤ off) by (unfold off; nia).
  assert (Hne : data ≠ []) by (intros E0; rewrite E0 in Hdl; unfold zlen in Hdl; cbn in Hdl; lia).
  assert (Hd : slice off (slot_size self) (bytes b) = data) by (rewrite E; by apply slice_overwrite_same).
  assert (Hlen : off + slot_size self ≤ zlen (bytes b)) by (rewrite E, zlen_overwrite by done; lia).
  destruct (Z.leb_spec (off + slot_size self) (zlen (bytes b))); [| lia]. cbn [andb].
  assert (Hf : ∀ o n, 0 ≤ o → 0 ≤ n → o + n ≤ slot_size self → slice (off + o) n (bytes b) = slice o n data).
  { intros o n ???. by rewrite <- Hd, slice_slice by lia. }
  rewrite <- (Z.add_0_r off) at 1. unfold SLOT_HEADER_SIZE. rewrite !Hf by lia.
  assert (Hparts : slice 0 8 data = le_encode 8 page_id ∧ slice 8 8 data = le_encode 8 (slot_checksum page_id blob) ∧
    slice 16 (payload_size self) data = blob).
  { unfold data, slice. rewrite <- app_assoc. ands.
    - rewrite drop_0. by apply take_app_length'.
    - rewrite drop_app_length' by done. by apply take_app_length'.
    - rewrite app_assoc, drop_app_length' by done. apply take_ge. unfold zlen in Hl. lia. }
  destruct Hparts as (-> & -> & ->). rewrite !le_decode_encode; [by rewrite !Z.eqb_refl | apply xxh3_64_range | exact Hu].
Qed.

Lemma new_slot_inv self page_id :
  sp_inv self → slots self !! page_id = None →
  sp_wrote page_id self (set_slots (<[page_id := next_slot_index self]> (slots self)) (next_slot_index self + 1) self).
Proof.
  intros Hi Hn. split; cbn; [| done | |].
  - split; cbn; try apply Hi; [pose proof (sp_next _ Hi); lia | |].
    + intros j i [[<- <-] | [_ Hj]]%lookup_insert_Some; [pose proof (sp_next _ Hi); lia |].
      pose proof (sp_range _ Hi _ _ Hj). lia.
    + intros j j' i [[<- <-] | [Hne Hj]]%lookup_insert_Some [[<- E] | [Hne' Hj']]%lookup_insert_Some; try done.
      * pose proof (sp_range _ Hi _ _ Hj'). lia.
      * pose proof (sp_range _ Hi _ _ Hj). lia.
      * by eapply (sp_inj _ Hi).
  - intros j Hj. by rewrite lookup_insert_ne.
  - intros j b Hj. unfold spilled, decode_slot, slot_size. cbn [slots set_slots backing payload_size].
    by rewrite lookup_insert_ne.
Qed.

Lemma spill_spec self page_id blob :
  sp_inv self → is_u64 page_id → zlen blob = payload_size self → bytes_ok blob →
  spec (sp_wrote page_id self) (spill page_id blob) self (λ _ self', spilled self' page_id = Some blob).
Proof.
  intros Hi Hu Hl Hb. unfold spill. apply reads_id. rewrite Hl, Z.eqb_refl.
  apply bind_assert; [done | by apply sp_wrote_refl |].
  eapply (spec_bind _ _ _ _ (λ i self1, slots self1 !! page_id = Some i)).
  - destruct (slots self !! page_id) as [i |] eqn:E; [by apply spec_ret; [apply sp_wrote_refl |] |].
    destruct (_ <? _); [by apply spec_fail; [apply sp_wrote_refl |] |].
    unfold bind, writes, ret, spec. cbn [fst snd post]. split; [by apply new_slot_inv |].
    cbn. by rewrite lookup_insert_eq.
  - intros i self1 H1 Hs. pose proof (sw_inv _ _ _ H1) as Hi1. pose proof (sw_modes _ _ _ H1) as [Hp _].
    pose proof (sp_range _ Hi1 _ _ Hs) as Hr. pose proof (sp_payload _ Hi1) as Hpos.
    unfold write_slot. apply reads_id.
    apply spec_backing. set (data := (le_encode 8 page_id ++ le_encode 8 (slot_checksum page_id blob)) ++ blob).
    assert (Hdl : zlen data = slot_size self1).
    { unfold data, slot_size, SLOT_HEADER_SIZE. rewrite !zlen_app, !zlen_le_encode, Hp. lia. }
    assert (Hdb : bytes_ok data).
    { apply Forall_app. split; [apply Forall_app; split; apply le_encode_bytes | done]. }
    eapply spec_conseq; [apply write_at_spec | |].
    + intros b (_ & n & [E | E]); eapply sp_wrote_trans; try exact H1; [by eapply slot_wrote |].
      eapply (slot_wrote page_id self1 b data i 0); try done.
    + intros [] b _ E. unfold spilled. cbn [slots]. rewrite Hs.
      apply decode_written; [done | by rewrite Hp | done | lia | exact E].
Qed.
End facts.
End SpillwayFacts.
