(* ===== verification/Crypto.v ===== *)
(** * Keys, key wrapping and page sealing ([src/crypto/mod.rs])

    The AEAD cipher (XChaCha20-Poly1305), the two key derivation functions and the
    operating system's random source are library code: the first two are the
    class [Primitives], a random array is an argument of the call that draws it.
    The laws the class states are the documented ones: decryption inverts
    encryption under the same key, nonce and associated data, and both work in
    place (they keep the length).  Nothing is assumed about forgeries. *)

From S2P Require Export Page.

Definition ENC_PAGE_SIZE : Z := 8232.
Definition NONCE_LEN : Z := 24.
Definition TAG_LEN : Z := 16.
Definition DEK_LEN : Z := 32.
Definition SALT_LEN : Z := 16.

(** A byte array of a fixed length. *)
Definition array (n : Z) (l : list Z) : Prop := zlen l = n ∧ bytes_ok l.

(** [Key::Raw] holds bytes, [Key::Passphrase] the bytes of a UTF-8 string. *)
Inductive Key := Raw (bytes : list Z) | Passphrase (utf8 : list Z).

Inductive KdfId := Hkdf | Argon2id.
Definition kdf_tag (k : KdfId) : Z := match k with Hkdf => 1 | Argon2id => 2 end.

Record Argon2Params := { m_cost : Z; t_cost : Z; p_cost : Z }.
Definition Argon2Params_default : Argon2Params := {| m_cost := 19456; t_cost := 2; p_cost := 1 |}.

Inductive CryptoError := Auth | Kdf | BadKeyLength.

(** [Result<T, CryptoError>], or a panic *)
Inductive cresult (A : Type) := COk (a : A) | CErr (e : CryptoError) | CPanic (p : panic).
Arguments COk {A} a.
Arguments CErr {A} e.
Arguments CPanic {A} p.

Class Primitives := {
  (** [encrypt_in_place_detached]: key, nonce, aad, plaintext *)
  aead_encrypt : list Z → list Z → list Z → list Z → list Z * list Z;
  (** [decrypt_in_place_detached]: key, nonce, aad, ciphertext, tag *)
  aead_decrypt : list Z → list Z → list Z → list Z → list Z → option (list Z);
  (** [Hkdf::<Sha256>::new(Some(salt), ikm).expand(info, &mut [u8; 32])] *)
  hkdf_sha256 : list Z → list Z → list Z → option (list Z);
  (** [Params::new(..)] then [Argon2::hash_password_into] *)
  argon2id : Argon2Params → list Z → list Z → option (list Z);
  aead_inverse : ∀ key nonce aad pt,
    bytes_ok pt →
    let '(ct, tag) := aead_encrypt key nonce aad pt in
    aead_decrypt key nonce aad ct tag = Some pt;
  aead_lengths : ∀ key nonce aad pt,
    bytes_ok pt →
    let '(ct, tag) := aead_encrypt key nonce aad pt in
    array (zlen pt) ct ∧ array TAG_LEN tag;
  aead_opened : ∀ key nonce aad ct tag pt,
    aead_decrypt key nonce aad ct tag = Some pt → array (zlen ct) pt
}.

Module Crypto.

(** [b"chisel-kek-v1"] *)
Definition KEK_INFO : list Z := [99; 104; 105; 115; 101; 108; 45; 107; 101; 107; 45; 118; 49].

Definition MAX_ARGON2_M_COST : Z := 262144.
Definition MAX_ARGON2_T_COST : Z := 16.
Definition MAX_ARGON2_P_COST : Z := 16.
Definition MIN_ARGON2_M_COST : Z := 8.
Definition MIN_ARGON2_T_COST : Z := 1.
Definition MIN_ARGON2_P_COST : Z := 1.

(** [u32::saturating_mul] *)
Definition sat_mul32 (a b : Z) : Z := Z.min (a * b) u32_max.

Definition argon2_params_out_of_range (p : Argon2Params) : bool :=
  (m_cost p <? MIN_ARGON2_M_COST) || (MAX_ARGON2_M_COST <? m_cost p)
  || (t_cost p <? MIN_ARGON2_T_COST) || (MAX_ARGON2_T_COST <? t_cost p)
  || (p_cost p <? MIN_ARGON2_P_COST) || (MAX_ARGON2_P_COST <? p_cost p)
  || (m_cost p <? sat_mul32 (p_cost p) 8).

Section ops.
Context `{HC : Primitives}.

Definition derive_kek (key : Key) (kdf : KdfId) (salt : list Z) (params : Argon2Params)
    : cresult (list Z) :=
  let ikm := match key with Raw bytes => bytes | Passphrase s => s end in
  if zlen ikm =? 0 then CErr BadKeyLength else
  match kdf with
  | Hkdf =>
      match hkdf_sha256 salt ikm KEK_INFO with
      | Some okm => COk okm
      | None => CErr Kdf
      end
  | Argon2id =>
      if (MAX_ARGON2_M_COST <? m_cost params) || (MAX_ARGON2_T_COST <? t_cost params)
         || (MAX_ARGON2_P_COST <? p_cost params)
      then CErr Kdf else
      match argon2id params ikm salt with
      | Some okm => COk okm
      | None => CErr Kdf
      end
  end.

Definition seal_detached (key nonce aad plaintext : list Z) : list Z * list Z :=
  aead_encrypt key nonce aad plaintext.

Definition open_detached (key nonce aad ciphertext tag : list Z) : cresult (list Z) :=
  match aead_decrypt key nonce aad ciphertext tag with
  | Some pt => COk pt
  | None => CErr Auth
  end.

Definition wrap_dek (kek dek wrap_nonce aad : list Z) : list Z * list Z :=
  seal_detached kek wrap_nonce aad dek.

Definition unwrap_dek (kek wrapped tag wrap_nonce aad : list Z) : cresult (list Z) :=
  match open_detached kek wrap_nonce aad wrapped tag with
  | COk pt => if zlen pt =? DEK_LEN then COk pt else CPanic PanicSlice  (* copy_from_slice *)
  | r => r
  end.

(** [PageCipher::seal]; [nonce] is the random array it draws. *)
Definition seal (dek nonce : list Z) (page_id : Z) (plaintext : list Z) : list Z :=
  let aad := le_encode 8 page_id in
  let '(ct, tag) := seal_detached dek nonce aad plaintext in
  let out := zeros ENC_PAGE_SIZE in
  let out := splice 0 ct out in
  let out := splice 8192 tag out in
  splice 8208 nonce out.

Definition open (dek : list Z) (page_id : Z) (ondisk : list Z) : cresult (list Z) :=
  let ct := slice 0 8192 ondisk in
  let tag := slice 8192 16 ondisk in
  let nonce := slice 8208 24 ondisk in
  let aad := le_encode 8 page_id in
  match open_detached dek nonce aad ct tag with
  | COk pt => if zlen pt =? 8192 then COk pt else CPanic PanicSlice  (* copy_from_slice *)
  | r => r
  end.

Definition seal_body (dek nonce aad plaintext : list Z) : list Z * list Z * list Z :=
  let '(ct, tag) := seal_detached dek nonce aad plaintext in
  (nonce, tag, ct).

Definition open_body (dek aad nonce tag ct : list Z) : cresult (list Z) :=
  open_detached dek nonce aad ct tag.
End ops.
End Crypto.

Module CryptoProps.
Import Crypto.

Section props.
Context `{HC : Primitives}.

Lemma seal_open_detached key nonce aad pt :
  bytes_ok pt →
  ∃ ct tag, seal_detached key nonce aad pt = (ct, tag) ∧ array (zlen pt) ct ∧ array TAG_LEN tag ∧
    open_detached key nonce aad ct tag = COk pt.
Proof.
  intros Hb. pose proof (aead_inverse key nonce aad pt Hb) as Hi.
  pose proof (aead_lengths key nonce aad pt Hb) as Hl. unfold seal_detached, open_detached.
  destruct (aead_encrypt key nonce aad pt) as [ct tag]. destruct Hl. exists ct, tag. by rewrite Hi.
Qed.

Lemma seal_open dek nonce id p :
  wf_page p → array NONCE_LEN nonce →
  array ENC_PAGE_SIZE (seal dek nonce id p) ∧ open dek id (seal dek nonce id p) = COk p.
Proof.
  intros [Hl Hb] [Hnl Hnb]. unfold seal, open.
  destruct (seal_open_detached dek nonce (le_encode 8 id) p Hb) as (ct & tag & -> & [Hcl Hcb] & [Htl Htb] & Ho).
  rewrite Hl in Hcl. unfold PAGE_SIZE, TAG_LEN, NONCE_LEN, ENC_PAGE_SIZE in *.
  set (out1 := splice 0 ct (zeros 8232)). set (out2 := splice 8192 tag out1).
  assert (L0 : zlen (zeros 8232) = 8232) by by apply zlen_replicate.
  assert (L1 : zlen out1 = 8232) by (subst out1; rewrite zlen_splice; lia).
  assert (L2 : zlen out2 = 8232) by (subst out2; rewrite zlen_splice; lia).
  split.
  - split; [rewrite zlen_splice; lia |]. repeat (apply bytes_ok_splice; [done |]). by apply Forall_replicate.
  - rewrite (slice_splice_same 8208 24) by lia.
    rewrite (slice_splice_out 8192 16 8208) by lia. rewrite (slice_splice_out 0 8192 8208) by lia.
    unfold out2. rewrite (slice_splice_same 8192 16) by lia. rewrite (slice_splice_out 0 8192 8192) by lia.
    unfold out1. rewrite (slice_splice_same 0 8192) by lia. rewrite Ho, Hl. done.
Qed.
(** A page sealed for a page id opens, under the same key and id, to the page:
    the on-disk image is [ENC_PAGE_SIZE] bytes and its three fields do not
    overlap. *)
Theorem page_seal_open dek nonce id p :
  wf_page p → array NONCE_LEN nonce →
  array ENC_PAGE_SIZE (seal dek nonce id p) ∧ open dek id (seal dek nonce id p) = COk p.
Proof. apply seal_open. Qed.
End props.

(** Primitives for examples: the identity cipher with a constant tag. *)
Definition byte_ok (b : Z) : bool := (0 <=? b) && (b <? 256).

Lemma byte_ok_spec l : forallb byte_ok l = true → bytes_ok l.
Proof.
  intros H. apply Forall_forall. intros x Hx. rewrite forallb_forall in H.
  specialize (H x (proj1 (list_elem_of_In _ _) Hx)). unfold byte_ok in H.
  apply andb_true_iff in H as [H1 H2]. apply Z.leb_le in H1. apply Z.ltb_lt in H2. by split.
Qed.

Lemma bytes_ok_forallb l : bytes_ok l → forallb byte_ok l = true.
Proof.
  intros H. apply forallb_forall. intros x Hx%list_elem_of_In. unfold bytes_ok in H.
  rewrite Forall_forall in H. destruct (H x Hx). unfold byte_ok. apply andb_true_iff. split; [by apply Z.leb_le | by apply Z.ltb_lt].
Qed.

Definition toy_tag : list Z := replicate 16 5.

#[export] Instance toy_primitives : Primitives.
Proof.
  refine {|
    aead_encrypt := λ key nonce aad pt, (pt, toy_tag);
    aead_decrypt := λ key nonce aad ct tag,
      if decide (tag = toy_tag) then if forallb byte_ok ct then Some ct else None else None;
    hkdf_sha256 := λ salt ikm info, Some (replicate 32 (zlen ikm mod 256));
    argon2id := λ params ikm salt, Some (replicate 32 (zlen ikm mod 256))
  |}.
  - intros key nonce aad pt Hb. by rewrite decide_True, bytes_ok_forallb.
  - intros key nonce aad pt Hb. split; [done |]. split; [done |]. by apply Forall_replicate.
  - intros key nonce aad ct tag pt. case_decide; [| done].
    destruct (forallb byte_ok ct) eqn:E; [| done]. intros [= <-]. split; [done | by apply byte_ok_spec].
Defined.

Lemma page_seal_open_witness :
  Crypto.open [] 3 (seal [] (replicate 24 1) 3 zero_page) = COk zero_page.
Proof.
  apply page_seal_open; [apply wf_zero_page |]. split; [done | by apply Forall_replicate].
Defined.
End CryptoProps.
