(* ===== verification/PageCache.v ===== *)
(** * The page cache ([src/page_cache.rs])

    Pages in memory over the page file and the spillway.  [get] and [get_mut] load a
    page on a miss; over the limit, clean pages are dropped and dirty ones spilled,
    least recently used first; a commit flushes.  A buffer that [get_mut] lends is
    written by [modify], which applies the client's writes to it.  The random nonces
    of the cipher are a stream in the state. *)

From S2P Require Export Spillway Lru Crypto.

Module PageCache.
Import Crypto.

Inductive DrainInsertion := LruTail | Mru.

(** Where the side file is, with what the system will answer: whether it can be
    created, and the answers to the operations on it. *)
Inductive SpillwayLocation :=
  | Path (creation : option ErrorKind) (answers : list (option (ErrorKind * nat)))
  | InMemory.

Record CacheEntry := { buf : list Z; dirty : bool; needs_stamp : bool }.

Record PageCache := {
  io : PageIo.PageIo;
  entries : gmap Z CacheEntry;
  lru : Lru.LruIndex;
  dirty_count : Z;
  max_pages : Z;
  spillway_max_bytes : Z;
  drain_insertion : DrainInsertion;
  spillway_location : SpillwayLocation;
  spillway : option Spillway.Spillway;
  next_page_id : Z;
  cipher : option (list Z);
  cache_hits : Z;
  cache_misses : Z;
  pages_allocated : Z;
  nonces : nat → list Z;
  drawn : nat
}.

Definition set_io (x : PageIo.PageIo) (self : PageCache) : PageCache :=
  {| io := x; entries := entries self; lru := lru self; dirty_count := dirty_count self; max_pages
     := max_pages self; spillway_max_bytes := spillway_max_bytes self; drain_insertion :=
     drain_insertion self; spillway_location := spillway_location self; spillway := spillway self;
     next_page_id := next_page_id self; cipher := cipher self; cache_hits := cache_hits self;
     cache_misses := cache_misses self; pages_allocated := pages_allocated self; nonces := nonces
     self; drawn := drawn self |}.

Definition set_entries (x : gmap Z CacheEntry) (self : PageCache) : PageCache :=
  {| io := io self; entries := x; lru := lru self; dirty_count := dirty_count self; max_pages :=
     max_pages self; spillway_max_bytes := spillway_max_bytes self; drain_insertion :=
     drain_insertion self; spillway_location := spillway_location self; spillway := spillway self;
     next_page_id := next_page_id self; cipher := cipher self; cache_hits := cache_hits self;
     cache_misses := cache_misses self; pages_allocated := pages_allocated self; nonces := nonces
     self; drawn := drawn self |}.

Definition set_lru (x : Lru.LruIndex) (self : PageCache) : PageCache :=
  {| io := io self; entries := entries self; lru := x; dirty_count := dirty_count self; max_pages :=
     max_pages self; spillway_max_bytes := spillway_max_bytes self; drain_insertion :=
     drain_insertion self; spillway_location := spillway_location self; spillway := spillway self;
     next_page_id := next_page_id self; cipher := cipher self; cache_hits := cache_hits self;
     cache_misses := cache_misses self; pages_allocated := pages_allocated self; nonces := nonces
     self; drawn := drawn self |}.

Definition set_dirty_count (x : Z) (self : PageCache) : PageCache :=
  {| io := io self; entries := entries self; lru := lru self; dirty_count := x; max_pages :=
     max_pages self; spillway_max_bytes := spillway_max_bytes self; drain_insertion :=
     drain_insertion self; spillway_location := spillway_location self; spillway := spillway self;
     next_page_id := next_page_id self; cipher := cipher self; cache_hits := cache_hits self;
     cache_misses := cache_misses self; pages_allocated := pages_allocated self; nonces := nonces
     self; drawn := drawn self |}.

Definition set_max_pages (x : Z) (self : PageCache) : PageCache :=
  {| io := io self; entries := entries self; lru := lru self; dirty_count := dirty_count self;
     max_pages := x; spillway_max_bytes := spillway_max_bytes self; drain_insertion :=
     drain_insertion self; spillway_location := spillway_location self; spillway := spillway self;
     next_page_id := next_page_id self; cipher := cipher self; cache_hits := cache_hits self;
     cache_misses := cache_misses self; pages_allocated := pages_allocated self; nonces := nonces
     self; drawn := drawn self |}.

Definition set_spillway_max_bytes (x : Z) (self : PageCache) : PageCache :=
  {| io := io self; entries := entries self; lru := lru self; dirty_count := dirty_count self;
     max_pages := max_pages self; spillway_max_bytes := x; drain_insertion := drain_insertion self;
     spillway_location := spillway_location self; spillway := spillway self; next_page_id :=
     next_page_id self; cipher := cipher self; cache_hits := cache_hits self; cache_misses :=
     cache_misses self; pages_allocated := pages_allocated self; nonces := nonces self; drawn :=
     drawn self |}.

Definition set_drain_insertion (x : DrainInsertion) (self : PageCache) : PageCache :=
  {| io := io self; entries := entries self; lru := lru self; dirty_count := dirty_count self;
     max_pages := max_pages self; spillway_max_bytes := spillway_max_bytes self; drain_insertion :=
     x; spillway_location := spillway_location self; spillway := spillway self; next_page_id :=
     next_page_id self; cipher := cipher self; cache_hits := cache_hits self; cache_misses :=
     cache_misses self; pages_allocated := pages_allocated self; nonces := nonces self; drawn :=
     drawn self |}.

Definition set_spillway (x : option Spillway.Spillway) (self : PageCache) : PageCache :=
  {| io := io self; entries := entries self; lru := lru self; dirty_count := dirty_count self;
     max_pages := max_pages self; spillway_max_bytes := spillway_max_bytes self; drain_insertion :=
     drain_insertion self; spillway_location := spillway_location self; spillway := x; next_page_id
     := next_page_id self; cipher := cipher self; cache_hits := cache_hits self; cache_misses :=
     cache_misses self; pages_allocated := pages_allocated self; nonces := nonces self; drawn :=
     drawn self |}.

Definition set_next_page_id (x : Z) (self : PageCache) : PageCache :=
  {| io := io self; entries := entries self; lru := lru self; dirty_count := dirty_count self;
     max_pages := max_pages self; spillway_max_bytes := spillway_max_bytes self; drain_insertion :=
     drain_insertion self; spillway_location := spillway_location self; spillway := spillway self;
     next_page_id := x; cipher := cipher self; cache_hits := cache_hits self; cache_misses :=
     cache_misses self; pages_allocated := pages_allocated self; nonces := nonces self; drawn :=
     drawn self |}.

Definition set_cipher (x : option (list Z)) (self : PageCache) : PageCache :=
  {| io := io self; entries := entries self; lru := lru self; dirty_count := dirty_count self;
     max_pages := max_pages self; spillway_max_bytes := spillway_max_bytes self; drain_insertion :=
     drain_insertion self; spillway_location := spillway_location self; spillway := spillway self;
     next_page_id := next_page_id self; cipher := x; cache_hits := cache_hits self; cache_misses :=
     cache_misses self; pages_allocated := pages_allocated self; nonces := nonces self; drawn :=
     drawn self |}.

Definition set_cache_hits (x : Z) (self : PageCache) : PageCache :=
  {| io := io self; entries := entries self; lru := lru self; dirty_count := dirty_count self;
     max_pages := max_pages self; spillway_max_bytes := spillway_max_bytes self; drain_insertion :=
     drain_insertion self; spillway_location := spillway_location self; spillway := spillway self;
     next_page_id := next_page_id self; cipher := cipher self; cache_hits := x; cache_misses :=
     cache_misses self; pages_allocated := pages_allocated self; nonces := nonces self; drawn :=
     drawn self |}.

Definition set_cache_misses (x : Z) (self : PageCache) : PageCache :=
  {| io := io self; entries := entries self; lru := lru self; dirty_count := dirty_count self;
     max_pages := max_pages self; spillway_max_bytes := spillway_max_bytes self; drain_insertion :=
     drain_insertion self; spillway_location := spillway_location self; spillway := spillway self;
     next_page_id := next_page_id self; cipher := cipher self; cache_hits := cache_hits self;
     cache_misses := x; pages_allocated := pages_allocated self; nonces := nonces self; drawn :=
     drawn self |}.

Definition set_pages_allocated (x : Z) (self : PageCache) : PageCache :=
  {| io := io self; entries := entries self; lru := lru self; dirty_count := dirty_count self;
     max_pages := max_pages self; spillway_max_bytes := spillway_max_bytes self; drain_insertion :=
     drain_insertion self; spillway_location := spillway_location self; spillway := spillway self;
     next_page_id := next_page_id self; cipher := cipher self; cache_hits := cache_hits self;
     cache_misses := cache_misses self; pages_allocated := x; nonces := nonces self; drawn := drawn
     self |}.

Definition set_drawn (x : nat) (self : PageCache) : PageCache :=
  {| io := io self; entries := entries self; lru := lru self; dirty_count := dirty_count self;
     max_pages := max_pages self; spillway_max_bytes := spillway_max_bytes self; drain_insertion :=
     drain_insertion self; spillway_location := spillway_location self; spillway := spillway self;
     next_page_id := next_page_id self; cipher := cipher self; cache_hits := cache_hits self;
     cache_misses := cache_misses self; pages_allocated := pages_allocated self; nonces := nonces
     self; drawn := x |}.

Section ops.
Context `{HX : Xxh3} `{HO : HashOrder} `{HC : Primitives}.

Definition stamp_deferred (e : CacheEntry) : CacheEntry :=
  if needs_stamp e
  then {| buf := stamp_checksum (buf e); dirty := dirty e; needs_stamp := false |} else e.

Definition debug_assert_data_page_stamped (buf : list Z) : M PageCache unit :=
  assert_that PanicAssert (negb (getb 0 buf =? type_tag DataPageType) || verify_checksum buf).

Definition on_io {A} (m : M PageIo.PageIo A) : M PageCache A := λ self,
  let '(r, io') := m (io self) in (r, set_io io' self).

(** [self.spillway.as_mut().unwrap()] *)
Definition on_spillway {A} (m : M Spillway.Spillway A) : M PageCache A := λ self,
  match spillway self with
  | None => (Panic PanicExpect, self)
  | Some spw => let '(r, spw') := m spw in (r, set_spillway (Some spw') self)
  end.

Definition in_entries (self : PageCache) (page_id : Z) : bool := bool_decide (is_Some (entries self !! page_id)).
Definition entry_count (self : PageCache) : Z := Z.of_nat (size (entries self)).

Definition put_entry (page_id : Z) (e : CacheEntry) (self : PageCache) : PageCache :=
  set_entries (<[page_id := e]> (entries self)) self.
Definition drop_entry (page_id : Z) (self : PageCache) : PageCache :=
  set_entries (delete page_id (entries self)) self.
Definition on_lru (f : Lru.LruIndex → Lru.LruIndex) (self : PageCache) : PageCache := set_lru (f (lru self)) self.
Definition add_dirty (n : Z) (self : PageCache) : PageCache := set_dirty_count (dirty_count self + n) self.

Definition new (io : PageIo.PageIo) (cache_max_bytes spillway_max_bytes : Z) (drain : DrainInsertion)
    (location : SpillwayLocation) (nonces : nat → list Z) : PageCache :=
  {| io := io; entries := ∅; lru := Lru.new; dirty_count := 0;
     max_pages := Z.max (cache_max_bytes / PAGE_SIZE) 1; spillway_max_bytes := spillway_max_bytes;
     drain_insertion := drain; spillway_location := location; spillway := None;
     next_page_id := PageIo.page_count io; cipher := None;
     cache_hits := 0; cache_misses := 0; pages_allocated := 0; nonces := nonces; drawn := 0 |}.

Definition touch_lru (page_id : Z) : M PageCache unit := writes (on_lru (Lru.push_front page_id)).

(** [saturating_sub] *)
Definition untrack_dirty (was_dirty : bool) (self : PageCache) : PageCache :=
  if was_dirty then set_dirty_count (Z.max (dirty_count self - 1) 0) self else self.

(** [PageCipher::seal] draws a nonce. *)
Definition seal_page (dek : list Z) (page_id : Z) (plaintext : list Z) : M PageCache (list Z) :=
  let* self := reads id in
  writes (set_drawn (S (drawn self))) ;;;
  ret (Crypto.seal dek (nonces self (drawn self)) page_id plaintext).

(** [c.open(..).map_err(|_| DecryptionFailed)] *)
Definition open_page (dek : list Z) (page_id : Z) (unit : list Z) : M PageCache (list Z) :=
  match Crypto.open dek page_id unit with
  | COk pt => ret pt
  | CErr _ => fail (DecryptionFailed page_id)
  | CPanic p => crash p
  end.

(** ** Eviction *)

Definition dirty_at (self : PageCache) (page_id : Z) : bool :=
  match entries self !! page_id with Some e => dirty e | None => false end.

Definition clean_at (self : PageCache) (page_id : Z) : bool :=
  match entries self !! page_id with Some e => negb (dirty e) | None => false end.

(** One entry fewer each turn: as many turns as entries are enough. *)
Fixpoint evict_clean_loop (fuel : nat) : M PageCache unit :=
  match fuel with
  | O => ret tt
  | S fuel =>
      let* self := reads id in
      if entry_count self <=? max_pages self then ret tt else
      if dirty_count self =? entry_count self then ret tt else
      match find (clean_at self) (Lru.iter_lru_to_mru (lru self)) with
      | None => ret tt
      | Some victim =>
          assert_that PanicAssert
            (match entries self !! victim with Some e => negb (needs_stamp e) | None => true end) ;;;
          writes (λ self, on_lru (λ l, (Lru.remove victim l).2) (drop_entry victim self)) ;;;
          evict_clean_loop fuel
      end
  end.

Definition evict_clean_to_cap : M PageCache unit :=
  let* self := reads id in evict_clean_loop (size (entries self)).

Definition ensure_spillway : M PageCache unit :=
  let* self := reads id in
  assert_that PanicAssert (negb (spillway_max_bytes self =? 0)) ;;;
  match spillway self with
  | Some _ => ret tt
  | None =>
      let payload_size := match cipher self with Some _ => ENC_PAGE_SIZE | None => PAGE_SIZE end in
      match spillway_location self with
      | Path (Some k) _ => fail (IoError k)
      | Path None answers =>
          writes (set_spillway (Some (Spillway.open_file answers (spillway_max_bytes self) payload_size)))
      | InMemory =>
          writes (set_spillway (Some (Spillway.open_memory (spillway_max_bytes self) payload_size)))
      end
  end.

(** The blob that a page is kept as outside the cache. *)
Definition page_blob (page_id : Z) (plaintext : list Z) : M PageCache (list Z) :=
  let* self := reads id in
  match cipher self with
  | Some dek => seal_page dek page_id plaintext
  | None => ret plaintext
  end.

(** Spill the least recently used page; on an error it is put back. *)
Definition spill_victim (victim_id : Z) : M PageCache unit :=
  let* self := reads id in
  match entries self !! victim_id with
  | None => fail (CorruptPage victim_id)
  | Some entry =>
      writes (drop_entry victim_id) ;;;
      let entry := stamp_deferred entry in
      debug_assert_data_page_stamped (buf entry) ;;;
      writes (on_lru (λ l, (Lru.remove victim_id l).2)) ;;;
      writes (untrack_dirty (dirty entry)) ;;;
      let* spill_blob := page_blob victim_id (buf entry) in
      on_err (ensure_spillway ;;; on_spillway (Spillway.spill victim_id spill_blob))
        (λ self,
           let self := if dirty entry then add_dirty 1 self else self in
           put_entry victim_id entry (on_lru (Lru.push_back victim_id) self))
  end.

Fixpoint spill_loop (fuel : nat) : M PageCache unit :=
  match fuel with
  | O => ret tt
  | S fuel =>
      let* self := reads id in
      if entry_count self <=? max_pages self then ret tt else
      if spillway_max_bytes self =? 0 then fail (CacheFull (max_pages self)) else
      match Lru.iter_lru_to_mru (lru self) with
      | [] => ret tt
      | victim_id :: _ => spill_victim victim_id ;;; spill_loop fuel
      end
  end.

Definition maybe_evict : M PageCache unit :=
  evict_clean_to_cap ;;;
  let* self := reads id in
  spill_loop (size (entries self)).

(** ** Loading *)

(** [blob.try_into()] to the array of the mode, then [open]. *)
Definition open_blob (page_id : Z) (blob : list Z) : M PageCache (list Z) :=
  let* self := reads id in
  match cipher self with
  | Some dek => if zlen blob =? ENC_PAGE_SIZE then open_page dek page_id blob else fail (DecryptionFailed page_id)
  | None => if zlen blob =? PAGE_SIZE then ret blob else fail (DecryptionFailed page_id)
  end.

Definition resident (self : PageCache) (page_id : Z) : bool :=
  match spillway self with Some spw => Spillway.is_resident spw page_id | None => false end.

Definition load_spilled (page_id : Z) : M PageCache unit :=
  let* blob := on_spillway (Spillway.rehydrate page_id) in
  on_spillway (writes (Spillway.forget page_id)) ;;;
  let* buf := open_blob page_id blob in
  writes (λ self, on_lru (Lru.push_front page_id) (add_dirty 1
    (put_entry page_id {| buf := buf; dirty := true; needs_stamp := false |} self))).

(** The unit is read into the head of a zeroed [ENC_PAGE_SIZE] array. *)
Definition load_disk (page_id : Z) : M PageCache unit :=
  let* self := reads id in
  let stride := PageIo.stride (io self) in
  assert_that PanicSlice (stride <=? ENC_PAGE_SIZE) ;;;
  let* unit := on_io (PageIo.read_page_unit_into page_id stride) in
  let on_disk := splice 0 unit (zeros ENC_PAGE_SIZE) in
  let* plaintext :=
    match cipher self with
    | Some dek => assert_that PanicAssert (stride =? ENC_PAGE_SIZE) ;;; open_page dek page_id on_disk
    | None => ret (slice 0 PAGE_SIZE on_disk)
    end in
  if negb (verify_checksum plaintext) then fail (ChecksumMismatch page_id) else
  writes (λ self, on_lru (Lru.push_front page_id)
    (put_entry page_id {| buf := plaintext; dirty := false; needs_stamp := false |} self)).

Definition load_page (page_id : Z) : M PageCache unit :=
  maybe_evict ;;;
  let* self := reads id in
  if resident self page_id then load_spilled page_id else load_disk page_id.

(** The first half of [get] and of [get_mut]. *)
Definition fetch (page_id : Z) : M PageCache unit :=
  let* self := reads id in
  (if in_entries self page_id then writes (set_cache_hits (cache_hits self + 1))
   else writes (set_cache_misses (cache_misses self + 1)) ;;; load_page page_id) ;;;
  touch_lru page_id.

Definition get (page_id : Z) : M PageCache (list Z) :=
  fetch page_id ;;;
  let* self := reads id in
  match entries self !! page_id with
  | Some e => ret (buf e)
  | None => crash PanicExpect
  end.

Definition get_mut (page_id : Z) : M PageCache (list Z) :=
  fetch page_id ;;;
  let* self := reads id in
  match entries self !! page_id with
  | None => crash PanicExpect
  | Some e =>
      (if dirty e then ret tt
       else writes (λ self, put_entry page_id {| buf := buf e; dirty := true; needs_stamp := needs_stamp e |}
              (add_dirty 1 self))) ;;;
      ret (buf e)
  end.

(** The client's writes to a lent buffer. *)
Definition write_buf (page_id : Z) (f : list Z → list Z) (self : PageCache) : PageCache :=
  match entries self !! page_id with
  | Some e => put_entry page_id {| buf := f (buf e); dirty := dirty e; needs_stamp := needs_stamp e |} self
  | None => self
  end.

Definition modify (page_id : Z) (f : list Z → list Z) : M PageCache (list Z) :=
  let* b := get_mut page_id in
  writes (write_buf page_id f) ;;;
  ret b.

Definition get_mut_deferred_stamp (page_id : Z) : M PageCache (list Z) :=
  let* b := get_mut page_id in
  writes (λ self, match entries self !! page_id with
    | Some e => put_entry page_id {| buf := buf e; dirty := dirty e; needs_stamp := true |} self
    | None => self
    end) ;;;
  ret b.

(** The writes of a client that leaves the stamping to the cache. *)
Definition modify_deferred (page_id : Z) (f : list Z → list Z) : M PageCache (list Z) :=
  let* b := get_mut_deferred_stamp page_id in
  writes (write_buf page_id f) ;;;
  ret b.

(** [self.next_page_id += 1] is checked. *)
Definition new_page : M PageCache Z :=
  let* self := reads id in
  let page_id := next_page_id self in
  if u64_max <? page_id + 1 then crash PanicOverflow else
  writes (λ self, set_pages_allocated (pages_allocated self + 1) (on_lru (Lru.push_front page_id) (add_dirty 1
    (put_entry page_id {| buf := zero_page; dirty := true; needs_stamp := false |}
      (set_next_page_id (page_id + 1) self))))) ;;;
  maybe_evict ;;;
  ret page_id.

Definition is_dirty (self : PageCache) (page_id : Z) : bool :=
  dirty_at self page_id || resident self page_id.

Definition reissue_page (page_id : Z) : M PageCache unit :=
  writes (λ self,
    untrack_dirty (dirty_at self page_id) (drop_entry page_id self)) ;;;
  writes (λ self, match spillway self with
    | Some spw => set_spillway (Some (Spillway.forget page_id spw)) self
    | None => self
    end) ;;;
  writes (λ self, on_lru (Lru.push_front page_id) (set_pages_allocated (pages_allocated self + 1) (add_dirty 1
    (put_entry page_id {| buf := zero_page; dirty := true; needs_stamp := false |} self)))) ;;;
  maybe_evict.

Definition claim_page (page_id : Z) : M PageCache unit :=
  let* self := reads id in
  assert_that PanicAssert (negb (is_dirty self page_id)) ;;;
  reissue_page page_id.

Definition reclaim_dead_txn_page (page_id : Z) : M PageCache unit := reissue_page page_id.
(** ** Flushing *)

Definition write_sealed (page_id : Z) (plaintext : list Z) : M PageCache unit :=
  let* blob := page_blob page_id plaintext in
  on_io (PageIo.write_page_unit page_id blob).

Definition flush_entry (page_id : Z) : M PageCache unit :=
  let* self := reads id in
  match entries self !! page_id with
  | None => crash PanicExpect
  | Some e =>
      let e := stamp_deferred e in
      writes (put_entry page_id e) ;;;
      debug_assert_data_page_stamped (buf e) ;;;
      write_sealed page_id (buf e) ;;;
      writes (λ self, set_dirty_count (Z.max (dirty_count self - 1) 0)
        (put_entry page_id {| buf := buf e; dirty := false; needs_stamp := needs_stamp e |} self))
  end.

Fixpoint for_each (f : Z → M PageCache unit) (ids : list Z) : M PageCache unit :=
  match ids with
  | [] => ret tt
  | id :: ids => f id ;;; for_each f ids
  end.

(** The spilled blob goes to the page file verbatim. *)
Definition drain_page (page_id : Z) : M PageCache unit :=
  let* blob := on_spillway (Spillway.rehydrate page_id) in
  on_spillway (writes (Spillway.forget page_id)) ;;;
  let* self := reads id in
  let* plaintext :=
    match cipher self with
    | Some dek =>
        if zlen blob =? ENC_PAGE_SIZE then
          on_io (PageIo.write_page_unit page_id blob) ;;; open_page dek page_id blob
        else fail (DecryptionFailed page_id)
    | None =>
        if zlen blob =? PAGE_SIZE then on_io (PageIo.write_page_unit page_id blob) ;;; ret blob
        else fail (DecryptionFailed page_id)
    end in
  debug_assert_data_page_stamped plaintext ;;;
  writes (λ self, match entries self !! page_id with
    | Some _ => self
    | None =>
        on_lru (match drain_insertion self with LruTail => Lru.push_back page_id | Mru => Lru.push_front page_id end)
          (put_entry page_id {| buf := plaintext; dirty := false; needs_stamp := false |} self)
    end).

Definition next_batch (self : PageCache) : list Z :=
  match spillway self with
  | Some spw => if 0 <? Spillway.slot_count spw then Spillway.drain_batch spw (max_pages self) else []
  | None => []
  end.

(** Each turn takes at least one page from the spillway. *)
Fixpoint drain_loop (fuel : nat) : M PageCache unit :=
  match fuel with
  | O => ret tt
  | S fuel =>
      let* self := reads id in
      match next_batch self with
      | [] => ret tt
      | batch => for_each drain_page batch ;;; evict_clean_to_cap ;;; drain_loop fuel
      end
  end.

Definition dirty_ids (self : PageCache) : list Z :=
  filter (λ id, dirty_at self id = true) (key_order (entries self)).

Definition spill_size (self : PageCache) : nat :=
  match spillway self with Some spw => size (Spillway.slots spw) | None => 0 end.

Definition flush : M PageCache unit :=
  let* self := reads id in
  let dirty_scratch := dirty_ids self in
  assert_that PanicAssert (dirty_count self =? zlen dirty_scratch) ;;;
  for_each flush_entry dirty_scratch ;;;
  writes (set_dirty_count 0) ;;;
  let* self := reads id in
  drain_loop (spill_size self) ;;;
  let* self := reads id in
  match spillway self with Some _ => on_spillway Spillway.truncate | None => ret tt end ;;;
  on_io PageIo.fsync.

(** ** Discarding *)

Definition discard (page_id : Z) (self : PageCache) : PageCache :=
  let self := match entries self !! page_id with
    | Some e => untrack_dirty (dirty e) (drop_entry page_id self)
    | None => self
    end in
  on_lru (λ l, (Lru.remove page_id l).2) self.

(** The result of the side file's truncation is ignored. *)
Definition discard_all_dirty (self : PageCache) : PageCache :=
  let self := foldl (λ self id, on_lru (λ l, (Lru.remove id l).2) (drop_entry id self)) self (dirty_ids self) in
  let self := set_dirty_count 0 self in
  match spillway self with
  | Some spw => set_spillway (Some (Spillway.truncate spw).2) self
  | None => self
  end.

Definition truncate (n : Z) : M PageCache unit :=
  writes (λ self, foldl (λ self id, discard id self) self (filter (λ id, n ≤ id) (key_order (entries self)))) ;;;
  writes (λ self, match spillway self with
    | Some spw => set_spillway (Some (Spillway.forget_above n spw)) self
    | None => self
    end) ;;;
  on_io (PageIo.set_page_count n) ;;;
  writes (λ self, if n <? next_page_id self then set_next_page_id n self else self).

Definition file_page_count (self : PageCache) : Z := PageIo.page_count (io self).

Definition set_cache_max_bytes (n : Z) : M PageCache unit :=
  writes (set_max_pages (Z.max (n / PAGE_SIZE) 1)) ;;;
  evict_clean_to_cap.

Definition set_spillway_limit (n : Z) (self : PageCache) : PageCache :=
  let self := set_spillway_max_bytes n self in
  match spillway self with
  | Some spw => set_spillway (Some (Spillway.set_max_bytes n spw)) self
  | None => self
  end.

Definition spillway_capacity (self : PageCache) : option (Z * Z) :=
  (λ spw, (Spillway.logical_bytes spw, Spillway.max_bytes spw)) <$> spillway self.
End ops.
End PageCache.
