(* ===== verification/CacheInv.v ===== *)
(** * The invariant of the page cache

    What the bytes in memory, in the spillway and in the page file stand for
    ([page_at]), the invariant that ties them together ([cache_inv]), and the lemmas
    on the updates that the operations of [PageCache] are made of. *)

From S2P Require Export PageCache.

Module CacheInv.
Import Crypto PageCache PageIoFacts SpillwayFacts LruProps.

(** ** Counting dirty entries *)

Definition dirties (m : gmap Z CacheEntry) : Z := Z.of_nat (size (filter (λ kv, dirty kv.2 = true) m)).

Lemma dirties_insert m id e : m !! id = None → dirties (<[id := e]> m) = dirties m + Z.b2z (dirty e).
Proof.
  intros Hn. unfold dirties. rewrite map_filter_insert. cbn [snd]. destruct (dirty e) eqn:E.
  - rewrite decide_True by done. rewrite map_size_insert_None; [cbn; lia |].
    apply map_lookup_filter_None. by left.
  - rewrite decide_False by done. rewrite delete_id by done. cbn. lia.
Qed.

Lemma dirties_delete m id e : m !! id = Some e → dirties (delete id m) = dirties m - Z.b2z (dirty e).
Proof.
  intros He. rewrite <- (insert_delete_id m id e He) at 2.
  rewrite dirties_insert by apply lookup_delete_eq. lia.
Qed.

Lemma dirties_update m id e e' :
  m !! id = Some e → dirties (<[id := e']> m) = dirties m - Z.b2z (dirty e) + Z.b2z (dirty e').
Proof.
  intros He. rewrite <- insert_delete_eq, dirties_insert by apply lookup_delete_eq. by rewrite (dirties_delete m id e).
Qed.

Lemma dirties_bound m : 0 ≤ dirties m ≤ Z.of_nat (size m).
Proof. unfold dirties. pose proof (map_subseteq_size (filter (λ kv, dirty kv.2 = true) m) m (map_filter_subseteq _ _)). lia. Qed.

Lemma dirties_pos m id e : m !! id = Some e → dirty e = true → 0 < dirties m.
Proof. intros He Hd. pose proof (dirties_delete m id e He). rewrite Hd in *. pose proof (dirties_bound (delete id m)). cbn in *. lia. Qed.

Lemma dirties_none m : (∀ id e, m !! id = Some e → dirty e = false) → dirties m = 0.
Proof.
  intros Hc. unfold dirties. rewrite (map_empty_filter_2 _ m); [done |]. intros id e He. cbn. by rewrite (Hc id e He).
Qed.

(** ** The order list and the entries *)

(** The list has the ids of the entries. *)
Definition tracks (l : Lru.LruIndex) (m : gmap Z CacheEntry) : Prop :=
  ∃ xs, rep l xs ∧ ∀ x, x ∈ xs ↔ is_Some (m !! x).

Lemma elem_of_without x id xs : x ∈ without id xs ↔ x ≠ id ∧ x ∈ xs.
Proof. unfold without. by rewrite list_elem_of_filter. Qed.

Lemma tracks_front l m id e : tracks l m → tracks (Lru.push_front id l) (<[id := e]> m).
Proof.
  intros (xs & Hr & Hx). exists (id :: without id xs). split; [apply (apply_op_rep l xs (PushFront id) Hr) |].
  intros x. rewrite elem_of_cons, elem_of_without, Hx. destruct (decide (x = id)) as [-> |].
  - rewrite lookup_insert_eq. split; eauto.
  - rewrite lookup_insert_ne by done. tauto.
Qed.

Lemma tracks_back l m id e : tracks l m → tracks (Lru.push_back id l) (<[id := e]> m).
Proof.
  intros (xs & Hr & Hx). exists (without id xs ++ [id]). split; [apply (apply_op_rep l xs (PushBack id) Hr) |].
  intros x. rewrite elem_of_app, list_elem_of_singleton, elem_of_without, Hx. destruct (decide (x = id)) as [-> |].
  - rewrite lookup_insert_eq. split; eauto.
  - rewrite lookup_insert_ne by done. tauto.
Qed.

Lemma tracks_remove l m id : tracks l m → tracks (Lru.remove id l).2 (delete id m).
Proof.
  intros (xs & Hr & Hx). exists (without id xs). split; [apply (apply_op_rep l xs (Remove id) Hr) |].
  intros x. rewrite elem_of_without, Hx. destruct (decide (x = id)) as [-> |].
  - rewrite lookup_delete_eq. by split; intros [].
  - rewrite lookup_delete_ne by done. tauto.
Qed.

Lemma tracks_same l m m' : tracks l m → (∀ x, is_Some (m' !! x) ↔ is_Some (m !! x)) → tracks l m'.
Proof. intros (xs & Hr & Hx) Hm. exists xs. split; [done |]. intros x. by rewrite Hx, Hm. Qed.

Lemma tracks_update l m id e e' : m !! id = Some e → tracks l m → tracks l (<[id := e']> m).
Proof.
  intros He Ht. eapply tracks_same; [done |]. intros x. destruct (decide (x = id)) as [-> |].
  - rewrite lookup_insert_eq, He. split; eauto.
  - by rewrite lookup_insert_ne.
Qed.

Lemma tracks_touch l m id e : m !! id = Some e → tracks l m → tracks (Lru.push_front id l) m.
Proof. intros He Ht. rewrite <- (insert_id m id e He). by apply tracks_front. Qed.

(** The iterator yields the ids of the entries. *)
Lemma tracks_iter l m x : tracks l m → x ∈ Lru.iter_lru_to_mru l ↔ is_Some (m !! x).
Proof. intros (xs & Hr & Hx). by rewrite (iter_lru_rep l xs Hr), elem_of_reverse, Hx. Qed.

(** ** What the stored bytes stand for *)

Section inv.
Context `{HX : Xxh3} `{HO : HashOrder} `{HC : Primitives}.
Implicit Types (c : PageCache) (e : CacheEntry).

(** The page of an entry, as it will be written. *)
Definition settle e : list Z := buf (stamp_deferred e).

Definition unit_size (cph : option (list Z)) : Z := match cph with Some _ => ENC_PAGE_SIZE | None => PAGE_SIZE end.

(** The page that a unit holds. *)
Definition decode (cph : option (list Z)) (id : Z) (blob : list Z) : option (list Z) :=
  match cph with
  | Some dek =>
      if zlen blob =? ENC_PAGE_SIZE then
        match Crypto.open dek id blob with COk p => Some p | _ => None end
      else None
  | None => if zlen blob =? PAGE_SIZE then Some blob else None
  end.

Definition disk_page (cph : option (list Z)) (io : PageIo.PageIo) (id : Z) : option (list Z) :=
  if (0 <=? id) && (id <? PageIo.page_count io) then decode cph id (unit_at io id) else None.

Definition spill_page (cph : option (list Z)) (sp : option Spillway.Spillway) (id : Z) : option (list Z) :=
  match sp with Some spw => spilled spw id ≫= decode cph id | None => None end.

Definition disk_at c id : option (list Z) := disk_page (cipher c) (io c) id.
Definition spill_at c id : option (list Z) := spill_page (cipher c) (spillway c) id.

(** The logical page: cached, else spilled, else on disk. *)
Definition page_at c id : option (list Z) :=
  match entries c !! id with
  | Some e => Some (settle e)
  | None => if resident c id then spill_at c id else disk_at c id
  end.

Record entry_ok c id e : Prop := {
  eo_id : 0 ≤ id < next_page_id c;
  eo_wf : wf_page (buf e);
  eo_defer : needs_stamp e = true → dirty e = true;
  eo_stamp : data_stamped (settle e);
  eo_clean : dirty e = false → resident c id = false ∧ disk_at c id = Some (buf e)
}.

Record cache_inv c : Prop := {
  ci_io : io_inv (io c);
  ci_stride : PageIo.stride (io c) = unit_size (cipher c);
  ci_count : PageIo.page_count (io c) ≤ next_page_id c;
  ci_next : 0 < next_page_id c ≤ u64_max;
  ci_max : 0 < max_pages c;
  ci_nonce : ∀ n, array NONCE_LEN (nonces c n);
  ci_spw : ∀ spw, spillway c = Some spw → sp_inv spw ∧ Spillway.payload_size spw = unit_size (cipher c);
  ci_lru : tracks (lru c) (entries c);
  ci_dirty : dirty_count c = dirties (entries c);
  ci_entries : ∀ id e, entries c !! id = Some e → entry_ok c id e;
  ci_spilled : ∀ id, resident c id = true → 0 ≤ id < next_page_id c ∧
    (entries c !! id = None → ∃ p, spill_at c id = Some p ∧ data_stamped p)
}.

(** The logical pages are as they were, and so is the file; no page has become dirty. *)
Record steady c c' : Prop := {
  sd_inv : cache_inv c';
  sd_next : next_page_id c' = next_page_id c;
  sd_cipher : cipher c' = cipher c;
  sd_limits : max_pages c' = max_pages c ∧ spillway_max_bytes c' = spillway_max_bytes c;
  sd_disk : ∀ id, disk_at c' id = disk_at c id;
  sd_pages : ∀ id, page_at c' id = page_at c id;
  sd_clean : ∀ id, is_dirty c id = false → is_dirty c' id = false
}.

Lemma steady_refl c : cache_inv c → steady c c.
Proof. by split. Qed.

Lemma steady_trans c1 c2 c3 : steady c1 c2 → steady c2 c3 → steady c1 c3.
Proof.
  intros [I1 N1 C1 [L1 M1] D1 P1 T1] [I2 N2 C2 [L2 M2] D2 P2 T2]. split; [done | congruence | congruence | split; congruence | | | auto].
  - intros id. by rewrite D2.
  - intros id. by rewrite P2.
Qed.

(** ** Units and pages *)

Lemma open_total dek id blob :
  zlen blob = ENC_PAGE_SIZE →
  (∃ p, Crypto.open dek id blob = COk p ∧ wf_page p) ∨ ∃ x, Crypto.open dek id blob = CErr x.
Proof.
  intros Hl. unfold Crypto.open, open_detached.
  destruct (aead_decrypt _ _ _ _ _) as [pt |] eqn:E; [left | right; eauto].
  apply aead_opened in E as [El Eb]. rewrite length_slice in El by (rewrite ?Hl; done).
  rewrite El. exists pt. done.
Qed.

Lemma decode_wf cph id blob p : bytes_ok blob → decode cph id blob = Some p → wf_page p.
Proof.
  intros Hb. unfold decode. destruct cph as [dek |].
  - destruct (Z.eqb_spec (zlen blob) ENC_PAGE_SIZE) as [Hl |]; [| done].
    destruct (open_total dek id blob Hl) as [(q & -> & Hq) | (x & ->)]; [by intros [= <-] | done].
  - destruct (Z.eqb_spec (zlen blob) PAGE_SIZE); [| done]. intros [= <-]. done.
Qed.

Lemma disk_page_wf cph io id p : io_inv io → disk_page cph io id = Some p → wf_page p.
Proof.
  intros Hi. unfold disk_page. destruct (Z.leb_spec 0 id), (Z.ltb_spec id (PageIo.page_count io)); try done.
  cbn [andb]. apply decode_wf. by apply (unit_ok io id Hi).
Qed.

Lemma spill_page_wf cph spw id p : sp_inv spw → spill_page cph (Some spw) id = Some p → wf_page p.
Proof.
  intros Hi. unfold spill_page. intros (blob & Hs & Hd)%bind_Some.
  eapply decode_wf; [by apply (spilled_blob spw id blob Hi Hs) | done].
Qed.

Lemma settle_wf e : wf_page (buf e) → wf_page (settle e).
Proof. intros Hw. unfold settle, stamp_deferred. destruct (needs_stamp e); cbn; auto with chisel. Qed.

Lemma settle_body e : wf_page (buf e) → body (settle e) = body (buf e).
Proof. intros Hw. unfold settle, stamp_deferred. destruct (needs_stamp e); cbn; [by apply body_stamp | done]. Qed.

Lemma settle_clean c id e : entry_ok c id e → dirty e = false → settle e = buf e.
Proof.
  intros [] Hd. unfold settle, stamp_deferred. destruct (needs_stamp e) eqn:En; [| done].
  by rewrite eo_defer0 in Hd.
Qed.

Lemma settle_twice e : settle (stamp_deferred e) = settle e.
Proof. unfold settle, stamp_deferred. destruct (needs_stamp e) eqn:En; cbn; by rewrite ?En. Qed.

Lemma page_at_wf c id p : cache_inv c → page_at c id = Some p → wf_page p.
Proof.
  intros Hi. unfold page_at. destruct (entries c !! id) as [e |] eqn:E.
  { intros [= <-]. by apply settle_wf, (eo_wf _ _ _ (ci_entries _ Hi _ _ E)). }
  unfold resident, spill_at. destruct (spillway c) as [spw |] eqn:Es; [| by apply disk_page_wf, Hi].
  destruct (Spillway.is_resident spw id); [| by apply disk_page_wf, Hi].
  apply spill_page_wf. by apply (ci_spw _ Hi).
Qed.

Lemma disk_at_wf c id p : cache_inv c → disk_at c id = Some p → wf_page p.
Proof. intros Hi. by apply disk_page_wf, Hi. Qed.

(** Sealing and decoding are inverse, in both modes. *)
Lemma decode_sealed c id p n :
  array NONCE_LEN (nonces c n) → wf_page p →
  let blob := match cipher c with Some dek => Crypto.seal dek (nonces c n) id p | None => p end in
  zlen blob = unit_size (cipher c) ∧ bytes_ok blob ∧ decode (cipher c) id blob = Some p.
Proof.
  intros Hn Hp. cbv zeta. unfold decode, unit_size. destruct (cipher c) as [dek |].
  - destruct (CryptoProps.seal_open dek (nonces c n) id p Hp Hn) as [[Hl Hb] Ho].
    rewrite Hl, Ho. done.
  - destruct Hp as [Hl Hb]. by rewrite Hl.
Qed.

(** ** Rebuilding the invariant after a change of the entries *)

(** The fields below the entries. *)
Definition same_back c c' : Prop :=
  io c' = io c ∧ spillway c' = spillway c ∧ cipher c' = cipher c ∧ next_page_id c' = next_page_id c ∧ nonces c' = nonces c.

Lemma same_back_at c c' id :
  same_back c c' → disk_at c' id = disk_at c id ∧ spill_at c' id = spill_at c id ∧ resident c' id = resident c id.
Proof. intros (H1 & H2 & H3 & _). unfold disk_at, spill_at, resident. by rewrite H1, H2, H3. Qed.

Lemma entry_ok_back c c' id e : same_back c c' → entry_ok c id e → entry_ok c' id e.
Proof.
  intros Hb []. destruct (same_back_at c c' id Hb) as (Hd & _ & Hr). destruct Hb as (_ & _ & _ & Hn & _).
  split; rewrite ?Hn, ?Hd, ?Hr; done.
Qed.

Lemma inv_repack c c' :
  cache_inv c → same_back c c' → 0 < max_pages c' →
  tracks (lru c') (entries c') → dirty_count c' = dirties (entries c') →
  (∀ id e, entries c' !! id = Some e → entry_ok c id e) →
  (∀ id, resident c id = true → entries c' !! id = None → ∃ p, spill_at c id = Some p ∧ data_stamped p) →
  cache_inv c'.
Proof.
  intros Hi Hb Hm Ht Hdc He Hs. pose proof Hb as (Hio & Hsp & Hci & Hn & Hno).
  split; rewrite ?Hio, ?Hsp, ?Hci, ?Hn, ?Hno; try apply Hi; try done.
  - intros id e Hid. eapply entry_ok_back; [done |]. auto.
  - intros id. destruct (same_back_at c c' id Hb) as (_ & -> & ->). intros Hr.
    split; [by apply (ci_spilled _ Hi) | auto].
Qed.

(** Fields that no statement is about. *)
Lemma steady_fields c c' :
  cache_inv c → same_back c c' → entries c' = entries c → lru c' = lru c → dirty_count c' = dirty_count c →
  max_pages c' = max_pages c → spillway_max_bytes c' = spillway_max_bytes c → steady c c'.
Proof.
  intros Hi Hb He Hl Hd Hm Hs. split; [| apply Hb | apply Hb | done | | |].
  - eapply inv_repack; rewrite ?He, ?Hl, ?Hd, ?Hm; try apply Hi; done.
  - intros id. by apply same_back_at.
  - intros id. unfold page_at. destruct (same_back_at c c' id Hb) as (-> & -> & ->). by rewrite He.
  - intros id. unfold is_dirty, dirty_at. destruct (same_back_at c c' id Hb) as (_ & _ & ->). by rewrite He.
Qed.

(** An entry put in the place of one with the same page. *)
Lemma steady_touch c id e : cache_inv c → entries c !! id = Some e → steady c (on_lru (Lru.push_front id) c).
Proof.
  intros Hi He. split; try done. eapply inv_repack; [exact Hi | done | apply Hi | | apply Hi | apply Hi |].
  - eapply tracks_touch; [exact He | apply Hi].
  - intros j Hr. by apply (ci_spilled _ Hi).
Qed.

(** ** Rebuilding the invariant after a change at one page

    The entry, the slot and the unit of page [v] may change; those of the other pages
    stay. *)
Record back_rel (v : Z) c c' : Prop := {
  br_io : io_inv (io c');
  br_stride : PageIo.stride (io c') = PageIo.stride (io c);
  br_count : PageIo.page_count (io c') ≤ next_page_id c';
  br_cipher : cipher c' = cipher c;
  br_nonces : nonces c' = nonces c;
  br_next : next_page_id c ≤ next_page_id c' ≤ u64_max;
  br_max : 0 < max_pages c';
  br_spw : ∀ spw, spillway c' = Some spw → sp_inv spw ∧ Spillway.payload_size spw = unit_size (cipher c);
  br_res : ∀ j, j ≠ v → resident c' j = resident c j;
  br_resv : resident c' v = true → 0 ≤ v < next_page_id c';
  br_spill : ∀ j p, j ≠ v → spill_at c j = Some p → spill_at c' j = Some p;
  br_disk : ∀ j p, j ≠ v → disk_at c j = Some p → disk_at c' j = Some p;
  br_other : ∀ j, j ≠ v → entries c' !! j = entries c !! j
}.

Lemma back_dirty v c c' j : back_rel v c c' → j ≠ v → is_dirty c' j = is_dirty c j.
Proof. intros [] Hj. unfold is_dirty, dirty_at. by rewrite br_other0, br_res0. Qed.

(** Clean pages stay clean where page [v] was dirty or is clean. *)
Lemma back_clean v c c' :
  back_rel v c c' → (is_dirty c v = false → is_dirty c' v = false) → ∀ j, is_dirty c j = false → is_dirty c' j = false.
Proof. intros Hb Hv j. destruct (decide (j = v)) as [-> |]; [done |]. by rewrite (back_dirty v c c' j). Qed.

Lemma rebuild v c c' :
  cache_inv c → back_rel v c c' →
  tracks (lru c') (entries c') → dirty_count c' = dirties (entries c') →
  (∀ e, entries c' !! v = Some e → entry_ok c' v e) →
  (resident c' v = true → entries c' !! v = None → ∃ p, spill_at c' v = Some p ∧ data_stamped p) →
  cache_inv c' ∧ ∀ j p, j ≠ v → page_at c j = Some p → page_at c' j = Some p.
Proof.
  intros Hi [] Ht Hdc He Hs. pose proof (ci_next _ Hi). split.
  - split; try done.
    + rewrite br_stride0, br_cipher0. apply Hi.
    + lia.
    + rewrite br_nonces0. apply Hi.
    + rewrite br_cipher0. done.
    + intros id e Hid. destruct (decide (id = v)) as [-> | Hne]; [by apply He |]. rewrite br_other0 in Hid by done.
      destruct (ci_entries _ Hi _ _ Hid). split; [lia | done | done | done |]. intros Hd.
      destruct (eo_clean0 Hd) as [Hr Hdk]. rewrite br_res0 by done. auto.
    + intros id. destruct (decide (id = v)) as [-> | Hne]; [auto |]. rewrite br_res0, br_other0 by done.
      intros Hr. destruct (ci_spilled _ Hi id Hr) as [Hb Hp]. split; [lia |]. intros Hn. destruct (Hp Hn) as (p & Hsp & Hst). eauto.
  - intros j p Hj. unfold page_at. rewrite br_other0, br_res0 by done. destruct (entries c !! j); [done |].
    destruct (resident c j); auto.
Qed.

(** The same where the page file is as it was. *)
Lemma rebuild_pages v c c' :
  cache_inv c → back_rel v c c' → io c' = io c →
  (∀ j, disk_at c' j = disk_at c j) ∧ ∀ j, j ≠ v → page_at c' j = page_at c j.
Proof.
  intros Hi [] Hio. assert (Hd : ∀ j, disk_at c' j = disk_at c j) by (intros j; unfold disk_at; by rewrite Hio, br_cipher0).
  split; [done |]. intros j Hj. unfold page_at. rewrite br_other0, br_res0 by done.
  destruct (entries c !! j) eqn:E; [done |]. destruct (resident c j) eqn:Er; [| done].
  destruct (ci_spilled _ Hi j Er) as [_ Hp]. destruct (Hp E) as (p & Hp' & _). rewrite Hp'. auto.
Qed.

(** A change of the entry alone. *)
Lemma back_entry v c c' :
  cache_inv c → same_back c c' → 0 < max_pages c' → (∀ j, j ≠ v → entries c' !! j = entries c !! j) → back_rel v c c'.
Proof.
  intros Hi Hb Hm Ho. pose proof Hb as (Hio & Hsp & Hci & Hn & Hno). pose proof (ci_next _ Hi).
  assert (Hat : ∀ j, disk_at c' j = disk_at c j ∧ spill_at c' j = spill_at c j ∧ resident c' j = resident c j)
    by (intros j; by apply same_back_at).
  split; rewrite ?Hio, ?Hsp, ?Hn; try apply Hi; try done; try lia.
  - intros j _. apply Hat.
  - destruct (Hat v) as (_ & _ & ->). intros Hr. by apply (ci_spilled _ Hi).
  - intros j p _. by destruct (Hat j) as (_ & -> & _).
  - intros j p _. by destruct (Hat j) as (-> & _ & _).
Qed.
End inv.
End CacheInv.
