(* ===== verification/CacheEvict.v ===== *)
(** * Eviction of the page cache

    [evict_clean_to_cap], [spill_victim] and [maybe_evict]: no logical page changes,
    and on success the cache is within its limit. *)

From S2P Require Export CacheInv.

Module CacheEvict.
Import Crypto PageCache PageIoFacts SpillwayFacts CacheInv.

Lemma dirties_full m id e : dirties m = Z.of_nat (size m) → m !! id = Some e → dirty e = true.
Proof.
  intros Hf He. destruct (dirty e) eqn:Hd; [done |]. pose proof (dirties_delete m id e He) as Hdel.
  pose proof (dirties_bound (delete id m)). assert (size (delete id m) = pred (size m)) by (apply map_size_delete_Some; eauto).
  assert (size m ≠ 0%nat). { intros Hz%map_size_empty_iff. by rewrite Hz, lookup_empty in He. }
  rewrite Hd in Hdel. cbn in *. lia.
Qed.

(** Calls of the spillway and of the page file. *)
Lemma on_spillway_spec {A} `{HF : Fault} (F : PageCache → Prop) (m : M Spillway.Spillway A) c spw (Q : A → PageCache → Prop) :
  spillway c = Some spw →
  spec (λ spw', F (set_spillway (Some spw') c)) m spw (λ a spw', Q a (set_spillway (Some spw') c)) →
  spec F (on_spillway m) c Q.
Proof. intros E. unfold spec, on_spillway. rewrite E. by destruct (m spw). Qed.

Lemma on_io_spec {A} `{HF : Fault} (F : PageCache → Prop) (m : M PageIo.PageIo A) c (Q : A → PageCache → Prop) :
  spec (λ io', F (set_io io' c)) m (io c) (λ a io', Q a (set_io io' c)) → spec F (on_io m) c Q.
Proof. unfold spec, on_io. by destruct (m (io c)). Qed.

Section evict.
Context `{HX : Xxh3} `{HO : HashOrder} `{HC : Primitives}.
#[local] Instance evict_fault : Fault := cache_fault False False.
Implicit Types (c : PageCache) (e : CacheEntry).

(** ** Clean pages *)

Lemma drop_clean c v e :
  cache_inv c → entries c !! v = Some e → dirty e = false →
  steady c (on_lru (λ l, (Lru.remove v l).2) (drop_entry v c)).
Proof.
  intros Hi He Hd. set (c' := on_lru _ _). destruct (eo_clean _ _ _ (ci_entries _ Hi _ _ He) Hd) as [Hr Hdk].
  assert (Hb : back_rel v c c').
  { apply back_entry; [done | done | apply Hi |]. intros j Hj. cbn. by rewrite lookup_delete_ne. }
  destruct (rebuild_pages v c c' Hi Hb eq_refl) as [HD HP].
  destruct (rebuild v c c' Hi Hb) as [Hi' _].
  - by apply tracks_remove, Hi.
  - cbn. rewrite (dirties_delete _ _ e He), Hd. cbn. rewrite Z.sub_0_r. apply Hi.
  - intros x Hx. cbn in Hx. by rewrite lookup_delete_eq in Hx.
  - intros Hr'. change (resident c' v) with (resident c v) in Hr'. congruence.
  - split; try done.
    2: { apply (back_clean v c c' Hb). intros _. unfold is_dirty, dirty_at.
         change (resident c' v) with (resident c v). cbn. by rewrite lookup_delete_eq. }
    intros j. destruct (decide (j = v)) as [-> |]; [| auto]. unfold page_at.
    change (resident c' v) with (resident c v). cbn [c' on_lru drop_entry set_lru set_entries entries].
    rewrite lookup_delete_eq, Hr, HD, Hdk, He. by rewrite (settle_clean c v e (ci_entries _ Hi _ _ He) Hd).
Qed.

(** What eviction leaves besides the logical pages. *)
Definition evicted c c' : Prop := entries c' ⊆ entries c ∧ spillway c' = spillway c ∧ drawn c' = drawn c.

Lemma evict_loop_spec fuel c :
  cache_inv c → (size (entries c) ≤ fuel)%nat →
  spec (λ c', steady c c' ∧ evicted c c') (evict_clean_loop fuel) c
    (λ _ c', entry_count c' ≤ max_pages c' ∨ ∀ id e, entries c' !! id = Some e → dirty e = true).
Proof.
  revert c. induction fuel as [| fuel IH]; intros c Hi Hf.
  { apply spec_ret; [by split; [apply steady_refl |] |]. left. pose proof (ci_max _ Hi). unfold entry_count. lia. }
  cbn [evict_clean_loop]. apply reads_id.
  assert (H0 : steady c c ∧ evicted c c) by by split; [apply steady_refl |].
  destruct (Z.leb_spec (entry_count c) (max_pages c)); [by apply spec_ret; [| left] |].
  destruct (Z.eqb_spec (dirty_count c) (entry_count c)) as [Ed |].
  { apply spec_ret; [done |]. right. intros id e. apply dirties_full. rewrite <- (ci_dirty _ Hi). exact Ed. }
  destruct (find _ _) as [v |] eqn:Ef.
  - apply find_some in Ef as [_ Hc]. unfold clean_at in Hc. destruct (entries c !! v) as [e |] eqn:He; [| done].
    apply negb_true_iff in Hc. apply bind_assert; [| done |].
    { destruct (needs_stamp e) eqn:En; [| done]. by rewrite (eo_defer _ _ _ (ci_entries _ Hi _ _ He) En) in Hc. }
    apply bind_writes. pose proof (drop_clean c v e Hi He Hc) as Hst. set (c1 := on_lru _ _) in *.
    eapply spec_conseq; [apply IH | |].
    + apply Hst.
    + cbn. rewrite map_size_delete_Some by eauto. lia.
    + intros c' [Hs' (Hsub & Hsp & Hdr)]. split; [by eapply steady_trans |]. split; [| done].
      etrans; [exact Hsub | apply delete_subseteq].
    + intros ? c' _ HQ. done.
  - apply spec_ret; [done |]. right. intros id e He.
    assert (Hin : id ∈ Lru.iter_lru_to_mru (lru c)) by (rewrite (tracks_iter _ _ _ (ci_lru _ Hi)), He; eauto).
    pose proof (find_none _ _ Ef id (proj1 (list_elem_of_In _ _) Hin)) as Hc. unfold clean_at in Hc. rewrite He in Hc.
    by apply negb_false_iff in Hc.
Qed.

Lemma evict_clean_spec c :
  cache_inv c →
  spec (λ c', steady c c' ∧ evicted c c') evict_clean_to_cap c
    (λ _ c', entry_count c' ≤ max_pages c' ∨ ∀ id e, entries c' !! id = Some e → dirty e = true).
Proof. intros Hi. unfold evict_clean_to_cap. apply reads_id. by apply evict_loop_spec. Qed.

(** ** The spillway under the cache *)

(** The spillway of [c'] has the spilled pages of that of [c], but for page [v]. *)
Record spw_rel (cph : option (list Z)) (v : Z) (sp sp' : option Spillway.Spillway) : Prop := {
  sr_inv : ∀ spw, sp' = Some spw → sp_inv spw ∧ Spillway.payload_size spw = unit_size cph;
  sr_slots : ∀ j, j ≠ v → (Spillway.slots <$> sp') ≫= (.!! j) = (Spillway.slots <$> sp) ≫= (.!! j);
  sr_keep : ∀ j p, j ≠ v → spill_page cph sp j = Some p → spill_page cph sp' j = Some p
}.

Lemma spw_rel_refl cph v sp :
  (∀ spw, sp = Some spw → sp_inv spw ∧ Spillway.payload_size spw = unit_size cph) → spw_rel cph v sp sp.
Proof. by split. Qed.

Lemma spw_rel_wrote cph v spw spw' :
  Spillway.payload_size spw = unit_size cph → sp_wrote v spw spw' → spw_rel cph v (Some spw) (Some spw').
Proof.
  intros Hp [Hi [Hpl _] Hs Hk]. split.
  - intros ? [= <-]. split; [done | congruence].
  - intros j Hj. cbn. by apply Hs.
  - intros j p Hj. cbn. intros (b & Hb & Hd)%bind_Some. by rewrite (Hk j b Hj Hb).
Qed.

Lemma spw_rel_trans cph v s1 s2 s3 : spw_rel cph v s1 s2 → spw_rel cph v s2 s3 → spw_rel cph v s1 s3.
Proof.
  intros [_ S1 K1] [I2 S2 K2]. split; [done | |].
  - intros j Hj. by rewrite S2, S1.
  - auto.
Qed.

Lemma resident_slots c j : resident c j = bool_decide (is_Some ((Spillway.slots <$> spillway c) ≫= (.!! j))).
Proof. unfold resident, Spillway.is_resident. destruct (spillway c); [done |]. by rewrite bool_decide_eq_false_2 by by intros []. Qed.

(** No cached page has a slot too: so it is unless a write to the spillway failed. *)
Definition tidy c : Prop := ∀ j, is_Some (entries c !! j) → resident c j = false.

Lemma tidy_rel cph v c c' :
  spw_rel cph v (spillway c) (spillway c') →
  (∀ j, j ≠ v → is_Some (entries c' !! j) → is_Some (entries c !! j)) →
  (is_Some (entries c' !! v) → resident c' v = false) → tidy c → tidy c'.
Proof.
  intros Hr He Hv Ht j Hj. destruct (decide (j = v)) as [-> | Hne]; [auto |].
  rewrite resident_slots, (sr_slots _ _ _ _ Hr) by done. rewrite <- resident_slots. auto.
Qed.

Lemma evicted_tidy c c' : evicted c c' → tidy c → tidy c'.
Proof.
  intros (Hsub & Hsp & _) Ht j [e He]. unfold resident. rewrite Hsp. apply (Ht j). exists e. by eapply lookup_weaken.
Qed.

Lemma new_spillway cph v sp b mx :
  (b = {| Backing.file_backed := Backing.file_backed b; Backing.bytes := []; Backing.answers := Backing.answers b |}) →
  sp = {| Spillway.backing := b; Spillway.slots := ∅; Spillway.next_slot_index := 0; Spillway.max_bytes := mx;
          Spillway.payload_size := unit_size cph |} →
  spw_rel cph v None (Some sp).
Proof.
  intros Hb ->. split; [| intros j _; cbn; by rewrite lookup_empty | done]. intros spw [= <-]. split; [| done].
  split; cbn; [rewrite Hb; constructor | by destruct cph | done | |]; intros ??; rewrite lookup_empty; done.
Qed.

(** Opening the spillway if need be, then spilling. *)
Lemma ensure_spill_spec c v blob :
  (∀ spw, spillway c = Some spw → sp_inv spw ∧ Spillway.payload_size spw = unit_size (cipher c)) →
  is_u64 v → zlen blob = unit_size (cipher c) → bytes_ok blob → spillway_max_bytes c ≠ 0 →
  spec (λ c', ∃ sp', c' = set_spillway sp' c ∧ spw_rel (cipher c) v (spillway c) sp')
    (ensure_spillway ;;; on_spillway (Spillway.spill v blob)) c
    (λ _ c', ∃ spw', spillway c' = Some spw' ∧ spilled spw' v = Some blob).
Proof.
  intros Hsp Hv Hl Hb Hm.
  assert (Hid : ∃ sp', c = set_spillway sp' c ∧ spw_rel (cipher c) v (spillway c) sp').
  { exists (spillway c). split; [by destruct c | by apply spw_rel_refl]. }
  eapply (spec_bind _ _ _ _ (λ _ c', ∃ spw, c' = set_spillway (Some spw) c ∧
    spw_rel (cipher c) v (spillway c) (Some spw))).
  - unfold ensure_spillway. apply reads_id. apply bind_assert; [| done |].
    { destruct (Z.eqb_spec (spillway_max_bytes c) 0); [lia | done]. }
    destruct (spillway c) as [spw |] eqn:E.
    { apply spec_ret; [done |]. exists spw. split; [by destruct c; cbn in *; subst | by apply spw_rel_refl]. }
    destruct (spillway_location c) as [[k |] ans |].
    + by apply spec_fail.
    + apply spec_writes; eexists; (split; [reflexivity |]); (eapply new_spillway; [| reflexivity]; done).
    + apply spec_writes; eexists; (split; [reflexivity |]); (eapply new_spillway; [| reflexivity]; done).
  - intros [] c1 _ (spw & -> & Hrel). destruct (sr_inv _ _ _ _ Hrel spw eq_refl) as [Hi Hp].
    eapply on_spillway_spec; [reflexivity |]. eapply spec_conseq; [apply (spill_spec False); [done | done | congruence | done] | |].
    + intros spw' Hw. exists (Some spw'). split; [done |]. eapply spw_rel_trans; [done | by apply spw_rel_wrote].
    + intros [] spw' _ HQ. exists spw'. done.
Qed.

Lemma back_spw v c c' :
  cache_inv c → io c' = io c → cipher c' = cipher c → nonces c' = nonces c →
  next_page_id c ≤ next_page_id c' ≤ u64_max → 0 ≤ v < next_page_id c' → 0 < max_pages c' →
  spw_rel (cipher c) v (spillway c) (spillway c') → (∀ j, j ≠ v → entries c' !! j = entries c !! j) →
  back_rel v c c'.
Proof.
  intros Hi Hio Hci Hno Hn Hv Hm [HI HS HK] Ho. pose proof (ci_count _ Hi).
  split; rewrite ?Hio; try apply Hi; try done; try lia.
  - intros j Hj. by rewrite !resident_slots, HS.
  - intros j p Hj. unfold spill_at. rewrite Hci. auto.
  - intros j p Hj. unfold disk_at. by rewrite Hio, Hci.
Qed.

Lemma spill_page_spilled c id spw blob p :
  spillway c = Some spw → spilled spw id = Some blob → decode (cipher c) id blob = Some p →
  spill_at c id = Some p ∧ resident c id = true.
Proof.
  intros E Hs Hd. unfold spill_at, spill_page, resident, Spillway.is_resident. rewrite E, Hs. split; [done |].
  unfold spilled in Hs. destruct (Spillway.slots spw !! id); [| done]. by apply bool_decide_eq_true_2.
Qed.

Lemma debug_assert_run c p : data_stamped p → debug_assert_data_page_stamped p c = (Ok tt, c).
Proof.
  intros Hs. unfold debug_assert_data_page_stamped, data_stamped in *.
  destruct (Z.eqb_spec (getb 0 p) (type_tag DataPageType)); [by rewrite Hs | done].
Qed.

Lemma page_blob_run c id p :
  ∃ n, page_blob id p c =
    (Ok (match cipher c with Some dek => Crypto.seal dek (nonces c (drawn c)) id p | None => p end), set_drawn n c).
Proof.
  unfold page_blob, bind, reads. cbn. destruct (cipher c) eqn:E; [by eexists |]. exists (drawn c). by destruct c.
Qed.

(** ** Dirty pages *)

(** The pages of [c'] are those of [c], the cached ones being cached before. *)
Definition shrunk c c' : Prop := steady c c' ∧ ∀ j, entries c !! j = None → entries c' !! j = None.

Lemma shrunk_refl c : cache_inv c → shrunk c c.
Proof. intros Hi. split; [by apply steady_refl | done]. Qed.

Lemma shrunk_trans c1 c2 c3 : shrunk c1 c2 → shrunk c2 c3 → shrunk c1 c3.
Proof. intros [H1 E1] [H2 E2]. split; [by eapply steady_trans | auto]. Qed.

(** The entry of a spilled page is dropped. *)
Lemma spilled_out c c' v e spw blob :
  cache_inv c → entries c !! v = Some e → dirty e = true →
  io c' = io c → cipher c' = cipher c → nonces c' = nonces c → next_page_id c' = next_page_id c →
  max_pages c' = max_pages c → spillway_max_bytes c' = spillway_max_bytes c →
  spw_rel (cipher c) v (spillway c) (spillway c') → entries c' = delete v (entries c) →
  lru c' = (Lru.remove v (lru c)).2 → dirty_count c' = dirty_count c - 1 →
  spillway c' = Some spw → spilled spw v = Some blob → decode (cipher c) v blob = Some (settle e) →
  shrunk c c'.
Proof.
  intros Hi He Hd Hio Hci Hno Hnx Hmx Hsm Hrel Hen Hl Hdc Hsp Hs Hdec.
  pose proof (ci_entries _ Hi _ _ He) as Heo. pose proof (ci_next _ Hi).
  assert (Hb : back_rel v c c').
  { apply back_spw; [done.. | rewrite Hnx; lia | rewrite Hnx; apply Heo | rewrite Hmx; apply Hi | done |].
    intros j Hj. by rewrite Hen, lookup_delete_ne. }
  rewrite <- Hci in Hdec. destruct (spill_page_spilled c' v spw blob _ Hsp Hs Hdec) as [Hat Hres].
  destruct (rebuild_pages v c c' Hi Hb Hio) as [HD HP]. destruct (rebuild v c c' Hi Hb) as [Hi' _].
  - rewrite Hl, Hen. by apply tracks_remove, Hi.
  - rewrite Hdc, Hen, (dirties_delete _ _ e He), Hd, (ci_dirty _ Hi). done.
  - intros x. by rewrite Hen, lookup_delete_eq.
  - intros _ _. exists (settle e). split; [done | apply Heo].
  - split.
    + split; try done.
      2: { apply (back_clean v c c' Hb). unfold is_dirty at 1, dirty_at. by rewrite He, Hd. }
      intros j. destruct (decide (j = v)) as [-> |]; [| auto].
      unfold page_at. by rewrite Hen, lookup_delete_eq, Hres, Hat, He.
    + intros j Hj. rewrite Hen. by apply lookup_delete_None; right.
Qed.

(** The entry of a page that could not be spilled is put back, stamped. *)
Lemma put_back c c' v e :
  cache_inv c → entries c !! v = Some e → dirty e = true →
  io c' = io c → cipher c' = cipher c → nonces c' = nonces c → next_page_id c' = next_page_id c →
  max_pages c' = max_pages c → spillway_max_bytes c' = spillway_max_bytes c →
  spw_rel (cipher c) v (spillway c) (spillway c') →
  entries c' = <[v := stamp_deferred e]> (delete v (entries c)) →
  lru c' = Lru.push_back v (Lru.remove v (lru c)).2 → dirty_count c' = dirty_count c →
  shrunk c c'.
Proof.
  intros Hi He Hd Hio Hci Hno Hnx Hmx Hsm Hrel Hen Hl Hdc.
  pose proof (ci_entries _ Hi _ _ He) as Heo. pose proof (ci_next _ Hi).
  assert (Hde : dirty (stamp_deferred e) = true) by (unfold stamp_deferred; by destruct (needs_stamp e)).
  rewrite insert_delete_eq in Hen.
  assert (Hb : back_rel v c c').
  { apply back_spw; [done.. | rewrite Hnx; lia | rewrite Hnx; apply Heo | rewrite Hmx; apply Hi | done |].
    intros j Hj. by rewrite Hen, lookup_insert_ne. }
  destruct (rebuild_pages v c c' Hi Hb Hio) as [HD HP]. destruct (rebuild v c c' Hi Hb) as [Hi' _].
  - rewrite Hl, Hen, <- insert_delete_eq. by apply tracks_back, tracks_remove, Hi.
  - rewrite Hdc, Hen, (dirties_update _ _ e _ He), Hd, Hde, (ci_dirty _ Hi). lia.
  - intros x. rewrite Hen, lookup_insert_eq. intros [= <-]. destruct Heo. split.
    + by rewrite Hnx.
    + by apply settle_wf.
    + done.
    + by rewrite settle_twice.
    + by rewrite Hde.
  - intros _. by rewrite Hen, lookup_insert_eq.
  - split.
    + split; try done.
      2: { apply (back_clean v c c' Hb). unfold is_dirty at 1, dirty_at. by rewrite He, Hd. }
      intros j. destruct (decide (j = v)) as [-> |]; [| auto].
      unfold page_at. by rewrite Hen, lookup_insert_eq, He, settle_twice.
    + intros j Hj. rewrite Hen, lookup_insert_ne; [done |]. congruence.
Qed.
(** An error handler that restores the frame of a part that does not panic. *)
Lemma spec_handle {A} (F F' : PageCache → Prop) (m : M PageCache A) h c (Q Q' : A → PageCache → Prop) :
  spec F' m c Q' → (∀ c', F' c' → F (h c')) → (∀ a c', F' c' → Q' a c' → F c' ∧ Q a c') → spec F (on_err m h) c Q.
Proof.
  intros [HF' HQ'] Hh HQ. unfold spec, on_err in *. destruct (m c) as [[a | e | p] c']; cbn in *; [by apply HQ | auto |].
  by destruct HQ'.
Qed.

Lemma spill_victim_spec c v e :
  cache_inv c → entries c !! v = Some e → dirty e = true → spillway_max_bytes c ≠ 0 →
  spec (shrunk c) (spill_victim v) c (λ _ c', entries c' = delete v (entries c) ∧ (tidy c → tidy c')).
Proof.
  intros Hi He Hd Hm. pose proof (ci_entries _ Hi _ _ He) as Heo. pose proof (ci_next _ Hi).
  assert (Hde : dirty (stamp_deferred e) = true) by (unfold stamp_deferred; by destruct (needs_stamp e)).
  unfold spill_victim. apply reads_id. rewrite He. apply bind_writes. cbv zeta.
  eapply bind_run; [apply debug_assert_run, Heo |]. do 2 apply bind_writes. rewrite Hde.
  cbn [untrack_dirty]. set (c1 := set_dirty_count _ _). destruct (page_blob_run c1 v (settle e)) as [n Hrun].
  eapply bind_run; [exact Hrun |]. set (c2 := set_drawn n c1).
  destruct (decode_sealed c1 v (settle e) (drawn c1)) as (Hl & Hb & Hdec); [apply Hi | apply settle_wf, Heo |].
  set (blob := match cipher c1 with Some _ => _ | None => _ end) in *.
  pose proof (dirties_pos _ _ e He Hd) as Hpos. rewrite <- (ci_dirty _ Hi) in Hpos.
  assert (Hdc1 : dirty_count c2 = dirty_count c - 1) by (cbn; lia).
  eapply spec_handle; [apply (ensure_spill_spec c2 v blob); [apply Hi | | done..] | |].
  - split; [apply Heo |]. pose proof (eo_id _ _ _ Heo). unfold u64_max in *. lia.
  - intros c' (sp' & -> & Hrel). apply (put_back c _ v e); try done. cbn in *. lia.
  - intros [] c' (sp' & -> & Hrel) (spw' & Hsp & Hs).
    split; [eapply (spilled_out c _ v e); try done |]. split; [done |]. apply (tidy_rel (cipher c) v); [exact Hrel | |].
    + intros j Hj. cbn. by rewrite lookup_delete_ne.
    + cbn. rewrite lookup_delete_eq. by intros [].
Qed.

Lemma spill_loop_spec fuel c :
  cache_inv c → (size (entries c) ≤ fuel)%nat →
  (max_pages c < entry_count c → ∀ id e, entries c !! id = Some e → dirty e = true) →
  spec (shrunk c) (spill_loop fuel) c (λ _ c', entry_count c' ≤ max_pages c' ∧ (tidy c → tidy c')).
Proof.
  revert c. induction fuel as [| fuel IH]; intros c Hi Hf Hd.
  { apply spec_ret; [by apply shrunk_refl |]. pose proof (ci_max _ Hi). unfold entry_count. split; [lia | done]. }
  cbn [spill_loop]. apply reads_id. destruct (Z.leb_spec (entry_count c) (max_pages c)); [by apply spec_ret; [apply shrunk_refl |] |].
  destruct (Z.eqb_spec (spillway_max_bytes c) 0); [by apply spec_fail; [apply shrunk_refl |] |].
  pose proof (λ x, tracks_iter _ _ x (ci_lru _ Hi)) as Hit.
  destruct (Lru.iter_lru_to_mru (lru c)) as [| v ids].
  { exfalso. assert (entries c = ∅) as He.
    { apply map_empty. intros j. apply eq_None_not_Some. rewrite <- Hit. by apply not_elem_of_nil. }
    unfold entry_count in *. rewrite He, map_size_empty in *. pose proof (ci_max _ Hi). lia. }
  destruct (proj1 (Hit v) (list_elem_of_here v ids)) as [e He].
  eapply spec_bind; [apply (spill_victim_spec c v e); [done | done | by eapply Hd | done] |].
  intros [] c1 Hs1 [He1 Ht1]. eapply spec_conseq; [apply IH | |].
  - apply Hs1.
  - rewrite He1, map_size_delete_Some by eauto. lia.
  - intros _ j x. rewrite He1. intros [_ Hx]%lookup_delete_Some. by eapply Hd.
  - intros c' Hs'. by eapply shrunk_trans.
  - intros [] c' _ []. auto.
Qed.

Lemma maybe_evict_spec c :
  cache_inv c → spec (shrunk c) maybe_evict c (λ _ c', entry_count c' ≤ max_pages c' ∧ (tidy c → tidy c')).
Proof.
  intros Hi. unfold maybe_evict. eapply (spec_bind _ _ _ _ (λ _ c', (entry_count c' ≤ max_pages c' ∨
    ∀ id e, entries c' !! id = Some e → dirty e = true) ∧ (tidy c → tidy c'))).
  { eapply spec_conseq; [by apply evict_clean_spec | |].
    - intros c' [Hs (Hsub & _)]. split; [done |]. intros j Hj. by eapply lookup_weaken_None.
    - intros x c' [_ Hev] HQ. split; [done | by apply evicted_tidy]. }
  intros [] c1 Hs1 [HQ Ht1]. apply reads_id. eapply spec_conseq; [apply spill_loop_spec; [apply Hs1 | done |] | |].
  - destruct HQ as [HQ |]; [lia | done].
  - intros c' Hs'. by eapply shrunk_trans.
  - intros [] c' _ []. auto.
Qed.
End evict.
End CacheEvict.
