(* ===== verification/CacheOps.v ===== *)
(** * Reads, writes and allocation of the page cache

    [load_page], [get], [get_mut] with the client's writes, [new_page] and
    [reissue_page] in terms of the logical pages. *)

From S2P Require Export CacheEvict.

Module CacheOps.
Import Crypto PageCache PageIoFacts SpillwayFacts CacheInv CacheEvict.

Section ops.
Context `{HX : Xxh3} `{HO : HashOrder} `{HC : Primitives}.
Implicit Types (c : PageCache) (e : CacheEntry).

(** ** Storage that answers the same *)

Lemma steady_storage c c' :
  cache_inv c → entries c' = entries c → lru c' = lru c → dirty_count c' = dirty_count c →
  max_pages c' = max_pages c → spillway_max_bytes c' = spillway_max_bytes c → cipher c' = cipher c →
  next_page_id c' = next_page_id c → nonces c' = nonces c → io_same (io c) (io c') →
  (∀ spw, spillway c' = Some spw → sp_inv spw ∧ Spillway.payload_size spw = unit_size (cipher c)) →
  (∀ j, resident c' j = resident c j ∧ (resident c j = true → spill_at c' j = spill_at c j)) → steady c c'.
Proof.
  intros Hi He Hl Hd Hm Hs Hci Hn Hno Hio Hsp Hres.
  assert (Hdk : ∀ j, disk_at c' j = disk_at c j).
  { intros j. unfold disk_at, disk_page. rewrite Hci, (io_same_unit (io c) (io c') j Hio).
    unfold PageIo.page_count. by destruct Hio as (_ & _ & _ & ->). }
  pose proof Hio as (_ & _ & Hst & Hct). split; try done.
  - split; rewrite ?He, ?Hl, ?Hd, ?Hm, ?Hci, ?Hn, ?Hno; try apply Hi; try done.
    + eapply io_same_inv; [exact Hio | apply Hi].
    + rewrite Hst. apply Hi.
    + unfold PageIo.page_count. rewrite Hct. apply Hi.
    + intros id e Hid. destruct (ci_entries _ Hi _ _ Hid). split; rewrite ?Hn, ?Hdk; try done.
      destruct (Hres id) as [-> _]. done.
    + intros id. destruct (Hres id) as [-> Hsa]. intros Hr. rewrite Hsa by done. by apply (ci_spilled _ Hi).
  - intros j. unfold page_at. rewrite He, Hdk. destruct (Hres j) as [-> Hsa]. destruct (entries c !! j); [done |].
    destruct (resident c j); auto.
  - intros j. unfold is_dirty, dirty_at. rewrite He. by destruct (Hres j) as [-> _].
Qed.

Lemma steady_spw c spw spw' :
  cache_inv c → spillway c = Some spw → sp_same spw spw' → steady c (set_spillway (Some spw') c).
Proof.
  intros Hi E Hs. destruct (ci_spw _ Hi spw E) as [Hsi Hp]. apply steady_storage; try done.
  - intros x [= <-]. split; [by eapply sp_same_inv |]. by destruct Hs as (_ & _ & _ & _ & ->).
  - intros j. unfold resident, spill_at, spill_page, Spillway.is_resident. cbn. rewrite E, (sp_same_spilled spw spw' j Hs).
    by destruct Hs as (_ & -> & _).
Qed.

Lemma steady_io c io' : cache_inv c → io_same (io c) io' → steady c (set_io io' c).
Proof.
  intros Hi Hs. apply steady_storage; try done. apply Hi.
Qed.

(** ** Loading *)

Lemma open_blob_run c id blob p : decode (cipher c) id blob = Some p → open_blob id blob c = (Ok p, c).
Proof.
  unfold open_blob, decode, bind, reads, open_page. cbn. destruct (cipher c) as [dek |].
  - destruct (_ =? _); [| done]. destruct (Crypto.open dek id blob); try done. by intros [= ->].
  - destruct (_ =? _); [| done]. by intros [= ->].
Qed.

Lemma forget_wrote id spw : sp_inv spw → sp_wrote id spw (Spillway.forget id spw).
Proof.
  intros Hi. split; cbn; [| done | |].
  - split; cbn; try apply Hi.
    + intros j i [_ Hj]%lookup_delete_Some. by eapply (sp_range _ Hi).
    + intros j j' i [_ Hj]%lookup_delete_Some [_ Hj']%lookup_delete_Some. by eapply (sp_inj _ Hi).
  - intros j Hj. by rewrite lookup_delete_ne.
  - intros j b Hj. unfold spilled, decode_slot, Spillway.slot_size. cbn. by rewrite lookup_delete_ne.
Qed.

(** An entry put where none was. *)
Lemma steady_load c c' id e :
  cache_inv c → entries c !! id = None → page_at c id = Some (settle e) →
  io c' = io c → cipher c' = cipher c → nonces c' = nonces c → next_page_id c' = next_page_id c →
  max_pages c' = max_pages c → spillway_max_bytes c' = spillway_max_bytes c →
  spw_rel (cipher c) id (spillway c) (spillway c') → entries c' = <[id := e]> (entries c) →
  lru c' = Lru.push_front id (lru c) → dirty_count c' = dirty_count c + Z.b2z (dirty e) →
  (entry_ok c' id e) → (dirty e = true → resident c id = true) → steady c c'.
Proof.
  intros Hi Hn Hp Hio Hci Hno Hnx Hmx Hsm Hrel Hen Hl Hdc Heo Hdr. pose proof (ci_next _ Hi).
  pose proof (eo_id _ _ _ Heo) as Hid.
  assert (Hb : back_rel id c c').
  { apply back_spw; [done.. | rewrite Hnx; lia | done | rewrite Hmx; apply Hi | done |].
    intros j Hj. by rewrite Hen, lookup_insert_ne. }
  destruct (rebuild_pages id c c' Hi Hb Hio) as [HD HP]. destruct (rebuild id c c' Hi Hb) as [Hi' _].
  - rewrite Hl, Hen. by apply tracks_front, Hi.
  - rewrite Hdc, Hen, dirties_insert by done. by rewrite (ci_dirty _ Hi).
  - intros x. rewrite Hen, lookup_insert_eq. by intros [= <-].
  - intros _. by rewrite Hen, lookup_insert_eq.
  - split; try done.
    + intros j. destruct (decide (j = id)) as [-> |]; [| auto].
      rewrite Hp. unfold page_at. by rewrite Hen, lookup_insert_eq.
    + apply (back_clean id c c' Hb). unfold is_dirty, dirty_at. rewrite Hn, Hen, lookup_insert_eq. cbn.
      intros Hr. destruct (dirty e) eqn:Ed; [by rewrite Hdr in Hr |]. apply Heo, Ed.
Qed.

Definition slots_of c : gmap Z Z := match spillway c with Some spw => Spillway.slots spw | None => ∅ end.

Lemma resident_of c j : resident c j = bool_decide (is_Some (slots_of c !! j)).
Proof. unfold resident, slots_of. destruct (spillway c); [done |]. rewrite lookup_empty. by rewrite bool_decide_eq_false_2 by by intros []. Qed.

(** A page is taken out of its slot: what is read, and the state once it is forgotten. *)
Lemma take_spilled c id :
  cache_inv c → entries c !! id = None → resident c id = true →
  ∃ p blob, page_at c id = Some p ∧ wf_page p ∧ data_stamped p ∧ bytes_ok blob ∧ decode (cipher c) id blob = Some p ∧
    spec (H := cache_fault False False) (λ c1, steady c c1 ∧ ∀ j, resident c1 j = resident c j ∧ entries c1 !! j = entries c !! j)
      (on_spillway (Spillway.rehydrate id)) c
      (λ b c1, b = blob ∧ ∃ sp, on_spillway (writes (Spillway.forget id)) c1 = (Ok tt, set_spillway sp c) ∧
        spw_rel (cipher c) id (spillway c) sp ∧ slots_of (set_spillway sp c) = delete id (slots_of c)).
Proof.
  intros Hi Hn Hr. destruct (ci_spilled _ Hi id Hr) as [Hid Hsp]. destruct (Hsp Hn) as (p & Hat & Hst).
  assert (Hpg : page_at c id = Some p) by (unfold page_at; by rewrite Hn, Hr).
  pose proof (page_at_wf c id p Hi Hpg) as Hwf. unfold spill_at, spill_page in Hat.
  destruct (spillway c) as [spw |] eqn:E; [| done]. apply bind_Some in Hat as (blob & Hbl & Hdec).
  destruct (ci_spw _ Hi spw E) as [Hspi Hpl]. destruct (spilled_blob spw id blob Hspi Hbl) as [_ Hbb].
  exists p, blob. ands; try done.
  eapply on_spillway_spec; [exact E |]. eapply spec_conseq; [apply (rehydrate_spec False); [exact Hspi | congruence] | |].
  - intros spw' Hs. split; [by apply (steady_spw c spw) |]. intros j. split; [| done]. rewrite !resident_of. unfold slots_of. cbn.
    rewrite E. by destruct Hs as (_ & -> & _).
  - intros b spw' Hs Hb. cbn beta in *. split; [congruence |]. pose proof (sp_same_inv _ _ Hs Hspi) as Hspi'.
    exists (Some (Spillway.forget id spw')). pose proof Hs as (_ & Hsl & _ & _ & Hpl'). ands; [done | | unfold slots_of; cbn; by rewrite E, Hsl].
    apply (spw_rel_trans _ _ _ (Some spw')); [| apply spw_rel_wrote; [congruence | by apply forget_wrote]].
    split; [intros ? [= <-]; split; [done | congruence] | intros j _; cbn; by rewrite Hsl |].
    intros j q _. unfold spill_page. by rewrite (sp_same_spilled spw spw' j Hs).
Qed.

Lemma load_spilled_spec c id :
  cache_inv c → entries c !! id = None → resident c id = true →
  spec (H := cache_fault False False) (steady c) (load_spilled id) c (λ _ c', is_Some (entries c' !! id) ∧ (tidy c → tidy c')).
Proof.
  intros Hi Hn Hr. destruct (take_spilled c id Hi Hn Hr) as (p & blob & Hpg & Hwf & Hst & _ & Hdec & Htake).
  pose proof (ci_spilled _ Hi id Hr) as [Hid _].
  unfold load_spilled. eapply spec_bind; [eapply spec_conseq; [exact Htake | by intros c1 [] | exact (λ _ _ _ H, H)] |].
  intros b c1 Hs1 (-> & sp & Hrun & Hrel & Hsl). eapply bind_run; [exact Hrun |]. set (c2 := set_spillway sp c).
  eapply bind_run; [by apply (open_blob_run c2 id blob p) |]. apply spec_writes.
  - by apply (steady_load c _ id {| buf := p; dirty := true; needs_stamp := false |}).
  - split; [cbn; rewrite lookup_insert_eq; eauto |]. apply (tidy_rel (cipher c) id c); [exact Hrel | |].
    + intros j Hj. cbn. by rewrite lookup_insert_ne.
    + intros _. change (resident c2 id = false). rewrite resident_of. unfold c2. by rewrite Hsl, lookup_delete_eq.
Qed.

(** The head of the zeroed array is the unit read into it. *)
Lemma on_disk_unit unit :
  (zlen unit = ENC_PAGE_SIZE → splice 0 unit (zeros ENC_PAGE_SIZE) = unit) ∧
  (zlen unit = PAGE_SIZE → slice 0 PAGE_SIZE (splice 0 unit (zeros ENC_PAGE_SIZE)) = unit).
Proof.
  assert (L : zlen (zeros ENC_PAGE_SIZE) = ENC_PAGE_SIZE) by by apply zlen_zeros.
  split; intros Hl.
  - rewrite <- (slice_full ENC_PAGE_SIZE (splice 0 unit _)) by (rewrite zlen_splice; rewrite ?L, ?Hl; done).
    apply slice_splice_same; rewrite ?L, ?Hl; done.
  - apply slice_splice_same; rewrite ?L, ?Hl; done.
Qed.

(** A page with no slot is put into the cache. *)
Lemma tidy_put c c' id e :
  spillway c' = spillway c → resident c id = false → entries c' = <[id := e]> (entries c) → tidy c → tidy c'.
Proof.
  intros Hsp Hr He Ht j. rewrite He. unfold resident. rewrite Hsp. fold (resident c j).
  destruct (decide (j = id)) as [-> |]; [done |]. rewrite lookup_insert_ne by done. apply Ht.
Qed.

Lemma tidy_update c c' id e e' :
  entries c !! id = Some e → spillway c' = spillway c → entries c' = <[id := e']> (entries c) → tidy c → tidy c'.
Proof. intros He Hsp Hen Ht. apply (tidy_put c c' id e'); [done | | done | done]. apply Ht. by exists e. Qed.

Section reads.
Variable bad : Prop.
#[local] Instance ops_fault : Fault := cache_fault bad True.

(** What a unit of the file decodes to is what the code makes of it. *)
Lemma decode_unit_spec c id unit (F : PageCache → Prop) :
  F c → zlen unit = PageIo.stride (io c) → PageIo.stride (io c) = unit_size (cipher c) →
  (decode (cipher c) id unit = None → bad) →
  spec F (match cipher c with
    | Some dek => assert_that PanicAssert (PageIo.stride (io c) =? ENC_PAGE_SIZE) ;;;
                  open_page dek id (splice 0 unit (zeros ENC_PAGE_SIZE))
    | None => ret (slice 0 PAGE_SIZE (splice 0 unit (zeros ENC_PAGE_SIZE)))
    end) c (λ p c', c' = c ∧ decode (cipher c) id unit = Some p).
Proof.
  intros Hf Hl Hs Hb. rewrite Hs in *. destruct (on_disk_unit unit) as [H1 H2]. unfold decode, unit_size in *.
  destruct (cipher c) as [dek |].
  - rewrite Hl, Z.eqb_refl, H1 in * by done. apply bind_assert; [done | done |]. unfold open_page.
    destruct (open_total dek id unit Hl) as [(q & E & _) | (x & E)]; rewrite E in *.
    + by apply spec_ret.
    + apply spec_fail; [done | by apply Hb].
  - rewrite H2 by done. apply spec_ret; [done |]. by rewrite Hl, Z.eqb_refl.
Qed.

Lemma load_disk_spec c id :
  cache_inv c → entries c !! id = None → resident c id = false → 0 ≤ id →
  ((∀ p, disk_at c id = Some p → verify_checksum p = false) → bad) →
  spec (steady c) (load_disk id) c (λ _ c', is_Some (entries c' !! id) ∧ (tidy c → tidy c')).
Proof.
  intros Hi Hn Hr Hid Hbad. unfold load_disk. apply reads_id. pose proof (ci_stride _ Hi) as Hst.
  apply bind_assert; [rewrite Hst; by destruct (cipher c) | by apply steady_refl |].
  eapply (spec_bind _ _ _ _ (λ u c', 0 ≤ id < PageIo.page_count (io c) ∧ u = unit_at (io c) id ∧
    ∃ io', io_same (io c) io' ∧ c' = set_io io' c)).
  { apply on_io_spec. eapply spec_conseq; [apply (read_unit_spec bad); [apply Hi | done | done |] | |].
    - intros Hge. apply Hbad. intros p. unfold disk_at, disk_page. destruct (Z.ltb_spec id (PageIo.page_count (io c))); [unfold PageIo.page_count in *; lia |].
      by rewrite andb_false_r.
    - intros io' Hs. by apply steady_io.
    - intros u io' Hs [Hc Hu]. eauto. }
  intros u c1 Hs1 (Hc & -> & io1 & Hio & ->). set (c1 := set_io io1 c) in *.
  assert (Hdk : disk_at c id = decode (cipher c) id (unit_at (io c) id)).
  { unfold disk_at, disk_page. destruct (Z.leb_spec 0 id), (Z.ltb_spec id (PageIo.page_count (io c))); try lia. done. }
  eapply (spec_bind _ _ _ _ (λ p c', c' = c1 ∧ decode (cipher c) id (unit_at (io c) id) = Some p)).
  { pose proof Hio as (_ & _ & Hstr & _).
    pose proof (decode_unit_spec c1 id (unit_at (io c) id) (steady c) Hs1) as Hd. cbn [c1 set_io io cipher] in Hd.
    rewrite Hstr in Hd. apply Hd; [by apply (unit_ok (io c) id (ci_io _ Hi)) | done |].
    intros En. apply Hbad. intros p. by rewrite Hdk, En. }
  intros p c2 _ [-> Hp]. rewrite <- Hdk in Hp. pose proof (disk_at_wf c id p Hi Hp) as Hwf.
  destruct (verify_checksum p) eqn:Hv; cbn [negb].
  - apply spec_writes; [| split; [cbn; rewrite lookup_insert_eq; eauto | intros Ht; eapply (tidy_put c1 _ id); [reflexivity | exact Hr | reflexivity | exact Ht]]]. eapply steady_trans; [exact Hs1 |].
    pose proof (ci_count _ Hi).
    apply (steady_load c1 _ id {| buf := p; dirty := false; needs_stamp := false |}); try done.
    + apply Hs1.
    + rewrite (sd_pages _ _ Hs1). unfold page_at. by rewrite Hn, Hr.
    + by apply spw_rel_refl, Hs1.
    + cbn. lia.
    + split; cbn; [lia | done | done | by intros _ | intros _]. split; [exact Hr |].
      etrans; [| exact Hp]. exact (sd_disk _ _ Hs1 id).
  - apply spec_fail; [done |]. apply Hbad. intros q Hq. congruence.
Qed.

Lemma load_page_spec c id :
  cache_inv c → entries c !! id = None → 0 ≤ id →
  ((∀ p, page_at c id = Some p → verify_checksum p = false) → bad) →
  spec (steady c) (load_page id) c (λ _ c', is_Some (entries c' !! id) ∧ (tidy c → tidy c')).
Proof.
  intros Hi Hn Hid Hbad. unfold load_page. eapply (spec_bind _ _ _ _ (λ _ c', shrunk c c' ∧ (tidy c → tidy c'))).
  { eapply spec_conseq; [eapply cache_fault_mono; [by apply maybe_evict_spec | done | done] | |].
    - by intros c' [].
    - by intros [] c' Hs []. }
  intros [] c1 Hs1 [[_ He1] Ht1]. apply reads_id. pose proof (He1 id Hn) as Hn1.
  destruct (resident c1 id) eqn:Hr.
  - eapply spec_conseq; [eapply cache_fault_mono; [apply load_spilled_spec; [apply Hs1 | done | done] | done | done] | |].
    + intros c' Hs'. by eapply steady_trans.
    + intros [] c' _ []. auto.
  - eapply spec_conseq; [apply load_disk_spec; [apply Hs1 | done | done | done |] | |].
    + intros Hd. apply Hbad. intros p. rewrite <- (sd_pages _ _ Hs1). unfold page_at. rewrite Hn1, Hr. apply Hd.
    + intros c' Hs'. by eapply steady_trans.
    + intros [] c' _ []. auto.
Qed.

(** ** Reads and writes *)

Lemma fetch_spec c id :
  cache_inv c → 0 ≤ id → ((∀ p, page_at c id = Some p → verify_checksum p = false) → bad) →
  spec (steady c) (fetch id) c (λ _ c', is_Some (entries c' !! id) ∧ (tidy c → tidy c')).
Proof.
  intros Hi Hid Hbad. unfold fetch. apply reads_id.
  eapply (spec_bind _ _ _ _ (λ _ c', is_Some (entries c' !! id) ∧ (tidy c → tidy c'))).
  - unfold in_entries. case_bool_decide as He.
    + by apply spec_writes; [apply steady_fields |].
    + apply bind_writes. set (c1 := set_cache_misses _ c).
      assert (Hs1 : steady c c1) by by apply steady_fields.
      eapply spec_conseq; [apply load_page_spec; [apply Hs1 | by apply eq_None_not_Some | done | exact Hbad] | |].
      * intros c' Hs'. by eapply steady_trans.
      * done.
  - intros [] c1 Hs1 [[e He] Ht]. apply spec_writes; [| by split; [exists e |]].
    eapply steady_trans; [exact Hs1 |]. eapply steady_touch; [apply Hs1 | exact He].
Qed.

Lemma put_lookup c id e : entries (put_entry id e c) !! id = Some e.
Proof. apply lookup_insert_eq. Qed.

Lemma put_put c id e e' : put_entry id e' (put_entry id e c) = put_entry id e' c.
Proof. unfold put_entry, set_entries. cbn. by rewrite insert_insert_eq. Qed.

(** The buffer that a read lends has the body of the page. *)
Lemma page_at_entry c id e : cache_inv c → entries c !! id = Some e →
  page_at c id = Some (settle e) ∧ wf_page (buf e) ∧ body (buf e) = body (settle e).
Proof.
  intros Hi He. pose proof (eo_wf _ _ _ (ci_entries _ Hi _ _ He)) as Hw. unfold page_at. rewrite He.
  by rewrite settle_body.
Qed.

Lemma get_spec c id :
  cache_inv c → 0 ≤ id → ((∀ p, page_at c id = Some p → verify_checksum p = false) → bad) →
  spec (steady c) (get id) c (λ p c', (wf_page p ∧ ∃ v, page_at c id = Some v ∧ body p = body v) ∧ (tidy c → tidy c')).
Proof.
  intros Hi Hid Hbad. unfold get. eapply spec_bind; [by apply fetch_spec |]. intros [] c1 Hs1 [[e He] Ht].
  apply reads_id. rewrite He. apply spec_ret; [done |]. split; [| done].
  destruct (page_at_entry c1 id e (sd_inv _ _ Hs1) He) as (Hp & Hw & Hb). rewrite (sd_pages _ _ Hs1) in Hp. eauto.
Qed.

(** An entry replaced by one that is dirty. *)
Lemma entry_change c c' id e e' :
  cache_inv c → entries c !! id = Some e → dirty e' = true → wf_page (buf e') → data_stamped (settle e') →
  same_back c c' → max_pages c' = max_pages c → entries c' = <[id := e']> (entries c) → lru c' = lru c →
  dirty_count c' = dirty_count c - Z.b2z (dirty e) + 1 →
  cache_inv c' ∧ (∀ j, disk_at c' j = disk_at c j) ∧ page_at c' id = Some (settle e') ∧
  ∀ j, j ≠ id → page_at c' j = page_at c j ∧ is_dirty c' j = is_dirty c j.
Proof.
  intros Hi He Hd Hw Hst Hsb Hm Hen Hl Hdc. pose proof Hsb as (Hio & _ & _ & Hn & _).
  assert (Hb : back_rel id c c').
  { apply back_entry; [done | done | rewrite Hm; apply Hi |]. intros j Hj. by rewrite Hen, lookup_insert_ne. }
  destruct (rebuild_pages id c c' Hi Hb Hio) as [HD HP]. destruct (rebuild id c c' Hi Hb) as [Hi' _].
  - rewrite Hl, Hen. by eapply tracks_update; [| apply Hi].
  - rewrite Hdc, Hen, (dirties_update _ _ e _ He), Hd, (ci_dirty _ Hi). done.
  - intros x. rewrite Hen, lookup_insert_eq. intros [= <-]. split; rewrite ?Hn, ?Hd; try done.
    by apply (ci_entries _ Hi _ _ He).
  - intros _. by rewrite Hen, lookup_insert_eq.
  - ands; auto; [unfold page_at; by rewrite Hen, lookup_insert_eq |]. intros j Hj. by rewrite (back_dirty id c c'), HP.
Qed.

(** Page [id] may have changed. *)
Record changed (id : Z) c c' : Prop := {
  cg_inv : cache_inv c';
  cg_next : next_page_id c' = next_page_id c;
  cg_cipher : cipher c' = cipher c;
  cg_limits : max_pages c' = max_pages c ∧ spillway_max_bytes c' = spillway_max_bytes c;
  cg_disk : ∀ j, disk_at c' j = disk_at c j;
  cg_live : is_Some (page_at c' id) ↔ is_Some (page_at c id);
  cg_other : ∀ j, j ≠ id → page_at c' j = page_at c j;
  cg_clean : ∀ j, j ≠ id → is_dirty c j = false → is_dirty c' j = false
}.

Lemma steady_changed id c c' : steady c c' → changed id c c'.
Proof. intros []. split; try done; [by rewrite sd_pages0 | auto]. Qed.

(** Page [id] is replaced once more. *)
Lemma changed_change id c c1 c' :
  changed id c c1 → cache_inv c' → next_page_id c' = next_page_id c1 → cipher c' = cipher c1 →
  max_pages c' = max_pages c1 ∧ spillway_max_bytes c' = spillway_max_bytes c1 →
  (∀ j, disk_at c' j = disk_at c1 j) → (is_Some (page_at c' id) ↔ is_Some (page_at c1 id)) →
  (∀ j, j ≠ id → page_at c' j = page_at c1 j ∧ is_dirty c' j = is_dirty c1 j) → changed id c c'.
Proof.
  intros [I N C [L M] D V P T] Hi' Hn Hc [Hl Hm] HD HV HP.
  split; [done | congruence | congruence | split; congruence | | by rewrite HV | |].
  - intros j. by rewrite HD.
  - intros j Hj. destruct (HP j Hj) as [-> _]. auto.
  - intros j Hj. destruct (HP j Hj) as [_ ->]. auto.
Qed.

Lemma get_mut_spec c id :
  cache_inv c → 0 ≤ id → ((∀ p, page_at c id = Some p → verify_checksum p = false) → bad) →
  spec (changed id c) (get_mut id) c (λ p c', (∀ j, page_at c' j = page_at c j) ∧
    (∃ e, entries c' !! id = Some e ∧ dirty e = true ∧ p = buf e) ∧ (tidy c → tidy c')).
Proof.
  intros Hi Hid Hbad. unfold get_mut.
  eapply (spec_bind _ _ _ _ (λ _ c1, steady c c1 ∧ is_Some (entries c1 !! id) ∧ (tidy c → tidy c1))).
  { eapply spec_conseq; [by apply fetch_spec | apply steady_changed | by intros [] c1 Hs1 []]. }
  intros [] c1 Hg1 (Hs1 & [e He] & Ht). apply reads_id. rewrite He. pose proof (sd_inv _ _ Hs1) as Hi1.
  set (e' := {| buf := buf e; dirty := true; needs_stamp := needs_stamp e |}).
  eapply (spec_bind _ _ _ _ (λ _ c', (∀ j, page_at c' j = page_at c j) ∧
    (∃ x, entries c' !! id = Some x ∧ dirty x = true ∧ buf e = buf x) ∧ (tidy c → tidy c'))).
  - assert (Hse : settle e' = settle e) by (unfold settle, stamp_deferred; cbn; by destruct (needs_stamp e)).
    destruct (dirty e) eqn:Hd; [by apply spec_ret; [| split; [apply Hs1 | split; [exists e |]]] |].
    pose proof (ci_entries _ Hi1 _ _ He) as Heo.
    destruct (entry_change c1 (put_entry id e' (add_dirty 1 c1)) id e e') as (Hi2 & HD & Hp & HP); try done;
      [apply Heo | rewrite Hse; apply Heo | rewrite Hd; cbn; lia |].
    assert (Hpg : page_at c1 id = Some (settle e)) by (unfold page_at; by rewrite He).
    apply spec_writes; [eapply changed_change; try done; rewrite Hp, Hpg; split; eauto |]. ands.
    + intros j. rewrite <- (sd_pages _ _ Hs1). destruct (decide (j = id)) as [-> |]; [by rewrite Hp, Hse | by apply HP].
    + exists e'. cbn. by rewrite lookup_insert_eq.
    + intros Ht0. eapply (tidy_update c1 _ id e); [exact He | reflexivity | reflexivity | exact (Ht Ht0)].
  - intros [] c2 Hs2 (Hp2 & (x & Hx & Hdx & Hbx) & Ht2). apply spec_ret; [done |]. ands; [done | eauto | done].
Qed.

(** The client's writes to the buffer of a dirty entry. *)
Lemma write_buf_changed c c1 id e e' :
  changed id c c1 → entries c1 !! id = Some e → dirty e = true → dirty e' = true →
  wf_page (buf e') → data_stamped (settle e') →
  changed id c (put_entry id e' c1) ∧ page_at (put_entry id e' c1) id = Some (settle e').
Proof.
  intros Hs He Hd Hd' Hw Hst. destruct (entry_change c1 (put_entry id e' c1) id e e') as (Hi' & HD & Hp & HP);
    try done; [apply Hs | rewrite Hd; cbn; lia |].
  split; [| done]. eapply changed_change; try done. rewrite Hp. unfold page_at. rewrite He. split; eauto.
Qed.

Lemma modify_spec c id f :
  cache_inv c → 0 ≤ id → ((∀ p, page_at c id = Some p → verify_checksum p = false) → bad) →
  (∀ p, wf_page p → wf_page (f p)) → stamps f →
  spec (changed id c) (modify id f) c (λ p c', wf_page p ∧ ∃ v v', page_at c id = Some v ∧ body p = body v ∧
    page_at c' id = Some v' ∧ body v' = body (f p) ∧ (verify_checksum (f p) = true → v' = f p) ∧ (tidy c → tidy c')).
Proof.
  intros Hi Hid Hbad Hf Hstf. unfold modify. eapply spec_bind; [by apply get_mut_spec |].
  intros p c1 Hg1 (Hpg1 & (e & He & Hd & ->) & Ht). apply bind_writes. unfold write_buf. rewrite He. pose proof (cg_inv _ _ _ Hg1) as Hi1.
  set (e' := {| buf := f (buf e); dirty := dirty e; needs_stamp := needs_stamp e |}).
  destruct (page_at_entry c1 id e Hi1 He) as (Hp & Hw & Hb). rewrite Hpg1 in Hp.
  assert (Hw' : wf_page (f (buf e))) by auto.
  assert (Hset : settle e' = if needs_stamp e then stamp_checksum (f (buf e)) else f (buf e))
    by (unfold settle, stamp_deferred; cbn; by destruct (needs_stamp e)).
  assert (Hst' : data_stamped (settle e')).
  { rewrite Hset. pose proof (eo_stamp _ _ _ (ci_entries _ Hi1 _ _ He)) as Hst. unfold settle, stamp_deferred in Hst.
    destruct (needs_stamp e); [by apply data_stamped_stamp | by apply Hstf]. }
  destruct (write_buf_changed c c1 id e e') as [Hch Hp']; try done.
  apply spec_ret; [done |]. split; [done |]. exists (settle e), (settle e'). ands; auto.
  - rewrite Hset. destruct (needs_stamp e); [by apply body_stamp | done].
  - intros Hv. rewrite Hset. destruct (needs_stamp e); [by apply verify_checksum_stamp | done].
  - intros Ht0. eapply (tidy_update c1 _ id e); [exact He | reflexivity | reflexivity | exact (Ht Ht0)].
Qed.

(** A write fails before the buffer is lent. *)
Lemma modify_fails c id f :
  cache_inv c → 0 ≤ id → ((∀ p, page_at c id = Some p → verify_checksum p = false) → bad) →
  is_ok (modify id f c).1 = false → steady c (modify id f c).2.
Proof.
  intros Hi Hid Hbad. destruct (fetch_spec c id Hi Hid Hbad) as [Hs Hq]. revert Hs Hq.
  unfold modify, get_mut, bind, reads, writes, ret. destruct (fetch id c) as [[[] | x | x] c1]; cbn; [| done | done].
  intros Hs [[e He] _]. rewrite He. destruct (dirty e); cbn; done.
Qed.

(** With the stamp deferred, any writes will do. *)
Lemma modify_deferred_spec c id f :
  cache_inv c → 0 ≤ id → ((∀ p, page_at c id = Some p → verify_checksum p = false) → bad) →
  (∀ p, wf_page p → wf_page (f p)) →
  spec (changed id c) (modify_deferred id f) c (λ p c', wf_page p ∧ ∃ v, page_at c id = Some v ∧ body p = body v ∧
    page_at c' id = Some (stamp_checksum (f p)) ∧ (tidy c → tidy c')).
Proof.
  intros Hi Hid Hbad Hf. unfold modify_deferred, get_mut_deferred_stamp.
  eapply (spec_bind _ _ _ _ (λ p c', ∃ c1 e, (changed id c c1 ∧ page_at c1 id = page_at c id) ∧ entries c1 !! id = Some e ∧ dirty e = true ∧ p = buf e ∧ (tidy c → tidy c1) ∧
    c' = put_entry id {| buf := buf e; dirty := dirty e; needs_stamp := true |} c1)).
  { eapply spec_bind; [by apply get_mut_spec |].
    intros p c1 Hg1 (Hpg1 & (e & He & Hd & ->) & Ht). apply bind_writes. rewrite He.
    pose proof (ci_entries _ (cg_inv _ _ _ Hg1) _ _ He) as Heo.
    apply spec_ret; [| by exists c1, e]. apply (write_buf_changed c c1 id e); try done; [apply Heo |].
    apply data_stamped_stamp, Heo. }
  intros p c2 _ (c1 & e & [Hg1 Hpg1] & He & Hd & -> & Ht & ->). apply bind_writes. pose proof (cg_inv _ _ _ Hg1) as Hi1.
  destruct (page_at_entry c1 id e Hi1 He) as (Hp & Hw & Hb). rewrite Hpg1 in Hp.
  assert (Hw' : wf_page (f (buf e))) by auto.
  unfold write_buf. rewrite put_lookup. cbn [buf dirty needs_stamp]. rewrite put_put.
  set (e' := {| buf := f (buf e); dirty := dirty e; needs_stamp := true |}).
  destruct (write_buf_changed c c1 id e e') as [Hch Hp']; try done; [by apply data_stamped_stamp |].
  apply spec_ret; [done |]. split; [done |]. exists (settle e). ands; auto.
  intros Ht0. eapply (tidy_update c1 _ id e); [exact He | reflexivity | reflexivity | exact (Ht Ht0)].
Qed.
End reads.
(** ** Allocation *)

(** Page [id] was given out: the others are as they were. *)
Record renewed (id : Z) c c' : Prop := {
  rn_inv : cache_inv c';
  rn_next : next_page_id c ≤ next_page_id c';
  rn_cipher : cipher c' = cipher c;
  rn_limits : max_pages c' = max_pages c ∧ spillway_max_bytes c' = spillway_max_bytes c;
  rn_disk : ∀ j, disk_at c' j = disk_at c j;
  rn_other : ∀ j, j ≠ id → page_at c' j = page_at c j;
  rn_clean : ∀ j, j ≠ id → is_dirty c j = false → is_dirty c' j = false
}.

Lemma renewed_refl id c : cache_inv c → renewed id c c.
Proof. by split. Qed.

Lemma renewed_steady id c c1 c2 : renewed id c c1 → steady c1 c2 → renewed id c c2.
Proof.
  intros [I1 N1 C1 [L1 M1] D1 P1 T1] [I2 N2 C2 [L2 M2] D2 P2 T2]. split; [done | lia | congruence | split; congruence | | | auto].
  - intros j. by rewrite D2.
  - intros j Hj. by rewrite P2, P1.
Qed.

Lemma put_zero c c' id :
  let e := {| buf := zero_page; dirty := true; needs_stamp := false |} in
  cache_inv c → io c' = io c → cipher c' = cipher c → nonces c' = nonces c →
  next_page_id c ≤ next_page_id c' ≤ u64_max → 0 ≤ id < next_page_id c' →
  max_pages c' = max_pages c → spillway_max_bytes c' = spillway_max_bytes c →
  spw_rel (cipher c) id (spillway c) (spillway c') → entries c' = <[id := e]> (delete id (entries c)) →
  lru c' = Lru.push_front id (lru c) → dirty_count c' = dirty_count c - Z.b2z (dirty_at c id) + 1 →
  renewed id c c' ∧ page_at c' id = Some zero_page.
Proof.
  intros e Hi Hio Hci Hno Hnx Hid Hmx Hsm Hrel Hen Hl Hdc. rewrite insert_delete_eq in Hen.
  assert (Hb : back_rel id c c').
  { apply back_spw; [done.. | rewrite Hmx; apply Hi | done |]. intros j Hj. by rewrite Hen, lookup_insert_ne. }
  destruct (rebuild_pages id c c' Hi Hb Hio) as [HD HP]. destruct (rebuild id c c' Hi Hb) as [Hi' _].
  - rewrite Hl, Hen. by apply tracks_front, Hi.
  - rewrite Hdc, Hen, (ci_dirty _ Hi). unfold dirty_at. destruct (entries c !! id) as [x |] eqn:E.
    + by rewrite (dirties_update _ _ x).
    + rewrite dirties_insert by done. cbn. lia.
  - intros x. rewrite Hen, lookup_insert_eq. intros [= <-]. split; try done. apply wf_zero_page.
  - intros _. by rewrite Hen, lookup_insert_eq.
  - split; [split; try done; [lia | intros j Hj; by rewrite (back_dirty id c c')] |]. unfold page_at. by rewrite Hen, lookup_insert_eq.
Qed.

(** Beyond the high-water mark there is no page. *)
Lemma page_at_beyond c id : cache_inv c → next_page_id c ≤ id → page_at c id = None ∧ entries c !! id = None ∧ resident c id = false.
Proof.
  intros Hi Hge. assert (Hn : entries c !! id = None).
  { destruct (entries c !! id) as [e |] eqn:E; [| done]. pose proof (eo_id _ _ _ (ci_entries _ Hi _ _ E)). lia. }
  assert (Hr : resident c id = false).
  { destruct (resident c id) eqn:E; [| done]. destruct (ci_spilled _ Hi id E). lia. }
  ands; [| done | done]. unfold page_at. rewrite Hn, Hr. unfold disk_at, disk_page. pose proof (ci_count _ Hi).
  destruct (Z.ltb_spec id (PageIo.page_count (io c))); [lia |]. by rewrite andb_false_r.
Qed.

Lemma evict_renewed id c c1 :
  renewed id c c1 →
  spec (H := cache_fault False False) (renewed id c) maybe_evict c1
    (λ _ c2, steady c1 c2 ∧ entry_count c2 ≤ max_pages c2 ∧ (tidy c1 → tidy c2)).
Proof.
  intros Hr. eapply spec_conseq; [apply maybe_evict_spec, Hr | |].
  - intros c2 [Hs _]. by eapply renewed_steady.
  - by intros _ c2 [Hs _] Hm.
Qed.

Lemma new_page_spec c :
  cache_inv c →
  spec (H := cache_fault False True) (renewed (next_page_id c) c) new_page c (λ id c',
    id = next_page_id c ∧ next_page_id c' = id + 1 ∧ 0 < id < PAGE_ID_NONE ∧
    page_at c' id = Some zero_page ∧ entry_count c' ≤ max_pages c' ∧ (tidy c → tidy c')).
Proof.
  intros Hi. pose proof (ci_next _ Hi) as Hnx. unfold new_page. apply reads_id. cbv zeta.
  destruct (Z.ltb_spec u64_max (next_page_id c + 1)); [by split; [apply renewed_refl |] |].
  apply bind_writes. set (c1 := set_pages_allocated _ _). set (id := next_page_id c).
  destruct (page_at_beyond c id Hi) as (_ & Hn & Hres); [lia |].
  destruct (put_zero c c1 id) as [Hr Hp]; try done; try (cbn; lia).
  - by apply spw_rel_refl, Hi.
  - cbn. by rewrite delete_id.
  - unfold dirty_at. rewrite Hn. cbn. lia.
  - eapply spec_bind; [eapply cache_fault_mono; [by apply evict_renewed | done | done] |].
    intros [] c2 Hr2 (Hs & Hm & Ht). apply spec_ret; [done |].
    rewrite (sd_pages _ _ Hs), (sd_next _ _ Hs). ands; try done; try (unfold PAGE_ID_NONE; lia).
    intros Ht0. apply Ht. eapply (tidy_put c _ id); [reflexivity | exact Hres | reflexivity | exact Ht0].
Qed.

Lemma reissue_spec c id :
  cache_inv c → 0 ≤ id < next_page_id c →
  spec (H := cache_fault False False) (λ c', renewed id c c' ∧ page_at c' id = Some zero_page) (reissue_page id) c (λ _ c',
    next_page_id c' = next_page_id c ∧ entry_count c' ≤ max_pages c' ∧ (tidy c → tidy c')).
Proof.
  intros Hi Hid. pose proof (ci_next _ Hi). unfold reissue_page. do 3 apply bind_writes.
  set (c1 := on_lru _ _).
  pose proof (dirties_bound (entries c)) as Hdb. rewrite <- (ci_dirty _ Hi) in Hdb.
  assert (Hpos : dirty_at c id = true → 0 < dirty_count c).
  { unfold dirty_at. destruct (entries c !! id) as [e |] eqn:E; [| done]. intros Hd. rewrite (ci_dirty _ Hi).
    by eapply dirties_pos. }
  assert (Hsp : spw_rel (cipher c) id (spillway c) (spillway c1)).
  { subst c1. unfold untrack_dirty. destruct (dirty_at c id); cbn; destruct (spillway c) as [spw |] eqn:E; cbn; rewrite ?E;
      try (by apply spw_rel_refl); destruct (ci_spw _ Hi spw E); by apply spw_rel_wrote, forget_wrote. }
  assert (Hnr : resident c1 id = false).
  { rewrite resident_slots. subst c1. unfold untrack_dirty. destruct (dirty_at c id); cbn; destruct (spillway c) as [spw |] eqn:E; cbn;
      rewrite ?E; cbn; by rewrite ?lookup_delete_eq. }
  assert (Hf : io c1 = io c ∧ cipher c1 = cipher c ∧ nonces c1 = nonces c ∧ next_page_id c1 = next_page_id c ∧
    max_pages c1 = max_pages c ∧ spillway_max_bytes c1 = spillway_max_bytes c ∧
    entries c1 = <[id := {| buf := zero_page; dirty := true; needs_stamp := false |}]> (delete id (entries c)) ∧
    lru c1 = Lru.push_front id (lru c) ∧ dirty_count c1 = dirty_count c - Z.b2z (dirty_at c id) + 1).
  { subst c1. unfold untrack_dirty. destruct (dirty_at c id); cbn; destruct (spillway c); cbn; ands; try done; lia. }
  destruct Hf as (F1 & F2 & F3 & F4 & F5 & F6 & F7 & F8 & F9).
  destruct (put_zero c c1 id) as [Hr Hp]; try done; [rewrite F4; lia.. |].
  eapply spec_conseq; [apply maybe_evict_spec, Hr | |].
  { intros c2 [Hs _]. split; [by eapply renewed_steady | by rewrite (sd_pages _ _ Hs)]. }
  intros [] c2 [Hs _] [Hm Ht]. rewrite (sd_next _ _ Hs). ands; try done. intros Ht0. apply Ht.
  apply (tidy_rel (cipher c) id c); [done | | | done].
  - intros j Hj. by rewrite F7, lookup_insert_ne, lookup_delete_ne.
  - intros _. exact Hnr.
Qed.
End ops.
End CacheOps.
