(* ===== verification/CacheStore.v ===== *)
(** * The page cache as a page store

    The cache keeps the promise of [Store]: with the logical pages as the view, it is
    an instance of [StoreOk], so every theorem on the page modules holds over it. *)

From S2P Require Export CacheOps.

Module CacheStore.
Import PageCache CacheInv CacheEvict CacheOps.

Section store.
Context `{HX : Xxh3} `{HO : HashOrder} `{HC : Primitives}.
Implicit Types (c : PageCache).

(** The pages below the high-water mark. *)
Definition cache_view c : gmap Z (list Z) :=
  map_imap (λ id _, page_at c id) (gset_to_gmap tt (list_to_set (seqZ 0 (next_page_id c)))).

Lemma page_at_below c id : cache_inv c → id < 0 → page_at c id = None.
Proof.
  intros Hi Hn. unfold page_at. destruct (entries c !! id) as [e |] eqn:E.
  { pose proof (eo_id _ _ _ (ci_entries _ Hi _ _ E)). lia. }
  destruct (resident c id) eqn:Er; [destruct (ci_spilled _ Hi id Er); lia |].
  unfold disk_at, disk_page. destruct (Z.leb_spec 0 id); [lia | done].
Qed.

Lemma page_at_range c id p : cache_inv c → page_at c id = Some p → 0 ≤ id < next_page_id c.
Proof.
  intros Hi Hp. destruct (Z.lt_ge_cases id 0); [by rewrite page_at_below in Hp |].
  destruct (Z.lt_ge_cases id (next_page_id c)); [done |]. destruct (page_at_beyond c id Hi) as [E _]; [done | congruence].
Qed.

Lemma view_page c id : cache_inv c → cache_view c !! id = page_at c id.
Proof.
  intros Hi. unfold cache_view. rewrite map_lookup_imap, lookup_gset_to_gmap.
  destruct (page_at c id) as [p |] eqn:E.
  - rewrite option_guard_True; [done |]. apply elem_of_list_to_set, elem_of_seqZ.
    pose proof (page_at_range c id p Hi E). lia.
  - by destruct (guard _).
Qed.

Definition cache_live c id : Prop := is_Some (page_at c id).

(** A page id is a [u64]. *)
#[export] Instance cache_store : PageStore PageCache := {|
  ps_get id := get (cast 64 id);
  ps_modify id f := modify (cast 64 id) f;
  ps_new_page := new_page;
  ps_next_page_id := next_page_id
|}.

#[local] Instance store_fault : Fault := cache_fault True True.

Lemma cast_nonneg id : 0 ≤ cast 64 id.
Proof. by apply Z.mod_pos_bound. Qed.

Lemma cast_live c id p : cache_inv c → page_at c id = Some p → cast 64 id = id.
Proof.
  intros Hi Hp. pose proof (page_at_range c id p Hi Hp). pose proof (ci_next _ Hi). apply cast_small. unfold u64_max in *. lia.
Qed.

Lemma steady_same c c' : cache_inv c → steady c c' → same cache_view cache_live c c'.
Proof.
  intros Hi Hs j. pose proof (sd_inv _ _ Hs). unfold cache_live.
  rewrite !view_page, (sd_pages _ _ Hs) by done. done.
Qed.

#[export] Instance cache_store_ok : StoreOk PageCache.
Proof.
  refine {| st_inv := cache_inv; view := cache_view; live := cache_live |}.
  - intros c id Hi [p Hp]. by eapply page_at_range.
  - intros c id Hi [p Hp]. pose proof (page_at_range c id p Hi Hp). pose proof (ci_next _ Hi).
    unfold PAGE_ID_NONE. lia.
  - intros c id v Hi. rewrite view_page by done. by apply page_at_wf.
  - intros c id Hi. cbn [ps_get cache_store].
    eapply spec_conseq; [exact (get_spec True c (cast 64 id) Hi (cast_nonneg id) (λ _, I)) | |].
    + intros c' Hs. split; [apply Hs | by apply steady_same].
    + intros p c' Hs ((Hw & v & Hv & Hb) & _). split; [done |]. intros v'. rewrite view_page by done. intros Hv'.
      rewrite (cast_live c id v') in Hv by done. congruence.
  - intros c id f Hi [v Hv] Hf Hst. cbn [ps_modify cache_store]. rewrite (cast_live c id v) by done.
    eapply spec_conseq; [apply (modify_spec True c id f); [done | by eapply page_at_range | done | done | done] | |].
    + intros c' Hc. split; [apply Hc |]. intros j. pose proof (cg_inv _ _ _ Hc). unfold cache_live.
      destruct (decide (j = id)) as [-> |]; [split; [apply Hc | done] |].
      rewrite (cg_other _ _ _ Hc) by done. split; [done |]. intros _ _. by rewrite !view_page, (cg_other _ _ _ Hc).
    + intros p c' Hc (Hw & w & v' & Hw' & Hb & Hv' & Hbv & Hver & _). pose proof (cg_inv _ _ _ Hc).
      split; [done |]. split; [intros x; rewrite view_page by done; congruence |].
      exists v'. by rewrite view_page.
  - intros c id f Hi [v Hv] Hr. cbn [ps_modify cache_store] in *. rewrite (cast_live c id v) in * by done.
    apply steady_same; [done |]. apply (modify_fails True c id f); [done | by eapply page_at_range | done | done].
  - intros c Hi. cbn [ps_new_page cache_store].
    eapply spec_conseq; [exact (cache_fault_mono False True True True _ _ _ _ (new_page_spec c Hi) (λ _, I) id) | |].
    + intros c' Hr. split; [apply Hr |]. intros j [p Hp]. pose proof (rn_inv _ _ _ Hr).
      pose proof (page_at_range c j p Hi Hp). unfold cache_live. rewrite !view_page, (rn_other _ _ _ Hr) by (done || lia).
      split; [by exists p | done].
    + intros id c' Hr (-> & _ & Hid & Hp & _). destruct (page_at_beyond c (next_page_id c) Hi) as [E _]; [done |].
      unfold cache_live. rewrite E, Hp. split; [by intros [] |]. split; [by eexists | done].
Defined.
End store.
End CacheStore.
