(* ===== verification/Reuse.v ===== *)
(** * Handing out page ids again

    The calls of [PageCache] ([src/page_cache.rs]) that reissue a page:
    [claim_page] for a page that the freemap says is free, [reclaim_dead_txn_page] for
    one that the transaction allocated and no longer uses.  [ReuseOk] is what they
    promise; [claim_page] asserts that the page is not dirty, so the promise says as
    well which calls may make a page dirty. *)

From S2P Require Export Store MemStore CacheStore.

(** ** The calls *)

Class PageReuse (St : Type) := {
  (** [cache.claim_page(id)?] *)
  ps_claim : Z → M St unit;
  (** [cache.reclaim_dead_txn_page(id)?] *)
  ps_reclaim : Z → M St unit;
  (** [cache.is_dirty(id)] *)
  ps_dirty : St → Z → bool
}.

(** ** The promise *)

(** Page [id] was reissued: the others are as they were. *)
Definition reissued {St} (view : St → gmap Z (list Z)) (live : St → Z → Prop) (id : Z) (s s' : St) : Prop :=
  ∀ j, j ≠ id → (live s' j ↔ live s j) ∧ view s' !! j = view s !! j.

(** No page but [id] became dirty. *)
Definition clean_but {St} `{PageReuse St} (id : Z) (s s' : St) : Prop :=
  ∀ j, j ≠ id → ps_dirty s j = false → ps_dirty s' j = false.

Class ReuseOk (St : Type) `{HX : Xxh3} `{HF : Fault} `{HP : !PageStore St} `{HS : !StoreOk St} `{HR : !PageReuse St} := {
  get_clean : ∀ s id j, st_inv s → ps_dirty s j = false → ps_dirty (ps_get id s).2 j = false;
  modify_clean : ∀ s id f, st_inv s → live s id → (∀ p, wf_page p → wf_page (f p)) → stamps f →
    clean_but id s (ps_modify id f s).2;
  (** A page id that was never given out before. *)
  new_clean : ∀ s j, st_inv s → live s j → ps_dirty s j = false → ps_dirty (ps_new_page s).2 j = false;
  claim_ok : ∀ s id, st_inv s → live s id → ps_dirty s id = false →
    spec (λ s', st_inv s' ∧ live s' id ∧ reissued view live id s s' ∧ clean_but id s s') (ps_claim id) s (λ _ _, True);
  reclaim_ok : ∀ s id, st_inv s → live s id →
    spec (λ s', st_inv s' ∧ live s' id ∧ reissued view live id s s' ∧ clean_but id s s') (ps_reclaim id) s (λ _ _, True)
}.

(** ** The reference store: nothing is cached, so nothing is dirty *)

Definition mem_reissue (id : Z) : M MemStore unit :=
  writes (λ s, {| mem_pages := <[id := zero_page]> (mem_pages s); mem_next := mem_next s |}).

#[export] Instance mem_reuse : PageReuse MemStore := {|
  ps_claim := mem_reissue; ps_reclaim := mem_reissue; ps_dirty _ _ := false
|}.

Lemma mem_reissue_spec s id :
  mem_inv s → mem_live s id →
  spec (λ s', mem_inv s' ∧ mem_live s' id ∧ reissued mem_pages mem_live id s s' ∧ clean_but id s s') (mem_reissue id) s (λ _ _, True).
Proof.
  intros [Hn Hi] [v Hv]. apply spec_writes; [| done]. ands; [split; [done |] | | | done].
  - intros j w. cbn. rewrite lookup_insert_Some. intros [[<- <-] | [_ Hw]]; [| by apply Hi].
    split; [apply wf_zero_page | by apply (Hi id v)].
  - unfold mem_live. cbn. rewrite lookup_insert_eq. eauto.
  - intros j Hj. unfold mem_live. cbn. by rewrite lookup_insert_ne.
Qed.

#[export] Instance mem_reuse_ok : ReuseOk MemStore.
Proof.
  split.
  - done.
  - done.
  - done.
  - intros s id Hi Hl _. exact (mem_reissue_spec s id Hi Hl).
  - intros s id Hi Hl. exact (mem_reissue_spec s id Hi Hl).
Defined.

(** ** The page cache *)

Module CacheReuse.
Import PageCache CacheInv CacheEvict CacheOps CacheStore.

Section cache.
Context `{HX : Xxh3} `{HO : HashOrder} `{HC : Primitives}.
Implicit Types (c : PageCache).

#[export] Instance cache_reuse : PageReuse PageCache := {|
  ps_claim id := claim_page (cast 64 id);
  ps_reclaim id := reclaim_dead_txn_page (cast 64 id);
  ps_dirty c id := is_dirty c id
|}.

#[local] Instance store_fault : Fault := cache_fault True True.

Lemma reissue_ok c id :
  cache_inv c → cache_live c id →
  spec (λ c', cache_inv c' ∧ cache_live c' id ∧ reissued cache_view cache_live id c c' ∧ clean_but id c c')
    (reissue_page (cast 64 id)) c (λ _ _, True).
Proof.
  intros Hi [v Hv]. pose proof (page_at_range c id v Hi Hv) as Hid. rewrite (cast_live c id v) by done.
  eapply spec_conseq; [exact (cache_fault_mono False False True True _ _ _ _ (reissue_spec c id Hi Hid) (λ _, I) (λ _, I)) | |].
  - intros c' [Hr Hp]. pose proof (rn_inv _ _ _ Hr). unfold cache_live. ands; [done | rewrite Hp; eauto | | exact (rn_clean _ _ _ Hr)].
    intros j Hj. by rewrite !view_page, (rn_other _ _ _ Hr).
  - done.
Qed.

#[export] Instance cache_reuse_ok : ReuseOk PageCache.
Proof.
  split.
  - intros c id j Hi Hj. cbn [ps_get cache_store].
    destruct (get_spec True c (cast 64 id) Hi (cast_nonneg id) (λ _, I)) as [Hs _]. by apply Hs.
  - intros c id f Hi [v Hv] Hf Hst. cbn [ps_modify cache_store]. rewrite (cast_live c id v) by done.
    destruct (modify_spec True c id f) as [Hs _]; [done | by eapply page_at_range | done | done | done |]. exact (cg_clean _ _ _ Hs).
  - intros c j Hi [v Hv] Hj. cbn [ps_new_page cache_store]. pose proof (page_at_range c j v Hi Hv).
    destruct (new_page_spec c Hi) as [Hs _]. apply Hs; [lia | done].
  - intros c id Hi Hl Hd. cbn [ps_claim cache_reuse]. unfold claim_page. apply bind_reads. pose proof Hl as [v Hv].
    apply bind_assert; [| | by apply reissue_ok].
    + rewrite (cast_live c id v) by done. cbn [ps_dirty cache_reuse] in Hd. apply negb_true_iff. exact Hd.
    + ands; [done | done | by intros j | by intros j].
  - intros c id Hi Hl. by apply reissue_ok.
Defined.
End cache.
End CacheReuse.
