(* ===== verification/CacheFlush.v ===== *)
(** * Flushing the page cache

    [flush] writes the dirty entries, drains the spillway and syncs.  On every outcome
    the invariant holds and no unit of a page that was not dirty is overwritten; on
    success the file has every logical page and nothing is dirty. *)

From S2P Require Export CacheOps.

Module CacheFlush.
Import Crypto PageCache PageIoFacts SpillwayFacts CacheInv CacheEvict CacheOps.

Section flush.
Context `{HX : Xxh3} `{HO : HashOrder} `{HC : Primitives}.
#[local] Instance flush_fault : Fault := cache_fault False True.
Implicit Types (c : PageCache) (e : CacheEntry).

(** ** States on the way *)

Record flow c c' : Prop := {
  fw_inv : cache_inv c';
  fw_next : next_page_id c' = next_page_id c;
  fw_cipher : cipher c' = cipher c;
  fw_limits : max_pages c' = max_pages c ∧ spillway_max_bytes c' = spillway_max_bytes c;
  fw_tidy : tidy c';
  fw_settled : ∀ j, is_dirty c j = false → is_dirty c' j = false;
  fw_clean : ∀ j p, is_dirty c j = false → disk_at c j = Some p → disk_at c' j = Some p
}.

Definition kept c c' : Prop := ∀ j p, page_at c j = Some p → page_at c' j = Some p.

Lemma flow_refl c : cache_inv c → tidy c → flow c c.
Proof. by split. Qed.

Lemma flow_trans c1 c2 c3 : flow c1 c2 → flow c2 c3 → flow c1 c3.
Proof.
  intros [I1 N1 C1 [L1 M1] T1 S1 K1] [I2 N2 C2 [L2 M2] T2 S2 K2].
  split; [done | congruence | congruence | split; congruence | done | auto | auto].
Qed.

Lemma kept_trans c1 c2 c3 : kept c1 c2 → kept c2 c3 → kept c1 c3.
Proof. intros H1 H2 j p Hp. auto. Qed.

Lemma steady_flow c c' :
  steady c c' → tidy c' → (∀ j, is_dirty c j = false → is_dirty c' j = false) → flow c c' ∧ kept c c'.
Proof.
  intros [] Ht Hd. split.
  - split; try done. intros j p _. by rewrite sd_disk0.
  - intros j p. by rewrite sd_pages0.
Qed.

(** ** Writing a unit *)

Lemma disk_page_wrote cph io io' id j p :
  io_inv io → io_wrote id io io' → j ≠ id → disk_page cph io j = Some p → disk_page cph io' j = Some p.
Proof.
  intros Hi [Hi' [_ Hst] Hc Ho] Hj. unfold disk_page, PageIo.page_count.
  destruct (Z.leb_spec 0 j), (Z.ltb_spec j (PageIo.cached_page_count io)); try done. cbn [andb].
  destruct (Z.ltb_spec j (PageIo.cached_page_count io')); [| lia]. cbn [andb]. by rewrite Ho.
Qed.

Lemma disk_page_written cph io' id blob :
  0 ≤ id < PageIo.page_count io' → unit_at io' id = blob → disk_page cph io' id = decode cph id blob.
Proof.
  intros Hid <-. unfold disk_page. destruct (Z.leb_spec 0 id), (Z.ltb_spec id (PageIo.page_count io')); try lia. done.
Qed.

(** The unit, the slot and the entry of one page change. *)
Lemma back_unit v c c' io' :
  cache_inv c → io_wrote v (io c) io' → io c' = io' → cipher c' = cipher c → nonces c' = nonces c →
  next_page_id c' = next_page_id c → max_pages c' = max_pages c → 0 ≤ v < next_page_id c →
  spw_rel (cipher c) v (spillway c) (spillway c') → (∀ j, j ≠ v → entries c' !! j = entries c !! j) →
  back_rel v c c'.
Proof.
  intros Hi Hw Hio Hci Hno Hn Hm Hv [HI HS HK] Ho. pose proof (ci_next _ Hi). pose proof (ci_count _ Hi).
  unfold PageIo.page_count in *. pose proof (iw_count _ _ _ Hw). pose proof (iw_mode _ _ _ Hw) as [_ Hst].
  split; rewrite ?Hio, ?Hn, ?Hm; try done.
  - apply Hw.
  - unfold PageIo.page_count. lia.
  - lia.
  - apply Hi.
  - intros j Hj. by rewrite !resident_slots, HS.
  - intros j p Hj. unfold spill_at. rewrite Hci. auto.
  - intros j p Hj. unfold disk_at. rewrite Hio, Hci. apply (disk_page_wrote _ (io c) io' v); [apply Hi | done | done].
Qed.

Lemma is_dirty_split c j : is_dirty c j = false ↔ dirty_at c j = false ∧ resident c j = false.
Proof. unfold is_dirty. apply orb_false_iff. Qed.

(** From the state before: what is left to show of a change at a dirty page. *)
Lemma flow_change v c c' :
  cache_inv c' → back_rel v c c' → max_pages c' = max_pages c → spillway_max_bytes c' = spillway_max_bytes c →
  next_page_id c' = next_page_id c → is_dirty c v = true → tidy c → (is_Some (entries c' !! v) → resident c' v = false) →
  flow c c'.
Proof.
  intros Hi' [] Hm Hs Hn Hd Ht Htv. split; try done.
  - intros j Hj. destruct (decide (j = v)) as [-> | Hne]; [auto |]. rewrite br_res0 by done. apply Ht. by rewrite <- br_other0.
  - intros j. destruct (decide (j = v)) as [-> | Hne]; [by rewrite Hd |].
    rewrite !is_dirty_split. unfold dirty_at. by rewrite br_res0, br_other0.
  - intros j p Hj Hp. destruct (decide (j = v)) as [-> | Hne]; [by rewrite Hd in Hj | auto].
Qed.

(** ** One dirty entry *)

Lemma write_sealed_spec c id p (F : PageCache → Prop) :
  cache_inv c → 0 ≤ id → wf_page p →
  (∀ n io', io_wrote id (io c) io' → F (set_io io' (set_drawn n c))) →
  spec F (write_sealed id p) c (λ _ c', ∃ n io', c' = set_io io' (set_drawn n c) ∧ io_wrote id (io c) io' ∧
    disk_at c' id = Some p).
Proof.
  intros Hi Hid Hp HF. unfold write_sealed. destruct (page_blob_run c id p) as [n Hrun].
  destruct (decode_sealed c id p (drawn c) (ci_nonce _ Hi _) Hp) as (Hl & Hb & Hdec).
  eapply bind_run; [exact Hrun |]. set (blob := match cipher c with Some _ => _ | None => _ end) in *.
  apply on_io_spec. cbn [set_drawn io].
  eapply spec_conseq; [apply (write_unit_spec False); [apply Hi | done | exact Hb] | |].
  - intros io' Hw. by apply HF.
  - intros [] io' Hw [Hu Hc]. exists n, io'. ands; [done | done |]. unfold disk_at. cbn [set_io set_drawn io cipher].
    rewrite (disk_page_written _ _ _ blob); [done | | done]. pose proof (io_count _ (ci_io _ Hi)). unfold PageIo.page_count. lia.
Qed.

Lemma flush_entry_spec c id e :
  cache_inv c → tidy c → entries c !! id = Some e → dirty e = true →
  spec (flow c) (flush_entry id) c (λ _ c', kept c c' ∧
    entries c' = <[id := {| buf := settle e; dirty := false; needs_stamp := false |}]> (entries c) ∧
    spillway c' = spillway c).
Proof.
  intros Hi Ht He Hd. pose proof (ci_entries _ Hi _ _ He) as Heo. pose proof (eo_id _ _ _ Heo) as Hid.
  pose proof (Ht id (ex_intro _ e He)) as Hr.
  assert (Hde : dirty (stamp_deferred e) = true ∧ needs_stamp (stamp_deferred e) = false)
    by (unfold stamp_deferred; by destruct (needs_stamp e) eqn:?).
  destruct Hde as [Hde Hne]. assert (Hdi : is_dirty c id = true) by (unfold is_dirty, dirty_at; by rewrite He, Hd).
  unfold flush_entry. apply reads_id. rewrite He. cbv zeta. apply bind_writes. set (c1 := put_entry id (stamp_deferred e) c).
  eapply bind_run; [apply debug_assert_run, Heo |].
  destruct (entry_change c c1 id e (stamp_deferred e)) as (Hi1 & HD1 & Hp1 & HP1); try done;
    [apply settle_wf, Heo | rewrite settle_twice; apply Heo | rewrite Hd; cbn; lia |].
  assert (Hb : ∀ n io' x dc, io_wrote id (io c) io' → back_rel id c (set_dirty_count dc (put_entry id x (set_io io' (set_drawn n c1))))).
  { intros n io' x dc Hw. eapply (back_unit id c); try done; [by apply spw_rel_refl, Hi |].
    intros j Hj. cbn. by rewrite !lookup_insert_ne. }
  assert (Hput : ∀ n io', set_io io' (set_drawn n c1) =
    set_dirty_count (dirty_count c) (put_entry id (stamp_deferred e) (set_io io' (set_drawn n c1)))).
  { intros n io'. unfold put_entry, set_entries, c1, put_entry, set_entries, set_io, set_drawn, set_dirty_count. cbn.
    by rewrite insert_insert_eq. }
  eapply (spec_bind _ _ _ _ (λ _ c', ∃ n io', c' = set_io io' (set_drawn n c1) ∧ io_wrote id (io c1) io' ∧ disk_at c' id = Some (settle e))).
  { apply write_sealed_spec; [done | lia | apply settle_wf, Heo |]. intros n io' Hw. rewrite Hput.
    set (c' := set_dirty_count _ _). pose proof (Hb n io' (stamp_deferred e) (dirty_count c) Hw) as Hbk. fold c' in Hbk.
    apply (flow_change id); try done. destruct (rebuild id c c' Hi Hbk) as [Hi' _]; try done.
    + cbn. rewrite insert_insert_eq. eapply tracks_update; [exact He | apply Hi].
    + cbn. rewrite insert_insert_eq, (dirties_update _ _ e _ He), Hd, Hde, (ci_dirty _ Hi). lia.
    + intros x. cbn. rewrite lookup_insert_eq. intros [= <-]. destruct Heo. split; try done.
      * by apply settle_wf.
      * by rewrite settle_twice.
      * by rewrite Hde.
    + intros _. cbn. by rewrite lookup_insert_eq. }
  intros [] c2 _ (n & io' & -> & Hw & Hdk).
  pose proof (dirties_pos _ _ e He Hd) as Hpos. rewrite <- (ci_dirty _ Hi) in Hpos.
  set (x := {| buf := buf (stamp_deferred e); dirty := false; needs_stamp := needs_stamp (stamp_deferred e) |}).
  set (c' := λ self, set_dirty_count (Z.max (dirty_count self - 1) 0) (put_entry id x self)).
  set (c2 := set_io io' (set_drawn n c1)) in *. change (writes _) with (writes c').
  pose proof (Hb n io' x (Z.max (dirty_count c2 - 1) 0) Hw) as Hbk. fold c2 in Hbk. change (back_rel id c (c' c2)) in Hbk.
  assert (Hx : entries (c' c2) = <[id := x]> (entries c)) by (cbn; by rewrite insert_insert_eq).
  destruct (rebuild id c (c' c2) Hi Hbk) as [Hi' Hk].
  - cbn. rewrite insert_insert_eq. eapply tracks_update; [exact He | apply Hi].
  - rewrite Hx, (dirties_update _ _ e _ He), Hd. cbn. rewrite <- (ci_dirty _ Hi). lia.
  - intros y. rewrite Hx, lookup_insert_eq. intros [= <-]. unfold x. split; cbn; [done | apply settle_wf, Heo | by rewrite Hne | | done].
    unfold settle at 1, stamp_deferred at 1. cbn. rewrite Hne. apply Heo.
  - intros _. by rewrite Hx, lookup_insert_eq.
  - apply spec_writes; [by apply (flow_change id) |]. ands; [| rewrite Hx; unfold x; by rewrite Hne | done].
    intros j p. destruct (decide (j = id)) as [-> |]; [| auto]. unfold page_at. rewrite Hx, lookup_insert_eq, He.
    unfold x, settle at 2, stamp_deferred at 2. cbn. by rewrite Hne.
Qed.
(** ** All dirty entries *)

Lemma dirty_ids_spec c id : id ∈ dirty_ids c ↔ ∃ e, entries c !! id = Some e ∧ dirty e = true.
Proof.
  unfold dirty_ids, dirty_at. rewrite list_elem_of_filter, key_order_perm, list_elem_of_fmap. split.
  - intros [Hd _]. destruct (entries c !! id); [eauto | done].
  - intros (e & He & Hd). rewrite He. split; [done |]. exists (id, e). split; [done |]. by apply elem_of_map_to_list.
Qed.

Lemma dirty_ids_nodup c : NoDup (dirty_ids c).
Proof. apply NoDup_filter. rewrite key_order_perm. apply NoDup_fst_map_to_list. Qed.

Lemma dirty_ids_count c : zlen (dirty_ids c) = dirties (entries c).
Proof.
  unfold zlen, dirties. f_equal. rewrite <- (size_list_to_set (C := gset Z)) by apply dirty_ids_nodup.
  rewrite <- size_dom. f_equal. apply set_eq. intros id. rewrite elem_of_list_to_set, dirty_ids_spec, elem_of_dom. split.
  - intros (e & He & Hd). exists e. by apply map_lookup_filter_Some.
  - intros [e [He Hd]%map_lookup_filter_Some]. eauto.
Qed.

Definition all_clean c : Prop := ∀ id e, entries c !! id = Some e → dirty e = false.

Lemma flush_entries_spec ids c :
  cache_inv c → tidy c → NoDup ids → (∀ id, id ∈ ids → ∃ e, entries c !! id = Some e ∧ dirty e = true) →
  spec (flow c) (for_each flush_entry ids) c (λ _ c', kept c c' ∧ spillway c' = spillway c ∧
    ∀ id e, entries c' !! id = Some e → dirty e = true → (id ∉ ids) ∧ entries c !! id = Some e).
Proof.
  revert c. induction ids as [| id ids IH]; intros c Hi Ht Hnd Hall; cbn [for_each].
  { apply spec_ret; [by apply flow_refl |]. ands; [by intros j p | done |]. intros j e He _. split; [apply not_elem_of_nil | done]. }
  apply NoDup_cons in Hnd as [Hni Hnd]. destruct (Hall id) as (e & He & Hd); [by left |].
  eapply spec_bind; [by apply (flush_entry_spec c id e) |]. intros [] c1 Hf1 (Hk1 & He1 & Hs1).
  eapply spec_conseq; [apply (IH c1); [apply Hf1 | apply Hf1 | done |] | |].
  - intros j Hj. rewrite He1, lookup_insert_ne by congruence. apply Hall. by right.
  - intros c' Hf'. by eapply flow_trans.
  - intros [] c' Hf' (Hk & Hs & Hrest). ands; [by eapply kept_trans | congruence |]. intros j x Hx Hdx.
    destruct (Hrest j x Hx Hdx) as [Hj Hx1]. rewrite He1 in Hx1. apply lookup_insert_Some in Hx1 as [[<- <-] | [Hne Hx1]]; [done |].
    split; [| done]. rewrite elem_of_cons. by intros [-> | ?].
Qed.

(** ** Draining the spillway *)

Lemma kept_steady c c' : steady c c' → kept c c'.
Proof. intros Hs j p. by rewrite (sd_pages _ _ Hs). Qed.

(** The unit is written and the page handed back, in both modes. *)
Lemma drain_write_spec c id blob p (F : PageCache → Prop) :
  cache_inv c → 0 ≤ id → bytes_ok blob → decode (cipher c) id blob = Some p →
  (∀ io', io_wrote id (io c) io' → F (set_io io' c)) →
  spec F (match cipher c with
    | Some dek =>
        if zlen blob =? ENC_PAGE_SIZE then on_io (PageIo.write_page_unit id blob) ;;; open_page dek id blob
        else fail (DecryptionFailed id)
    | None =>
        if zlen blob =? PAGE_SIZE then on_io (PageIo.write_page_unit id blob) ;;; ret blob
        else fail (DecryptionFailed id)
    end) c (λ q c', q = p ∧ ∃ io', c' = set_io io' c ∧ io_wrote id (io c) io' ∧ disk_at c' id = Some p).
Proof.
  intros Hi Hid Hb Hdec HF.
  assert (Hw : spec F (on_io (PageIo.write_page_unit id blob)) c
    (λ _ c', ∃ io', c' = set_io io' c ∧ io_wrote id (io c) io' ∧ disk_at c' id = Some p)).
  { apply on_io_spec. eapply spec_conseq; [apply (write_unit_spec False); [apply Hi | done | exact Hb] | done |].
    intros [] io' Hw [Hu Hc]. exists io'. ands; [done | done |]. unfold disk_at. cbn [set_io io cipher].
    rewrite (disk_page_written _ _ _ blob); [done | | done]. pose proof (io_count _ (ci_io _ Hi)). unfold PageIo.page_count. lia. }
  unfold decode in Hdec. destruct (cipher c) as [dek |] eqn:Ec; (destruct (_ =? _); [| done]).
  - eapply spec_bind; [exact Hw |]. intros [] c' HF' Hc'. unfold open_page.
    destruct (Crypto.open dek id blob) as [q | |]; [| done | done]. injection Hdec as ->. by apply spec_ret.
  - eapply spec_bind; [exact Hw |]. intros [] c' HF' Hc'. injection Hdec as ->. by apply spec_ret.
Qed.
(** The state with the slot forgotten is sound, though the page is nowhere. *)
Lemma forgotten_inv c sp id :
  cache_inv c → entries c !! id = None → 0 ≤ id < next_page_id c → spw_rel (cipher c) id (spillway c) sp →
  (∀ c', spillway c' = sp → resident c' id = false) → cache_inv (set_spillway sp c).
Proof.
  intros Hi Hn Hid Hrel Hr. apply (rebuild id c (set_spillway sp c) Hi); try apply Hi.
  - apply (back_unit id c _ (io c)); try done. apply io_wrote_refl, Hi.
  - intros x. cbn. by rewrite Hn.
  - by rewrite Hr.
Qed.

(** The drained page is put into the cache, clean. *)
Lemma drained_in c sp id p io' :
  cache_inv c → tidy c → entries c !! id = None → is_dirty c id = true → page_at c id = Some p → wf_page p → data_stamped p →
  0 ≤ id < next_page_id c → spw_rel (cipher c) id (spillway c) sp → io_wrote id (io c) io' →
  (∀ c', spillway c' = sp → resident c' id = false) → slots_of (set_spillway sp c) = delete id (slots_of c) →
  disk_at (set_io io' (set_spillway sp c)) id = Some p →
  spec (flow c) (writes (λ self, match entries self !! id with
    | Some _ => self
    | None => on_lru (match drain_insertion self with LruTail => Lru.push_back id | Mru => Lru.push_front id end)
        (put_entry id {| buf := p; dirty := false; needs_stamp := false |} self)
    end)) (set_io io' (set_spillway sp c)) (λ _ c', kept c c' ∧ slots_of c' = delete id (slots_of c) ∧ (all_clean c → all_clean c')).
Proof.
  intros Hi Ht Hn Hdi Hpg Hwf Hst Hid Hrel Hw Hr2 Hslots Hdk. set (c3 := set_io io' _) in *.
  set (x := {| buf := p; dirty := false; needs_stamp := false |}).
  set (c4 := on_lru (match drain_insertion c3 with LruTail => Lru.push_back id | Mru => Lru.push_front id end) (put_entry id x c3)).
  assert (Hn3 : entries c3 !! id = None) by done.
  unfold spec, writes. cbn [fst snd]. rewrite Hn3. change (spec (flow c) (ret tt) c4
    (λ _ c', kept c c' ∧ slots_of c' = delete id (slots_of c) ∧ (all_clean c → all_clean c'))).
  assert (Hbk : back_rel id c c4).
  { apply (back_unit id c c4 io'); try done. intros j Hj. cbn. by rewrite lookup_insert_ne. }
  pose proof (Hr2 c4 eq_refl) as Hr4. destruct (rebuild id c c4 Hi Hbk) as [Hi4 Hk4].
  - cbn. destruct (drain_insertion c); [by apply tracks_back, Hi | by apply tracks_front, Hi].
  - cbn. rewrite dirties_insert by done. cbn. rewrite Z.add_0_r. apply Hi.
  - intros y. cbn. rewrite lookup_insert_eq. intros [= <-]. split; done.
  - intros _. cbn. by rewrite lookup_insert_eq.
  - apply spec_ret; [by apply (flow_change id) |]. ands.
    + intros j q. destruct (decide (j = id)) as [-> |]; [| auto]. rewrite Hpg. unfold page_at. cbn. by rewrite lookup_insert_eq.
    + exact Hslots.
    + intros Hc j y. cbn. intros [[<- <-] | [_ Hy]]%lookup_insert_Some; [done | by eapply Hc].
Qed.

Lemma drain_page_spec c id :
  cache_inv c → tidy c → resident c id = true →
  spec (flow c) (drain_page id) c (λ _ c', kept c c' ∧ slots_of c' = delete id (slots_of c) ∧ (all_clean c → all_clean c')).
Proof.
  intros Hi Ht Hr. pose proof (ci_spilled _ Hi id Hr) as [Hid _].
  assert (Hn : entries c !! id = None) by (apply eq_None_not_Some; intros Hx; by rewrite (Ht id Hx) in Hr).
  assert (Hdi : is_dirty c id = true) by (unfold is_dirty; by rewrite Hr, orb_true_r).
  destruct (take_spilled c id Hi Hn Hr) as (p & blob & Hpg & Hwf & Hst & Hbb & Hdec & Htake).
  unfold drain_page. eapply spec_bind.
  { eapply cache_fault_mono; [eapply spec_conseq; [exact Htake | | exact (λ _ _ _ H, H)] | done | done].
    intros c1 [Hs1 Hsame]. apply steady_flow; [done | |].
    - intros j Hj. destruct (Hsame j) as [-> He]. apply Ht. by rewrite <- He.
    - intros j. rewrite !is_dirty_split. unfold dirty_at. destruct (Hsame j) as [-> ->]. done. }
  intros b c1 _ (-> & sp & Hrun & Hrel & Hslots). eapply bind_run; [exact Hrun |]. set (c2 := set_spillway sp c). apply reads_id.
  assert (Hr2 : ∀ c', spillway c' = sp → resident c' id = false).
  { intros c' E. transitivity (resident c2 id); [unfold resident; by rewrite E |].
    rewrite resident_of. unfold c2. by rewrite Hslots, lookup_delete_eq. }
  assert (Hi2 : cache_inv c2) by by apply (forgotten_inv c sp id).
  eapply (spec_bind _ _ _ _ (λ q c', q = p ∧ ∃ io', c' = set_io io' c2 ∧ io_wrote id (io c2) io' ∧ disk_at c' id = Some p)).
  { apply drain_write_spec; [done | lia | done | done |]. intros io' Hw. set (c' := set_io io' c2).
    assert (Hbk : back_rel id c c') by by apply (back_unit id c c' io').
    apply (flow_change id); try done; [| intros _; by apply Hr2]. apply (rebuild id c c' Hi Hbk); try apply Hi.
    - intros x. cbn. by rewrite Hn.
    - by rewrite (Hr2 c' eq_refl). }
  intros q c3 _ (-> & io' & -> & Hw & Hdk). eapply bind_run; [by apply debug_assert_run |].
  by apply (drained_in c sp id p io').
Qed.

Lemma drain_batch_spec ids c :
  cache_inv c → tidy c → NoDup ids → (∀ id, id ∈ ids → resident c id = true) →
  spec (flow c) (for_each drain_page ids) c (λ _ c', kept c c' ∧
    (∀ j, slots_of c' !! j = if decide (j ∈ ids) then None else slots_of c !! j) ∧ (all_clean c → all_clean c')).
Proof.
  revert c. induction ids as [| id ids IH]; intros c Hi Ht Hnd Hall; cbn [for_each].
  { apply spec_ret; [by apply flow_refl |]. ands; [by intros j p | | done]. intros j. by rewrite decide_False by apply not_elem_of_nil. }
  apply NoDup_cons in Hnd as [Hni Hnd].
  eapply spec_bind; [apply (drain_page_spec c id); [done | done | apply Hall; by left] |]. intros [] c1 Hf1 (Hk1 & Hs1 & Hc1).
  eapply spec_conseq; [apply (IH c1); [apply Hf1 | apply Hf1 | done |] | |].
  - intros j Hj. rewrite resident_of, Hs1, lookup_delete_ne by congruence. rewrite <- resident_of. apply Hall. by right.
  - intros c' Hf'. by eapply flow_trans.
  - intros [] c' Hf' (Hk & Hs & Hc). ands; [by eapply kept_trans | | auto]. intros j. rewrite Hs, Hs1.
    destruct (decide (j = id)) as [-> |].
    + rewrite lookup_delete_eq, (decide_True (P := id ∈ id :: ids)) by left. by destruct (decide (id ∈ ids)).
    + rewrite lookup_delete_ne by done. apply decide_ext. rewrite elem_of_cons. tauto.
Qed.

(** A batch is empty only when the spillway is; its ids are spilled pages. *)
Lemma next_batch_spec c :
  cache_inv c → (next_batch c = [] → slots_of c = ∅) ∧ NoDup (next_batch c) ∧ ∀ id, id ∈ next_batch c → resident c id = true.
Proof.
  intros Hi. pose proof (ci_max _ Hi). unfold next_batch, slots_of, resident, Spillway.slot_count, Spillway.drain_batch, Spillway.is_resident.
  destruct (spillway c) as [spw |]; [| ands; [done | apply NoDup_nil_2 | intros id []%not_elem_of_nil]].
  destruct (Z.ltb_spec 0 (Z.of_nat (size (Spillway.slots spw)))) as [Hp | Hp].
  - ands.
    + intros Hnil. exfalso. apply (f_equal length) in Hnil. rewrite length_take, key_order_perm, length_fmap, length_map_to_list in Hnil.
      cbn in Hnil. lia.
    + eapply sublist_NoDup; [| apply sublist_take]. rewrite key_order_perm. apply NoDup_fst_map_to_list.
    + intros id Hid. apply bool_decide_eq_true_2. apply (elem_of_take _ _ _) in Hid as (i & Hid & _).
      apply list_elem_of_lookup_2 in Hid. rewrite key_order_perm in Hid. apply list_elem_of_fmap in Hid as ([k v] & -> & Hkv).
      apply elem_of_map_to_list in Hkv. cbn. eauto.
  - ands; [| apply NoDup_nil_2 | intros id []%not_elem_of_nil]. intros _. apply map_size_empty_inv. lia.
Qed.

(** Fewer slots each turn: as many turns as slots are enough. *)
Lemma drain_loop_spec fuel c :
  cache_inv c → tidy c → all_clean c → (size (slots_of c) ≤ fuel)%nat →
  spec (flow c) (drain_loop fuel) c (λ _ c', kept c c' ∧ slots_of c' = ∅ ∧ all_clean c').
Proof.
  revert c. induction fuel as [| fuel IH]; intros c Hi Ht Hc Hf.
  { apply spec_ret; [by apply flow_refl |]. ands; [by intros j p | apply map_size_empty_inv; lia | done]. }
  cbn [drain_loop]. apply reads_id. destruct (next_batch_spec c Hi) as (Hnil & Hnd & Hres).
  destruct (next_batch c) as [| id ids] eqn:Eb.
  { apply spec_ret; [by apply flow_refl |]. ands; [by intros j p | auto | done]. }
  eapply spec_bind; [by apply (drain_batch_spec (id :: ids) c) |]. intros [] c1 Hf1 (Hk1 & Hs1 & Hc1).
  eapply (spec_bind _ _ _ _ (λ _ c2, steady c1 c2 ∧ evicted c1 c2)).
  { eapply cache_fault_mono; [eapply spec_conseq; [apply evict_clean_spec, Hf1 | |] | done | done].
    - intros c2 [Hs Hev]. eapply flow_trans; [exact Hf1 |]. apply steady_flow; [done | by apply (evicted_tidy c1), Hf1 |].
      destruct Hev as (Hsub & Hsp & _). intros j. rewrite !is_dirty_split. unfold dirty_at, resident. rewrite Hsp.
      intros [Hd Hr]. split; [| done]. destruct (entries c2 !! j) as [e |] eqn:Ej; [| done].
      by rewrite (lookup_weaken _ _ _ _ Ej Hsub) in Hd.
    - by intros [] c2 ? _. }
  intros [] c2 Hf2 [Hs2 (Hsub & Hsp & _)]. eapply spec_conseq; [apply (IH c2) | |].
  - apply Hf2.
  - apply Hf2.
  - intros j e He. eapply Hc1; [done |]. by eapply lookup_weaken.
  - assert (Hlt : (size (slots_of c1) < size (slots_of c))%nat).
    { apply map_subset_size. apply map_subset_alt. split.
      - apply map_subseteq_spec. intros j v. rewrite Hs1. by case_decide.
      - assert (Hid : id ∈ id :: ids) by left. specialize (Hres id Hid). rewrite resident_of in Hres.
        apply bool_decide_eq_true in Hres as [v Hv]. exists id. split; [| by rewrite Hv]. rewrite Hs1. by rewrite decide_True. }
    replace (slots_of c2) with (slots_of c1) by (unfold slots_of; by rewrite Hsp). lia.
  - intros c' Hf'. by eapply flow_trans.
  - intros [] c' _ (Hk & Hs & Hcl). ands; [| done | done]. eapply kept_trans; [exact Hk1 |].
    eapply kept_trans; [by apply kept_steady | done].
Qed.
(** ** The whole flush *)

Lemma set_len_spec b n :
  spec (λ b', Backing.bytes b' = Backing.bytes b ∨ Backing.bytes b' = resize_to n (Backing.bytes b)) (Backing.set_len n) b
    (λ _ b', Backing.bytes b' = resize_to n (Backing.bytes b)).
Proof.
  unfold Backing.set_len. eapply (spec_bind _ _ _ _ (λ _ b', Backing.bytes b' = Backing.bytes b)).
  { eapply spec_conseq; [apply (ask_spec False True) | |]; [intros b' [_ ->]; by left | by intros a b' [_ ->]]. }
  intros [[k w] |] b' Hf Hb; [by apply spec_fail; [| apply (io_err False True)] |].
  apply spec_writes; cbn; rewrite Hb; auto.
Qed.

Lemma sync_spec b : spec (same_bytes b) Backing.sync b (λ _ _, True).
Proof.
  unfold Backing.sync. eapply spec_bind; [apply (ask_spec False True) |]. intros [[k w] |] b' Hs _;
    [by apply spec_fail; [| apply (io_err False True)] | by apply spec_ret].
Qed.

Lemma resize_bytes n l : bytes_ok l → bytes_ok (resize_to n l).
Proof. intros Hl. by apply take_bytes, extend_bytes. Qed.

(** An emptied spillway. *)
Definition emptied (spw spw' : Spillway.Spillway) : Prop :=
  Spillway.slots spw' = ∅ ∧ Spillway.payload_size spw' = Spillway.payload_size spw ∧ sp_inv spw'.

Lemma truncate_spw_spec spw : sp_inv spw → spec (emptied spw) Spillway.truncate spw (λ _ _, True).
Proof.
  intros Hi. assert (He : ∀ b, bytes_ok (Backing.bytes b) → emptied spw {| Spillway.backing := b; Spillway.slots := ∅;
    Spillway.next_slot_index := 0; Spillway.max_bytes := Spillway.max_bytes spw; Spillway.payload_size := Spillway.payload_size spw |}).
  { intros b Hb. split; [done |]. split; [done |]. split; cbn; [done | apply Hi | done | |]; intros ??; by rewrite lookup_empty. }
  unfold Spillway.truncate. apply bind_writes.
  eapply (spec_bind _ _ _ _ (λ _ s', ∃ b, bytes_ok (Backing.bytes b) ∧ s' = {| Spillway.backing := b; Spillway.slots := ∅;
    Spillway.next_slot_index := 0; Spillway.max_bytes := Spillway.max_bytes spw; Spillway.payload_size := Spillway.payload_size spw |})).
  - apply spec_backing. pose proof (sp_bytes _ Hi) as Hb. eapply spec_conseq; [apply set_len_spec | |]; cbn.
    + intros b Hbb. apply He. destruct Hbb as [-> | ->]; [done | by apply resize_bytes].
    + intros _ b _ Hbb. exists b. split; [rewrite Hbb; by apply resize_bytes | done].
  - intros [] s' _ (b & Hb & ->). apply spec_backing. eapply spec_conseq; [apply sync_spec | |]; cbn; [| done].
    intros b' [_ Hbb]. apply He. by rewrite Hbb.
Qed.

Lemma steady_emptied c spw spw' :
  cache_inv c → spillway c = Some spw → slots_of c = ∅ → emptied spw spw' → steady c (set_spillway (Some spw') c).
Proof.
  intros Hi E Hn (Hs & Hp & Hsi). assert (Hr : ∀ j, resident c j = false) by (intros j; by rewrite resident_of, Hn, lookup_empty).
  apply steady_storage; try done.
  - intros x [= <-]. split; [done |]. rewrite Hp. by apply (ci_spw _ Hi).
  - intros j. rewrite Hr. split; [| done]. rewrite resident_of. unfold slots_of. cbn. by rewrite Hs, lookup_empty.
Qed.

(** Nothing in the cache or the spillway that the file does not have. *)
Definition quiescent c : Prop := all_clean c ∧ ∀ j, resident c j = false.

Lemma quiescent_disk c j : cache_inv c → quiescent c → page_at c j = disk_at c j.
Proof.
  intros Hi [Hc Hr]. unfold page_at. rewrite Hr. destruct (entries c !! j) as [e |] eqn:E; [| done].
  pose proof (ci_entries _ Hi _ _ E) as Heo. destruct (eo_clean _ _ _ Heo (Hc j e E)) as [_ Hd].
  by rewrite Hd, (settle_clean c j e Heo (Hc j e E)).
Qed.

Lemma flow_quiescent c c' : steady c c' → quiescent c' → flow c c' ∧ kept c c'.
Proof.
  intros Hs [Hc Hr]. apply steady_flow; [done | by intros j _ |]. intros j _. rewrite is_dirty_split. split; [| done].
  unfold dirty_at. destruct (entries c' !! j) as [e |] eqn:E; [by eapply Hc | done].
Qed.

Lemma fsync_spec io : spec (io_same io) PageIo.fsync io (λ _ _, True).
Proof.
  unfold PageIo.fsync. apply reads_id. destruct (PageIo.read_only io); [by apply spec_fail |].
  eapply (spec_bind _ _ _ _ (λ _ _, True)).
  - apply io_backing. eapply spec_conseq; [apply sync_spec | |]; done.
  - intros [] io' Hs _. by apply spec_writes.
Qed.

Lemma flush_spec c :
  cache_inv c → tidy c → spec (flow c) flush c (λ _ c', kept c c' ∧ quiescent c').
Proof.
  intros Hi Ht. unfold flush. apply reads_id. cbv zeta. apply bind_assert; [| by apply flow_refl |].
  { apply Z.eqb_eq. rewrite dirty_ids_count. apply Hi. }
  eapply spec_bind; [apply flush_entries_spec; [done | done | apply dirty_ids_nodup | intros id; apply dirty_ids_spec] |].
  intros [] c1 Hf1 (Hk1 & Hs1 & Hc1). apply bind_writes. set (c2 := set_dirty_count 0 c1).
  pose proof (fw_inv _ _ Hf1) as Hi1.
  assert (Hcl : all_clean c1).
  { intros id e He. destruct (dirty e) eqn:Hd; [| done]. destruct (Hc1 id e He Hd) as [Hni He0]. destruct Hni.
    apply dirty_ids_spec. eauto. }
  assert (Hs2 : steady c1 c2).
  { apply steady_fields; try done. rewrite (ci_dirty _ Hi1). symmetry. by apply dirties_none. }
  assert (Hf2 : flow c c2) by (eapply flow_trans; [exact Hf1 |]; by apply steady_flow; [| apply Hf1 |]).
  apply reads_id. eapply (spec_bind _ _ _ _ (λ _ c3, kept c c3 ∧ slots_of c3 = ∅ ∧ all_clean c3)).
  { eapply spec_conseq; [apply (drain_loop_spec _ c2); [apply Hf2 | apply Hf2 | exact Hcl |] | |].
    - unfold slots_of, spill_size. destruct (spillway c2); done.
    - intros c3 Hf3. by eapply flow_trans.
    - intros [] c3 _ (Hk & Hsl & Hc3). ands; [| done | done]. eapply kept_trans; [exact Hk1 |].
      eapply kept_trans; [by apply kept_steady | done]. }
  intros [] c3 Hf3 (Hk3 & Hsl3 & Hc3). apply reads_id. pose proof (fw_inv _ _ Hf3) as Hi3.
  assert (Hq3 : quiescent c3) by (split; [done |]; intros j; by rewrite resident_of, Hsl3, lookup_empty).
  eapply (spec_bind _ _ _ _ (λ _ c4, kept c c4 ∧ quiescent c4)).
  { destruct (spillway c3) as [spw |] eqn:E; [| by apply spec_ret].
    assert (Hq : ∀ spw', emptied spw spw' → steady c3 (set_spillway (Some spw') c3) ∧ quiescent (set_spillway (Some spw') c3)).
    { intros spw' He. split; [by eapply steady_emptied |]. split; [exact Hc3 |]. intros j. rewrite resident_of. unfold slots_of. cbn.
      destruct He as (-> & _ & _). by rewrite lookup_empty. }
    eapply on_spillway_spec; [exact E |]. eapply spec_conseq; [apply truncate_spw_spec; by apply (ci_spw _ Hi3) | |].
    - intros spw' He. destruct (Hq spw' He) as [Hs Hq']. eapply flow_trans; [exact Hf3 |]. by apply flow_quiescent.
    - intros [] spw' He _. destruct (Hq spw' He) as [Hs Hq']. split; [| done]. eapply kept_trans; [exact Hk3 | by apply kept_steady]. }
  intros [] c4 Hf4 [Hk4 Hq4]. pose proof (fw_inv _ _ Hf4) as Hi4. apply on_io_spec. eapply spec_conseq; [apply fsync_spec | |].
  - intros io' Hs. eapply flow_trans; [exact Hf4 |]. apply flow_quiescent; [by apply steady_io | exact Hq4].
  - intros [] io' Hs _. split; [| exact Hq4]. eapply kept_trans; [exact Hk4 |]. apply kept_steady. by apply steady_io.
Qed.
End flush.
End CacheFlush.
