(* ===== verification/CacheReset.v ===== *)
(** * Discarding, truncating and reconfiguring the page cache

    [discard_all_dirty] takes every page back to what the file has; [truncate] drops
    the pages from a mark on; the limits change no page. *)

From S2P Require Export CacheFlush.

Module CacheReset.
Import PageCache PageIoFacts SpillwayFacts CacheInv CacheEvict CacheOps CacheFlush.

Section reset.
Context `{HX : Xxh3} `{HO : HashOrder} `{HC : Primitives}.
Implicit Types (c : PageCache) (e : CacheEntry).

(** ** Dropping a list of entries *)

(** The entries of [ids] are gone; all else but the counters is as it was. *)
Record dropped (ids : list Z) c c' : Prop := {
  dr_back : same_back c c';
  dr_limits : max_pages c' = max_pages c ∧ spillway_max_bytes c' = spillway_max_bytes c;
  dr_lru : tracks (lru c') (entries c');
  dr_entries : ∀ j, entries c' !! j = if decide (j ∈ ids) then None else entries c !! j
}.

Lemma dropped_step id ids c c1 c' :
  dropped [id] c c1 → dropped ids c1 c' → dropped (id :: ids) c c'.
Proof.
  intros [(A1 & A2 & A3 & A4 & A5) [B1 B1'] _ E1] [(C1 & C2 & C3 & C4 & C5) [D1 D1'] T E2].
  split; [unfold same_back; ands; congruence | split; congruence | done |].
  intros j. rewrite E2, E1. destruct (decide (j ∈ ids)); [by rewrite decide_True by by right |].
  apply decide_ext. rewrite list_elem_of_singleton, elem_of_cons. tauto.
Qed.

Lemma drop_one id c c' :
  tracks (lru c) (entries c) → same_back c c' → max_pages c' = max_pages c → spillway_max_bytes c' = spillway_max_bytes c →
  lru c' = (Lru.remove id (lru c)).2 → entries c' = delete id (entries c) → dropped [id] c c'.
Proof.
  intros Ht Hb Hm Hs Hl He. split; [done | done | rewrite Hl, He; by apply tracks_remove |].
  intros j. rewrite He. destruct (decide (j = id)) as [-> |].
  - rewrite lookup_delete_eq, decide_True; [done |]. by apply list_elem_of_singleton.
  - rewrite lookup_delete_ne, decide_False; [done | | done]. by rewrite list_elem_of_singleton.
Qed.

Lemma drop_list (f : PageCache → Z → PageCache) ids c :
  (∀ x id, tracks (lru x) (entries x) → dropped [id] x (f x id)) →
  tracks (lru c) (entries c) → dropped ids c (foldl f c ids).
Proof.
  intros Hf. revert c. induction ids as [| id ids IH]; intros c Ht; cbn [foldl].
  - split; try done.
  - eapply dropped_step; [by apply Hf | apply IH, Hf, Ht].
Qed.

(** ** Discarding *)

Lemma discard_spec c :
  cache_inv c →
  let c' := discard_all_dirty c in
  cache_inv c' ∧ quiescent c' ∧ (∀ j, disk_at c' j = disk_at c j) ∧ next_page_id c' = next_page_id c ∧ cipher c' = cipher c ∧
  max_pages c' = max_pages c ∧ spillway_max_bytes c' = spillway_max_bytes c.
Proof.
  intros Hi. cbv zeta. unfold discard_all_dirty.
  set (c1 := foldl _ c (dirty_ids c)). assert (Hd : dropped (dirty_ids c) c c1).
  { apply drop_list; [| apply Hi]. intros x id Ht. by apply drop_one. }
  destruct Hd as [(Hio & Hsp & Hci & Hn & Hno) [Hm Hs] Ht He]. set (c2 := set_dirty_count 0 c1).
  assert (Hcl : all_clean c2).
  { intros id e Hx. cbn in Hx. rewrite He in Hx. case_decide as Hid; [done |]. destruct (dirty e) eqn:Hde; [| done].
    destruct Hid. apply dirty_ids_spec. eauto. }
  cut (∃ sp', match spillway c2 with Some spw => set_spillway (Some (Spillway.truncate spw).2) c2 | None => c2 end = set_spillway sp' c2 ∧
    ∀ spw', sp' = Some spw' → ∃ spw, spillway c = Some spw ∧ emptied spw spw').
  - intros (sp' & -> & Hsp'). set (c' := set_spillway sp' c2).
    assert (Hr : ∀ j, resident c' j = false).
    { intros j. rewrite resident_of. unfold slots_of. cbn. destruct sp' as [spw' |]; [| by rewrite lookup_empty].
      destruct (Hsp' spw' eq_refl) as (spw & _ & -> & _). by rewrite lookup_empty. }
    assert (Hdk : ∀ j, disk_at c' j = disk_at c j) by (intros j; unfold disk_at; cbn; by rewrite Hio, Hci).
    ands; try done. split; cbn; rewrite ?Hio, ?Hci, ?Hn, ?Hm, ?Hno; try apply Hi; try done.
    + intros spw' ->. destruct (Hsp' spw' eq_refl) as (spw & E & _ & -> & Hsi). split; [done |]. by apply (ci_spw _ Hi).
    + symmetry. by apply dirties_none.
    + intros id e Hx. pose proof (Hcl id e Hx) as Hde. rewrite He in Hx. case_decide; [done |].
      destruct (ci_entries _ Hi _ _ Hx). split; cbn; rewrite ?Hn; try done. intros _. rewrite Hdk. split; [apply Hr | by apply eo_clean0].
    + intros id. by rewrite (Hr id).
  - cbn [c2 set_dirty_count spillway]. rewrite Hsp. destruct (spillway c) as [spw |] eqn:E.
    + eexists. split; [reflexivity |]. intros spw' [= <-]. exists spw. split; [done |].
      apply (truncate_spw_spec spw). by apply (ci_spw _ Hi).
    + exists None. split; [| done]. unfold c2, set_spillway. cbn. rewrite <- Hsp. by destruct c1.
Qed.

(** ** Truncating *)

Lemma forget_above_inv n spw : sp_inv spw → sp_inv (Spillway.forget_above n spw) ∧
  (∀ j, Spillway.slots (Spillway.forget_above n spw) !! j = if decide (j < n) then Spillway.slots spw !! j else None) ∧
  ∀ j, j < n → spilled (Spillway.forget_above n spw) j = spilled spw j.
Proof.
  intros Hi. assert (Hl : ∀ j, Spillway.slots (Spillway.forget_above n spw) !! j = if decide (j < n) then Spillway.slots spw !! j else None).
  { intros j. cbn. rewrite map_lookup_filter. destruct (Spillway.slots spw !! j) as [i |]; [| by case_decide]. cbn. by repeat case_decide. }
  ands; [| done |].
  - assert (Hsub : ∀ j i, Spillway.slots (Spillway.forget_above n spw) !! j = Some i → Spillway.slots spw !! j = Some i).
    { intros j i. rewrite Hl. by case_decide. }
    split; try apply Hi.
    + intros j i Hj%Hsub. by apply (sp_range _ Hi j).
    + intros j j' i Hj%Hsub Hj'%Hsub. by eapply (sp_inj _ Hi).
  - intros j Hj. unfold spilled. rewrite Hl, decide_True by done. done.
Qed.

#[local] Instance reset_fault : Fault := cache_fault False True.

Lemma slice_resize o k n l : 0 ≤ o → 0 ≤ k → o + k ≤ zlen l → o + k ≤ n → slice o k (resize_to n l) = slice o k l.
Proof.
  intros. unfold resize_to. rewrite <- (slice_extend o k n l) by done. unfold slice. rewrite skipn_firstn_comm, take_take. f_equal. lia.
Qed.

Lemma zlen_resize n l : 0 ≤ n → zlen (resize_to n l) = n.
Proof. intros Hn. unfold resize_to. pose proof (zlen_extend n l). unfold zlen in *. rewrite length_take. lia. Qed.

Lemma set_len_cases n b :
  (∃ k b', Backing.set_len n b = (Err (from_io_error k), b') ∧ same_bytes b b') ∨
  (∃ b', Backing.set_len n b = (Ok tt, b') ∧ Backing.bytes b' = resize_to n (Backing.bytes b)).
Proof.
  unfold Backing.set_len, bind, Backing.ask. destruct b as [[] bs [| [[k w] |] rest]]; cbn; eauto;
    left; exists k; eexists; by split.
Qed.

(** The page file after [set_page_count]. *)
Record resized (n : Z) (io io' : PageIo.PageIo) : Prop := {
  rs_inv : io_inv io';
  rs_stride : PageIo.stride io' = PageIo.stride io;
  rs_count : PageIo.page_count io' = n;
  rs_units : ∀ j, 0 ≤ j < n → j < PageIo.page_count io → unit_at io' j = unit_at io j
}.

Lemma set_page_count_spec io n :
  io_inv io → 0 ≤ n →
  spec (λ io', io_same io io' ∨ resized n io io') (PageIo.set_page_count n) io (λ _ io', resized n io io').
Proof.
  intros Hi Hn. unfold PageIo.set_page_count. apply reads_id. pose proof (io_stride _ Hi) as Hst.
  destruct (PageIo.read_only io); [apply spec_fail; [by left | done] |].
  destruct (Z.ltb_spec u64_max (n * PageIo.stride io)); [split; [by left | done] |].
  destruct (set_len_cases (n * PageIo.stride io) (PageIo.backing io)) as [(k & b & E & Hb) | (b & E & Hb)].
  { unfold spec, bind, PageIo.on_backing. rewrite E. split; [left; by split |]. apply (io_err False True). }
  eapply bind_run; [unfold PageIo.on_backing; by rewrite E |].
  assert (Hr : resized n io (PageIo.set_count n (PageIo.set_backing b io))); [| by apply spec_writes; [right |]].
  split; cbn; [| done | done |].
  - split; cbn; [done | rewrite Hb; by apply resize_bytes, Hi |]. rewrite Hb, zlen_resize by nia. lia.
  - intros j Hj Hjc. unfold PageIo.page_count in Hjc. unfold unit_at. cbn. rewrite Hb. pose proof (unit_range io j Hi) as Hu. apply slice_resize; [nia | lia | apply Hu; lia |]. nia.
Qed.

Lemma disk_page_resized cph n io io' j p :
  io_inv io → resized n io io' → j < n → disk_page cph io j = Some p → disk_page cph io' j = Some p.
Proof.
  intros Hi [Hi' Hst Hc Hu] Hj. unfold disk_page. rewrite Hc.
  destruct (Z.leb_spec 0 j), (Z.ltb_spec j (PageIo.page_count io)); try done. cbn [andb].
  destruct (Z.ltb_spec j n); [| lia]. cbn [andb]. by rewrite Hu by lia.
Qed.

(** The pages below the mark are as they were. *)
Record truncated (n : Z) c c' : Prop := {
  tr_inv : cache_inv c';
  tr_next : next_page_id c' = next_page_id c ∨ next_page_id c' = n;
  tr_cipher : cipher c' = cipher c;
  tr_disk : ∀ j p, j < n → disk_at c j = Some p → disk_at c' j = Some p;
  tr_pages : ∀ j p, j < n → page_at c j = Some p → page_at c' j = Some p
}.
(** What is left of the cache and the spillway, over the file as it was or resized. *)
Lemma truncated_build n c c' :
  cache_inv c → 0 < n ≤ next_page_id c →
  cipher c' = cipher c → nonces c' = nonces c → 0 < max_pages c' →
  tracks (lru c') (entries c') → dirty_count c' = dirties (entries c') →
  (∀ j, entries c' !! j = if decide (j < n) then entries c !! j else None) →
  (∀ spw, spillway c' = Some spw → sp_inv spw ∧ Spillway.payload_size spw = unit_size (cipher c)) →
  (∀ j, resident c' j = if decide (j < n) then resident c j else false) →
  (∀ j, j < n → spill_at c' j = spill_at c j) →
  io_same (io c) (io c') ∧ next_page_id c' = next_page_id c ∨
  resized n (io c) (io c') ∧ (next_page_id c' = next_page_id c ∨ next_page_id c' = n) →
  truncated n c c'.
Proof.
  intros Hi Hn Hci Hno Hm Ht Hdc He Hsp Hr Hsa Hio. pose proof (ci_next _ Hi). pose proof (ci_count _ Hi).
  assert (Hdk : ∀ j p, j < n → disk_at c j = Some p → disk_at c' j = Some p).
  { intros j p Hj. unfold disk_at. rewrite Hci. destruct Hio as [[Hs _] | [Hs _]].
    - unfold disk_page, PageIo.page_count. rewrite (io_same_unit _ _ j Hs). by destruct Hs as (_ & _ & _ & ->).
    - apply (disk_page_resized _ n); [apply Hi | done | done]. }
  assert (Hnx : n ≤ next_page_id c' ≤ u64_max) by (destruct Hio as [[_ ->] | [_ [-> | ->]]]; lia).
  assert (Hiof : io_inv (io c') ∧ PageIo.stride (io c') = PageIo.stride (io c) ∧ PageIo.page_count (io c') ≤ next_page_id c').
  { destruct Hio as [[Hs Hx] | [Hs _]].
    - rewrite Hx. unfold PageIo.page_count. pose proof Hs as (_ & _ & Hst & Hc). rewrite Hst, Hc.
      split; [by eapply io_same_inv; [| apply Hi] | done].
    - rewrite (rs_count _ _ _ Hs), (rs_stride _ _ _ Hs). split; [apply Hs | lia]. }
  destruct Hiof as (Hi' & Hst' & Hc'). split; [| by destruct Hio as [[_ ->] | [_ [-> | ->]]]; auto | done | done |].
  - split; try done.
    + rewrite Hst', Hci. apply Hi.
    + lia.
    + rewrite Hno. apply Hi.
    + by rewrite Hci.
    + intros id e. rewrite He. case_decide; [| done]. intros Hid. destruct (ci_entries _ Hi _ _ Hid).
      split; [lia | done | done | done |]. intros Hd. rewrite Hr, decide_True by done. destruct (eo_clean0 Hd). auto.
    + intros id. rewrite Hr, He. case_decide; [| done]. intros Hres. rewrite Hsa by done.
      destruct (ci_spilled _ Hi id Hres). split; [lia | done].
  - intros j p Hj. unfold page_at. rewrite He, Hr, !decide_True, Hsa by done. destruct (entries c !! j); [done |].
    destruct (resident c j); auto.
Qed.

Definition counted c : Prop := dirty_count c = dirties (entries c).

Lemma discard_counted id c : counted c → counted (discard id c).
Proof.
  unfold counted, discard, untrack_dirty. intros Hc. destruct (entries c !! id) as [e |] eqn:E; [| done].
  destruct (dirty e) eqn:Hd; cbn; rewrite (dirties_delete _ _ e E), Hd; cbn; [| lia].
  pose proof (dirties_pos _ _ e E Hd). lia.
Qed.

Lemma foldl_counted ids c : counted c → counted (foldl (λ self id, discard id self) c ids).
Proof. revert c. induction ids as [| id ids IH]; intros c Hc; [done |]. cbn. by apply IH, discard_counted. Qed.

Lemma truncate_spec c n :
  cache_inv c → 0 < n ≤ next_page_id c →
  spec (truncated n c) (truncate n) c (λ _ c', next_page_id c' = n ∧ PageIo.page_count (io c') = n).
Proof.
  intros Hi Hn. pose proof (ci_next _ Hi) as Hnx. unfold truncate. apply bind_writes.
  set (c1 := foldl _ c _).
  assert (Hd : dropped (filter (λ id, n ≤ id) (key_order (entries c))) c c1).
  { apply drop_list; [| apply Hi]. intros x id Ht. unfold discard, untrack_dirty.
    destruct (entries x !! id) as [e |] eqn:E; [destruct (dirty e); by apply drop_one |].
    apply drop_one; try done. cbn. by rewrite delete_id. }
  assert (Hdc : counted c1) by apply foldl_counted, Hi.
  destruct Hd as [(Hio & Hsp & Hci & Hnp & Hno) [Hm Hs] Ht He].
  assert (He' : ∀ j, entries c1 !! j = if decide (j < n) then entries c !! j else None).
  { intros j. rewrite He. destruct (entries c !! j) as [e |] eqn:E; [| by repeat case_decide].
    assert (Hin : j ∈ key_order (entries c)).
    { rewrite key_order_perm, list_elem_of_fmap. exists (j, e). split; [done |]. by apply elem_of_map_to_list. }
    destruct (decide (j < n)); [rewrite decide_False | rewrite decide_True]; rewrite ?list_elem_of_filter; (done || lia || auto with lia). }
  apply bind_writes. set (c2 := match spillway c1 with Some _ => _ | None => _ end).
  assert (Hc2 : ∃ sp', c2 = set_spillway sp' c1 ∧
    (∀ spw, sp' = Some spw → sp_inv spw ∧ Spillway.payload_size spw = unit_size (cipher c)) ∧
    (∀ j, (Spillway.slots <$> sp') ≫= (.!! j) = if decide (j < n) then (Spillway.slots <$> spillway c) ≫= (.!! j) else None) ∧
    ∀ j, j < n → spill_page (cipher c) sp' j = spill_at c j).
  { unfold c2, spill_at. rewrite Hsp. destruct (spillway c) as [spw |] eqn:E.
    - exists (Some (Spillway.forget_above n spw)). destruct (ci_spw _ Hi spw E) as [Hsi Hp].
      destruct (forget_above_inv n spw Hsi) as (H1 & H2 & H3). ands; [done | by intros ? [= <-] | exact H2 |].
      intros j Hj. unfold spill_page. by rewrite H3.
    - exists None. ands; [| done | by intros j; case_decide | done]. rewrite <- Hsp. by destruct c1. }
  destruct Hc2 as (sp' & -> & Hsi & Hsl & Hsa). set (c3 := set_spillway sp' c1).
  assert (Hbuild : ∀ io' nx, (io_same (io c) io' ∧ nx = next_page_id c ∨ resized n (io c) io' ∧ (nx = next_page_id c ∨ nx = n)) →
    truncated n c (set_next_page_id nx (set_io io' c3))).
  { intros io' nx Hx. apply truncated_build; try done; cbn; rewrite ?Hm; try apply Hi; try done.
    - intros j. rewrite !resident_slots. cbn. rewrite Hsl. by case_decide.
    - intros j Hj. unfold spill_at. cbn. rewrite Hci. auto. }
  assert (Hset : ∀ io', set_io io' c3 = set_next_page_id (next_page_id c) (set_io io' c3)).
  { intros io'. unfold set_next_page_id. cbn. by rewrite <- Hnp. }
  eapply (spec_bind _ _ _ _ (λ _ c', ∃ io', resized n (io c) io' ∧ c' = set_io io' c3)).
  { apply on_io_spec. cbn [c3 set_spillway io]. rewrite Hio. eapply spec_conseq; [apply set_page_count_spec; [apply Hi | lia] | |].
    - intros io' Hx. rewrite Hset. apply Hbuild. destruct Hx; auto.
    - intros [] io' _ Hx. eauto. }
  intros [] c4 _ (io' & Hx & ->). assert (Hnext : next_page_id (set_io io' c3) = next_page_id c) by exact Hnp.
  apply spec_writes; rewrite Hnext; destruct (Z.ltb_spec n (next_page_id c)).
  - apply Hbuild. auto.
  - rewrite Hset. apply Hbuild. auto.
  - split; [done | apply Hx].
  - split; [rewrite Hnext; lia | apply Hx].
Qed.

(** ** Limits *)

Lemma set_cache_max_bytes_spec c n :
  cache_inv c → spec (λ c', cache_inv c' ∧ (∀ j, page_at c' j = page_at c j) ∧ (∀ j, disk_at c' j = disk_at c j) ∧
      next_page_id c' = next_page_id c ∧ (tidy c → tidy c')) (set_cache_max_bytes n) c
    (λ _ c', max_pages c' = Z.max (n / PAGE_SIZE) 1 ∧ (entry_count c' ≤ max_pages c' ∨ ∀ id e, entries c' !! id = Some e → dirty e = true)).
Proof.
  intros Hi. unfold set_cache_max_bytes. apply bind_writes. set (c1 := set_max_pages _ c).
  assert (Hi1 : cache_inv c1).
  { eapply inv_repack; [exact Hi | done | cbn; lia | apply Hi | apply Hi | apply Hi |]. intros id Hr. by apply (ci_spilled _ Hi). }
  eapply cache_fault_mono; [eapply spec_conseq; [by apply evict_clean_spec | |] | done | done].
  - intros c' [[] Hev]. ands; try done. exact (evicted_tidy c1 c' Hev).
  - intros [] c' [[_ _ _ [Hm _] _ _] _] HQ. split; [by rewrite Hm | done].
Qed.

Lemma set_spillway_limit_spec c n :
  cache_inv c → let c' := set_spillway_limit n c in
  cache_inv c' ∧ (∀ j, page_at c' j = page_at c j) ∧ (∀ j, disk_at c' j = disk_at c j) ∧ spillway_max_bytes c' = n.
Proof.
  intros Hi. cbv zeta. unfold set_spillway_limit. cbn [set_spillway_max_bytes spillway].
  destruct (spillway c) as [spw |] eqn:E.
  - set (spw' := Spillway.set_max_bytes n spw). destruct (ci_spw _ Hi spw E) as [[] Hp].
    assert (Hat : ∀ j, resident (set_spillway (Some spw') (set_spillway_max_bytes n c)) j = resident c j ∧
      spill_at (set_spillway (Some spw') (set_spillway_max_bytes n c)) j = spill_at c j).
    { intros j. unfold resident, spill_at. cbn. by rewrite E. }
    ands; try done.
    + split; try apply Hi.
      * cbn. intros ? [= <-]. split; [by split | done].
      * intros id e Hid. destruct (ci_entries _ Hi _ _ Hid). split; try done. destruct (Hat id) as [-> _]. done.
      * intros id. destruct (Hat id) as [-> ->]. apply (ci_spilled _ Hi).
    + intros j. unfold page_at. by destruct (Hat j) as [-> ->].
  - ands; try done. eapply inv_repack; [exact Hi | done | apply Hi | apply Hi | apply Hi | apply Hi |]. intros id Hr. by apply (ci_spilled _ Hi).
Qed.
End reset.
End CacheReset.
