(* ===== verification/CacheProps.v ===== *)
(** * Properties of the page cache *)

From S2P Require Export CacheStore CacheReset MemStore.

Module CacheProps.
Import PageCache PageIoFacts SpillwayFacts CacheInv CacheEvict CacheOps CacheFlush CacheReset.

(** Errors of the system below or of a limit: nothing is wrong with a page. *)
Definition storage_error (e : ChiselError) : bool :=
  match e with
  | IoError _ | FileNotFound | ReadOnlyMode | CacheFull _ | SpillwayFull _ => true
  | _ => false
  end.

(** What a call may end with besides success. *)
Definition storage_end {A} (r : outcome A) : Prop :=
  match r with Ok _ => True | Err e => storage_error e = true | Panic p => p = PanicOverflow end.

Lemma fault_end {S A} over F (m : M S A) s (Q : A → S → Prop) :
  spec (H := cache_fault False over) F m s Q → storage_end (m s).1.
Proof. intros [_ Hp]. unfold post in Hp. destruct (m s).1 as [| [] |]; cbn in *; tauto. Qed.

Section props.
Context `{HX : Xxh3} `{HO : HashOrder} `{HC : Primitives}.
Implicit Types (c : PageCache).

(** ** The abstract cache: the pages as the clients see them, and those on disk *)

Record pages := { mem : Z → option (list Z); disk : Z → option (list Z); next : Z }.

Definition pages_of c : pages := {| mem := page_at c; disk := disk_at c; next := next_page_id c |}.

Inductive cache_op :=
  | Get (id : Z)
  | Write (id : Z) (f : list Z → list Z)
  | WriteDeferred (id : Z) (f : list Z → list Z)
  | Allocate
  | Reissue (id : Z)
  | Flush
  | DiscardAll
  | SetMax (n : Z).

Definition run_op (o : cache_op) : M PageCache (list Z) :=
  match o with
  | Get id => get id
  | Write id f => modify id f
  | WriteDeferred id f => modify_deferred id f
  | Allocate => let* id := new_page in ret [id]
  | Reissue id => reissue_page id ;;; ret []
  | Flush => flush ;;; ret []
  | DiscardAll => writes discard_all_dirty ;;; ret []
  | SetMax n => set_cache_max_bytes n ;;; ret []
  end.

Fixpoint run_ops (os : list cache_op) : M PageCache (list (list Z)) :=
  match os with
  | [] => ret []
  | o :: os => let* r := run_op o in let* rs := run_ops os in ret (r :: rs)
  end.

(** What a client may ask: page ids are not negative, writes give pages and leave a
    data page stamped (unless the stamp is deferred), an id given out again was given
    out before. *)
Definition op_ok (a : pages) (o : cache_op) : Prop :=
  match o with
  | Get id => 0 ≤ id
  | Write id f => 0 ≤ id ∧ (∀ p, wf_page p → wf_page (f p)) ∧ stamps f
  | WriteDeferred id f => 0 ≤ id ∧ (∀ p, wf_page p → wf_page (f p))
  | Reissue id => 0 ≤ id < next a
  | _ => True
  end.

Definition same_disk (a a' : pages) : Prop := ∀ j, disk a' j = disk a j.

(** Page [id] of [a'] is [v], the others are those of [a]. *)
Definition put_page (id : Z) (v : list Z) (a a' : pages) : Prop :=
  ∀ j, mem a' j = if decide (j = id) then Some v else mem a j.

(** The specification of a successful call. *)
Definition page_step (a : pages) (o : cache_op) (r : list Z) (a' : pages) : Prop :=
  match o with
  | Get id => (∃ v, mem a id = Some v ∧ body r = body v) ∧ (∀ j, mem a' j = mem a j) ∧ same_disk a a' ∧ next a' = next a
  | Write id f => ∃ v v', mem a id = Some v ∧ body r = body v ∧ body v' = body (f r) ∧ (verify_checksum (f r) = true → v' = f r) ∧
      put_page id v' a a' ∧ same_disk a a' ∧ next a' = next a
  | WriteDeferred id f => (∃ v, mem a id = Some v ∧ body r = body v) ∧ put_page id (stamp_checksum (f r)) a a' ∧
      same_disk a a' ∧ next a' = next a
  | Allocate => r = [next a] ∧ mem a (next a) = None ∧ put_page (next a) zero_page a a' ∧ same_disk a a' ∧ next a' = next a + 1
  | Reissue id => put_page id zero_page a a' ∧ same_disk a a' ∧ next a' = next a
  | Flush => (∀ j p, mem a j = Some p → mem a' j = Some p) ∧ (∀ j, disk a' j = mem a' j) ∧ next a' = next a
  | DiscardAll => (∀ j, mem a' j = disk a j) ∧ same_disk a a' ∧ next a' = next a
  | SetMax n => (∀ j, mem a' j = mem a j) ∧ same_disk a a' ∧ next a' = next a
  end.

(** A history with its results. *)
Inductive page_steps : pages → list cache_op → list (list Z) → pages → Prop :=
  | steps_nil a : page_steps a [] [] a
  | steps_cons a o os r rs a1 a' : page_step a o r a1 → page_steps a1 os rs a' → page_steps a (o :: os) (r :: rs) a'.

(** The conditions on the calls of a history, each where it is made. *)
Fixpoint ops_ok (os : list cache_op) c : Prop :=
  match os with
  | [] => True
  | o :: os => op_ok (pages_of c) o ∧ ops_ok os (run_op o c).2
  end.

Lemma put_page_other id v c c' :
  page_at c' id = Some v → (∀ j, j ≠ id → page_at c' j = page_at c j) → put_page id v (pages_of c) (pages_of c').
Proof. intros Hv Ho j. cbn. case_decide; [by subst | auto]. Qed.

(** One call. *)
Lemma run_op_step o c r c' :
  cache_inv c → tidy c → op_ok (pages_of c) o → run_op o c = (Ok r, c') →
  cache_inv c' ∧ tidy c' ∧ page_step (pages_of c) o r (pages_of c').
Proof.
  intros Hi Ht Hok Hrun. destruct o as [id | id f | id f | | id | | | n]; cbn [run_op op_ok page_step] in *.
  - destruct (spec_ok _ _ _ _ _ _ (get_spec True c id Hi Hok (λ _, I)) Hrun) as [Hs ((Hw & v & Hv & Hb) & Ht')].
    ands; [apply Hs | auto | by eauto | apply Hs | intros j; apply Hs | apply Hs].
  - destruct Hok as (Hid & Hf & Hst).
    destruct (spec_ok _ _ _ _ _ _ (modify_spec True c id f Hi Hid (λ _, I) Hf Hst) Hrun)
      as [Hc (Hw & v & v' & Hv & Hb & Hv' & Hb' & Hver & Ht')].
    split; [apply Hc |]. split; [auto |]. exists v, v'. ands; try done; [| intros j; apply Hc | apply Hc].
    apply put_page_other; [done | apply Hc].
  - destruct Hok as (Hid & Hf).
    destruct (spec_ok _ _ _ _ _ _ (modify_deferred_spec True c id f Hi Hid (λ _, I) Hf) Hrun)
      as [Hc (Hw & v & Hv & Hb & Hv' & Ht')].
    ands; [apply Hc | auto | by eauto | | intros j; apply Hc | apply Hc]. apply put_page_other; [done | apply Hc].
  - unfold bind in Hrun. destruct (new_page c) as [[id | |] c1] eqn:E; try done. injection Hrun as <- <-.
    destruct (spec_ok _ _ _ _ _ _ (new_page_spec c Hi) E) as [Hr (-> & Hn & Hid & Hp & _ & Ht')].
    ands; [apply Hr | auto | done | by apply page_at_beyond | | intros j; apply Hr | done]. apply put_page_other; [done | apply Hr].
  - unfold bind in Hrun. destruct (reissue_page id c) as [[[] | |] c1] eqn:E; try done. injection Hrun as <- <-.
    destruct (spec_ok _ _ _ _ _ _ (reissue_spec c id Hi Hok) E) as [[Hr Hp] (Hn & _ & Ht')].
    ands; [apply Hr | auto | | intros j; apply Hr | done]. apply put_page_other; [done | apply Hr].
  - unfold bind in Hrun. destruct (flush c) as [[[] | |] c1] eqn:E; try done. injection Hrun as <- <-.
    destruct (spec_ok _ _ _ _ _ _ (flush_spec c Hi Ht) E) as [Hf [Hk Hq]].
    ands; [apply Hf | apply Hf | exact Hk | | apply Hf]. intros j. symmetry. by apply quiescent_disk; [apply Hf |].
  - injection Hrun as <- <-. destruct (discard_spec c Hi) as (Hi' & Hq & Hd & Hn & _).
    ands; [done | intros j _; apply Hq | | exact Hd | done]. intros j. cbn. by rewrite quiescent_disk.
  - unfold bind in Hrun. destruct (set_cache_max_bytes n c) as [[[] | |] c1] eqn:E; try done. injection Hrun as <- <-.
    destruct (spec_ok _ _ _ _ _ _ (set_cache_max_bytes_spec c n Hi) E) as [(Hi' & Hp & Hd & Hn & Ht') _]. ands; auto.
Qed.
Lemma run_ops_steps os c rs c' :
  cache_inv c → tidy c → ops_ok os c → run_ops os c = (Ok rs, c') →
  cache_inv c' ∧ tidy c' ∧ page_steps (pages_of c) os rs (pages_of c').
Proof.
  revert c rs. induction os as [| o os IH]; intros c rs Hi Ht Hok Hrun; cbn [run_ops ops_ok] in *.
  { injection Hrun as <- <-. ands; [done | done | constructor]. }
  destruct Hok as [Ho Hok]. unfold bind in Hrun at 1. destruct (run_op o c) as [[r | |] c1] eqn:E; try done.
  destruct (run_op_step o c r c1 Hi Ht Ho E) as (Hi1 & Ht1 & Hs1).
  unfold bind in Hrun. destruct (run_ops os c1) as [[rs' | |] c2] eqn:E2; try done. injection Hrun as <- <-.
  destruct (IH c1 rs' Hi1 Ht1 Hok E2) as (Hi2 & Ht2 & Hs2). ands; [done | done |]. by eapply steps_cons.
Qed.

(** A cache opened over the page file of [c], with its key. *)
Definition reopen c (max_bytes spill_bytes : Z) (drain : DrainInsertion) (location : SpillwayLocation) : PageCache :=
  set_cipher (cipher c) (PageCache.new (io c) max_bytes spill_bytes drain location (nonces c)).

Lemma reopen_page c m sb d l id : page_at (reopen c m sb d l) id = disk_at c id.
Proof. unfold page_at, reopen. cbn. by rewrite lookup_empty. Qed.

(** A newly opened cache. *)
Lemma reopen_inv c m sb d l :
  io_inv (io c) → PageIo.stride (io c) = unit_size (cipher c) → 0 < PageIo.page_count (io c) ≤ u64_max →
  (∀ n, array NONCE_LEN (nonces c n)) → cache_inv (reopen c m sb d l) ∧ tidy (reopen c m sb d l).
Proof.
  intros Hio Hst Hc Hno. split; [| intros j _; done]. split; cbn; try done.
  - lia.
  - exists []. split; [apply LruProps.new_rep |]. intros x. rewrite lookup_empty, elem_of_nil. by split; [| intros []].
Qed.

(** ** The claims *)

(** C15 Over any history of successful reads, writes (with the stamp made or deferred),
    allocations, reissues, flushes, discards and changes of the limit, the cache
    behaves as two maps from page ids to pages, what the clients see and what the file
    has: a read returns the page, a write changes that page, an allocation returns a
    page id with no page and gives it a zeroed page, a flush makes the file equal to
    what is seen and loses nothing, a discard goes back to the file.  Where the pages
    are kept (memory, spillway, file, in the clear or sealed) cannot be told. *)
Theorem cache_refines_pages os c rs c' :
  cache_inv c → tidy c → ops_ok os c → run_ops os c = (Ok rs, c') →
  cache_inv c' ∧ tidy c' ∧ page_steps (pages_of c) os rs (pages_of c').
Proof. apply run_ops_steps. Qed.

(** C18 A read of a page that is there with a valid checksum: on every outcome no
    logical page and no page of the file changes; the buffer has the body of the page;
    the only errors are those of the operating system and of the limits, never a
    report of corruption, and the only panic is an arithmetic overflow. *)
Theorem get_outcomes c id v :
  cache_inv c → page_at c id = Some v → verify_checksum v = true →
  let '(r, c') := get id c in
  cache_inv c' ∧ (∀ j, page_at c' j = page_at c j ∧ disk_at c' j = disk_at c j) ∧ storage_end r ∧
  ∀ p, r = Ok p → wf_page p ∧ body p = body v.
Proof.
  intros Hi Hp Hv. assert (Hid : 0 ≤ id) by by eapply CacheStore.page_at_range.
  assert (Hbad : (∀ p, page_at c id = Some p → verify_checksum p = false) → False).
  { intros Hb. by rewrite (Hb v Hp) in Hv. }
  pose proof (get_spec False c id Hi Hid Hbad) as Hs. pose proof (fault_end _ _ _ _ _ Hs) as He.
  destruct (get id c) as [r c'] eqn:E. pose proof Hs as [Hst Hpost]. rewrite E in *. cbn in *.
  ands; [apply Hst | intros j; split; apply Hst | done |].
  intros p ->. cbn in Hpost. destruct Hpost as ((Hw & w & Hw' & Hb) & _). split; [done | congruence].
Qed.

(** C19 Eviction: whatever the outcome, no logical page and no page of the file
    changes; it never panics and reports only a limit or an error of the operating
    system; the loops end, and on success the cache holds at most [max_pages] pages. *)
Theorem evict_within_cap c :
  cache_inv c →
  let '(r, c') := maybe_evict c in
  cache_inv c' ∧ (∀ j, page_at c' j = page_at c j ∧ disk_at c' j = disk_at c j) ∧
  match r with
  | Ok _ => entry_count c' ≤ max_pages c'
  | Err e => storage_error e = true
  | Panic _ => False
  end.
Proof.
  intros Hi. pose proof (maybe_evict_spec c Hi) as Hs. pose proof (fault_end _ _ _ _ _ Hs) as He.
  destruct (maybe_evict c) as [r c'] eqn:E. pose proof Hs as [[Hst _] Hpost]. rewrite E in *. cbn in *.
  ands; [apply Hst | intros j; split; apply Hst |]. destruct r; [apply Hpost | done | apply Hpost].
Qed.

(** C17 A flush.  On every outcome the invariant holds and no unit of a page that was
    not dirty is changed, so the pages of the last commit survive a flush that fails
    half way.  On success every page is what it was, a cache opened anew on the page
    file reads the same pages, and nothing is dirty.  The errors are those of the
    operating system, never a report of corruption. *)
Theorem flush_durable c :
  cache_inv c → tidy c →
  let '(r, c') := flush c in
  cache_inv c' ∧ (∀ j p, is_dirty c j = false → disk_at c j = Some p → disk_at c' j = Some p) ∧ storage_end r ∧
  (r = Ok tt →
    (∀ j p, page_at c j = Some p → page_at c' j = Some p ∧
      ∀ max_bytes spill_bytes drain location, page_at (reopen c' max_bytes spill_bytes drain location) j = Some p) ∧
    ∀ j, is_dirty c' j = false).
Proof.
  intros Hi Ht. pose proof (flush_spec c Hi Ht) as Hs. pose proof (fault_end _ _ _ _ _ Hs) as He.
  destruct (flush c) as [r c'] eqn:E. pose proof Hs as [Hf Hpost]. rewrite E in *. cbn in *.
  ands; [apply Hf | apply Hf | done |]. intros ->. cbn in Hpost. destruct Hpost as [Hk Hq]. split.
  - intros j p Hp. split; [auto |]. intros m sb d l. rewrite reopen_page, <- (quiescent_disk c' j (fw_inv _ _ Hf) Hq). auto.
  - intros j. apply is_dirty_split. split; [| apply Hq]. unfold dirty_at.
    destruct (entries c' !! j) as [e |] eqn:Ej; [by eapply (proj1 Hq) | done].
Qed.

(** A rollback: after [discard_all_dirty] every page is what the page file has,
    the file is untouched, nothing is dirty, and a half-written slot of the spillway
    (left by a failed spill) is gone. *)
Theorem discard_reverts c :
  cache_inv c →
  let c' := discard_all_dirty c in
  cache_inv c' ∧ tidy c' ∧ (∀ j, page_at c' j = disk_at c j ∧ disk_at c' j = disk_at c j ∧ is_dirty c' j = false).
Proof.
  intros Hi. cbv zeta. destruct (discard_spec c Hi) as (Hi' & Hq & Hd & _). ands; [done | intros j _; apply Hq |].
  intros j. rewrite (quiescent_disk _ j Hi' Hq). ands; [apply Hd | apply Hd |]. apply is_dirty_split. split; [| apply Hq].
  unfold dirty_at. destruct (entries (discard_all_dirty c) !! j) as [e |] eqn:Ej; [by eapply (proj1 Hq) | done].
Qed.

(** Truncation to [n] pages: on every outcome the pages below [n] are kept, in the
    cache and in the file; on success the file has [n] pages and ids from [n] on are
    given out again. *)
Theorem truncate_keeps_below c n :
  cache_inv c → 0 < n ≤ next_page_id c →
  let '(r, c') := truncate n c in
  cache_inv c' ∧ storage_end r ∧
  (∀ j p, j < n → (page_at c j = Some p → page_at c' j = Some p) ∧ (disk_at c j = Some p → disk_at c' j = Some p)) ∧
  (r = Ok tt → next_page_id c' = n ∧ file_page_count c' = n ∧ ∀ j, n ≤ j → page_at c' j = None).
Proof.
  intros Hi Hn. pose proof (truncate_spec c n Hi Hn) as Hs. pose proof (fault_end _ _ _ _ _ Hs) as He.
  destruct (truncate n c) as [r c'] eqn:E. pose proof Hs as [Ht Hpost]. rewrite E in *. cbn in *.
  ands; [apply Ht | done | intros j p Hj; split; by apply Ht |]. intros ->. cbn in Hpost. destruct Hpost as [Hx Hc].
  ands; [done | done |]. intros j Hj. apply (page_at_beyond c' j (tr_inv _ _ _ Ht)). lia.
Qed.
End props.

(** ** A cache to run *)

Import CryptoProps.

#[export] Instance list_order : HashOrder.
Proof. refine {| key_order A m := (map_to_list m).*1 |}. done. Defined.

(** One zeroed page in a file, one page in memory. *)
Definition small_cache : PageCache :=
  PageCache.new (PageIo.open (stamp_checksum zero_page) [] false) PAGE_SIZE (10 * PAGE_SIZE) LruTail InMemory (λ _, zeros NONCE_LEN).

Lemma small_inv : cache_inv small_cache ∧ tidy small_cache.
Proof.
  apply (reopen_inv small_cache PAGE_SIZE (10 * PAGE_SIZE) LruTail InMemory).
  - split; [done | apply wf_stamp, wf_zero_page | split; vm_compute; done].
  - done.
  - split; vm_compute; done.
  - intros n. split; [done | apply bytes_ok_zeros].
Qed.

Definition some_ops : list cache_op := [Allocate; Allocate; WriteDeferred 1 (setb 20 7); Get 2; Flush; Get 1].

Lemma some_ops_ok : ops_ok some_ops small_cache.
Proof.
  cbn [ops_ok some_ops op_ok]. ands; try exact I; try lia. intros p Hp. by apply wf_setb.
Qed.

Lemma cache_refines_pages_witness :
  is_ok (run_ops some_ops small_cache).1 = true ∧
  ∃ rs, page_steps (pages_of small_cache) some_ops rs (pages_of (run_ops some_ops small_cache).2).
Proof.
  assert (Hok : is_ok (run_ops some_ops small_cache).1 = true) by (vm_compute; reflexivity). split; [exact Hok |].
  destruct (run_ops some_ops small_cache) as [r c'] eqn:E. destruct (is_ok_run _ r c' E) as [rs ->]; [rewrite E; exact Hok |].
  exists rs. apply (cache_refines_pages some_ops small_cache rs c'); [apply small_inv | apply small_inv | apply some_ops_ok | exact E].
Defined.

Lemma get_outcomes_witness : storage_end (get 0 small_cache).1.
Proof.
  assert (Hp : page_at small_cache 0 = Some (stamp_checksum zero_page)) by (vm_compute; reflexivity).
  pose proof (get_outcomes small_cache 0 _ (proj1 small_inv) Hp) as H.
  destruct (get 0 small_cache) as [r c']. apply H. apply stamp_stores_checksum, wf_zero_page.
Defined.

Lemma evict_within_cap_witness : cache_inv (maybe_evict small_cache).2.
Proof.
  pose proof (evict_within_cap small_cache (proj1 small_inv)) as H. destruct (maybe_evict small_cache) as [r c']. apply H.
Defined.

Lemma flush_durable_witness : cache_inv (flush small_cache).2.
Proof.
  pose proof (flush_durable small_cache (proj1 small_inv) (proj2 small_inv)) as H.
  destruct (flush small_cache) as [r c']. apply H.
Defined.

Lemma discard_reverts_witness : cache_inv (discard_all_dirty small_cache).
Proof. apply (discard_reverts small_cache (proj1 small_inv)). Defined.

Lemma truncate_keeps_below_witness : cache_inv (truncate 1 small_cache).2.
Proof.
  assert (Hn : 0 < 1 ≤ next_page_id small_cache) by (vm_compute; by split).
  pose proof (truncate_keeps_below small_cache 1 (proj1 small_inv) Hn) as H.
  destruct (truncate 1 small_cache) as [r c']. apply H.
Defined.

End CacheProps.
