(* ===== verification/Radix.v ===== *)
(** * Copy-on-write radix trees over a page store

    The handle table, the membership index and the freemap are radix trees of
    pages with the same interior layout: 1021 little-endian child pointers from
    byte 16, where 0 is an absent subtree.  This file holds what their proofs
    share: which pages a root reaches, what it maps a key to, and the lemmas that
    a copied path preserves the old tree and changes one key of the new one. *)

From S2P Require Export Store.

Definition PTR_SIZE : Z := 8.
Definition PTRS_PER_INTERIOR : Z := (CHECKSUM_OFFSET - DATA_PAGE_HEADER_SIZE) / PTR_SIZE.

Lemma ptrs_1021 : PTRS_PER_INTERIOR = 1021.
Proof. done. Qed.

(** The child pointer at [idx] of an interior page. *)
Definition read_child (buf : list Z) (idx : Z) : Z :=
  get_u64 (DATA_PAGE_HEADER_SIZE + idx * PTR_SIZE) buf.

Definition write_child (idx value : Z) (buf : list Z) : list Z :=
  put_u64 (DATA_PAGE_HEADER_SIZE + idx * PTR_SIZE) value buf.

(** The non-zero children of an interior page, with their indices:
    [(0..N).map(|i| (i, read(buf, i))).filter(|(_, c)| *c != 0).collect()]. *)
Definition children (buf : list Z) : list (Z * Z) :=
  filter (λ ic, ic.2 ≠ 0) (map (λ i, (i, read_child buf i)) (seqZ 0 PTRS_PER_INTERIOR)).

(** [buf[offset..offset + 8]] with [offset] computed from an unchecked index. *)
Definition slice_guard {St} (child_idx : Z) : M St unit :=
  assert_that PanicSlice
    (DATA_PAGE_HEADER_SIZE + child_idx * PTR_SIZE + PTR_SIZE <=? PAGE_SIZE).

(** The page an [init] of the tree modules writes: zeros under a header. *)
Lemma read_child_zeros n i : read_child (zeros n) i = 0.
Proof. apply get_le_zeros. Qed.

Lemma read_child_write_same i v p :
  wf_page p → 0 ≤ i < PTRS_PER_INTERIOR → is_u64 v → read_child (write_child i v p) i = v.
Proof.
  rewrite ptrs_1021. intros. unfold read_child, write_child, PTR_SIZE.
  apply pget_same; [done | plia | plia |]. plia.
Qed.

Lemma read_child_write_other i j v p :
  wf_page p → 0 ≤ i < PTRS_PER_INTERIOR → 0 ≤ j < PTRS_PER_INTERIOR → i ≠ j →
  read_child (write_child i v p) j = read_child p j.
Proof.
  rewrite ptrs_1021. intros. unfold read_child, write_child, PTR_SIZE.
  apply pget_other; [done | plia | plia | plia |]. lia.
Qed.

Lemma write_child_wf i v p : wf_page p → 0 ≤ i < PTRS_PER_INTERIOR → wf_page (write_child i v p).
Proof. rewrite ptrs_1021. intros. apply wf_put_le; unfold PTR_SIZE; [done | plia | plia]. Qed.

Lemma getb_write_child i j v p :
  wf_page p → 0 ≤ i < PTRS_PER_INTERIOR → 0 ≤ j < DATA_PAGE_HEADER_SIZE →
  getb j (write_child i v p) = getb j p.
Proof.
  rewrite ptrs_1021. intros. unfold write_child, PTR_SIZE. apply pgetb_put; [done | plia.. |]. plia.
Qed.

Lemma read_child_body i p q :
  body p = body q → 0 ≤ i < PTRS_PER_INTERIOR → read_child p i = read_child q i.
Proof. rewrite ptrs_1021. intros. apply body_get_le; unfold PTR_SIZE; [done | plia | plia]. Qed.

Lemma read_child_stamp `{Xxh3} i p :
  wf_page p → 0 ≤ i < PTRS_PER_INTERIOR → read_child (stamp_checksum p) i = read_child p i.
Proof. intros. apply read_child_body; [by apply body_stamp | done]. Qed.

Lemma getb_stamp `{Xxh3} i p :
  wf_page p → 0 ≤ i < CHECKSUM_OFFSET → getb i (stamp_checksum p) = getb i p.
Proof. intros. apply body_getb; [by apply body_stamp | done]. Qed.

Lemma read_child_u64 i p : wf_page p → is_u64 (read_child p i).
Proof. intros [_ Hb]. by apply get_le_u64. Qed.

Lemma children_body p q : body p = body q → children p = children q.
Proof.
  intros Hb. unfold children. f_equal. apply map_ext_in.
  intros i Hi%list_elem_of_In%elem_of_seqZ. by rewrite (read_child_body i p q) by (done || lia).
Qed.

Lemma child_in v i c :
  (i, c) ∈ children v ↔ 0 ≤ i < PTRS_PER_INTERIOR ∧ c = read_child v i ∧ c ≠ 0.
Proof.
  unfold children. rewrite list_elem_of_filter, list_elem_of_fmap. cbn [snd]. split.
  - intros [Hc (j & [= -> ->] & Hj%elem_of_seqZ)]. ands; [lia | lia | done | done].
  - intros (Hi & -> & Hc). split; [done |]. exists i. split; [done |]. apply elem_of_seqZ. lia.
Qed.

#[export] Hint Resolve write_child_wf : chisel.

(** ** Spans *)

(** The saturating loops [capacity] and [span_at_level] of the three modules. *)
Definition sat_pow (leaf : Z) (n : nat) : Z :=
  Nat.iter n (λ c, sat_mul c PTRS_PER_INTERIOR) leaf.

(** The number of keys under a node of level [n], without saturation. *)
Definition keys (leaf : Z) (n : nat) : Z := leaf * 1021 ^ Z.of_nat n.

Lemma keys_S leaf n : keys leaf (S n) = keys leaf n * 1021.
Proof. unfold keys. rewrite Nat2Z.inj_succ, Z.pow_succ_r by lia. lia. Qed.

Lemma keys_pos leaf n : 0 < leaf → 0 < keys leaf n.
Proof. intros. unfold keys. apply Z.mul_pos_pos; [done |]. apply Z.pow_pos_nonneg; lia. Qed.

Lemma sat_pow_keys leaf n :
  0 < leaf ≤ u64_max → sat_pow leaf n = Z.min (keys leaf n) u64_max.
Proof.
  intros Hl. induction n as [| n IH]; [unfold keys; simpl; lia |].
  change (sat_pow leaf (S n)) with (sat_mul (sat_pow leaf n) PTRS_PER_INTERIOR).
  rewrite IH, keys_S. unfold sat_mul. rewrite ptrs_1021.
  pose proof (keys_pos leaf n). unfold u64_max in *. lia.
Qed.

(** ** Trees *)

(** What is asked of the checksum of a tree's pages: that it is stored, unless said
    otherwise. *)
Class Ver := ver : list Z → Prop.

#[export] Instance stamped_ver `{Xxh3} : Ver := λ v, verify_checksum v = true.

Section radix.
Context {St : Type} `{HX : Xxh3} `{HF : Fault} `{HP : !PageStore St} `{HS : !StoreOk St}.
Context `{HV : Ver}.
Context {V : Type} (V0 : V) (leaf : Z) (is_leaf is_int : list Z → Prop)
  (leaf_val : list Z → Z → V).
Hypothesis leaf_pos : 0 < leaf.
Implicit Types (s : St) (l : nat).

(** Every page under [root] is live, stamped and of the type its level asks. *)
Fixpoint tree s l (root : Z) : Prop :=
  match l with
  | O => ∃ v, holds s root v ∧ is_leaf v ∧ ver v
  | S l => ∃ v, holds s root v ∧ is_int v ∧ ver v ∧
      ∀ i, 0 ≤ i < PTRS_PER_INTERIOR → read_child v i ≠ 0 → tree s l (read_child v i)
  end.

(** The pages under [root]. *)
Fixpoint reach s l (root x : Z) : Prop :=
  match l with
  | O => x = root
  | S l => x = root ∨ ∃ v i, holds s root v ∧ 0 ≤ i < PTRS_PER_INTERIOR ∧
      read_child v i ≠ 0 ∧ reach s l (read_child v i) x
  end.

(** No page is reached twice. *)
Fixpoint uniq s l (root : Z) : Prop :=
  match l with
  | O => True
  | S l => ∀ v, holds s root v → ∀ i, 0 ≤ i < PTRS_PER_INTERIOR → read_child v i ≠ 0 →
      uniq s l (read_child v i) ∧ ¬ reach s l (read_child v i) root ∧
      ∀ j x, 0 ≤ j < PTRS_PER_INTERIOR → read_child v j ≠ 0 → i ≠ j →
        reach s l (read_child v i) x → ¬ reach s l (read_child v j) x
  end.

(** What [root] maps the key to. *)
Fixpoint den s l (root key : Z) : V :=
  match view s !! root with
  | None => V0
  | Some v =>
      match l with
      | O => leaf_val v key
      | S l =>
          let c := read_child v (key / keys leaf l) in
          if c =? 0 then V0 else den s l c (key mod keys leaf l)
      end
  end.

(** The keys of child [i]. *)
Lemma den_block s l root v i k :
  view s !! root = Some v → 0 ≤ i → 0 ≤ k < keys leaf l →
  den s (S l) root (i * keys leaf l + k) =
    if read_child v i =? 0 then V0 else den s l (read_child v i) k.
Proof.
  intros Hv Hi Hk. pose proof (keys_pos leaf l leaf_pos). cbn [den]. rewrite Hv.
  rewrite Z.div_add_l, Z.div_small, Z.add_0_r by lia.
  by rewrite Z.add_comm, Z.mod_add, Z.mod_small by lia.
Qed.

Definition wf_tree s l root : Prop := tree s l root ∧ uniq s l root.

(** The map of a root, keys beyond its capacity included. *)
Definition lookup_den s l root key : V :=
  if keys leaf l <=? key then V0 else den s l root key.

(** The leftmost path is complete: every interior page on it has child 0.  The
    modules that recover a tree's depth on open follow this path. *)
Fixpoint spine s l (root : Z) : Prop :=
  match l with
  | O => True
  | S l => ∃ v, holds s root v ∧ read_child v 0 ≠ 0 ∧ spine s l (read_child v 0)
  end.

(** ** Agreement on the reachable pages *)

Lemma tree_root_holds s l root : tree s l root → ∃ v, holds s root v ∧ ver v.
Proof. destruct l; intros (v & ? & ? & ?); exists v; tauto. Qed.

Lemma reach_root s l root : reach s l root root.
Proof. destruct l; simpl; auto. Qed.

Lemma reach_live s l root x : tree s l root → reach s l root x → live s x.
Proof.
  revert root. induction l as [| l IH]; intros root Ht Hr.
  - simpl in Hr. subst. destruct Ht as (v & Hh & _). by eapply holds_live.
  - destruct Hr as [-> | (v & i & Hh & Hi & Hc & Hr)].
    + destruct Ht as (v & Hh & _). by eapply holds_live.
    + destruct Ht as (v' & Hh' & _ & _ & Ht). rewrite (holds_fun _ _ _ _ Hh' Hh) in Ht.
      by eapply IH; [apply Ht |].
Qed.

Definition agree s s' (P : Z → Prop) : Prop := ∀ x v, P x → holds s x v → holds s' x v.

Lemma agree_sub s s' (P P' : Z → Prop) : agree s s' P → (∀ x, P' x → P x) → agree s s' P'.
Proof. intros Ha Hs x v Hx. apply Ha. auto. Qed.

Lemma ext_agree s s' P : ext s s' → agree s s' P.
Proof. intros He x v _. by apply holds_ext. Qed.

Lemma den_agree s s' l root key :
  tree s l root → agree s s' (reach s l root) →
  0 ≤ key < keys leaf l → den s' l root key = den s l root key.
Proof.
  revert root key. induction l as [| l IH]; intros root key Ht Ha Hk.
  - destruct Ht as (v & Hh & _). destruct (Ha root v) as [_ Hv']; [apply reach_root | done |].
    destruct Hh as [_ Hv]. simpl. by rewrite Hv, Hv'.
  - destruct Ht as (v & Hh & _ & _ & Ht).
    destruct (Ha root v) as [_ Hv']; [apply reach_root | done |].
    pose proof (keys_pos leaf l leaf_pos). rewrite keys_S in Hk.
    assert (0 ≤ key / keys leaf l < PTRS_PER_INTERIOR).
    { rewrite ptrs_1021. split; [apply Z.div_pos; lia | apply Z.div_lt_upper_bound; lia]. }
    pose proof Hh as [_ Hv]. simpl. rewrite Hv, Hv'.
    case_tests; [done |]. apply IH; [by apply Ht | | by apply Z.mod_pos_bound].
    eapply agree_sub; [done |]. intros x Hx. right. eauto 10.
Qed.

Lemma reach_agree s s' l root x :
  tree s l root → agree s s' (reach s l root) → reach s' l root x ↔ reach s l root x.
Proof.
  revert root x. induction l as [| l IH]; intros root x Ht Ha; [done |].
  destruct Ht as (v & Hh & _ & _ & Ht).
  assert (Hh' : holds s' root v) by (apply Ha; [apply reach_root | done]).
  simpl. split; (intros [-> | (v1 & i & H1 & Hi & Hc & Hr)]; [by left | right]).
  - rewrite (holds_fun _ _ _ _ H1 Hh') in *. exists v, i. ands; [done | lia | lia | done |].
    apply (IH (read_child v i) x); [by apply Ht | | done]. eapply agree_sub; [done |].
    intros y Hy. right. eauto 10.
  - rewrite (holds_fun _ _ _ _ H1 Hh) in *. exists v, i. ands; [done | lia | lia | done |].
    apply IH; [by apply Ht | | done]. eapply agree_sub; [done |].
    intros y Hy. right. eauto 10.
Qed.

Lemma wf_agree s s' l root :
  wf_tree s l root → agree s s' (reach s l root) → wf_tree s' l root.
Proof.
  revert root. induction l as [| l IH]; intros root [Ht Hu] Ha.
  - split; [| done]. destruct Ht as (v & Hh & Hl). exists v. split; [| done].
    apply Ha; [apply reach_root | done].
  - destruct Ht as (v & Hh & Hi & Hver & Ht).
    assert (Hh' : holds s' root v) by (apply Ha; [apply reach_root | done]).
    assert (Hsub : ∀ i, 0 ≤ i < PTRS_PER_INTERIOR → read_child v i ≠ 0 →
      agree s s' (reach s l (read_child v i))).
    { intros i Hri Hc. eapply agree_sub; [done |]. intros x Hx. right. eauto 10. }
    split.
    + exists v. do 3 (split; [done |]). intros i Hri Hc.
      apply IH; [split; [by apply Ht | by apply (Hu v Hh i)] | by apply Hsub].
    + intros v1 H1 i Hri Hc. rewrite (holds_fun _ _ _ _ H1 Hh') in *. clear v1 H1.
      destruct (Hu v Hh i Hri Hc) as (Hu1 & Hu2 & Hu3).
      split; [| split].
      * apply IH; [split; [by apply Ht | done] | by apply Hsub].
      * rewrite (reach_agree s s'); [done | by apply Ht | by apply Hsub].
      * intros j x Hrj Hcj Hij. rewrite !(reach_agree s s'); auto.
Qed.

Lemma idx0 : 0 ≤ 0 < PTRS_PER_INTERIOR.
Proof. rewrite ptrs_1021. lia. Qed.

Lemma spine_agree s s' l root :
  spine s l root → agree s s' (reach s l root) → spine s' l root.
Proof.
  revert root. induction l as [| l IH]; intros root; [done |].
  intros (v & Hv & Hc & Hs) Ha. exists v. ands; [| done |].
  - apply Ha; [apply reach_root | done].
  - apply IH; [done |]. eapply agree_sub; [done |]. intros x Hx. right.
    pose proof idx0. eauto 10.
Qed.

Lemma spine_ext s s' l root : ext s s' → spine s l root → spine s' l root.
Proof. intros. eapply spine_agree; [done | by apply ext_agree]. Qed.

Lemma wf_ext s s' l root : ext s s' → wf_tree s l root → wf_tree s' l root.
Proof. intros. eapply wf_agree; [done | by apply ext_agree]. Qed.

Lemma reach_ext s s' l root x :
  ext s s' → tree s l root → reach s' l root x ↔ reach s l root x.
Proof. intros. apply reach_agree; [done | by apply ext_agree]. Qed.

Lemma den_ext s s' l root key :
  ext s s' → tree s l root → 0 ≤ key < keys leaf l → den s' l root key = den s l root key.
Proof. intros. apply den_agree; [done | by apply ext_agree | done]. Qed.

(** ** Copy on write

    [cow s l root s' l' new fr]: from the tree [root] of [s] an operation made
    the tree [new] of [s'] and listed [fr] as superseded.  Every page live in
    [s] is as it was; a page of the new tree is one of the old tree that was
    not superseded, or one that was not live; a page of the old tree is kept
    or superseded; and no superseded page is in the new tree. *)
Record cow s l root s' l' new (fr : list Z) : Prop := {
  cow_ext : ext s s';
  cow_wf : wf_tree s' l' new;
  cow_new : ∀ x, reach s' l' new x → (reach s l root x ∧ x ∉ fr) ∨ ¬ live s x;
  cow_old : ∀ x, reach s l root x → reach s' l' new x ∨ x ∈ fr;
  cow_freed : ∀ x, x ∈ fr → reach s l root x ∨ ¬ live s x;
  cow_disj : ∀ x, x ∈ fr → ¬ reach s' l' new x;
  cow_live : ∀ x, x ∈ fr → live s' x
}.

Lemma cow_refl s l root : wf_tree s l root → cow s l root s l root [].
Proof.
  intros Hw. split; [done | done | | | set_solver..].
  - intros x Hx. left. split; [done | apply not_elem_of_nil].
  - intros x Hx. by left.
Qed.

(** A later state that keeps every live page. *)
Lemma cow_later s l root s1 l1 new fr s2 :
  cow s l root s1 l1 new fr → ext s1 s2 → cow s l root s2 l1 new fr.
Proof.
  intros [He Hw Hn Ho Hf Hd Hl] H12.
  assert (Hr : ∀ x, reach s2 l1 new x ↔ reach s1 l1 new x).
  { intros x. apply reach_ext; [done | apply Hw]. }
  split; [by etrans | by eapply wf_ext | | | done | |]; intros x; rewrite ?Hr; auto.
  intros Hx. eapply live_ext; eauto.
Qed.

Lemma cow_later_den s l root s1 l1 new fr s2 k :
  cow s l root s1 l1 new fr → ext s1 s2 → 0 ≤ k < keys leaf l1 →
  den s2 l1 new k = den s1 l1 new k.
Proof. intros Hc He Hk. apply den_ext; [done | apply Hc | done]. Qed.

(** A copied leaf. *)
Lemma cow_leaf s s' root new v :
  wf_tree s 0 root → ext s s' → ¬ live s new →
  holds s' new v → is_leaf v → ver v →
  cow s 0 root s' 0 new [root].
Proof.
  intros [Ht _] He Hn Hh Hl Hv. pose proof (reach_live _ _ _ root Ht (reach_root _ _ _)) as Hr.
  split; simpl; auto.
  - split; [by exists v | done].
  - intros x ->. by right.
  - intros x ->. right. by apply list_elem_of_singleton.
  - intros x ->%list_elem_of_singleton. by left.
  - intros x ->%list_elem_of_singleton ->. done.
  - intros x ->%list_elem_of_singleton. by eapply live_ext.
Qed.

(** A copied interior page whose child [i] went from the subtree [a] (the old
    child, or a fresh one where there was none) to [c]. *)
Section interior.
Variables (s s2 s3 s' : St) (l : nat) (root a c new i : Z) (v v' : list Z) (fr : list Z).
Hypothesis Hwf : wf_tree s (S l) root.
Hypothesis Hv : holds s root v.
Hypothesis Hi : 0 ≤ i < PTRS_PER_INTERIOR.
Hypothesis Hs2 : ext s s2.
Hypothesis Ha1 : ∀ x, reach s2 l a x →
  (read_child v i ≠ 0 ∧ reach s l (read_child v i) x) ∨ ¬ live s x.
Hypothesis Ha2 : read_child v i ≠ 0 → ∀ x, reach s l (read_child v i) x → reach s2 l a x.
Hypothesis Hcow : cow s2 l a s3 l c fr.
Hypothesis Hnew1 : ¬ live s new.
Hypothesis Hnew2 : ¬ reach s3 l c new.
Hypothesis Hnew3 : new ∉ fr.
Hypothesis Hs' : ext s s'.
Hypothesis Hkeep : only_at view live new s3 s'.
Hypothesis Hc : c ≠ 0.
Hypothesis Hv' : holds s' new v'.
Hypothesis Hint : is_int v'.
Hypothesis Hver : ver v'.
Hypothesis Hch : ∀ j, 0 ≤ j < PTRS_PER_INTERIOR →
  read_child v' j = if decide (j = i) then c else read_child v j.

Lemma old_child j : 0 ≤ j < PTRS_PER_INTERIOR → read_child v j ≠ 0 →
  wf_tree s l (read_child v j) ∧ ∀ x, reach s l (read_child v j) x → reach s (S l) root x ∧ live s x ∧ x ≠ root.
Proof.
  intros Hj Hcj. destruct Hwf as [Ht Hu]. destruct Ht as (v1 & H1 & _ & _ & Ht).
  rewrite (holds_fun _ _ _ _ H1 Hv) in Ht. clear v1 H1.
  destruct (Hu v Hv j Hj Hcj) as (Hu1 & Hu2 & Hu3).
  split; [split; [by apply Ht | done] |]. intros x Hx. ands.
  - right. eauto 10.
  - eapply reach_live; [by apply Ht | done].
  - by intros ->.
Qed.

Lemma agree_c : agree s3 s' (reach s3 l c).
Proof.
  intros x w Hx Hw. eapply only_at_holds; [done | | done]. by intros ->.
Qed.

Lemma reach_c x : reach s' l c x ↔ reach s3 l c x.
Proof. apply reach_agree; [apply (cow_wf _ _ _ _ _ _ _ Hcow) | apply agree_c]. Qed.

Lemma reach_old j x : 0 ≤ j < PTRS_PER_INTERIOR → read_child v j ≠ 0 →
  reach s' l (read_child v j) x ↔ reach s l (read_child v j) x.
Proof. intros Hj Hcj. apply reach_ext; [done |]. by apply old_child. Qed.

(** The pages under [c] and those of the other children are apart. *)
Lemma c_apart j x : 0 ≤ j < PTRS_PER_INTERIOR → read_child v j ≠ 0 → j ≠ i →
  reach s l (read_child v j) x → ¬ reach s3 l c x ∧ x ∉ fr.
Proof.
  intros Hj Hcj Hji Hx. destruct (old_child j Hj Hcj) as [_ Hold].
  destruct (Hold x Hx) as (_ & Hl & _).
  assert (Hno : ¬ reach s2 l a x).
  { intros [[Hci Hxi] | Hn]%Ha1; [| done]. destruct Hwf as [_ Hu].
    destruct (Hu v Hv j Hj Hcj) as (_ & _ & Hu3). by eapply (Hu3 i). }
  assert (Hl2 : live s2 x) by by eapply live_ext.
  split; [intros [[? _] | ?]%(cow_new _ _ _ _ _ _ _ Hcow) | intros [? | ?]%(cow_freed _ _ _ _ _ _ _ Hcow)]; done.
Qed.

Lemma root_apart : ¬ reach s3 l c root ∧ (root ∉ fr) ∧ root ≠ new.
Proof.
  assert (Hl : live s root) by (by eapply holds_live).
  assert (Hl2 : live s2 root) by (by eapply live_ext).
  assert (Hno : ¬ reach s2 l a root).
  { intros [[Hci Hxi] | Hn]%Ha1; [| done]. destruct (old_child i Hi Hci) as [_ Hold].
    by destruct (Hold root Hxi) as (_ & _ & ?). }
  split; [| split; [| by intros ->]].
  - intros [[? _] | ?]%(cow_new _ _ _ _ _ _ _ Hcow); done.
  - intros [? | ?]%(cow_freed _ _ _ _ _ _ _ Hcow); done.
Qed.

Lemma new_child j : 0 ≤ j < PTRS_PER_INTERIOR → read_child v' j ≠ 0 →
  wf_tree s' l (read_child v' j) ∧ ¬ reach s' l (read_child v' j) new.
Proof.
  intros Hj. rewrite Hch by done. case_decide as Hd.
  - intros _. split; [| by rewrite reach_c].
    eapply wf_agree; [apply (cow_wf _ _ _ _ _ _ _ Hcow) | apply agree_c].
  - intros Hcj. destruct (old_child j Hj Hcj) as [Hw Hold].
    split; [by eapply wf_ext |]. rewrite reach_old by done.
    intros Hr. by destruct (Hold new Hr) as (_ & ? & _).
Qed.

Lemma interior_wf : wf_tree s' (S l) new.
Proof.
  split.
  - exists v'. do 3 (split; [done |]). intros j Hj Hcj. by apply new_child.
  - intros v1 H1 j Hj Hcj. rewrite (holds_fun _ _ _ _ H1 Hv') in *. clear v1 H1.
    destruct (new_child j Hj Hcj) as [[_ Hu] Hn]. ands; [done | done |].
    intros k x Hk Hck Hjk. rewrite !Hch in * by done.
    destruct (decide (j = i)) as [-> |], (decide (k = i)) as [-> |]; [done | | |].
    + rewrite reach_c, reach_old by done. intros Hx Hx'. by destruct (c_apart k x) as [? _].
    + rewrite reach_c, reach_old by done. intros Hx Hx'. by destruct (c_apart j x) as [? _].
    + rewrite !reach_old by done. destruct Hwf as [_ Hu'].
      destruct (Hu' v Hv j Hj Hcj) as (_ & _ & Hu3). by apply Hu3.
Qed.

Lemma interior_reach x : reach s' (S l) new x ↔
  x = new ∨ reach s3 l c x ∨
  ∃ j, 0 ≤ j < PTRS_PER_INTERIOR ∧ read_child v j ≠ 0 ∧ j ≠ i ∧ reach s l (read_child v j) x.
Proof.
  simpl. split.
  - intros [-> | (v1 & j & H1 & Hj & Hcj & Hr)]; [by left | right].
    rewrite (holds_fun _ _ _ _ H1 Hv') in *. rewrite Hch in * by done. case_decide.
    + left. by rewrite reach_c in Hr.
    + right. exists j. by rewrite reach_old in Hr.
  - intros [-> | [Hr | (j & Hj & Hcj & Hji & Hr)]]; [by left | right..].
    + exists v', i. rewrite Hch, decide_True by done. by rewrite reach_c.
    + exists v', j. rewrite Hch, decide_False by done. by rewrite reach_old.
Qed.

Lemma cow_interior fr' :
  (∀ x, x ∈ fr' ↔ x = root ∨ x ∈ fr) → cow s (S l) root s' (S l) new fr'.
Proof.
  intros Hfr. destruct root_apart as (Hr1 & Hr2 & Hr3).
  split; [done | apply interior_wf | | | | |]; intros x.
  - rewrite interior_reach. intros [-> | [Hr | (j & Hj & Hcj & Hji & Hr)]].
    + by right.
    + pose proof Hr as [[Hx Hf] | Hn]%(cow_new _ _ _ _ _ _ _ Hcow).
      * destruct (Ha1 x Hx) as [[Hci Hxi] | ?]; [| by right]. left.
        destruct (old_child i Hi Hci) as [_ Hold]. destruct (Hold x Hxi) as (? & _ & ?).
        split; [done |]. rewrite Hfr. by intros [|].
      * right. contradict Hn. by eapply live_ext.
    + left. destruct (old_child j Hj Hcj) as [_ Hold]. destruct (Hold x Hr) as (? & _ & ?).
      split; [done |]. rewrite Hfr. destruct (c_apart j x); [done.. |]. by intros [|].
  - rewrite interior_reach, Hfr. intros [-> | (v1 & j & H1 & Hj & Hcj & Hr)]; [by auto |].
    rewrite (holds_fun _ _ _ _ H1 Hv) in *. destruct (decide (j = i)) as [-> |].
    + destruct (cow_old _ _ _ _ _ _ _ Hcow x); auto.
    + left. right. right. eauto.
  - rewrite Hfr. intros [-> | Hx]; [left; apply reach_root |].
    destruct (cow_freed _ _ _ _ _ _ _ Hcow x Hx) as [Hr | Hn].
    + destruct (Ha1 x Hr) as [[Hci Hxi] | ?]; [left | by right].
      destruct (old_child i Hi Hci) as [_ Hold]. by apply Hold.
    + right. contradict Hn. by eapply live_ext.
  - rewrite Hfr, interior_reach. intros [-> | Hx] [-> | [Hr | (j & Hj & Hcj & Hji & Hr)]]; try done.
    + destruct (old_child j Hj Hcj) as [_ Hold]. by destruct (Hold root Hr) as (_ & _ & ?).
    + by apply (cow_disj _ _ _ _ _ _ _ Hcow x).
    + by destruct (c_apart j x).
  - rewrite Hfr. intros [-> | Hx].
    + eapply live_ext; [apply Hs' |]. by eapply holds_live.
    + apply (only_at_live _ _ _ _ Hkeep). by eapply cow_live.
Qed.

(** The leftmost path survives where the new child keeps its own. *)
Lemma spine_interior :
  (read_child v i ≠ 0 → spine s l (read_child v i) → spine s3 l c) →
  spine s (S l) root → spine s' (S l) new.
Proof.
  intros Hsp (v1 & H1 & Hc0 & Hs1). rewrite (holds_fun _ _ _ _ H1 Hv) in *.
  exists v'. rewrite Hch by apply idx0. case_decide as Hd.
  - subst i. ands; [done | done |]. eapply spine_agree; [by apply Hsp | apply agree_c].
  - ands; [done | done |]. by eapply spine_ext.
Qed.

(** One key changes: the new child's key [kc] is the tree's [i * span + kc]. *)
Lemma den_interior key val :
  (∀ k, 0 ≤ k < keys leaf l → den s2 l a k =
    if read_child v i =? 0 then V0 else den s l (read_child v i) k) →
  (∀ k, 0 ≤ k < keys leaf l → den s3 l c k =
    if decide (k = key mod keys leaf l) then val else den s2 l a k) →
  i = key / keys leaf l →
  ∀ k, 0 ≤ k < keys leaf (S l) →
    den s' (S l) new k = if decide (k = key) then val else den s (S l) root k.
Proof.
  intros Hd2 Hd3 Hik k Hk. pose proof (keys_pos leaf l leaf_pos) as Hpos.
  rewrite keys_S in Hk.
  assert (Hj : 0 ≤ k / keys leaf l < PTRS_PER_INTERIOR).
  { rewrite ptrs_1021. split; [apply Z.div_pos; lia | apply Z.div_lt_upper_bound; lia]. }
  pose proof (Z.mod_pos_bound k (keys leaf l) Hpos).
  cbn [den]. destruct Hv' as [_ ->]. pose proof Hv as [_ ->]. rewrite Hch by done.
  case_decide as Hji.
  - destruct (Z.eqb_spec c 0); [done |].
    rewrite (den_agree s3 s' l c _ (proj1 (cow_wf _ _ _ _ _ _ _ Hcow)) agree_c), Hd3 by done.
    pose proof (Z.div_mod k (keys leaf l)). pose proof (Z.div_mod key (keys leaf l)).
    destruct (decide (k = key)) as [-> |]; [by rewrite decide_True |].
    rewrite decide_False by (intros E; rewrite Hji, Hik, E in *; lia).
    rewrite Hd2, Hji by done. done.
  - rewrite decide_False by (intros ->; congruence).
    destruct (Z.eqb_spec (read_child v (k / keys leaf l)) 0); [done |].
    apply den_ext; [done | by apply old_child | done].
Qed.
End interior.

(** The hypotheses of the section, as one fact about an operation's states. *)
Record edge s s2 s3 s' l (root a c new i : Z) (v v' fr : list Z) : Prop := {
  ed_wf : wf_tree s (S l) root;
  ed_old : holds s root v;
  ed_idx : 0 ≤ i < PTRS_PER_INTERIOR;
  ed_ext2 : ext s s2;
  ed_child : ∀ x, reach s2 l a x →
    (read_child v i ≠ 0 ∧ reach s l (read_child v i) x) ∨ ¬ live s x;
  ed_child' : read_child v i ≠ 0 → ∀ x, reach s l (read_child v i) x → reach s2 l a x;
  ed_cow : cow s2 l a s3 l c fr;
  ed_fresh : ¬ live s new;
  ed_apart : ¬ reach s3 l c new;
  ed_apart' : new ∉ fr;
  ed_ext' : ext s s';
  ed_keep : only_at view live new s3 s';
  ed_c : c ≠ 0;
  ed_new : holds s' new v';
  ed_int : is_int v';
  ed_ver : ver v';
  ed_write : ∀ j, 0 ≤ j < PTRS_PER_INTERIOR →
    read_child v' j = if decide (j = i) then c else read_child v j
}.

Lemma edge_cow s s2 s3 s' l root a c new i v v' fr fr' :
  edge s s2 s3 s' l root a c new i v v' fr →
  (∀ x, x ∈ fr' ↔ x = root ∨ x ∈ fr) → cow s (S l) root s' (S l) new fr'.
Proof. intros []. by apply (cow_interior s s2 s3 s' l root a c new i v v' fr). Qed.

Lemma edge_den s s2 s3 s' l root a c new i v v' fr key val :
  edge s s2 s3 s' l root a c new i v v' fr →
  (∀ k, 0 ≤ k < keys leaf l → den s2 l a k =
    if read_child v i =? 0 then V0 else den s l (read_child v i) k) →
  (∀ k, 0 ≤ k < keys leaf l → den s3 l c k =
    if decide (k = key mod keys leaf l) then val else den s2 l a k) →
  i = key / keys leaf l →
  ∀ k, 0 ≤ k < keys leaf (S l) →
    den s' (S l) new k = if decide (k = key) then val else den s (S l) root k.
Proof. intros [] Hd2 Hd3 Hi. eapply (den_interior s s2 s3 s' l root a c new i v v' fr); eauto. Qed.

Lemma edge_spine s s2 s3 s' l root a c new i v v' fr :
  edge s s2 s3 s' l root a c new i v v' fr →
  (read_child v i ≠ 0 → spine s l (read_child v i) → spine s3 l c) →
  spine s (S l) root → spine s' (S l) new.
Proof. intros []. eapply spine_interior; eauto. Qed.

(** The subtree an operation descends into: the old child. *)
Lemma same_child s s2 l c :
  wf_tree s l c → ext s s2 →
  wf_tree s2 l c ∧ (∀ x, reach s2 l c x ↔ reach s l c x) ∧
  ∀ k, 0 ≤ k < keys leaf l → den s2 l c k = den s l c k.
Proof.
  intros Hw He. ands; [by eapply wf_ext | |].
  - intros x. apply reach_ext; [done | apply Hw].
  - intros k Hk. apply den_ext; [done | apply Hw | done].
Qed.

(** ** Fresh nodes and growth *)

(** A node just made: no entry, no child. *)
Definition empty_node l (v : list Z) : Prop :=
  ver v ∧
  match l with
  | O => is_leaf v ∧ ∀ k, 0 ≤ k < leaf → leaf_val v k = V0
  | S _ => is_int v ∧ ∀ i, 0 ≤ i < PTRS_PER_INTERIOR → read_child v i = 0
  end.

Lemma fresh_node s l m v :
  holds s m v → empty_node l v →
  wf_tree s l m ∧ (∀ x, reach s l m x ↔ x = m) ∧
  ∀ k, 0 ≤ k < keys leaf l → den s l m k = V0.
Proof.
  intros Hh [Hver He]. pose proof Hh as [_ Hv]. destruct l as [| l].
  - destruct He as [Hl Hz]. ands; [| done |].
    + split; [by exists v | done].
    + intros k Hk. simpl. rewrite Hv. apply Hz. unfold keys in Hk. simpl in Hk. lia.
  - destruct He as [Hi Hz]. ands.
    + split.
      * exists v. do 3 (split; [done |]). intros i Hr Hc. by rewrite Hz in Hc.
      * intros v1 H1 i Hr Hc. rewrite (holds_fun _ _ _ _ H1 Hh), Hz in Hc by done. done.
    + intros x. simpl. split; [| by left]. intros [-> | (v1 & i & H1 & Hr & Hc & _)]; [done |].
      by rewrite (holds_fun _ _ _ _ H1 Hh), Hz in Hc.
    + intros k Hk. pose proof (keys_pos leaf l leaf_pos). rewrite keys_S in Hk.
      simpl. rewrite Hv, Hz; [done |]. rewrite ptrs_1021.
      split; [apply Z.div_pos; lia | apply Z.div_lt_upper_bound; lia].
Qed.

(** [new] is [root] under one more interior level, or [root] itself. *)
Record grown s l root s' l' new : Prop := {
  gr_ext : ext s s';
  gr_wf : wf_tree s' l' new;
  gr_new : ∀ x, reach s' l' new x → reach s l root x ∨ ¬ live s x;
  gr_old : ∀ x, reach s l root x → reach s' l' new x;
  gr_den : ∀ k, 0 ≤ k → lookup_den s' l' new k = lookup_den s l root k;
  gr_spine : spine s l root → spine s' l' new
}.

Lemma grown_refl s l root : wf_tree s l root → grown s l root s l root.
Proof. by split; auto. Qed.

Lemma grown_trans s l root s1 l1 r1 s2 l2 r2 :
  grown s l root s1 l1 r1 → grown s1 l1 r1 s2 l2 r2 → grown s l root s2 l2 r2.
Proof.
  intros [E1 W1 N1 O1 D1 P1] [E2 W2 N2 O2 D2 P2]. split; auto.
  - by etrans.
  - intros x Hx. destruct (N2 x Hx) as [Hr | Hn]; [auto |].
    right. contradict Hn. by eapply live_ext.
  - intros k Hk. rewrite D2, D1; auto.
Qed.

Lemma grow_step s s' l root new v :
  wf_tree s l root → ext s s' → ¬ live s new → root ≠ 0 →
  holds s' new v → is_int v → ver v →
  (∀ i, 0 ≤ i < PTRS_PER_INTERIOR → read_child v i = if decide (i = 0) then root else 0) →
  grown s l root s' (S l) new.
Proof.
  intros Hw He Hn Hr0 Hh Hi Hver Hc. pose proof (keys_pos leaf l leaf_pos).
  assert (Hw' : wf_tree s' l root) by by eapply wf_ext.
  assert (Hre : ∀ x, reach s' l root x ↔ reach s l root x) by (intros; by apply reach_ext; [| apply Hw]).
  assert (H0 : 0 ≤ 0 < PTRS_PER_INTERIOR) by (rewrite ptrs_1021; lia).
  assert (Hnr : ¬ reach s l root new) by (intros Hx; apply Hn; eapply reach_live; [apply Hw | done]).
  assert (Honly : ∀ i, 0 ≤ i < PTRS_PER_INTERIOR → read_child v i ≠ 0 → i = 0).
  { intros i Hri Hci. rewrite Hc in Hci by done. by case_decide. }
  split; [done | split | | | |].
  - exists v. do 3 (split; [done |]). intros i Hri Hci.
    rewrite (Honly i), Hc, decide_True by done. apply Hw'.
  - intros v1 H1 i Hri Hci. rewrite (holds_fun _ _ _ _ H1 Hh) in *.
    rewrite (Honly i), Hc, decide_True by done. ands; [apply Hw' | by rewrite Hre |].
    intros j x Hrj Hcj Hij. destruct Hij. by rewrite (Honly j).
  - intros x [-> | (v1 & i & H1 & Hri & Hci & Hx)]; [by right | left].
    rewrite (holds_fun _ _ _ _ H1 Hh) in *. rewrite (Honly i), Hc, decide_True in Hx by done.
    by rewrite Hre in Hx.
  - intros x Hx. right. exists v, 0. rewrite Hc, decide_True by done. by rewrite Hre.
  - intros k Hk. unfold lookup_den. rewrite keys_S. pose proof Hh as [_ Hv].
    destruct (Z.leb_spec (keys leaf l * 1021) k), (Z.leb_spec (keys leaf l) k); [done | lia | |].
    + assert (0 < k / keys leaf l < 1021).
      { split; [apply Z.div_str_pos; lia | apply Z.div_lt_upper_bound; lia]. }
      simpl. rewrite Hv, Hc, decide_False by (rewrite ?ptrs_1021; lia). done.
    + simpl. rewrite Hv, Z.div_small, Hc, decide_True by (done || lia).
      destruct (Z.eqb_spec root 0); [done |]. rewrite Z.mod_small by lia.
      apply den_ext; [done | apply Hw | lia].
  - intros Hsp. exists v. rewrite Hc, decide_True by done. ands; [done | done |].
    by eapply spine_ext.
Qed.

Lemma cow_grown s l root s1 l1 r1 s2 l2 new fr :
  grown s l root s1 l1 r1 → cow s1 l1 r1 s2 l2 new fr → cow s l root s2 l2 new fr.
Proof.
  intros [E1 W1 N1 O1 D1 P1] [E2 W2 N2 O2 F2 J2 L2].
  assert (Hl : ∀ x, ¬ live s1 x → ¬ live s x) by (intros x Hn; contradict Hn; by eapply live_ext).
  split; auto; [by etrans | |].
  - intros x Hx. destruct (N2 x Hx) as [[Hr ?] | ?]; [| auto]. destruct (N1 x Hr); auto.
  - intros x Hx. destruct (F2 x Hx) as [Hr | ?]; [| auto]. auto.
Qed.
End radix.

(** ** The same pages seen through two stores *)

Section across.
Context {St1 St2 : Type} `{HX : Xxh3} `{HF : Fault} {HP1 : PageStore St1} {HS1 : StoreOk St1}
  {HP2 : PageStore St2} {HS2 : StoreOk St2} `{HV : Ver}.
Context {V : Type} (V0 : V) (leaf : Z) (is_leaf is_int : list Z → Prop) (leaf_val : list Z → Z → V).
Hypothesis leaf_pos : 0 < leaf.
Variables (s1 : St1) (s2 : St2).

(** The pages of a tree are in the second store too. *)
Definition carried l root : Prop := ∀ x v, reach s1 l root x → holds s1 x v → holds s2 x v.

Lemma carried_all l root : (∀ x v, holds s1 x v → holds s2 x v) → carried l root.
Proof. intros H x v _. apply H. Qed.

Lemma carried_root l root v : carried l root → holds s1 root v → holds s2 root v.
Proof. intros Hc. apply Hc, reach_root. Qed.

Lemma carried_child l root v i :
  carried (S l) root → holds s1 root v → 0 ≤ i < PTRS_PER_INTERIOR → read_child v i ≠ 0 → carried l (read_child v i).
Proof. intros Hc Hv Hi Hn x w Hx. apply Hc. right. eauto 10. Qed.

Lemma across_tree l root : carried l root → tree is_leaf is_int s1 l root → tree is_leaf is_int s2 l root.
Proof.
  revert root. induction l as [| l IH]; intros root Hr.
  - intros (v & ? & ? & ?). exists v. split; [by eapply carried_root | done].
  - intros (v & Hv & ? & ? & Hc). exists v. ands; [by eapply carried_root | done | done |].
    intros i Hi Hn. apply IH; [by eapply carried_child | auto].
Qed.

Lemma across_reach l root x :
  carried l root → tree is_leaf is_int s1 l root → reach s2 l root x ↔ reach s1 l root x.
Proof.
  revert root. induction l as [| l IH]; intros root Hr; [done |]. intros (v & Hv & _ & _ & Hc). cbn [reach].
  pose proof (carried_root _ _ _ Hr Hv) as Hv2.
  split; (intros [-> | (w & i & Hw & Hi & Hn & Hx)]; [by left | right]); exists v, i.
  - rewrite (holds_fun _ _ _ _ Hw Hv2) in *. do 3 (split; [done |]).
    apply (proj1 (IH _ (carried_child _ _ _ _ Hr Hv Hi Hn) (Hc i Hi Hn)) Hx).
  - rewrite (holds_fun _ _ _ _ Hw Hv) in *. do 3 (split; [auto |]).
    apply (proj2 (IH _ (carried_child _ _ _ _ Hr Hv Hi Hn) (Hc i Hi Hn)) Hx).
Qed.

Lemma across_wf l root : carried l root → wf_tree is_leaf is_int s1 l root → wf_tree is_leaf is_int s2 l root.
Proof.
  intros Hr [Ht Hu]. split; [by apply across_tree |]. revert root Hr Ht Hu.
  induction l as [| l IH]; intros root Hr Ht Hu; [done |]. destruct Ht as (v & Hv & _ & _ & Hc). cbn [uniq] in *.
  pose proof (carried_root _ _ _ Hr Hv) as Hv2.
  intros w Hw i Hi Hn. rewrite (holds_fun _ _ _ _ Hw Hv2) in *. destruct (Hu v Hv i Hi Hn) as (H1 & H2 & H3).
  ands.
  - apply IH; [by eapply carried_child | auto | auto].
  - by rewrite (across_reach l) by (done || (by eapply carried_child) || auto).
  - intros j x Hj Hnj Hij. rewrite !(across_reach l) by (done || (by eapply carried_child) || auto). by apply H3.
Qed.

Lemma across_den l root k : carried l root → tree is_leaf is_int s1 l root → 0 ≤ k < keys leaf l →
  den V0 leaf leaf_val s2 l root k = den V0 leaf leaf_val s1 l root k.
Proof.
  revert root k. induction l as [| l IH]; intros root k Hr.
  - intros (v & Hv & _) _. pose proof (carried_root _ _ _ Hr Hv) as [_ Hv2]. destruct Hv as [_ Hv1]. cbn. by rewrite Hv1, Hv2.
  - intros (v & Hv & _ & _ & Hc). pose proof (carried_root _ _ _ Hr Hv) as [_ Hv2]. pose proof Hv as [_ Hv1]. rewrite keys_S. intros Hk.
    pose proof (keys_pos leaf l leaf_pos). cbn [den]. rewrite Hv1, Hv2. case_tests; [done |].
    assert (Hi : 0 ≤ k / keys leaf l < PTRS_PER_INTERIOR).
    { rewrite ptrs_1021. split; [apply Z.div_pos; lia | apply Z.div_lt_upper_bound; lia]. }
    apply IH; [by eapply carried_child | by apply Hc | by apply Z.mod_pos_bound].
Qed.
End across.
