(* ===== verification/RadixPath.v ===== *)
(** * Path copies of a radix tree

    The page updates of an insertion and a deletion of [handle_table.rs] and
    [membership_index.rs], stated once: the page written after the recursive call,
    the child a call descends into, the interior page it copies on the way back
    up, the new root of [grow], and the pairs an enumeration lists.  A module
    gives its leaf layout and what its pages look like. *)

From S2P Require Export Radix.

(** A predicate on the page header. *)
Definition header_only (P : list Z → Prop) : Prop :=
  ∀ v v', (∀ j, 0 ≤ j < DATA_PAGE_HEADER_SIZE → getb j v' = getb j v) → P v → P v'.

Lemma assert_id_ne0 id : 0 < id < PAGE_ID_NONE → negb (id =? 0) = true.
Proof. intros. apply negb_true_iff, Z.eqb_neq. lia. Qed.

Lemma id_u64 id : 0 < id < PAGE_ID_NONE → is_u64 id.
Proof. unfold PAGE_ID_NONE, u64_max, is_u64. lia. Qed.

(** The child index of a key below the capacity. *)
Lemma child_idx leaf l h :
  0 < leaf → 0 ≤ h < keys leaf (S l) →
  0 ≤ h / keys leaf l < PTRS_PER_INTERIOR ∧ 0 ≤ h mod keys leaf l < keys leaf l.
Proof.
  intros Hleaf Hh. pose proof (keys_pos leaf l Hleaf). rewrite keys_S in Hh. rewrite ptrs_1021.
  split; [split; [apply Z.div_pos; lia | apply Z.div_lt_upper_bound; lia] | by apply Z.mod_pos_bound].
Qed.

Lemma slot_in_page i : 0 ≤ i < PTRS_PER_INTERIOR →
  (DATA_PAGE_HEADER_SIZE + i * PTR_SIZE + PTR_SIZE <=? PAGE_SIZE) = true.
Proof. rewrite ptrs_1021. intros. unfold PTR_SIZE. apply Z.leb_le. plia. Qed.

Section path.
Context {St : Type} `{HX : Xxh3} `{HF : Fault} `{HP : !PageStore St} `{HS : !StoreOk St}.
Context {V : Type} (V0 : V) (leaf : Z) (is_leaf is_int : list Z → Prop)
  (leaf_val : list Z → Z → V).
Hypothesis leaf_pos : 0 < leaf.
Hypothesis int_hdr : header_only is_int.
Implicit Types (s : St) (l : nat).

Abbreviation den := (den V0 leaf leaf_val).
Abbreviation wf_tree := (wf_tree is_leaf is_int).
Abbreviation cow := (cow is_leaf is_int).

Lemma int_update p v i c :
  wf_page p → body p = body v → is_int v → 0 ≤ i < PTRS_PER_INTERIOR → is_u64 c →
  let v' := stamp_checksum (write_child i c p) in
  is_int v' ∧ verify_checksum v' = true ∧
  ∀ j, 0 ≤ j < PTRS_PER_INTERIOR → read_child v' j = if decide (j = i) then c else read_child v j.
Proof.
  intros Hp Hb Hint Hi Hc. assert (Hw : wf_page (write_child i c p)) by auto with chisel.
  cbv zeta. ands.
  - apply (int_hdr v); [| done]. intros j Hj. rewrite getb_stamp, getb_write_child by (done || plia).
    apply body_getb; [done | plia].
  - by apply stamp_stores_checksum.
  - intros j Hj. rewrite read_child_stamp by done. case_decide as Hd.
    + subst j. by apply read_child_write_same.
    + rewrite read_child_write_other by done. by apply read_child_body.
Qed.

(** What an update of one key does to a tree. *)
Definition updated s l root h (val : V) (new : Z) (fr : list Z) s' : Prop :=
  cow s l root s' l new fr ∧ 0 < new < PAGE_ID_NONE ∧
  (spine s l root → spine s' l new) ∧
  ∀ k, 0 ≤ k < keys leaf l → den s' l new k = if decide (k = h) then val else den s l root k.

(** A copied and rewritten leaf. *)
Lemma updated_leaf s s' root h val n v v' :
  wf_tree s 0 root → holds s root v → frame s s' → ¬ live s n → 0 < n < PAGE_ID_NONE →
  holds s' n v' → is_leaf v' → verify_checksum v' = true →
  (∀ k, 0 ≤ k < leaf → leaf_val v' k = if decide (k = h) then val else leaf_val v k) →
  updated s 0 root h val n [root] s'.
Proof.
  intros Hw Hv Hf Hn Hnr Hv' Hlf Hver Hval. unfold updated. ands; [| lia | lia | done |].
  - eapply cow_leaf; eauto. apply Hf.
  - intros k Hk. unfold keys in Hk. simpl in Hk |- *. destruct Hv' as [_ ->], Hv as [_ ->].
    apply Hval. lia.
Qed.

(** ** Down: the child [a] an insertion descends into *)

(** [a] is the old child [i] of [v], or a fresh empty node where there is none. *)
Record chosen s s4 l v i n a : Prop := {
  ch_wf : wf_tree s4 l a;
  ch_old : ∀ x, reach s4 l a x →
    (read_child v i ≠ 0 ∧ reach s l (read_child v i) x) ∨ (¬ live s x ∧ x ≠ n);
  ch_keep : read_child v i ≠ 0 → ∀ x, reach s l (read_child v i) x → reach s4 l a x;
  ch_spine : read_child v i ≠ 0 → spine s l (read_child v i) → spine s4 l a;
  ch_den : ∀ k, 0 ≤ k < keys leaf l → den s4 l a k =
    if read_child v i =? 0 then V0 else den s l (read_child v i) k
}.

Lemma chosen_old s s4 l v i n :
  wf_tree s l (read_child v i) → ext s s4 → read_child v i ≠ 0 →
  chosen s s4 l v i n (read_child v i).
Proof.
  intros Hw He Hc. destruct (same_child V0 leaf is_leaf is_int leaf_val leaf_pos s s4 l _ Hw He)
    as (Hw4 & Hr & Hd). split; [done | | | |].
  - intros x Hx. left. split; [done | by apply Hr].
  - intros _ x Hx. by apply Hr.
  - intros _ Hs. by eapply spine_ext.
  - by destruct (Z.eqb_spec (read_child v i) 0).
Qed.

Lemma chosen_fresh s s3 s4 l v i n m w :
  read_child v i = 0 → ext s s3 → live s3 n → ¬ live s3 m → holds s4 m w →
  empty_node V0 leaf is_leaf is_int leaf_val l w → chosen s s4 l v i n m.
Proof.
  intros Hc He Hn Hm Hh Hemp.
  destruct (fresh_node V0 leaf is_leaf is_int leaf_val leaf_pos s4 l m w Hh Hemp) as (Hwm & Hrm & Hdm).
  split; rewrite ?Hc; [done | | done | done | done].
  intros x Hx. rewrite (proj1 (Hrm x) Hx). right.
  split; [intros Hy; apply Hm; by eapply live_ext | by intros ->].
Qed.

Section descend.
Variables (l : nat) (s s4 : St) (root h n a : Z) (v v1 : list Z).
Let i := h / keys leaf l.
Hypothesis Hw : wf_tree s (S l) root.
Hypothesis Hv : holds s root v.
Hypothesis Hint : is_int v.
Hypothesis Hi : 0 ≤ i < PTRS_PER_INTERIOR.
Hypothesis Hn : ¬ live s n.
Hypothesis Hnr : 0 < n < PAGE_ID_NONE.
Hypothesis Hf4 : frame s s4.
Hypothesis Hh4 : holds s4 n v1.
Hypothesis Hb1 : body v1 = body v.
Hypothesis Ha : chosen s s4 l v i n a.

Lemma descend_edge s5 s6 c p frc :
  cow s4 l a s5 l c frc → 0 < c < PAGE_ID_NONE → buf_of s5 n p → frame s s6 →
  only_at view live n s5 s6 → holds s6 n (stamp_checksum (write_child i c p)) →
  edge is_leaf is_int s s4 s5 s6 l root a c n i v (stamp_checksum (write_child i c p)) frc.
Proof.
  intros Hcow Hc [Hp Hpb] Hf6 Ho6 Hh6. destruct Ha as [Hwa Ha1 Ha2 _ _].
  assert (Hh5 : holds s5 n v1) by (eapply holds_ext; [by eapply cow_ext | done]).
  destruct (int_update p v i c) as (Hint' & Hver' & Hread);
    [done | rewrite (Hpb v1) by done; done | done | done | by apply id_u64 |].
  assert (Hl4 : live s4 n) by by eapply holds_live.
  assert (Hna : ¬ reach s4 l a n).
  { intros Hx. destruct (Ha1 n Hx) as [[Hc0 Hx'] | [_ ?]]; [| done].
    destruct (old_child is_leaf is_int s l root v Hw Hv i Hi Hc0) as [_ Hold].
    by destruct (Hold n Hx') as (_ & ? & _). }
  split; eauto; try apply Hf4; try apply Hf6; try lia.
  - intros x Hx. destruct (Ha1 x Hx) as [? | [? _]]; auto.
  - intros Hx. destruct (cow_new _ _ _ _ _ _ _ _ _ Hcow n Hx) as [[? _] | ?]; done.
  - intros Hx. destruct (cow_freed _ _ _ _ _ _ _ _ _ Hcow n Hx) as [? | ?]; done.
Qed.

Lemma descend_updated s5 s6 c p frc val :
  updated s4 l a (h mod keys leaf l) val c frc s5 → buf_of s5 n p → frame s s6 →
  only_at view live n s5 s6 → holds s6 n (stamp_checksum (write_child i c p)) →
  updated s (S l) root h val n (root :: frc) s6.
Proof.
  intros (Hcow & Hc & Hsp & Hden) Hp Hf6 Ho6 Hh6.
  pose proof (descend_edge s5 s6 c p frc Hcow Hc Hp Hf6 Ho6 Hh6) as Hedge.
  unfold updated. ands; [| lia | lia | |].
  - eapply edge_cow; [done |]. intros x. apply elem_of_cons.
  - eapply edge_spine; [done |]. intros Hc0 Hs. apply Hsp. by apply (ch_spine _ _ _ _ _ _ _ Ha).
  - eapply edge_den; eauto. apply (ch_den _ _ _ _ _ _ _ Ha).
Qed.

(** The recursive call and the write of its result. *)
Lemma descend_spec fr val (rec : M (St * list Z) Z) :
  spec (framed s4) rec (s4, fr ++ [root])
    (λ c sx, ∃ frc, sx.2 = (fr ++ [root]) ++ frc ∧
      updated s4 l a (h mod keys leaf l) val c frc sx.1) →
  spec (framed s)
    (let* new_child := rec in
     lift (ps_modify n (λ buf, stamp_checksum (write_child i new_child buf))) ;;;
     ret n) (s4, fr ++ [root])
    (λ new sx, ∃ fr', sx.2 = fr ++ fr' ∧ updated s (S l) root h val new fr' sx.1).
Proof.
  intros IH. eapply spec_bind.
  { eapply spec_conseq; [exact IH | |].
    - intros sx Hsx. eapply frame_trans; [apply Hf4 | done].
    - intros new sx Hsx Hpost. exact Hpost. }
  intros c [s5 fr5] Hf5 (frc & Hfrc & Hup). cbn [fst snd] in *. subst fr5.
  assert (Hh5 : holds s5 n v1) by (eapply holds_ext; [by eapply cow_ext, (proj1 Hup) | done]).
  apply (bind_modify s s5); [done | by eapply holds_live | done | auto with chisel |].
  intros p s6 Hp Hf6 Ho6 Hh6. apply spec_ret; [done |].
  exists (root :: frc). split; [by rewrite <- app_assoc |]. by eapply descend_updated.
Qed.
End descend.

(** ** Up: the interior page a deletion copies once its child changed to [c] *)

Section ascend.
Variables (l : nat) (s s1 s2 : St) (frc : list Z) (root h c : Z) (v : list Z) (val : V).
Let i := h / keys leaf l.
Hypothesis Hw : wf_tree s (S l) root.
Hypothesis Hv : holds s root v.
Hypothesis Hint : is_int v.
Hypothesis Hi : 0 ≤ i < PTRS_PER_INTERIOR.
Hypothesis Hc0 : read_child v i ≠ 0.
Hypothesis He1 : ext s s1.

Lemma old_subtree :
  wf_tree s l (read_child v i) ∧ wf_tree s1 l (read_child v i) ∧
  (∀ x, reach s1 l (read_child v i) x ↔ reach s l (read_child v i) x) ∧
  ∀ k, 0 ≤ k < keys leaf l → den s1 l (read_child v i) k = den s l (read_child v i) k.
Proof.
  destruct (old_child is_leaf is_int s l root v Hw Hv i Hi Hc0) as [Hwc _].
  split; [done |]. apply (same_child V0 leaf is_leaf is_int leaf_val leaf_pos s s1 l _ Hwc He1).
Qed.

Hypothesis Hf2 : frame s s2.
Hypothesis Hup : updated s1 l (read_child v i) (h mod keys leaf l) val c frc s2.

Lemma ascend_edge n p s3 s5 :
  ¬ live s2 n → ext s2 s3 → only_at view live n s3 s5 →
  frame s s5 → wf_page p → body p = body v →
  holds s5 n (stamp_checksum (write_child i c p)) →
  edge is_leaf is_int s s1 s3 s5 l root (read_child v i) c n i v
    (stamp_checksum (write_child i c p)) frc.
Proof.
  intros Hn He3 Ho5 Hf5 Hp Hpb Hh5. destruct Hup as (Hcow & Hcr & _).
  destruct old_subtree as (_ & _ & Hr & _).
  destruct (int_update p v i c) as (Hint' & Hver' & Hread); [done.. | by apply id_u64 |].
  assert (Hns : ¬ live s n) by (contradict Hn; eapply live_ext; [apply Hf2 | done]).
  pose proof (cow_later _ _ _ _ _ _ _ _ _ _ Hcow He3) as Hcow3.
  split; auto; try lia.
  - intros x Hx. left. split; [done | by apply Hr].
  - intros _ x Hx. by apply Hr.
  - pose proof (cow_wf _ _ _ _ _ _ _ _ _ Hcow) as [Htc _].
    rewrite (reach_ext _ _ s2 s3 l c n He3 Htc). intros Hx. apply Hn. by eapply reach_live.
  - intros Hx. apply Hn. by eapply cow_live.
  - apply Hf5.
Qed.

Lemma only_at_trans n s3 s4 s5 :
  only_at view live n s3 s4 → only_at view live n s4 s5 → only_at view live n s3 s5.
Proof.
  intros Ho4 Ho5 j. destruct (Ho4 j) as [L4 V4], (Ho5 j) as [L5 V5]. split; [by rewrite L5 |].
  intros Hj Hjn. rewrite V5, V4; [done | done | done | by apply L4 | done].
Qed.

Lemma ascend_updated n p s3 s4 s5 :
  ¬ live s2 n → 0 < n < PAGE_ID_NONE → ext s2 s3 →
  only_at view live n s3 s4 → only_at view live n s4 s5 →
  frame s s5 → wf_page p → body p = body v →
  holds s5 n (stamp_checksum (write_child i c p)) →
  updated s (S l) root h val n (frc ++ [root]) s5.
Proof.
  intros Hn Hnr He3 Ho4 Ho5 Hf5 Hp Hb Hh5.
  pose proof (ascend_edge n p s3 s5 Hn He3 (only_at_trans _ _ _ _ Ho4 Ho5) Hf5 Hp Hb Hh5) as Hedge.
  destruct old_subtree as (_ & _ & _ & Hd1). destruct Hup as (Hcow & Hcr & Hsp & Hdc).
  unfold updated. ands; [| lia | lia | |].
  - eapply edge_cow; [done |]. intros x. rewrite elem_of_app, list_elem_of_singleton. tauto.
  - eapply edge_spine; [done |]. intros _ Hs. eapply spine_ext; [done |]. apply Hsp.
    by eapply spine_ext.
  - eapply edge_den; eauto.
    + intros k Hk. rewrite Hd1 by done. by destruct (Z.eqb_spec (read_child v i) 0).
    + intros k Hk. rewrite <- Hdc by done. eapply cow_later_den; eauto.
Qed.
End ascend.

(** ** Enumeration *)

(** The pairs a subtree contributes, in key order; [sel] drops absent values. *)
Context {E : Type} (sel : V → option E).
Hypothesis sel_none : sel V0 = None.

Definition entries s l root base : list (Z * E) :=
  omap (λ k, (λ e, (sat_add base k, e)) <$> sel (den s l root k)) (seqZ 0 (keys leaf l)).

Lemma sat_add_block base i n k :
  0 ≤ base → 0 ≤ i → 0 ≤ n → 0 ≤ k →
  sat_add (sat_add base (sat_mul i n)) k = sat_add base (i * n + k).
Proof. unfold sat_add, sat_mul. lia. Qed.

Lemma entries_children s l root v base :
  holds s root v → 0 ≤ base →
  entries s (S l) root base =
    concat (map (λ ic, entries s l ic.2 (sat_add base (sat_mul ic.1 (keys leaf l)))) (children v)).
Proof.
  intros Hv Hb. pose proof (keys_pos leaf l leaf_pos). unfold entries, children.
  rewrite keys_S. change 1021 with (Z.of_nat 1021). rewrite omap_blocks by lia.
  change (Z.of_nat 1021) with PTRS_PER_INTERIOR.
  assert (Hr : ∀ i, i ∈ seqZ 0 PTRS_PER_INTERIOR → 0 ≤ i) by (intros i Hi%elem_of_seqZ; lia).
  induction (seqZ 0 PTRS_PER_INTERIOR) as [| i js IH]; [done |].
  cbn [map concat]. rewrite IH by (intros; apply Hr; by right). rewrite filter_cons.
  assert (0 ≤ i) by (apply Hr; left). clear IH Hr.
  assert (Heq : ∀ k, k ∈ seqZ 0 (keys leaf l) →
    (λ e, (sat_add base (i * keys leaf l + k), e)) <$> sel (den s (S l) root (i * keys leaf l + k)) =
    (if read_child v i =? 0 then None else
     (λ e, (sat_add (sat_add base (sat_mul i (keys leaf l))) k, e)) <$>
       sel (den s l (read_child v i) k))).
  { intros k Hk%elem_of_seqZ. rewrite (den_block _ _ _ leaf_pos s l root v), sat_add_block by
      (apply Hv || lia). case_tests; [by rewrite sel_none | done]. }
  rewrite (omap_ext_in _ _ _ Heq). cbn [snd].
  case_decide as Hc; destruct (Z.eqb_spec (read_child v i) 0); try done.
  by rewrite omap_none.
Qed.

(** Keys that all fit in 64 bits. *)
Definition keys_fit s l root : Prop :=
  ∀ k e, 0 ≤ k < keys leaf l → sel (den s l root k) = Some e → k ≤ u64_max.

Lemma entries_keys s l root :
  keys_fit s l root →
  entries s l root 0 = omap (λ k, (λ e, (k, e)) <$> sel (den s l root k)) (seqZ 0 (keys leaf l)).
Proof.
  intros Hk. apply omap_ext_in. intros k Hr%elem_of_seqZ.
  destruct (sel (den s l root k)) as [e |] eqn:Ee; [| done]. simpl. unfold sat_add.
  rewrite Z.min_l; [by rewrite Z.add_0_l |]. pose proof (Hk k e ltac:(lia) Ee). lia.
Qed.

Lemma elem_of_entries s l root h e :
  keys_fit s l root →
  (h, e) ∈ entries s l root 0 ↔ 0 ≤ h < keys leaf l ∧ sel (den s l root h) = Some e.
Proof.
  intros Hk. rewrite entries_keys, list_elem_of_omap by done. split.
  - intros (k & Hr%elem_of_seqZ & (e' & He & [= -> ->])%fmap_Some). split; [lia | done].
  - intros [Hr He]. exists h. split; [apply elem_of_seqZ; lia |]. by rewrite He.
Qed.

Lemma entries_sorted s l root :
  keys_fit s l root → StronglySorted (λ a b, a.1 < b.1) (entries s l root 0).
Proof.
  intros Hk. rewrite entries_keys by done.
  apply omap_sorted; [apply seqZ_sorted |]. by intros k y (e & _ & ->)%fmap_Some.
Qed.
End path.
