(* ===== verification/RadixSession.v ===== *)
(** * Radix trees written in place within a session

    The freemap tree copies a page once per session and writes its own pages in
    place.  A step of its descent fetches a child (its own page, a copy of it, or a
    fresh page) and links it into the page above, which is its own; [upd] is what
    the rest of the descent does below, and [link] composes the two. *)

From S2P Require Export Radix.

Section session.
Context {St : Type} `{HX : Xxh3} `{HF : Fault} `{HP : !PageStore St} `{HS : !StoreOk St}.
Context `{HV : Ver}.
Context {V : Type} (V0 : V) (leaf : Z) (is_leaf is_int : list Z → Prop)
  (leaf_val : list Z → Z → V).
Hypothesis leaf_pos : 0 < leaf.
Implicit Types (s : St) (l : nat).

Abbreviation tree := (tree is_leaf is_int).
Abbreviation wf_tree := (wf_tree is_leaf is_int).
Abbreviation den := (den V0 leaf leaf_val).

(** A tree whose root page may not be stamped yet. *)
Definition open_node s l (cur : Z) : Prop :=
  match l with
  | O => ∃ v, holds s cur v ∧ is_leaf v
  | S l => ∃ v, holds s cur v ∧ is_int v ∧
      ∀ i, 0 ≤ i < PTRS_PER_INTERIOR → read_child v i ≠ 0 → tree s l (read_child v i)
  end.

Definition open_tree s l cur : Prop := open_node s l cur ∧ uniq s l cur.

Lemma wf_open s l cur : wf_tree s l cur → open_tree s l cur.
Proof.
  intros [Ht Hu]. split; [| done]. destruct l; [destruct Ht as (v & ? & ? & _) | destruct Ht as (v & ? & ? & _ & ?)];
    by exists v.
Qed.

Lemma open_live s l cur x : open_tree s l cur → reach s l cur x → live s x.
Proof.
  intros [Ho _]. destruct l as [| l].
  - intros ->. destruct Ho as (v & Hv & _). by eapply holds_live.
  - destruct Ho as (v & Hv & _ & Ht). intros [-> | (v1 & i & H1 & Hi & Hc & Hx)]; [by eapply holds_live |].
    rewrite (holds_fun _ _ _ _ H1 Hv) in *. eapply reach_live; [by apply Ht | done].
Qed.

Lemma sub_agree s s' l cur v i :
  holds s cur v → agree s s' (reach s (S l) cur) → 0 ≤ i < PTRS_PER_INTERIOR → read_child v i ≠ 0 →
  agree s s' (reach s l (read_child v i)).
Proof. intros Hv Ha Hi Hc. eapply agree_sub; [done |]. intros x Hx. right. eauto 10. Qed.

Lemma open_reach_agree s s' l cur x :
  open_tree s l cur → agree s s' (reach s l cur) → reach s' l cur x ↔ reach s l cur x.
Proof.
  intros [Ho _] Ha. destruct l as [| l]; [done |]. destruct Ho as (v & Hv & _ & Ht).
  assert (Hv' : holds s' cur v) by (apply Ha; [apply reach_root | done]).
  cbn [reach]. split; (intros [-> | (v1 & i & H1 & Hi & Hc & Hx)]; [by left | right]).
  - rewrite (holds_fun _ _ _ _ H1 Hv') in *. exists v, i.
    rewrite (reach_agree is_leaf is_int s s') in Hx; [done | by apply Ht | by eapply sub_agree].
  - rewrite (holds_fun _ _ _ _ H1 Hv) in *. exists v, i.
    rewrite (reach_agree is_leaf is_int s s'); [done | by apply Ht | by eapply sub_agree].
Qed.

Lemma open_child s l cur v i :
  open_tree s (S l) cur → holds s cur v → 0 ≤ i < PTRS_PER_INTERIOR → read_child v i ≠ 0 →
  wf_tree s l (read_child v i) ∧
  (∀ x, reach s l (read_child v i) x → reach s (S l) cur x ∧ live s x ∧ x ≠ cur) ∧
  ∀ j x, 0 ≤ j < PTRS_PER_INTERIOR → read_child v j ≠ 0 → i ≠ j →
    reach s l (read_child v i) x → ¬ reach s l (read_child v j) x.
Proof.
  intros [(v1 & H1 & _ & Ht) Hu] Hv Hi Hc. rewrite (holds_fun _ _ _ _ H1 Hv) in *.
  destruct (Hu v Hv i Hi Hc) as (Hu1 & Hu2 & Hu3). ands; [split; [by apply Ht | done] | | done].
  intros x Hx. ands; [right; eauto 10 | eapply reach_live; [by apply Ht | done] | by intros ->].
Qed.

Lemma open_agree s s' l cur :
  open_tree s l cur → agree s s' (reach s l cur) → open_tree s' l cur.
Proof.
  intros Ho Ha. pose proof Ho as [Hn Hu]. destruct l as [| l].
  { destruct Hn as (v & Hv & Hl). split; [| done]. exists v. split; [| done]. apply Ha; [apply reach_root | done]. }
  destruct Hn as (v & Hv & Hint & Ht).
  assert (Hv' : holds s' cur v) by (apply Ha; [apply reach_root | done]). split.
  - exists v. ands; [done | done |]. intros i Hi Hc.
    destruct (open_child s l cur v i Ho Hv Hi Hc) as (Hw & _).
    eapply (wf_agree _ _ s s'); [done | by eapply sub_agree].
  - intros v1 H1 i Hi Hc. rewrite (holds_fun _ _ _ _ H1 Hv') in *. clear v1 H1.
    destruct (open_child s l cur v i Ho Hv Hi Hc) as (Hw & Hin & Hd).
    assert (Ht' : ∀ j, 0 ≤ j < PTRS_PER_INTERIOR → read_child v j ≠ 0 → ∀ x,
      reach s' l (read_child v j) x ↔ reach s l (read_child v j) x).
    { intros j Hj Hcj x. apply (reach_agree is_leaf is_int); [by apply Ht | by eapply sub_agree]. }
    ands.
    + eapply (wf_agree _ _ s s'); [done | by eapply sub_agree].
    + rewrite Ht' by done. intros Hx. by destruct (Hin cur Hx) as (_ & _ & ?).
    + intros j x Hj Hcj Hij. rewrite !Ht' by done. by apply Hd.
Qed.

Lemma open_den_agree s s' l cur k :
  open_tree s l cur → agree s s' (reach s l cur) → 0 ≤ k < keys leaf l →
  den s' l cur k = den s l cur k.
Proof.
  intros [Ho _] Ha Hk. destruct l as [| l].
  - destruct Ho as (v & Hv & _). destruct (Ha cur v) as [_ Hv']; [apply reach_root | done |].
    destruct Hv as [_ Hv]. simpl. by rewrite Hv, Hv'.
  - destruct Ho as (v & Hv & _ & Ht). destruct (Ha cur v) as [_ Hv']; [apply reach_root | done |].
    pose proof (keys_pos leaf l leaf_pos). rewrite keys_S in Hk.
    assert (0 ≤ k / keys leaf l < PTRS_PER_INTERIOR).
    { rewrite ptrs_1021. split; [apply Z.div_pos; lia | apply Z.div_lt_upper_bound; lia]. }
    pose proof Hv as [_ Hvv]. cbn [Radix.den]. rewrite Hvv, Hv'. case_tests; [done |].
    apply (den_agree _ _ is_leaf is_int); [done | by apply Ht | by eapply sub_agree | by apply Z.mod_pos_bound].
Qed.

(** ** What a descent below its own page [cur] does

    [W] is the set of pages of the session before it. *)
Record upd (W : gset Z) s l cur s' (fr : list Z) : Prop := {
  u_live : ∀ x, live s x → live s' x;
  u_keep : ∀ x, live s x → ¬ (x ∈ W ∧ reach s l cur x) → view s' !! x = view s !! x;
  u_wf : wf_tree s' l cur;
  u_new : ∀ x, reach s' l cur x → (reach s l cur x ∧ x ∉ fr) ∨ ¬ live s x;
  u_old : ∀ x, reach s l cur x → reach s' l cur x ∨ x ∈ fr;
  u_freed : ∀ x, x ∈ fr → reach s l cur x ∧ x ∉ W;
  u_disj : ∀ x, x ∈ fr → ¬ reach s' l cur x;
  u_nodup : NoDup fr
}.

(** How a descent obtains the child [n] of its page that was [a]: the session's own
    page, a copy of a page of an earlier session, or a fresh page. *)
Record fetched (W : gset Z) s l (a : Z) s1 (n : Z) (f0 : list Z) : Prop := {
  fe_ext : ext s s1;
  fe_open : open_tree s1 l n;
  fe_cases : (a ≠ 0 ∧ n = a ∧ a ∈ W ∧ f0 = []) ∨ (a ≠ 0 ∧ (a ∉ W) ∧ (¬ live s n) ∧ f0 = [a]) ∨
    (a = 0 ∧ (¬ live s n) ∧ f0 = []);
  fe_reach : ∀ x, reach s1 l n x → x = n ∨ (a ≠ 0 ∧ reach s l a x ∧ (x = a → n = a));
  fe_reach' : a ≠ 0 → ∀ x, reach s l a x → x ≠ a → reach s1 l n x;
  fe_den : ∀ k, 0 ≤ k < keys leaf l → den s1 l n k = (if a =? 0 then V0 else den s l a k);
  fe_id : n ≠ 0
}.

(** Reads before the fetch do not matter. *)
Lemma fetched_later (W : gset Z) s s' l a s1 n f0 :
  ext s s' → (a ≠ 0 → wf_tree s l a) → fetched W s' l a s1 n f0 → fetched W s l a s1 n f0.
Proof.
  intros He Hw [E O C R R' D I].
  assert (Hn : ¬ live s' n → ¬ live s n) by (intros Hn; contradict Hn; by eapply live_ext).
  assert (Hr : a ≠ 0 → ∀ x, reach s' l a x ↔ reach s l a x).
  { intros Ha x. eapply reach_ext; [done | by apply Hw]. }
  split; [by etrans | done | | | | | done].
  - destruct C as [? | [(? & ? & ? & ?) | (? & ? & ?)]]; [by left | right; left; by ands; auto | right; right; by ands; auto].
  - intros x Hx. destruct (R x Hx) as [-> | (Ha & Hra & Hxa)]; [by left | right]. by rewrite Hr in Hra.
  - intros Ha x Hx. apply R'; [done |]. by rewrite Hr.
  - intros k Hk. rewrite D by done. destruct (Z.eqb_spec a 0); [done |].
    apply (den_ext _ _ is_leaf is_int); [done | done | by apply Hw | done].
Qed.

(** ** Fetch, then descend below *)
Section fetch.
Variables (W W' : gset Z) (s s1 s2 s3 : St) (l : nat) (a n : Z) (f0 fr : list Z).
Hypothesis Hfe : fetched W s l a s1 n f0.
Hypothesis Hreach : ∀ x, reach s2 l n x ↔ reach s1 l n x.
Hypothesis Hlive : ∀ x, live s x → live s2 x.
Hypothesis Ha : a ≠ 0 → live s a.
Hypothesis HW : ∀ x, x ∈ W → x ∈ W'.
Hypothesis HnW : n ∈ W'.
Hypothesis Hup : upd W' s2 l n s3 fr.

Lemma fetch_new x : reach s3 l n x → (a ≠ 0 ∧ reach s l a x ∧ x ∉ f0 ++ fr) ∨ ¬ live s x.
Proof.
  intros [[Hx Hf] | Hn]%(u_new _ _ _ _ _ _ Hup); [| right; contradict Hn; by apply Hlive].
  destruct (decide (x = n)) as [-> | Hne].
  - destruct (fe_cases _ _ _ _ _ _ _ Hfe) as [(H0 & Hna & _ & ->) | [(_ & _ & ? & _) | (_ & ? & _)]]; [left | by right..].
    ands; [done | rewrite Hna; apply reach_root | done].
  - rewrite Hreach in Hx. destruct (fe_reach _ _ _ _ _ _ _ Hfe x Hx) as [-> | (H0 & Hra & Hxa)]; [done | left].
    ands; [done | done |]. rewrite elem_of_app. intros [Hin | ?]; [| done].
    destruct (fe_cases _ _ _ _ _ _ _ Hfe) as [(_ & _ & _ & Hf0) | [(_ & _ & _ & Hf0) | (? & _)]]; [| | done];
      rewrite Hf0 in Hin; [by apply not_elem_of_nil in Hin |].
    apply list_elem_of_singleton in Hin. rewrite Hin in *. by apply Hne, eq_sym, Hxa.
Qed.

Lemma fetch_old x : a ≠ 0 → reach s l a x → reach s3 l n x ∨ x ∈ f0 ++ fr.
Proof.
  intros H0 Hx. rewrite elem_of_app. destruct (decide (x = a)) as [-> | Hne].
  - destruct (fe_cases _ _ _ _ _ _ _ Hfe) as [(_ & Hna & _ & _) | [(_ & _ & _ & Hf0) | (? & _)]]; [| | done].
    + rewrite <- Hna. destruct (u_old _ _ _ _ _ _ Hup n (reach_root _ _ _)); auto.
    + right. left. rewrite Hf0. by apply list_elem_of_singleton.
  - destruct (u_old _ _ _ _ _ _ Hup x); auto. rewrite Hreach. by apply (fe_reach' _ _ _ _ _ _ _ Hfe).
Qed.

Lemma fetch_freed x : x ∈ f0 ++ fr → a ≠ 0 ∧ reach s l a x ∧ (x ∉ W) ∧ (¬ reach s3 l n x).
Proof.
  intros [Hx | Hx]%elem_of_app.
  - destruct (fe_cases _ _ _ _ _ _ _ Hfe) as [(_ & _ & _ & Hf0) | [(H0 & HaW & Hn & Hf0) | (_ & _ & Hf0)]];
      rewrite Hf0 in Hx; try by apply not_elem_of_nil in Hx.
    apply list_elem_of_singleton in Hx as ->. ands; [done | apply reach_root | done |].
    intros [(_ & _ & Hni) | Hnl]%fetch_new; [apply Hni; rewrite Hf0; left | by apply Hnl, Ha].
  - destruct (u_freed _ _ _ _ _ _ Hup x Hx) as [Hr Hw]. rewrite Hreach in Hr.
    destruct (fe_reach _ _ _ _ _ _ _ Hfe x Hr) as [-> | (? & ? & _)]; [done |].
    ands; [done | done | auto | by apply (u_disj _ _ _ _ _ _ Hup)].
Qed.

Lemma fetch_nodup : NoDup (f0 ++ fr).
Proof.
  pose proof (u_nodup _ _ _ _ _ _ Hup) as Hnd.
  destruct (fe_cases _ _ _ _ _ _ _ Hfe) as [(_ & _ & _ & ->) | [(H0 & HaW & Hn & ->) | (_ & _ & ->)]]; [done | | done].
  apply NoDup_cons. split; [| done]. intros Hx. destruct (u_freed _ _ _ _ _ _ Hup a Hx) as [Hr Hw].
  rewrite Hreach in Hr. destruct (fe_reach _ _ _ _ _ _ _ Hfe a Hr) as [-> | (_ & _ & Hna)]; [done |].
  rewrite Hna in Hn by done. auto.
Qed.
End fetch.

Section link.
Variables (W W' : gset Z) (s s1 s2 s3 : St) (l : nat) (cur i n : Z) (v v2 f0 fr : list Z).
Abbreviation a := (read_child v i).
Hypothesis Hopen : open_tree s (S l) cur.
Hypothesis Hv : holds s cur v.
Hypothesis Hi : 0 ≤ i < PTRS_PER_INTERIOR.
Hypothesis Hfe : fetched W s l a s1 n f0.
Hypothesis Ho : only_at view live cur s1 s2.
Hypothesis Hv2 : holds s2 cur v2.
Hypothesis Hint : is_int v2.
Hypothesis Hver : ver v2.
Hypothesis Hch : ∀ j, 0 ≤ j < PTRS_PER_INTERIOR →
  read_child v2 j = if decide (j = i) then n else read_child v j.
Hypothesis HW : ∀ x, x ∈ W → x ∈ W'.
Hypothesis HW' : ∀ x, x ∈ W' → x ∈ W ∨ x = n.
Hypothesis HnW : n ∈ W'.
Hypothesis Hcur : cur ∈ W.

(** The new child's pages are the old child's, or fresh. *)
Lemma fetched_page x : reach s1 l n x → live s x → a ≠ 0 ∧ reach s l a x ∧ (x = a → n = a).
Proof.
  intros Hx Hl. destruct (fe_reach _ _ _ _ _ _ _ Hfe x Hx) as [-> | ?]; [| done].
  destruct (fe_cases _ _ _ _ _ _ _ Hfe) as [(H0 & Hna & _) | [(_ & _ & Hn & _) | (_ & Hn & _)]]; [| done | done].
  rewrite Hna. ands; [done | apply reach_root | done].
Qed.

Lemma live_cur : live s cur.
Proof. by eapply holds_live. Qed.

Lemma cur_apart : ¬ reach s1 l n cur.
Proof.
  intros Hx. destruct (fetched_page cur Hx live_cur) as (Ha & Hr & _).
  destruct (open_child s l cur v i Hopen Hv Hi Ha) as (_ & Hin & _). by destruct (Hin cur Hr) as (_ & _ & ?).
Qed.

Lemma agree_n : agree s1 s2 (reach s1 l n).
Proof. intros x w Hx Hw. eapply only_at_holds; [done | | done]. intros ->. by apply cur_apart. Qed.

Lemma open_n : open_tree s2 l n.
Proof. eapply open_agree; [apply (fe_open _ _ _ _ _ _ _ Hfe) | apply agree_n]. Qed.

Lemma reach_n x : reach s2 l n x ↔ reach s1 l n x.
Proof. apply open_reach_agree; [apply (fe_open _ _ _ _ _ _ _ Hfe) | apply agree_n]. Qed.

Lemma den_n k : 0 ≤ k < keys leaf l → den s2 l n k = if a =? 0 then V0 else den s l a k.
Proof.
  intros Hk. rewrite (open_den_agree s1 s2); [by apply (fe_den _ _ _ _ _ _ _ Hfe) | | apply agree_n | done].
  apply (fe_open _ _ _ _ _ _ _ Hfe).
Qed.

Hypothesis Hup : upd W' s2 l n s3 fr.

Lemma live_2 x : live s x → live s2 x.
Proof. intros Hx. apply (only_at_live _ _ _ _ Ho). eapply live_ext; [apply (fe_ext _ _ _ _ _ _ _ Hfe) | done]. Qed.

(** A live page outside the old child is as it was, [cur] apart. *)
Lemma kept x : live s x → x ≠ cur → ¬ (x ∈ W ∧ a ≠ 0 ∧ reach s l a x) → view s3 !! x = view s !! x.
Proof.
  intros Hl Hc Hn. rewrite (u_keep _ _ _ _ _ _ Hup); [| by apply live_2 |].
  - destruct (fe_ext _ _ _ _ _ _ _ Hfe x Hl) as [Hl1 Hv1]. destruct (Ho x) as [_ Hx]. by rewrite Hx.
  - rewrite reach_n. intros [Hw Hr]. destruct (fetched_page x Hr Hl) as (Ha & Hra & Hne).
    destruct (HW' x Hw) as [Hwx | ->]; [by apply Hn |].
    destruct (fe_cases _ _ _ _ _ _ _ Hfe) as [(_ & Hna & HaW & _) | [(_ & _ & Hnl & _) | (_ & Hnl & _)]]; [| done | done].
    apply Hn. split; [by rewrite Hna | done].
Qed.

Lemma holds_cur : holds s3 cur v2.
Proof.
  pose proof Hv2 as [Hl2 Hv2']. split; [by apply (u_live _ _ _ _ _ _ Hup) |].
  rewrite (u_keep _ _ _ _ _ _ Hup); [done | done |]. rewrite reach_n. intros [_ Hx]. by apply cur_apart.
Qed.

(** The other children. *)
Lemma other_child j :
  0 ≤ j < PTRS_PER_INTERIOR → read_child v j ≠ 0 → j ≠ i →
  wf_tree s3 l (read_child v j) ∧ (∀ x, reach s3 l (read_child v j) x ↔ reach s l (read_child v j) x) ∧
  (∀ k, 0 ≤ k < keys leaf l → den s3 l (read_child v j) k = den s l (read_child v j) k).
Proof.
  intros Hj Hc Hji. destruct (open_child s l cur v j Hopen Hv Hj Hc) as (Hw & Hin & Hd).
  assert (Ha : agree s s3 (reach s l (read_child v j))).
  { intros x w Hx [Hl Hvx]. destruct (Hin x Hx) as (_ & _ & Hxc). split.
    - by apply (u_live _ _ _ _ _ _ Hup), live_2.
    - rewrite kept; [done | done | done |]. intros (_ & Ha & Hra). by apply (Hd i x Hi Ha). }
  ands; [by eapply wf_agree | |].
  - intros x. apply (reach_agree is_leaf is_int); [apply Hw | done].
  - intros k Hk. apply (den_agree _ _ is_leaf is_int); [done | apply Hw | done | done].
Qed.

(** The child that was, when there was one. *)
Lemma live_a : a ≠ 0 → live s a.
Proof.
  intros Ha. destruct (open_child s l cur v i Hopen Hv Hi Ha) as (_ & Hin & _).
  by destruct (Hin a (reach_root _ _ _)) as (_ & ? & _).
Qed.

Lemma new_sub x : reach s3 l n x → (a ≠ 0 ∧ reach s l a x ∧ x ∉ f0 ++ fr) ∨ ¬ live s x.
Proof. eapply fetch_new; [exact Hfe | apply reach_n | apply live_2 | exact Hup]. Qed.

Lemma old_sub x : a ≠ 0 → reach s l a x → reach s3 l n x ∨ x ∈ f0 ++ fr.
Proof. eapply fetch_old; [exact Hfe | apply reach_n | exact Hup]. Qed.

Lemma freed_sub x : x ∈ f0 ++ fr → a ≠ 0 ∧ reach s l a x ∧ (x ∉ W) ∧ (¬ reach s3 l n x).
Proof. eapply fetch_freed; [exact Hfe | apply reach_n | apply live_2 | apply live_a | exact HW | exact HnW | exact Hup]. Qed.

Lemma link_reach x :
  reach s3 (S l) cur x ↔ x = cur ∨ reach s3 l n x ∨
    ∃ j, 0 ≤ j < PTRS_PER_INTERIOR ∧ read_child v j ≠ 0 ∧ j ≠ i ∧ reach s l (read_child v j) x.
Proof.
  pose proof holds_cur as Hv3. cbn [reach]. split.
  - intros [-> | (v1 & j & H1 & Hj & Hcj & Hr)]; [by left | right].
    rewrite (holds_fun _ _ _ _ H1 Hv3) in *. rewrite Hch in * by done. case_decide; [by left | right].
    exists j. destruct (other_child j Hj Hcj) as (_ & Hoc & _); [done |].
    ands; [lia | lia | done | done |]. by apply Hoc.
  - intros [-> | [Hr | (j & Hj & Hcj & Hji & Hr)]]; [by left | right..].
    + exists v2, i. rewrite Hch, decide_True by done. ands; [done | lia | lia | | done].
      apply (fe_id _ _ _ _ _ _ _ Hfe).
    + exists v2, j. rewrite Hch, decide_False by done. ands; [done | lia | lia | done |].
      by apply (other_child j).
Qed.

(** A page of another child is neither in the new child nor superseded. *)
Lemma other_apart j x :
  0 ≤ j < PTRS_PER_INTERIOR → read_child v j ≠ 0 → j ≠ i → reach s l (read_child v j) x →
  ¬ reach s3 l n x ∧ x ∉ f0 ++ fr.
Proof.
  intros Hj Hcj Hji Hx. destruct (open_child s l cur v j Hopen Hv Hj Hcj) as (_ & Hin & Hd).
  destruct (Hin x Hx) as (_ & Hl & _). split.
  - intros [(Ha & Hra & _) | ?]%new_sub; [by apply (Hd i x Hi Ha) | done].
  - intros (Ha & Hra & _)%freed_sub. by apply (Hd i x Hi Ha).
Qed.

Lemma cur_apart3 : ¬ reach s3 l n cur ∧ cur ∉ f0 ++ fr.
Proof.
  assert (Hno : ¬ (a ≠ 0 ∧ reach s l a cur)).
  { intros [Ha Hra]. destruct (open_child s l cur v i Hopen Hv Hi Ha) as (_ & Hin & _).
    by destruct (Hin cur Hra) as (_ & _ & ?). }
  split.
  - intros [(? & ? & _) | Hn]%new_sub; [by apply Hno | by apply Hn, live_cur].
  - intros (? & ? & _)%freed_sub. by apply Hno.
Qed.

Lemma link_wf : wf_tree s3 (S l) cur.
Proof.
  pose proof holds_cur as Hv3. pose proof (u_wf _ _ _ _ _ _ Hup) as Hwn. split.
  - exists v2. ands; [done | done | done |]. intros j Hj. rewrite Hch by done. case_decide.
    + intros _. apply Hwn.
    + intros Hcj. by apply other_child.
  - intros v1 H1 j Hj Hcj. rewrite (holds_fun _ _ _ _ H1 Hv3) in *. clear v1 H1.
    rewrite Hch in * by done. destruct (decide (j = i)) as [-> | Hji].
    + ands; [apply Hwn | apply cur_apart3 |]. intros k x Hk. rewrite Hch by done.
      case_decide as Hki; [intros _ Hik; by rewrite Hki in Hik |]. intros Hck _ Hx.
      rewrite (proj1 (proj2 (other_child k Hk Hck Hki))). intros Hx'. by apply (proj1 (other_apart k x Hk Hck Hki Hx')).
    + destruct (other_child j Hj Hcj Hji) as (Hw & Hr & _).
      destruct (open_child s l cur v j Hopen Hv Hj Hcj) as (_ & Hin & Hd).
      ands; [apply Hw | rewrite Hr; intros Hx; by destruct (Hin cur Hx) as (_ & _ & ?) |].
      intros k x Hk. rewrite Hch, Hr by done. case_decide as Hki; [intros _ _ Hx; by apply (proj1 (other_apart j x Hj Hcj Hji Hx)) |].
      intros Hck Hjk Hx. rewrite (proj1 (proj2 (other_child k Hk Hck Hki))). by apply Hd.
Qed.

(** One step of a descent and the rest of it make a descent. *)
Lemma link_upd : upd W s (S l) cur s3 (f0 ++ fr).
Proof.
  assert (Hup_reach : ∀ x, a ≠ 0 → reach s l a x → reach s (S l) cur x ∧ live s x).
  { intros x Ha Hx. destruct (open_child s l cur v i Hopen Hv Hi Ha) as (_ & Hin & _).
    by destruct (Hin x Hx) as (? & ? & _). }
  destruct cur_apart3 as [Hc1 Hc2].
  split.
  - intros x Hx. by apply (u_live _ _ _ _ _ _ Hup), live_2.
  - intros x Hx Hn. apply kept; [done | |].
    + intros ->. apply Hn. split; [done | apply reach_root].
    + intros (Hw & Ha & Hr). apply Hn. split; [done | by apply Hup_reach].
  - apply link_wf.
  - intros x. rewrite link_reach. intros [-> | [Hr | (j & Hj & Hcj & Hji & Hr)]].
    + left. split; [apply reach_root | done].
    + destruct (new_sub x Hr) as [(Ha & Hra & Hf) | ?]; [left | by right]. split; [by apply Hup_reach | done].
    + left. destruct (other_apart j x) as [_ Hf]; [done.. |]. split; [right; eauto 10 | done].
  - intros x. rewrite link_reach. intros [-> | (v1 & j & H1 & Hj & Hcj & Hr)]; [by left; left |].
    rewrite (holds_fun _ _ _ _ H1 Hv) in *. destruct (decide (j = i)) as [-> | Hji].
    + destruct (old_sub x Hcj Hr); auto.
    + left. right. right. eauto.
  - intros x Hx. destruct (freed_sub x Hx) as (Ha & Hr & Hw & _). split; [by apply Hup_reach | done].
  - intros x Hx. rewrite link_reach. intros [-> | [Hr | (j & Hj & Hcj & Hji & Hr)]]; [done | |].
    + by apply (freed_sub x Hx).
    + by destruct (other_apart j x).
  - eapply fetch_nodup; [exact Hfe | apply reach_n | apply live_a | exact HnW | exact Hup].
Qed.

Lemma link_den key val :
  i = key / keys leaf l →
  (∀ k, 0 ≤ k < keys leaf l → den s3 l n k = if decide (k = key mod keys leaf l) then val k else den s2 l n k) →
  ∀ k, 0 ≤ k < keys leaf (S l) →
    den s3 (S l) cur k = if decide (k = key) then val (k mod keys leaf l) else den s (S l) cur k.
Proof.
  intros Hik Hd k Hk. pose proof (keys_pos leaf l leaf_pos) as Hpos. rewrite keys_S in Hk.
  assert (Hj : 0 ≤ k / keys leaf l < PTRS_PER_INTERIOR).
  { rewrite ptrs_1021. split; [apply Z.div_pos; lia | apply Z.div_lt_upper_bound; lia]. }
  pose proof (Z.mod_pos_bound k (keys leaf l) Hpos).
  cbn [Radix.den]. destruct holds_cur as [_ ->]. pose proof Hv as [_ ->]. rewrite Hch by done.
  case_decide as Hji.
  - destruct (Z.eqb_spec n 0) as [Hn0 |]; [by destruct (fe_id _ _ _ _ _ _ _ Hfe) |].
    rewrite Hd by done. pose proof (Z.div_mod k (keys leaf l)). pose proof (Z.div_mod key (keys leaf l)).
    destruct (decide (k = key)) as [-> |]; [by rewrite decide_True |].
    rewrite decide_False by (intros E; rewrite Hji, Hik, E in *; lia). rewrite den_n, Hji by done. done.
  - rewrite decide_False by (intros ->; congruence).
    destruct (Z.eqb_spec (read_child v (k / keys leaf l)) 0); [done |].
    by apply other_child.
Qed.
End link.

(** ** The three ways to fetch a node *)

Lemma fetched_own (W : gset Z) s s1 l a :
  wf_tree s l a → ext s s1 → a ∈ W → a ≠ 0 → fetched W s l a s1 a [].
Proof.
  intros Hw He Ha H0. destruct (same_child V0 leaf is_leaf is_int leaf_val leaf_pos s s1 l a Hw He) as (Hw1 & Hr & Hd).
  split; [done | by apply wf_open | by left | | | | done].
  - intros x Hx. right. by rewrite <- Hr.
  - intros _ x Hx _. by rewrite Hr.
  - intros k Hk. destruct (Z.eqb_spec a 0); [done | auto].
Qed.

Lemma fetched_fresh (W : gset Z) s s1 l n v :
  ext s s1 → ¬ live s n → n ≠ 0 → holds s1 n v → empty_node V0 leaf is_leaf is_int leaf_val l v →
  fetched W s l 0 s1 n [].
Proof.
  intros He Hn H0 Hv Hempty.
  destruct (fresh_node V0 leaf is_leaf is_int leaf_val leaf_pos s1 l n v Hv Hempty) as (Hw & Hr & Hd).
  split; [done | by apply wf_open | by right; right | | done | done | done].
  intros x Hx. left. by apply Hr.
Qed.

(** A copy [n] of the page [a] has its children and entries. *)
Section copy.
Variables (W : gset Z) (s s1 : St) (a n : Z) (v v' : list Z).
Hypothesis He : ext s s1.
Hypothesis Hn : ¬ live s n.
Hypothesis Hn0 : n ≠ 0.
Hypothesis Ha0 : a ≠ 0.
Hypothesis HaW : a ∉ W.
Hypothesis Hv : holds s a v.
Hypothesis Hv' : holds s1 n v'.

Lemma fetched_copy_leaf :
  is_leaf v' → (∀ k, 0 ≤ k < leaf → leaf_val v' k = leaf_val v k) → fetched W s 0 a s1 n [a].
Proof.
  intros Hl Hk. split; [done | split; [by exists v' | done] | by right; left | | | | done].
  - intros x Hx. by left.
  - intros _ x -> Hne. done.
  - intros k. unfold keys. simpl. intros Hr. destruct Hv as [_ ->], Hv' as [_ ->].
    destruct (Z.eqb_spec a 0); [done |]. apply Hk. lia.
Qed.

Variable l : nat.
Hypothesis Hw : wf_tree s (S l) a.
Hypothesis Hint : is_int v'.
Hypothesis Hch : ∀ i, 0 ≤ i < PTRS_PER_INTERIOR → read_child v' i = read_child v i.

Lemma copy_child i :
  0 ≤ i < PTRS_PER_INTERIOR → read_child v i ≠ 0 →
  wf_tree s1 l (read_child v i) ∧ (∀ x, reach s1 l (read_child v i) x ↔ reach s l (read_child v i) x) ∧
  (∀ k, 0 ≤ k < keys leaf l → den s1 l (read_child v i) k = den s l (read_child v i) k) ∧
  (∀ x, reach s l (read_child v i) x → reach s (S l) a x ∧ live s x ∧ x ≠ a).
Proof.
  intros Hi Hc. destruct (open_child s l a v i (wf_open _ _ _ Hw) Hv Hi Hc) as (Hwc & Hin & _).
  destruct (same_child V0 leaf is_leaf is_int leaf_val leaf_pos s s1 l _ Hwc He) as (? & ? & ?).
  by ands.
Qed.

Lemma copy_open : open_tree s1 (S l) n.
Proof.
  split.
  - exists v'. ands; [done | done |]. intros i Hi. rewrite Hch by done. intros Hc. by apply copy_child.
  - intros w H1 i Hi Hc. rewrite (holds_fun _ _ _ _ H1 Hv') in *. rewrite Hch in * by done.
    destruct (copy_child i Hi Hc) as (Hwi & Hri & _ & Hini). ands; [apply Hwi | |].
    + rewrite Hri. intros Hx. by destruct (Hini n Hx) as (_ & ? & _).
    + intros j x Hj. rewrite Hch by done. intros Hcj Hij. rewrite Hri.
      destruct (copy_child j Hj Hcj) as (_ & -> & _).
      destruct (open_child s l a v i (wf_open _ _ _ Hw) Hv Hi Hc) as (_ & _ & Hd). by apply Hd.
Qed.

Lemma fetched_copy : fetched W s (S l) a s1 n [a].
Proof.
  split; [done | apply copy_open | by right; left | | | | done].
  - intros x [-> | (w & i & H1 & Hi & Hc & Hx)]; [by left | right].
    rewrite (holds_fun _ _ _ _ H1 Hv') in *. rewrite Hch in * by done.
    destruct (copy_child i Hi Hc) as (_ & Hr & _ & Hin). rewrite Hr in Hx.
    destruct (Hin x Hx) as (? & _ & ?). by ands.
  - intros _ x [-> | (w & i & H1 & Hi & Hc & Hx)] Hne; [done | right].
    rewrite (holds_fun _ _ _ _ H1 Hv) in *. exists v', i. rewrite Hch by done.
    destruct (copy_child i Hi Hc) as (_ & Hr & _). by rewrite Hr.
  - intros k Hk. pose proof (keys_pos leaf l leaf_pos). rewrite keys_S in Hk.
    assert (Hi : 0 ≤ k / keys leaf l < PTRS_PER_INTERIOR).
    { rewrite ptrs_1021. split; [apply Z.div_pos; lia | apply Z.div_lt_upper_bound; lia]. }
    cbn [Radix.den]. pose proof Hv as [_ ->]. pose proof Hv' as [_ ->]. rewrite Hch by done.
    destruct (Z.eqb_spec a 0); [done |]. destruct (Z.eqb_spec (read_child v (k / keys leaf l)) 0); [done |].
    apply copy_child; [done | done |]. by apply Z.mod_pos_bound.
Qed.
End copy.

(** A write to the leaf at the end of a descent. *)
Lemma upd_leaf (W : gset Z) s s' cur v' :
  only_at view live cur s s' → live s cur → cur ∈ W → holds s' cur v' → is_leaf v' → ver v' →
  upd W s 0 cur s' [].
Proof.
  intros Ho Hl Hc Hv Hlf Hver. split; simpl.
  - intros x. apply (only_at_live _ _ _ _ Ho).
  - intros x Hx Hn. apply (Ho x); [done |]. intros ->. by apply Hn.
  - split; [by exists v' | done].
  - intros x ->. left. split; [done | apply not_elem_of_nil].
  - intros x ->. by left.
  - intros x Hx. by apply not_elem_of_nil in Hx.
  - intros x Hx. by apply not_elem_of_nil in Hx.
  - apply NoDup_nil_2.
Qed.

(** Only pages outside the tree were written. *)
Lemma upd_ext (W : gset Z) s s' l cur : ext s s' → wf_tree s l cur → upd W s l cur s' [].
Proof.
  intros He Hw. assert (Hr : ∀ x, reach s' l cur x ↔ reach s l cur x).
  { intros x. eapply reach_ext; [done | apply Hw]. }
  split.
  - intros x. by apply live_ext.
  - intros x Hx _. by apply He.
  - by eapply wf_ext.
  - intros x Hx. left. split; [by rewrite <- Hr | apply not_elem_of_nil].
  - intros x Hx. left. by rewrite Hr.
  - intros x Hx. by apply not_elem_of_nil in Hx.
  - intros x Hx. by apply not_elem_of_nil in Hx.
  - apply NoDup_nil_2.
Qed.
End session.

(** ** Trees whose pages need not be stamped

    What is left of a tree by an operation that failed between two writes. *)

Definition any_ver : Ver := λ _, True.

Section any_ver.
Context {St : Type} `{HX : Xxh3} `{HF : Fault} `{HP : !PageStore St} `{HS : !StoreOk St} `{HV : Ver}.
Context {V : Type} (V0 : V) (leaf : Z) (is_leaf is_int : list Z → Prop) (leaf_val : list Z → Z → V).
Implicit Types (s : St) (l : nat).

Lemma tree_any s l root : tree is_leaf is_int s l root → tree (HV := any_ver) is_leaf is_int s l root.
Proof.
  revert root. induction l as [| l IH]; intros root; [intros (v & ? & ? & _); by exists v |].
  intros (v & ? & ? & _ & Hc). exists v. ands; [done | done | done |]. intros i Hi Hci. apply IH. auto.
Qed.

Lemma wf_any s l root : wf_tree is_leaf is_int s l root → wf_tree (HV := any_ver) is_leaf is_int s l root.
Proof. intros [Ht Hu]. split; [by apply tree_any | done]. Qed.

Lemma open_any s l cur : open_tree is_leaf is_int s l cur → open_tree (HV := any_ver) is_leaf is_int s l cur.
Proof.
  intros [Ho Hu]. split; [| done]. destruct l as [| l]; [done |]. destruct Ho as (v & ? & ? & Hc).
  exists v. ands; [done | done |]. intros i Hi Hci. apply tree_any. auto.
Qed.

Lemma any_open s l cur : open_tree (HV := any_ver) is_leaf is_int s l cur → wf_tree (HV := any_ver) is_leaf is_int s l cur.
Proof. intros [Ho Hu]. split; [| done]. destruct l; [destruct Ho as (v & ? & ?) | destruct Ho as (v & ? & ? & ?)]; by exists v. Qed.

Lemma fetched_any (W : gset Z) s l a s1 n f0 :
  fetched V0 leaf is_leaf is_int leaf_val W s l a s1 n f0 →
  fetched (HV := any_ver) V0 leaf is_leaf is_int leaf_val W s l a s1 n f0.
Proof. intros []. split; try done. by apply open_any. Qed.

Lemma upd_any (W : gset Z) s l cur s' fr :
  upd is_leaf is_int W s l cur s' fr → upd (HV := any_ver) is_leaf is_int W s l cur s' fr.
Proof. intros []. split; try done. by apply wf_any. Qed.
End any_ver.
