(* ===== verification/HandleTable.v ===== *)
(** * The handle table ([src/handle_table.rs])

    The copy-on-write radix tree from handles to [(page, slot)] entries.  The
    functions run in [M (St * list Z)] where the code takes the cache and the
    [freed] vector, and in [M (St * list Z * HandleTable)] where it also mutates
    [self]; [alloc] is the closure the transaction layer injects.  A level or a
    depth is a [nat].  Slices the code takes without a check of the index are
    guarded by a [PanicSlice]. *)

From S2P Require Export RadixPath.

Definition ENTRY_SIZE : Z := 16.
Definition ENTRIES_PER_LEAF : Z := (CHECKSUM_OFFSET - DATA_PAGE_HEADER_SIZE) / ENTRY_SIZE.
Definition FLAG_LEAF : Z := 1.
Definition FLAG_INTERIOR : Z := 2.

Module HandleTable.

Definition MAX_DEPTH : nat := 6.

Inductive HandleFlags := Live | Deleted | Overflow.

#[export] Instance HandleFlags_eq_dec : EqDecision HandleFlags.
Proof. solve_decision. Defined.

Definition to_u8 (f : HandleFlags) : Z :=
  match f with Live => 0x01 | Deleted => 0x00 | Overflow => 0x02 end.

Definition from_u8 (v : Z) : HandleFlags :=
  if v =? 0x01 then Live else if v =? 0x02 then Overflow else Deleted.

Record HandleEntry := {
  page_id : Z;
  slot_index : Z;
  flags : HandleFlags;
  tag : Z;
  client_byte : Z
}.

#[export] Instance HandleEntry_eq_dec : EqDecision HandleEntry.
Proof. solve_decision. Defined.

Record HandleTable := { depth : nat }.

Definition new : HandleTable := {| depth := 0 |}.

Definition read_entry (buf : list Z) (index : Z) : HandleEntry :=
  let base := DATA_PAGE_HEADER_SIZE + index * ENTRY_SIZE in
  {| page_id := get_u64 base buf;
     slot_index := get_u16 (base + 8) buf;
     flags := from_u8 (getb (base + 10) buf);
     tag := get_u32 (base + 11) buf;
     client_byte := getb (base + 15) buf |}.

Definition write_entry (index : Z) (entry : HandleEntry) (buf : list Z) : list Z :=
  let base := DATA_PAGE_HEADER_SIZE + index * ENTRY_SIZE in
  let buf := put_u64 base (page_id entry) buf in
  let buf := put_u16 (base + 8) (slot_index entry) buf in
  let buf := setb (base + 10) (to_u8 (flags entry)) buf in
  let buf := put_u32 (base + 11) (tag entry) buf in
  setb (base + 15) (client_byte entry) buf.

(** [fill(0)], the type tag, the leaf/interior flag and the version byte. *)
Definition init_node (flag : Z) (buf : list Z) : list Z :=
  let buf := zeros (zlen buf) in
  let buf := setb 0 (type_tag HandleTablePage) buf in
  let buf := setb 1 flag buf in
  setb 2 (current_version HandleTablePage) buf.

Definition capacity (self : HandleTable) : Z := sat_pow ENTRIES_PER_LEAF (depth self).

(** [for _ in 1..level] runs [level - 1] times. *)
Definition span_at_level (level : nat) : Z := sat_pow ENTRIES_PER_LEAF (level - 1).

Section ops.
Context {St : Type} `{HX : Xxh3} `{HP : !PageStore St}.

Definition create_root : M (St * HandleTable) Z :=
  let* page_id := lift ps_new_page in
  assert_that PanicAssert (negb (page_id =? 0)) ;;;
  lift (ps_modify page_id (λ buf, stamp_checksum (init_node FLAG_LEAF buf))) ;;;
  writes (λ sx, (sx.1, {| depth := 0 |})) ;;;
  ret page_id.

(** The loop of [find_leaf], from [level] down. *)
Fixpoint find_loop (level : nat) (current remaining : Z) : M St (option (Z * Z)) :=
  match level with
  | O => ret (Some (current, remaining mod ENTRIES_PER_LEAF))
  | S l =>
      let child_span := span_at_level level in
      let child_idx := remaining / child_span in
      if PTRS_PER_INTERIOR <=? child_idx then ret None else
      let remaining := remaining mod child_span in
      let* buf := ps_get current in
      if negb (getb 0 buf =? type_tag HandleTablePage) || negb (getb 1 buf =? FLAG_INTERIOR)
      then fail (CorruptPage current) else
      let child := read_child buf child_idx in
      if child =? 0 then ret None else
      find_loop l child remaining
  end.

Definition find_leaf (self : HandleTable) (page_id handle : Z) : M St (option (Z * Z)) :=
  let cap := capacity self in
  if negb (cap =? u64_max) && (cap <=? handle) then ret None else
  match depth self with
  | O => ret (Some (page_id, handle mod ENTRIES_PER_LEAF))
  | S _ => find_loop (depth self) page_id handle
  end.

Definition lookup (self : HandleTable) (root handle : Z) : M St (option HandleEntry) :=
  if root =? PAGE_ID_NONE then ret None else
  let* found := find_leaf self root handle in
  match found with
  | None => ret None
  | Some (leaf_page, index) =>
      let* buf := ps_get leaf_page in
      let entry := read_entry buf index in
      match flags entry with
      | Deleted => ret None
      | _ => ret (Some entry)
      end
  end.

Variable alloc : M St Z.

Definition grow (old_root : Z) : M (St * list Z * HandleTable) Z :=
  let* new_root := lift (lift alloc) in
  assert_that PanicAssert (negb (new_root =? 0)) ;;;
  lift (lift (ps_modify new_root (λ buf,
    stamp_checksum (put_u64 DATA_PAGE_HEADER_SIZE old_root (init_node FLAG_INTERIOR buf))))) ;;;
  writes (λ sx, (sx.1, {| depth := S (depth sx.2) |})) ;;;
  ret new_root.

Fixpoint insert_recursive (level : nat) (page_id handle : Z) (entry : HandleEntry)
    : M (St * list Z) Z :=
  let* new_page := lift alloc in
  assert_that PanicAssert (negb (new_page =? 0)) ;;;
  lift (copy_page page_id new_page) ;;;
  push_freed page_id ;;;
  match level with
  | O =>
      let index := handle mod ENTRIES_PER_LEAF in
      lift (ps_modify new_page (λ buf, stamp_checksum (write_entry index entry buf))) ;;;
      ret new_page
  | S l =>
      let child_span := span_at_level level in
      let child_idx := handle / child_span in
      let* buf := lift (ps_get new_page) in
      slice_guard child_idx ;;;
      let child_page := read_child buf child_idx in
      let* actual_child :=
        (if child_page =? 0 then
           match l with
           | O =>
               let* leaf := lift alloc in
               assert_that PanicAssert (negb (leaf =? 0)) ;;;
               lift (ps_modify leaf (λ buf, stamp_checksum (init_node FLAG_LEAF buf))) ;;;
               ret leaf
           | S _ =>
               let* interior := lift alloc in
               assert_that PanicAssert (negb (interior =? 0)) ;;;
               lift (ps_modify interior (λ buf, stamp_checksum (init_node FLAG_INTERIOR buf))) ;;;
               ret interior
           end
         else ret child_page) in
      let* new_child := insert_recursive l actual_child (handle mod child_span) entry in
      lift (ps_modify new_page (λ buf, stamp_checksum (write_child child_idx new_child buf))) ;;;
      ret new_page
  end.

(** The growth loop of [insert]; the depth grows to [MAX_DEPTH] at most, so
    [MAX_DEPTH] turns are enough. *)
Fixpoint grow_loop (fuel : nat) (current_root handle : Z) : M (St * list Z * HandleTable) Z :=
  match fuel with
  | O => ret current_root
  | S fuel =>
      let* self := reads snd in
      if (depth self <? MAX_DEPTH)%nat && (capacity self <=? handle) then
        let* current_root := grow current_root in
        grow_loop fuel current_root handle
      else ret current_root
  end.

Definition insert (root handle : Z) (entry : HandleEntry) : M (St * list Z * HandleTable) Z :=
  let* saved := reads snd in
  let restore (sx : St * list Z * HandleTable) := (sx.1, {| depth := depth saved |}) in
  let* current_root := on_err (grow_loop MAX_DEPTH root handle) restore in
  let* self := reads snd in
  on_err (lift (insert_recursive (depth self) current_root handle entry)) restore.

Definition tombstone : HandleEntry :=
  {| page_id := 0; slot_index := 0; flags := Deleted; tag := 0; client_byte := 0 |}.

Fixpoint delete_recursive (level : nat) (page handle : Z)
    : M (St * list Z) (Z * option HandleEntry) :=
  match level with
  | O =>
      let index := handle mod ENTRIES_PER_LEAF in
      let* buf := lift (ps_get page) in
      let entry := read_entry buf index in
      match flags entry with
      | Deleted => ret (page, None)
      | Live | Overflow =>
          let* new_leaf := lift alloc in
          assert_that PanicAssert (negb (new_leaf =? 0)) ;;;
          lift (copy_page page new_leaf) ;;;
          push_freed page ;;;
          lift (ps_modify new_leaf (λ buf, stamp_checksum (write_entry index tombstone buf))) ;;;
          ret (new_leaf, Some entry)
      end
  | S l =>
      let child_span := span_at_level level in
      let child_idx := handle / child_span in
      let* buf := lift (ps_get page) in
      slice_guard child_idx ;;;
      let child_page := read_child buf child_idx in
      if child_page =? 0 then ret (page, None) else
      let* '(new_child, prev_entry) := delete_recursive l child_page (handle mod child_span) in
      match prev_entry with
      | None => ret (page, None)
      | Some _ =>
          let* new_page := lift alloc in
          assert_that PanicAssert (negb (new_page =? 0)) ;;;
          lift (copy_page page new_page) ;;;
          push_freed page ;;;
          lift (ps_modify new_page (λ buf, stamp_checksum (write_child child_idx new_child buf))) ;;;
          ret (new_page, prev_entry)
      end
  end.

Definition delete (self : HandleTable) (root handle : Z)
    : M (St * list Z) (Z * option HandleEntry) :=
  if root =? PAGE_ID_NONE then ret (root, None) else
  let cap := capacity self in
  if negb (cap =? u64_max) && (cap <=? handle) then ret (root, None) else
  delete_recursive (depth self) root handle.

(** The leaf loop of [iter_recursive]. *)
Definition iter_leaf (buf : list Z) (base_handle : Z) : list (Z * HandleEntry) :=
  omap (λ i, let entry := read_entry buf i in
             match flags entry with
             | Deleted => None
             | _ => Some (sat_add base_handle i, entry)
             end) (seqZ 0 ENTRIES_PER_LEAF).

(** [for x in xs { f(x)?; }] with the results pushed to one vector. *)
Fixpoint concat_map_m {A B} (f : A → M St (list B)) (xs : list A) : M St (list B) :=
  match xs with
  | [] => ret []
  | x :: xs =>
      let* ys := f x in
      let* zs := concat_map_m f xs in
      ret (ys ++ zs)
  end.

Fixpoint iter_recursive (level : nat) (page_id base_handle : Z)
    : M St (list (Z * HandleEntry)) :=
  match level with
  | O =>
      let* buf := ps_get page_id in
      ret (iter_leaf buf base_handle)
  | S l =>
      let child_span := span_at_level level in
      let* buf := ps_get page_id in
      concat_map_m (λ '(i, child),
        iter_recursive l child (sat_add base_handle (sat_mul i child_span)))
        (children buf)
  end.

Definition iter_live (self : HandleTable) (root : Z) : M St (list (Z * HandleEntry)) :=
  if root =? PAGE_ID_NONE then ret [] else
  iter_recursive (depth self) root 0.

(** The loop of [recover_depth]: it stops after [MAX_DEPTH + 1] levels, so
    that many turns are enough. *)
Fixpoint recover_loop (fuel depth : nat) (current : Z) : M St nat :=
  match fuel with
  | O => fail (CorruptPage current)
  | S fuel =>
      let* buf := ps_get current in
      if negb (getb 1 buf =? FLAG_INTERIOR) then ret depth else
      if negb (getb 0 buf =? type_tag HandleTablePage) then fail (CorruptPage current) else
      let depth := S depth in
      if (MAX_DEPTH <? depth)%nat then fail (CorruptPage current) else
      let child := read_child buf 0 in
      if child =? 0 then ret depth else
      recover_loop fuel depth child
  end.

Definition recover_depth (root : Z) : M St nat :=
  if root =? PAGE_ID_NONE then ret 0%nat else
  recover_loop (MAX_DEPTH + 2) 0 root.
End ops.
End HandleTable.

(** ** Entries *)

Module HandleTableFacts.
Import HandleTable.

Definition entry_ok (e : HandleEntry) : Prop :=
  is_u64 (page_id e) ∧ is_u16 (slot_index e) ∧ is_u32 (tag e) ∧ is_u8 (client_byte e).

Lemma entries_510 : ENTRIES_PER_LEAF = 510.
Proof. done. Qed.

Lemma from_to_u8 f : from_u8 (to_u8 f) = f.
Proof. by destruct f. Qed.

Lemma to_u8_u8 f : is_u8 (to_u8 f).
Proof. destruct f; split; simpl; lia. Qed.

#[local] Hint Resolve to_u8_u8 : chisel.
#[local] Hint Unfold ENTRY_SIZE : chisel.

Ltac ht_side :=
  unfold ENTRY_SIZE in *; rewrite ?entries_510 in *;
  solve [ plia | eauto 12 with chisel | split; plia ].

Lemma write_entry_wf i e p :
  wf_page p → 0 ≤ i < ENTRIES_PER_LEAF → entry_ok e → wf_page (write_entry i e p).
Proof.
  intros Hp Hi (_ & _ & _ & Hc). unfold write_entry, ENTRY_SIZE. cbv zeta.
  rewrite entries_510 in Hi. eauto 12 with chisel.
Qed.

Lemma read_write_entry_same i e p :
  wf_page p → 0 ≤ i < ENTRIES_PER_LEAF → entry_ok e → read_entry (write_entry i e p) i = e.
Proof.
  intros Hp Hi (H1 & H2 & H3 & H4). rewrite entries_510 in Hi. destruct e as [pi si f t c].
  unfold read_entry, write_entry, ENTRY_SIZE in *. cbn [page_id slot_index flags tag client_byte] in *.
  fields_by ht_side. by rewrite from_to_u8.
Qed.

Lemma read_write_entry_other i j e p :
  wf_page p → 0 ≤ i < ENTRIES_PER_LEAF → 0 ≤ j < ENTRIES_PER_LEAF → i ≠ j → entry_ok e →
  read_entry (write_entry i e p) j = read_entry p j.
Proof.
  intros Hp Hi Hj Hij (H1 & H2 & H3 & H4). rewrite entries_510 in *.
  unfold read_entry, write_entry, ENTRY_SIZE in *. by fields_by ht_side.
Qed.

Lemma getb_write_entry i j e p :
  wf_page p → 0 ≤ i < ENTRIES_PER_LEAF → 0 ≤ j < DATA_PAGE_HEADER_SIZE → entry_ok e →
  getb j (write_entry i e p) = getb j p.
Proof.
  intros Hp Hi Hj (H1 & H2 & H3 & H4). rewrite entries_510 in *.
  unfold write_entry, ENTRY_SIZE in *. by fields_by ht_side.
Qed.

Lemma read_entry_body p q i :
  body p = body q → 0 ≤ i < ENTRIES_PER_LEAF → read_entry p i = read_entry q i.
Proof.
  intros Hb Hi. rewrite entries_510 in *. unfold read_entry, ENTRY_SIZE.
  rewrite !(body_get_le _ _ p q), !(body_getb _ p q) by (done || plia). done.
Qed.

Lemma read_entry_ok p i : wf_page p → 0 ≤ i → entry_ok (read_entry p i).
Proof.
  intros [Hl Hb] Hi. unfold read_entry, entry_ok. cbn [page_id slot_index flags tag client_byte].
  assert (Hle : ∀ n off, 0 ≤ get_le n off p < 256 ^ Z.of_nat n).
  { intros n off. unfold get_le.
    assert (Hs : bytes_ok (slice off (Z.of_nat n) p)) by (by apply Forall_take, Forall_drop).
    pose proof (le_decode_bound _ Hs) as [H1 H2]. split; [done |].
    eapply Z.lt_le_trans; [apply H2 |]. apply Z.pow_le_mono_r; [lia |].
    unfold slice, zlen. rewrite length_take. lia. }
  ands; [apply (Hle 8%nat) | apply (Hle 2%nat) | apply (Hle 4%nat) | by apply getb_bound].
Qed.

(** ** The table as a radix tree *)

Definition is_leaf (v : list Z) : Prop :=
  getb 0 v = type_tag HandleTablePage ∧ getb 1 v = FLAG_LEAF.

Definition is_int (v : list Z) : Prop :=
  getb 0 v = type_tag HandleTablePage ∧ getb 1 v = FLAG_INTERIOR.

(** A page of the table is no data page. *)
Lemma leaf_tag v : is_leaf v → getb 0 v ≠ type_tag DataPageType.
Proof. by intros [-> _]. Qed.

Lemma int_tag v : is_int v → getb 0 v ≠ type_tag DataPageType.
Proof. by intros [-> _]. Qed.

Lemma int_hdr : header_only is_int.
Proof. intros v v' Hj [H0 H1]. split; by rewrite Hj. Qed.

(** A slot's entry, a tombstone or a zero slot read as absent. *)
Definition leaf_val (v : list Z) (k : Z) : option HandleEntry :=
  let e := read_entry v k in
  match flags e with Deleted => None | _ => Some e end.

Lemma entries_pos : 0 < ENTRIES_PER_LEAF.
Proof. done. Qed.

Lemma span_keys l : (l ≤ 5)%nat → span_at_level (S l) = keys ENTRIES_PER_LEAF l.
Proof.
  intros Hl. unfold span_at_level. replace (S l - 1)%nat with l by lia.
  rewrite sat_pow_keys by done. apply Z.min_l.
  do 6 (destruct l as [| l]; [by vm_compute |]). lia.
Qed.

Lemma capacity_keys d : capacity {| depth := d |} = Z.min (keys ENTRIES_PER_LEAF d) u64_max.
Proof. unfold capacity. by apply sat_pow_keys. Qed.

(** At the deepest level every [u64] is in reach. *)
Lemma keys_max : u64_max < keys ENTRIES_PER_LEAF MAX_DEPTH.
Proof. by vm_compute. Qed.

(** The early return of [find_leaf] and [delete] is the exact range check. *)
Lemma capacity_cut d h :
  (d ≤ MAX_DEPTH)%nat → is_u64 h →
  negb (capacity {| depth := d |} =? u64_max) && (capacity {| depth := d |} <=? h) =
    (keys ENTRIES_PER_LEAF d <=? h).
Proof.
  intros Hd [H1 H2]. rewrite capacity_keys. unfold MAX_DEPTH in Hd.
  assert (keys ENTRIES_PER_LEAF d ≠ u64_max).
  { do 7 (destruct d as [| d]; [by vm_compute |]). lia. }
  unfold u64_max in *.
  destruct (Z.eqb_spec (Z.min (keys ENTRIES_PER_LEAF d) (2 ^ 64 - 1)) (2 ^ 64 - 1)); simpl;
    case_tests; lia || done.
Qed.

Lemma init_node_wf flag p : wf_page p → is_u8 flag → wf_page (init_node flag p).
Proof.
  intros [Hl _] Hf. unfold init_node. cbv zeta. rewrite Hl.
  change (zeros PAGE_SIZE) with zero_page. eauto 12 with chisel.
Qed.

Lemma init_node_fields flag p :
  wf_page p → is_u8 flag →
  getb 0 (init_node flag p) = type_tag HandleTablePage ∧ getb 1 (init_node flag p) = flag ∧
  (∀ i, 0 ≤ i < PTRS_PER_INTERIOR → read_child (init_node flag p) i = 0) ∧
  (∀ i, 0 ≤ i < ENTRIES_PER_LEAF → leaf_val (init_node flag p) i = None).
Proof.
  intros [Hl _] Hf. unfold init_node, read_child, leaf_val, read_entry, PTR_SIZE, ENTRY_SIZE.
  cbv zeta. rewrite Hl, entries_510, ptrs_1021. change (zeros PAGE_SIZE) with zero_page.
  cbn [flags]. ands; intros; fields; unfold zero_page;
    rewrite ?get_le_zeros, ?getb_zeros; done.
Qed.

(** ** Page updates of the tree operations *)

Definition entry_val (e : HandleEntry) : option HandleEntry :=
  match flags e with Deleted => None | _ => Some e end.

Section pages.
Context `{HX : Xxh3}.

Lemma leaf_update p v i e :
  wf_page p → body p = body v → is_leaf v → 0 ≤ i < ENTRIES_PER_LEAF → entry_ok e →
  let v' := stamp_checksum (write_entry i e p) in
  is_leaf v' ∧ verify_checksum v' = true ∧
  ∀ j, 0 ≤ j < ENTRIES_PER_LEAF → leaf_val v' j = if decide (j = i) then entry_val e else leaf_val v j.
Proof.
  intros Hp Hb [H0 H1] Hi He. assert (Hw : wf_page (write_entry i e p)) by by apply write_entry_wf.
  assert (Hg : ∀ j, 0 ≤ j < 2 → getb j (stamp_checksum (write_entry i e p)) = getb j v).
  { intros j Hj. rewrite getb_stamp, getb_write_entry by (done || plia).
    apply body_getb; [done | plia]. }
  cbv zeta. ands.
  - split; rewrite Hg by lia; done.
  - by apply stamp_stores_checksum.
  - intros j Hj. unfold leaf_val. rewrite (read_entry_body _ (write_entry i e p)) by
      (done || by apply body_stamp). case_decide as Hd.
    + subst j. by rewrite read_write_entry_same.
    + rewrite read_write_entry_other by done. by rewrite (read_entry_body p v).
Qed.

Lemma init_node_empty l p flag :
  wf_page p → flag = (match l with O => FLAG_LEAF | S _ => FLAG_INTERIOR end) →
  empty_node None ENTRIES_PER_LEAF is_leaf is_int leaf_val l (stamp_checksum (init_node flag p)).
Proof.
  intros Hp Hf. assert (Hu : is_u8 flag) by (subst flag; destruct l; split; done).
  pose proof (init_node_wf flag p Hp Hu) as Hw.
  destruct (init_node_fields flag p Hp Hu) as (H0 & H1 & Hc & He).
  split; [by apply stamp_stores_checksum |]. destruct l as [| l]; subst flag.
  - split; [split; rewrite getb_stamp by (done || plia); done |]. intros k Hk.
    unfold leaf_val. rewrite (read_entry_body _ (init_node FLAG_LEAF p)) by
      (done || by apply body_stamp). by apply He.
  - split; [split; rewrite getb_stamp by (done || plia); done |]. intros k Hk.
    rewrite read_child_stamp by done. by apply Hc.
Qed.
End pages.
End HandleTableFacts.

(** ** Insertion *)

Module HandleTableInsert.
Import HandleTable HandleTableFacts.

Section insert.
Context {St : Type} `{HX : Xxh3} `{HF : Fault} `{HP : !PageStore St} `{HS : !StoreOk St}.
Variable alloc : M St Z.
Hypothesis Halloc : alloc_ok alloc.
Implicit Types (s : St) (l : nat).

Abbreviation leafn := ENTRIES_PER_LEAF.
Abbreviation den := (den None leafn leaf_val).
Abbreviation wf_tree := (wf_tree is_leaf is_int).
Abbreviation cow := (cow is_leaf is_int).
Abbreviation updated := (updated None leafn is_leaf is_int leaf_val).

(** A fresh node is made and initialised: the two branches of the code. *)
Lemma new_node_spec {B} l flag s0 s fr (k : Z → M (St * list Z) B) Q :
  frame s0 s → flag = (match l with O => FLAG_LEAF | S _ => FLAG_INTERIOR end) →
  (∀ m v s', ¬ live s m → 0 < m < PAGE_ID_NONE → frame s0 s' → ext s s' → holds s' m v →
    empty_node None leafn is_leaf is_int leaf_val l v →
    spec (framed s0) (k m) (s', fr) Q) →
  spec (framed s0)
    (bind (let* m := lift alloc in
           assert_that PanicAssert (negb (m =? 0)) ;;;
           lift (ps_modify m (λ buf, stamp_checksum (init_node flag buf))) ;;;
           ret m) k) (s, fr) Q.
Proof.
  intros Hf Hflag Hk.
  assert (Hu : is_u8 flag) by (subst flag; destruct l; split; done).
  eapply (spec_bind _ _ _ _ (λ m sx, ∃ v, ¬ live s m ∧ 0 < m < PAGE_ID_NONE ∧ ext s sx.1 ∧
    holds sx.1 m v ∧ empty_node None leafn is_leaf is_int leaf_val l v ∧ sx.2 = fr)).
  - step_alloc Halloc. intros m s1 Hn Hl Hm Hf1 He1. step_assert; [by apply assert_id_ne0 |].
    apply (bind_modify s0 s1); auto.
    { intros Hx. apply Hn. eapply live_ext; [apply Hf | done]. }
    { intros p Hp. by apply init_node_wf. }
    intros p s2 Hp Hf2 Ho Hh. apply spec_ret; [done |].
    eexists. ands; [done | lia | lia | | done | apply init_node_empty; [apply Hp | done] | done].
    simpl. eapply only_at_ext; done.
  - intros m [s' fr'] Hf' (v & H1 & H2 & H3 & H4 & H5 & H6). simpl in *. subst fr'. eauto.
Qed.

Definition insert_goal l : Prop := ∀ s fr root h e,
  st_inv s → wf_tree s l root → 0 ≤ h < keys leafn l → entry_ok e →
  spec (framed s) (insert_recursive alloc l root h e) (s, fr)
    (λ new sx, ∃ fr', sx.2 = fr ++ fr' ∧ updated s l root h (entry_val e) new fr' sx.1).

Lemma insert_leaf_spec : insert_goal 0.
Proof.
  intros s fr root h e Hi Hw Hh He. pose proof Hw as [(v & Hv & Hlf & Hver) _].
  assert (Hh' : 0 ≤ h < leafn) by (unfold keys in Hh; simpl in Hh; lia).
  cbn [insert_recursive]. step_alloc Halloc.
  intros n s1 Hn Hl1 Hnr Hf1 He1. step_assert; [by apply assert_id_ne0 |].
  apply (bind_copy s s1 _ root n v); [done | by eapply holds_ext | by apply leaf_tag | done | done |].
  intros v1 s2 Hf2 Ho2 Hh2 Hb2. apply bind_push; [done |]. rewrite Z.mod_small by lia.
  apply (bind_modify s s2); [done | by eapply holds_live | done | |].
  { intros p Hp. by apply write_entry_wf. }
  intros p s3 [Hp Hpb] Hf3 Ho3 Hh3. apply spec_ret; [done |].
  destruct (leaf_update p v h e) as (Hlf' & Hver' & Hval); [done | | done | done | done |].
  { rewrite (Hpb v1) by done. done. }
  exists [root]. split; [done |]. by eapply updated_leaf.
Qed.

Lemma insert_recursive_spec l : (l ≤ MAX_DEPTH)%nat → insert_goal l.
Proof.
  induction l as [| l IH]; intros Hl; [apply insert_leaf_spec |].
  intros s fr root h e Hi Hw Hh He. pose proof Hw as [(v & Hv & Hint & Hver & Hch) Hu].
  destruct (child_idx leafn l h entries_pos Hh) as [Hidx Hmod]. unfold MAX_DEPTH in *.
  cbn [insert_recursive]. rewrite span_keys by lia. set (i := h / keys leafn l) in *.
  step_alloc Halloc. intros n s1 Hn Hl1 Hnr Hf1 He1. step_assert; [by apply assert_id_ne0 |].
  apply (bind_copy s s1 _ root n v); [done | by eapply holds_ext | by apply int_tag | done | done |].
  intros v1 s2 Hf2 Ho2 Hh2 Hb2. apply bind_push; [done |].
  apply bind_get; [done |]. intros buf s3 [Hbuf Hbb] Hf3 He3 _.
  step_assert; [by apply slot_in_page |].
  assert (Hci : read_child buf i = read_child v i).
  { apply read_child_body; [rewrite (Hbb v1) by done; done | done]. }
  assert (Hh3 : holds s3 n v1) by by eapply holds_ext.
  assert (He03 : ext s s3) by apply Hf3.
  rewrite Hci. destruct (Z.eqb_spec (read_child v i) 0) as [Hc0 | Hc0].
  - destruct l as [| l'];
      [apply (new_node_spec 0 FLAG_LEAF s s3) | apply (new_node_spec (S l') FLAG_INTERIOR s s3)];
      (done ||
       (intros m w s4 Hm Hmr Hf4 He4 Hh4 Hemp;
        assert (Hch4 := chosen_fresh None leafn _ _ leaf_val entries_pos s s3 s4 _ v i n m w Hc0 He03
          (holds_live _ _ _ Hh3) Hm Hh4 Hemp);
        eapply (descend_spec None leafn _ _ leaf_val entries_pos int_hdr _ s s4 root h n m v v1);
          eauto; [by eapply holds_ext |];
        apply (IH ltac:(lia)); [apply Hf4 | apply Hch4 | done | done])).
  - apply bind_ret.
    assert (Hwc : wf_tree s l (read_child v i)) by (split; [by apply Hch | by apply (Hu v Hv i)]).
    assert (Hch3 := chosen_old None leafn _ _ leaf_val entries_pos s s3 l v i n Hwc He03 Hc0).
    eapply (descend_spec None leafn _ _ leaf_val entries_pos int_hdr _ s s3 root h n _ v v1); eauto.
    apply (IH ltac:(lia)); [apply Hf3 | apply Hch3 | done | done].
Qed.

(** ** Growth *)

Lemma grow_page_fields p root :
  wf_page p → is_u64 root →
  let v := stamp_checksum (put_u64 DATA_PAGE_HEADER_SIZE root (init_node FLAG_INTERIOR p)) in
  is_int v ∧ verify_checksum v = true ∧
  ∀ i, 0 ≤ i < PTRS_PER_INTERIOR → read_child v i = if decide (i = 0) then root else 0.
Proof.
  intros Hp Hr. assert (Hu : is_u8 FLAG_INTERIOR) by (split; done).
  destruct (init_node_fields _ p Hp Hu) as (H0 & H1 & Hc & _).
  pose proof (init_node_wf _ p Hp Hu) as Hw.
  destruct (int_update _ int_hdr (init_node FLAG_INTERIOR p) (init_node FLAG_INTERIOR p) 0 root)
    as (Hi & Hv & Hch); [done | done | by split | by rewrite ptrs_1021 | done |].
  cbv zeta. ands; [done | done |]. intros i Hi'. etrans; [by apply Hch |].
  case_decide; [done | by apply Hc].
Qed.

(** The frame of an operation that also carries [self]. *)
Definition framed2 (s0 : St) (sx : St * list Z * HandleTable) : Prop := frame s0 sx.1.1.

Lemma grow_spec s0 s fr d root :
  frame s0 s → wf_tree s d root → is_u64 root → root ≠ 0 →
  spec (framed2 s0) (grow alloc root) (s, fr, {| depth := d |})
    (λ new sx, ∃ s', sx = (s', fr, {| depth := S d |}) ∧ 0 < new < PAGE_ID_NONE ∧
      grown None leafn is_leaf is_int leaf_val s d root s' (S d) new).
Proof.
  intros Hf Hw Hr Hr0. unfold grow.
  eapply (bind_lift _ _ _ _ _ (λ n sx, ¬ live s n ∧ live sx.1 n ∧ 0 < n < PAGE_ID_NONE ∧
    ext s sx.1 ∧ sx.2 = fr)).
  { apply spec_lift. apply alloc_rule; [done | done |]. simpl. auto. }
  intros n [s1 fr1] Hf1 (Hn & Hl & Hnr & He & Hfr). cbn [fst snd] in *. subst fr1.
  step_assert; [by apply assert_id_ne0 |].
  eapply (bind_lift _ _ _ _ _ (λ _ sx, ∃ v, ext s sx.1 ∧ holds sx.1 n v ∧ is_int v ∧
    verify_checksum v = true ∧ sx.2 = fr ∧
    ∀ i, 0 ≤ i < PTRS_PER_INTERIOR → read_child v i = if decide (i = 0) then root else 0)).
  { apply spec_lift. apply modify_rule; auto.
    - intros Hx. apply Hn. eapply live_ext; [apply Hf | done].
    - intros p Hp. apply wf_stamp, wf_put_le; [| done | done]. by apply init_node_wf; [| split].
    - apply stamps_stamp. intros p Hp. apply wf_put_le; [| done | done]. by apply init_node_wf; [| split].
    - intros p v' s2 [Hp _] Hf2 Ho Hh _ Hst. exists v'.
      destruct (grow_page_fields p root Hp Hr) as (Hi & Hv & Hc).
      rewrite Hst in * by done. cbn [fst snd]. ands; [by eapply only_at_ext | done..]. }
  intros pb [s2 fr2] Hf2 (v & He2 & Hh & Hi & Hv & Hfr & Hc). cbn [fst snd] in *. subst fr2.
  apply bind_writes, spec_ret; [done |]. cbn [fst snd depth].
  eexists. ands; [done | lia | lia |]. by eapply (grow_step _ _ _ _ _ entries_pos s s2 d root n v).
Qed.

Lemma grow_loop_spec fuel s0 s fr d root h :
  frame s0 s → wf_tree s d root → 0 < root < PAGE_ID_NONE → is_u64 h →
  (d ≤ MAX_DEPTH)%nat → (MAX_DEPTH - d ≤ fuel)%nat →
  spec (framed2 s0) (grow_loop alloc fuel root h) (s, fr, {| depth := d |})
    (λ new sx, ∃ s' d', sx = (s', fr, {| depth := d' |}) ∧ (d' ≤ MAX_DEPTH)%nat ∧
      0 < new < PAGE_ID_NONE ∧ h < keys leafn d' ∧
      grown None leafn is_leaf is_int leaf_val s d root s' d' new).
Proof.
  revert s d root. induction fuel as [| fuel IH]; intros s d root Hf Hw Hr Hh Hd Hfuel.
  - assert (d = MAX_DEPTH) as -> by lia. apply spec_ret; [done |]. exists s, MAX_DEPTH.
    ands; [done | lia | lia | lia | | by apply grown_refl].
    pose proof keys_max. unfold is_u64, u64_max in *. lia.
  - cbn [grow_loop]. apply bind_reads. cbn [snd depth].
    destruct ((d <? MAX_DEPTH)%nat && (capacity {| depth := d |} <=? h)) eqn:E.
    + apply andb_true_iff in E as [E1%Nat.ltb_lt E2].
      eapply spec_bind; [apply grow_spec; [done | done | by apply id_u64 | lia] |].
      intros new sx Hf1 (s1 & -> & Hn & Hg).
      eapply spec_conseq; [apply (IH s1 (S d) new); [done | apply Hg | lia | done | lia | lia] | done |].
      intros n2 sx2 _ (s2 & d2 & -> & H1 & H2 & H3 & H4). exists s2, d2.
      ands; [done | lia | lia | lia | lia | by eapply grown_trans].
    + apply spec_ret; [done |]. exists s, d. ands; [done | lia | lia | lia | | by apply grown_refl].
      pose proof keys_max. rewrite capacity_keys in E. unfold is_u64, u64_max in *.
      apply andb_false_iff in E as [E%Nat.ltb_ge | E%Z.leb_gt]; [| lia].
      assert (d = MAX_DEPTH) as -> by lia. lia.
Qed.

(** The whole of [insert]. *)
Lemma insert_spec s fr d root h e :
  st_inv s → wf_tree s d root → 0 < root < PAGE_ID_NONE → (d ≤ MAX_DEPTH)%nat →
  is_u64 h → entry_ok e →
  spec (framed2 s) (insert alloc root h e) (s, fr, {| depth := d |})
    (λ new sx, ∃ s' d' fr', sx = (s', fr ++ fr', {| depth := d' |}) ∧ (d' ≤ MAX_DEPTH)%nat ∧
      0 < new < PAGE_ID_NONE ∧ Radix.cow is_leaf is_int s d root s' d' new fr' ∧
      (spine s d root → spine s' d' new) ∧
      ∀ k, 0 ≤ k → lookup_den None leafn leaf_val s' d' new k =
        if decide (k = h) then entry_val e else lookup_den None leafn leaf_val s d root k).
Proof.
  intros Hi Hw Hr Hd Hh He. unfold insert. apply bind_reads. cbn [snd].
  eapply spec_bind.
  { apply spec_on_err; [| done]. apply grow_loop_spec; auto; [by apply frame_refl |]. lia. }
  intros cur sx Hf (s1 & d1 & -> & Hd1 & Hcur & Hhd & Hg). apply bind_reads. cbn [snd depth].
  apply spec_on_err; [| done]. apply spec_lift.
  eapply spec_conseq; [apply (insert_recursive_spec d1); [done | apply Hf | apply Hg | | done] | |].
  { split; [apply Hh | done]. }
  { intros sx Hsx. unfold framed2. eapply frame_trans; [apply Hf | done]. }
  intros new [s2 fr2] _ (fr' & Hfr & Hcow & Hn & Hsp & Hden). cbn [fst snd] in *. subst fr2.
  exists s2, d1, fr'. ands; [done | lia | lia | lia | by eapply cow_grown | |].
  { intros Hs. by apply Hsp, (gr_spine _ _ _ _ _ _ _ _ _ _ _ Hg). }
  intros k Hk0. rewrite <- (gr_den _ _ _ _ _ _ _ _ _ _ _ Hg k) by lia.
  unfold lookup_den. destruct (Z.leb_spec (keys leafn d1) k) as [Hle | Hlt].
  - rewrite decide_False by lia. done.
  - apply Hden. lia.
Qed.
End insert.

(** ** Error paths *)

Section errors.
Context {St : Type} `{HX : Xxh3} `{HP : !PageStore St}.

Lemma on_err_err {S A} (m : M S A) h s e s' :
  on_err m h s = (Err e, s') → ∃ s1, s' = h s1.
Proof. unfold on_err. destruct (m s) as [[a | e1 | p] s1]; intros; simplify_eq; eauto. Qed.

Lemma insert_err_depth (alloc : M St Z) sx root h e err sx' :
  insert alloc root h e sx = (Err err, sx') → sx'.2 = sx.2.
Proof.
  unfold insert, bind at 1, reads at 1. destruct sx as [x [d]]. cbn [snd]. unfold bind at 1.
  destruct (on_err _ _ _) as [[a | e1 | p] s1] eqn:E1; [| | done].
  - unfold bind, reads. intros Hx. apply on_err_err in Hx as [s2 ->]. done.
  - intros [= <- <-]. apply on_err_err in E1 as [s2 ->]. done.
Qed.
End errors.
End HandleTableInsert.
