(* ===== verification/HandleTableRead.v ===== *)
(** * The handle table: reads and deletion

    [lookup], [iter_live] and [recover_depth] against the map a root denotes, and
    [delete] as an update of one key. *)

From S2P Require Export HandleTable.

Module HandleTableRead.
Import HandleTable HandleTableFacts.

Section reads.
Context {St : Type} `{HX : Xxh3} `{HF : Fault} `{HP : !PageStore St} `{HS : !StoreOk St}.
Implicit Types (s : St) (l : nat).

Abbreviation leafn := ENTRIES_PER_LEAF.
Abbreviation den := (den None leafn leaf_val).
Abbreviation tree := (tree is_leaf is_int).
Abbreviation entries := (entries None leafn leaf_val id).

Lemma int_header p v :
  wf_page p → body p = body v → is_int v →
  negb (getb 0 p =? type_tag HandleTablePage) || negb (getb 1 p =? FLAG_INTERIOR) = false.
Proof.
  intros Hp Hb [H0 H1]. by rewrite !(body_getb _ p v), H0, H1 by (done || plia).
Qed.

(** The descent of [find_leaf] ends at the leaf that holds the key, or at an
    absent subtree. *)
Lemma find_loop_spec l s0 s root h :
  quiet s0 s → tree s0 l root → (l ≤ MAX_DEPTH)%nat → 0 ≤ h < keys leafn l →
  spec (quiet s0) (find_loop l root h) s
    (λ r _, match r with
            | None => den s0 l root h = None
            | Some (leaf, index) => ∃ v, holds s0 leaf v ∧ 0 ≤ index < leafn ∧
                den s0 l root h = leaf_val v index
            end).
Proof.
  revert s root h. induction l as [| l IH]; intros s root h Hq Ht Hl Hh.
  - destruct Ht as (v & Hv & _). unfold keys in Hh. simpl in Hh.
    apply spec_ret; [done |]. rewrite Z.mod_small by lia. exists v.
    pose proof Hv as [_ Hvv]. simpl. rewrite Hvv. ands; [done | lia | lia | done].
  - destruct Ht as (v & Hv & Hint & Hver & Hch). unfold MAX_DEPTH in *.
    pose proof (keys_pos leafn l entries_pos) as Hpos. rewrite keys_S in Hh.
    assert (Hi : 0 ≤ h / keys leafn l < PTRS_PER_INTERIOR).
    { rewrite ptrs_1021. split; [apply Z.div_pos; lia | apply Z.div_lt_upper_bound; lia]. }
    cbn [find_loop]. rewrite span_keys by lia.
    destruct (Z.leb_spec PTRS_PER_INTERIOR (h / keys leafn l)); [lia |].
    apply (bind_read s0 s root v); [done | done |]. intros p s1 Hp Hb Hq1.
    rewrite (int_header p v), (read_child_body _ p v) by done.
    pose proof Hv as [_ Hvv]. cbn [Radix.den]. rewrite Hvv.
    destruct (Z.eqb_spec (read_child v (h / keys leafn l)) 0); [by apply spec_ret |].
    apply IH; [done | by apply Hch | lia | by apply Z.mod_pos_bound].
Qed.

(** [lookup] is the map of the tree. *)
Lemma lookup_spec s d root h :
  st_inv s → tree s d root → root ≠ PAGE_ID_NONE → (d ≤ MAX_DEPTH)%nat → is_u64 h →
  spec (quiet s) (lookup {| depth := d |} root h) s
    (λ r _, r = lookup_den None leafn leaf_val s d root h).
Proof.
  intros Hi Ht Hr Hd Hh. pose proof (quiet_refl s Hi) as Hq. unfold lookup.
  destruct (Z.eqb_spec root PAGE_ID_NONE); [done |].
  eapply spec_bind with (Q1 := λ r _, match r with
    | None => lookup_den None leafn leaf_val s d root h = None
    | Some (leaf, index) => ∃ v, holds s leaf v ∧ 0 ≤ index < leafn ∧
        lookup_den None leafn leaf_val s d root h = leaf_val v index
    end).
  - unfold find_leaf. cbv zeta. rewrite capacity_cut by done. unfold lookup_den. cbn [depth].
    destruct (Z.leb_spec (keys leafn d) h); [by apply spec_ret |].
    pose proof (find_loop_spec d s s root h Hq Ht Hd ltac:(destruct Hh; lia)) as Hs.
    destruct d; exact Hs.
  - intros [[leaf index] |] s1 Hq1; [| intros ->; by apply spec_ret].
    intros (v & Hv & Hidx & ->). apply (bind_read s s1 leaf v); [done | done |].
    intros p s2 Hp Hb Hq2. rewrite (read_entry_body p v) by done. unfold leaf_val.
    destruct (flags (read_entry v index)); by apply spec_ret.
Qed.

(** ** Enumeration *)

Lemma concat_map_m_spec {A B} s0 (f : A → M St (list B)) (g : A → list B) xs s :
  quiet s0 s →
  (∀ x s', x ∈ xs → quiet s0 s' → spec (quiet s0) (f x) s' (λ r _, r = g x)) →
  spec (quiet s0) (concat_map_m f xs) s (λ r _, r = concat (map g xs)).
Proof.
  revert s. induction xs as [| x xs IH]; intros s Hq Hf; [by apply spec_ret |].
  cbn [concat_map_m]. eapply spec_bind; [apply Hf; [left | done] |].
  intros ys s1 Hq1 ->. eapply spec_bind; [apply IH; [done |] |].
  { intros y s' Hy. apply Hf. by right. }
  intros zs s2 Hq2 ->. by apply spec_ret.
Qed.

Lemma iter_leaf_entries s root p v base :
  holds s root v → wf_page p → body p = body v →
  iter_leaf p base = entries s 0 root base.
Proof.
  intros [_ Hv] Hp Hb. unfold iter_leaf, entries, keys. simpl (1021 ^ _). rewrite Z.mul_1_r.
  apply omap_ext_in. intros k Hk%elem_of_seqZ. cbn [Radix.den]. rewrite Hv. cbv zeta.
  rewrite (read_entry_body p v) by (done || lia). unfold leaf_val.
  cbn [id]. by destruct (flags (read_entry v k)).
Qed.

Lemma iter_recursive_spec l s0 s root base :
  quiet s0 s → tree s0 l root → (l ≤ MAX_DEPTH)%nat → 0 ≤ base →
  spec (quiet s0) (iter_recursive l root base) s (λ r _, r = entries s0 l root base).
Proof.
  revert s root base. induction l as [| l IH]; intros s root base Hq Ht Hl Hb.
  - destruct Ht as (v & Hv & _). cbn [iter_recursive]. apply (bind_read s0 s root v); [done.. |].
    intros p s1 Hp Hpb Hq1. apply spec_ret; [done |]. by eapply iter_leaf_entries.
  - destruct Ht as (v & Hv & Hint & Hver & Hch). unfold MAX_DEPTH in *. cbn [iter_recursive].
    rewrite span_keys by lia. pose proof (keys_pos leafn l entries_pos).
    apply (bind_read s0 s root v); [done.. |]. intros p s1 Hp Hpb Hq1.
    rewrite (children_body p v), (entries_children _ _ _ entries_pos id eq_refl s0 l root v) by done.
    apply concat_map_m_spec; [done |]. intros [i c] s2 (Hi & -> & Hc0)%child_in Hq2.
    cbn [fst snd] in *. apply IH; [done | by apply Hch | lia |].
    unfold sat_add, sat_mul, u64_max. lia.
Qed.

Lemma iter_live_spec s d root :
  st_inv s → tree s d root → root ≠ PAGE_ID_NONE → (d ≤ MAX_DEPTH)%nat →
  spec (quiet s) (iter_live {| depth := d |} root) s (λ r _, r = entries s d root 0).
Proof.
  intros Hi Ht Hr Hd. unfold iter_live. destruct (Z.eqb_spec root PAGE_ID_NONE); [done |].
  apply iter_recursive_spec; [by apply quiet_refl | done..].
Qed.

(** ** Depth recovery *)

Lemma recover_loop_spec fuel k l s0 s root :
  quiet s0 s → tree s0 l root → spine s0 l root → (k + l ≤ MAX_DEPTH)%nat → (l < fuel)%nat →
  spec (quiet s0) (recover_loop fuel k root) s (λ r _, r = (k + l)%nat).
Proof.
  revert k l s root. induction fuel as [| fuel IH]; intros k l s root Hq Ht Hs Hk Hf; [lia |].
  cbn [recover_loop]. destruct l as [| l].
  - destruct Ht as (v & Hv & [_ H1] & _). apply (bind_read s0 s root v); [done.. |].
    intros p s1 Hp Hb Hq1. rewrite (body_getb 1 p v), H1 by (done || plia).
    apply spec_ret; [done | lia].
  - destruct Ht as (v & Hv & [H0 H1] & _ & Hch), Hs as (v1 & Hv1 & Hc & Hs).
    rewrite (holds_fun _ _ _ _ Hv1 Hv) in *. clear v1 Hv1.
    apply (bind_read s0 s root v); [done.. |]. intros p s1 Hp Hb Hq1.
    rewrite !(body_getb _ p v), H0, H1, (read_child_body 0 p v) by (done || plia || apply idx0).
    cbn [negb]. rewrite Z.eqb_refl. cbn [negb]. rewrite Z.eqb_refl.
    destruct (Nat.ltb_spec MAX_DEPTH (S k)); [lia |].
    destruct (Z.eqb_spec (read_child v 0) 0); [done |].
    eapply spec_conseq; [apply (IH (S k) l); [done | apply Hch; [apply idx0 | done] | done | lia | lia]
      | done |].
    simpl. intros; lia.
Qed.

Lemma recover_depth_spec s d root :
  st_inv s → tree s d root → spine s d root → root ≠ PAGE_ID_NONE → (d ≤ MAX_DEPTH)%nat →
  spec (quiet s) (recover_depth root) s (λ r _, r = d).
Proof.
  intros Hi Ht Hs Hr Hd. unfold recover_depth. destruct (Z.eqb_spec root PAGE_ID_NONE); [done |].
  eapply spec_conseq; [apply (recover_loop_spec _ 0 d); eauto; [by apply quiet_refl | lia] | done |].
  done.
Qed.
End reads.

(** ** Deletion *)

Section delete.
Context {St : Type} `{HX : Xxh3} `{HF : Fault} `{HP : !PageStore St} `{HS : !StoreOk St}.
Variable alloc : M St Z.
Hypothesis Halloc : alloc_ok alloc.
Implicit Types (s : St) (l : nat).

Abbreviation leafn := ENTRIES_PER_LEAF.
Abbreviation den := (den None leafn leaf_val).
Abbreviation wf_tree := (wf_tree is_leaf is_int).
Abbreviation cow := (cow is_leaf is_int).
Abbreviation updated := (updated None leafn is_leaf is_int leaf_val).

(** What deleting [h] does: nothing when it is absent, else one key goes. *)
Definition deleted s l root h fr (r : Z * option HandleEntry) (sx : St * list Z) : Prop :=
  r.2 = den s l root h ∧
  match r.2 with
  | None => r.1 = root ∧ sx.2 = fr
  | Some _ => ∃ fr', sx.2 = fr ++ fr' ∧
      updated s l root h None r.1 fr' sx.1
  end.

Definition delete_goal l : Prop := ∀ s fr root h,
  st_inv s → wf_tree s l root → 0 ≤ h < keys leafn l →
  spec (framed s) (delete_recursive alloc l root h) (s, fr) (deleted s l root h fr).

Lemma tombstone_ok : entry_ok tombstone.
Proof. by repeat split. Qed.

Lemma delete_leaf_spec : delete_goal 0.
Proof.
  intros s fr root h Hi Hw Hh. pose proof Hw as [(v & Hv & Hlf & Hver) _].
  assert (Hh' : 0 ≤ h < leafn) by (unfold keys in Hh; simpl in Hh; lia).
  cbn [delete_recursive]. rewrite Z.mod_small by lia.
  apply bind_get; [by apply frame_refl |]. intros p s1 [Hp Hpb] Hf1 He1 _.
  rewrite (read_entry_body p v) by (done || by apply Hpb).
  assert (Hden : den s 0 root h = entry_val (read_entry v h)).
  { destruct Hv as [_ Hvv]. simpl. by rewrite Hvv. }
  unfold deleted. rewrite Hden. unfold entry_val.
  destruct (flags (read_entry v h)); [| by apply spec_ret |];
  (step_alloc Halloc; intros n s2 Hn Hl2 Hnr Hf2 He2;
   assert (Hns : ¬ live s n) by (contradict Hn; by eapply live_ext);
   step_assert; [by apply assert_id_ne0 |];
   apply (bind_copy s s2 _ root n v); [done | by eapply holds_ext, holds_ext | by apply leaf_tag | done | done |];
   intros v1 s3 Hf3 Ho3 Hh3 Hb3; apply bind_push; [done |];
   apply (bind_modify s s3); [done | by eapply holds_live | done | |];
   [intros q Hq; apply write_entry_wf; auto using tombstone_ok |];
   intros q s4 [Hq Hqb] Hf4 Ho4 Hh4; apply spec_ret; [done |];
   destruct (leaf_update q v h tombstone) as (Hlf' & Hver' & Hval);
     [done | by rewrite (Hqb v1) | done | done | apply tombstone_ok |];
   split; [done |]; exists [root]; split; [done |]; cbn [fst snd]; by eapply updated_leaf).
Qed.

(** The path copy of an interior page once the child has changed to [c]. *)
Lemma ascend_spec l s s1 s2 fr frc root h c v prev prev' :
  let i := h / keys leafn l in
  wf_tree s (S l) root → holds s root v → is_int v → 0 ≤ i < PTRS_PER_INTERIOR →
  read_child v i ≠ 0 → ext s s1 → frame s s2 →
  updated s1 l (read_child v i) (h mod keys leafn l) None c frc s2 →
  prev = Some prev' → prev = den s (S l) root h →
  spec (framed s)
    (let* new_page := lift alloc in
     assert_that PanicAssert (negb (new_page =? 0)) ;;;
     lift (copy_page root new_page) ;;;
     push_freed root ;;;
     lift (ps_modify new_page (λ buf, stamp_checksum (write_child i c buf))) ;;;
     ret (new_page, prev)) (s2, fr ++ frc) (deleted s (S l) root h fr).
Proof.
  intros i Hw Hv Hint Hi Hc0 He1 Hf2 Hup Hprev Hden. step_alloc Halloc. intros n s3 Hn Hl3 Hnr Hf3 He3.
  assert (Hns : ¬ live s n) by (contradict Hn; eapply live_ext; [apply Hf2 | done]).
  step_assert; [by apply assert_id_ne0 |].
  apply (bind_copy s s3 _ root n v); [done | eapply holds_ext; [apply Hf3 | done] | by apply int_tag | done | done |].
  intros v1 s4 Hf4 Ho4 Hh4 Hb4. apply bind_push; [done |].
  apply (bind_modify s s4); [done | by eapply holds_live | done | auto with chisel |].
  intros p s5 [Hp Hpb] Hf5 Ho5 Hh5. apply spec_ret; [done |].
  split; [done |]. cbn [fst snd]. rewrite Hprev. exists (frc ++ [root]).
  split; [by rewrite <- app_assoc |].
  eapply (ascend_updated None leafn _ _ leaf_val entries_pos int_hdr l s s1 s2); eauto.
  by rewrite (Hpb v1).
Qed.

Lemma delete_recursive_spec l : (l ≤ MAX_DEPTH)%nat → delete_goal l.
Proof.
  induction l as [| l IH]; intros Hl; [apply delete_leaf_spec |].
  intros s fr root h Hi Hw Hh. pose proof Hw as [(v & Hv & Hint & Hver & Hch) Hu].
  destruct (child_idx leafn l h entries_pos Hh) as [Hidx Hm]. unfold MAX_DEPTH in *.
  cbn [delete_recursive]. rewrite span_keys by lia.
  apply bind_get; [by apply frame_refl |]. intros p s1 [Hp Hpb] Hf1 He1 _.
  step_assert; [by apply slot_in_page |].
  rewrite (read_child_body _ p v) by (done || by apply Hpb).
  assert (Hden : den s (S l) root h = if read_child v (h / keys leafn l) =? 0 then None
    else den s l (read_child v (h / keys leafn l)) (h mod keys leafn l)).
  { destruct Hv as [_ Hvv]. cbn [Radix.den]. by rewrite Hvv. }
  destruct (Z.eqb_spec (read_child v (h / keys leafn l)) 0) as [Hc0 | Hc0]; [by apply spec_ret |].
  destruct (old_subtree None leafn _ _ leaf_val entries_pos l s s1 root h v Hw Hv Hidx Hc0 He1) as (_ & Hw1 & _ & Hd1).
  eapply spec_bind.
  { eapply spec_conseq; [apply (IH ltac:(lia) s1 fr _ (h mod keys leafn l)); [apply Hf1 | done | done] | |].
    - intros sx Hsx. eapply frame_trans; [apply Hf1 | done].
    - intros r sx Hsx Hpost. exact Hpost. }
  intros [c prev] [s2 fr2] Hf2 [Hprev Hpost]. cbn [fst snd] in *. rewrite Hd1 in Hprev by done.
  destruct prev as [e |].
  - destruct Hpost as (frc & -> & Hup). eapply ascend_spec; eauto. by rewrite Hden.
  - destruct Hpost as [-> ->]. apply spec_ret; [done |]. split; [| done]. cbn [snd]. by rewrite Hden.
Qed.

Lemma delete_spec s fr d root h :
  st_inv s → wf_tree s d root → root ≠ PAGE_ID_NONE → (d ≤ MAX_DEPTH)%nat → is_u64 h →
  spec (framed s) (delete alloc {| depth := d |} root h) (s, fr)
    (λ r sx, r.2 = lookup_den None leafn leaf_val s d root h ∧
      match r.2 with
      | None => r.1 = root ∧ sx.2 = fr
      | Some _ => ∃ fr', sx.2 = fr ++ fr' ∧ 0 < r.1 < PAGE_ID_NONE ∧
          cow s d root sx.1 d r.1 fr' ∧ (spine s d root → spine sx.1 d r.1) ∧
          ∀ k, 0 ≤ k → lookup_den None leafn leaf_val sx.1 d r.1 k =
            if decide (k = h) then None else lookup_den None leafn leaf_val s d root k
      end).
Proof.
  intros Hi Hw Hr Hd Hh. unfold delete. destruct (Z.eqb_spec root PAGE_ID_NONE); [done |].
  cbv zeta. rewrite capacity_cut by done. unfold lookup_den. cbn [depth].
  destruct (Z.leb_spec (keys leafn d) h) as [Hle | Hlt].
  - apply spec_ret; [by apply frame_refl | done].
  - eapply spec_conseq; [apply delete_recursive_spec; [done.. |] | done |].
    { destruct Hh. lia. }
    intros [new prev] [s' fr'] _ [Hprev Hpost]. cbn [fst snd] in *. split; [done |].
    destruct prev as [e |]; [| done]. destruct Hpost as (frc & -> & Hcow & Hn & Hsp & Hden).
    exists frc. ands; auto; try lia. intros k Hk.
    destruct (Z.leb_spec (keys leafn d) k); [by case_decide | apply Hden; lia].
Qed.
End delete.
End HandleTableRead.
