(* ===== verification/HandleTableProps.v ===== *)
(** * The handle table: what it promises the transaction layer

    The properties of [src/handle_table.rs], for every store that meets the
    interface and every allocator the transaction layer may inject. *)

From S2P Require Export HandleTableRead MemStore.

Module HandleTableProps.
Import HandleTable HandleTableFacts HandleTableInsert HandleTableRead.

Section props.
Context {St : Type} `{HX : Xxh3} `{HF : Fault} `{HP : !PageStore St} `{HS : !StoreOk St}.
Variable alloc : M St Z.
Hypothesis Halloc : alloc_ok alloc.
Implicit Types (s : St) (d : nat).

(** The entry a root maps a handle to. *)
Definition table_map s d root : Z → option HandleEntry :=
  lookup_den None ENTRIES_PER_LEAF leaf_val s d root.

(** A table the code may be handed: its root, the depth [self] records, a tree
    of stamped pages of the right types no page of which is shared, a complete
    leftmost path, and no key beyond [u64]. *)
Record table s d root : Prop := {
  tb_tree : wf_tree is_leaf is_int s d root;
  tb_spine : spine s d root;
  tb_root : 0 < root < PAGE_ID_NONE;
  tb_depth : (d ≤ MAX_DEPTH)%nat;
  tb_keys : ∀ k, u64_max < k → table_map s d root k = None
}.

(** The pages of a table. *)
Definition table_page s d root (x : Z) : Prop := reach s d root x.

Lemma tb_none s d root : table s d root → root ≠ PAGE_ID_NONE.
Proof. intros Ht. pose proof (tb_root _ _ _ Ht). lia. Qed.

Lemma table_ext s s' d root :
  ext s s' → table s d root →
  table s' d root ∧ ∀ k, 0 ≤ k → table_map s' d root k = table_map s d root k.
Proof.
  intros He [Ht Hsp Hr Hd Hk].
  assert (Hm : ∀ k, 0 ≤ k → table_map s' d root k = table_map s d root k).
  { intros k Hk0. unfold table_map, lookup_den. case_tests; [done |].
    apply (den_ext None _ is_leaf is_int leaf_val entries_pos); [done | apply Ht | lia]. }
  split; [| done]. split; auto.
  - by eapply wf_ext.
  - by eapply spine_ext.
  - intros k Hk1. rewrite Hm by (unfold u64_max in *; lia). by apply Hk.
Qed.

(** The result of an update of one key. *)
Definition insert_post s fr d root h val new s' fr' d' : Prop :=
  ∃ f, fr' = fr ++ f ∧ table s' d' new ∧ cow is_leaf is_int s d root s' d' new f ∧
    ∀ k, is_u64 k → table_map s' d' new k =
      if decide (k = h) then val else table_map s d root k.

Lemma table_cow s d root s' d' new h val f :
  table s d root → is_u64 h → cow is_leaf is_int s d root s' d' new f →
  (spine s d root → spine s' d' new) → 0 < new < PAGE_ID_NONE → (d' ≤ MAX_DEPTH)%nat →
  (∀ k, 0 ≤ k → table_map s' d' new k = if decide (k = h) then val else table_map s d root k) →
  table s' d' new.
Proof.
  intros [Ht Hsp Hr Hd Hk] Hh Hc Hs Hn Hd' Hm. split; auto; [apply Hc |].
  intros k Hk1. unfold is_u64, u64_max in *. rewrite Hm by lia. rewrite decide_False by lia. by apply Hk.
Qed.

Lemma insert_cases s fr d root h e r s' fr' t :
  st_inv s → table s d root → is_u64 h → entry_ok e →
  insert alloc root h e (s, fr, {| depth := d |}) = (r, (s', fr', t)) →
  frame s s' ∧
  match r with
  | Ok new => insert_post s fr d root h (entry_val e) new s' fr' (depth t)
  | Err err => may_err err ∧ t = {| depth := d |}
  | Panic p => may_panic p
  end.
Proof.
  intros Hi Ht Hh He E. pose proof Ht as [Hw Hsp Hr Hd Hk].
  destruct (insert_spec alloc Halloc s fr d root h e Hi Hw Hr Hd Hh He) as [HFr Hp].
  pose proof (insert_err_depth alloc (s, fr, {| depth := d |}) root h e) as Herr.
  rewrite E in *. split; [exact HFr |]. destruct r as [new | err | p]; cbn [post fst snd] in *.
  - destruct Hp as (s1 & d1 & f & [= -> -> ->] & Hd1 & Hn & Hc & Hs & Hm).
    exists f. ands; [done | | done | intros k [Hk0 _]; by apply Hm].
    eapply table_cow; eauto.
  - split; [done |]. by apply (Herr err (s', fr', t)).
  - done.
Qed.

Lemma delete_cases s fr d root h r s' fr' :
  st_inv s → table s d root → is_u64 h →
  delete alloc {| depth := d |} root h (s, fr) = (r, (s', fr')) →
  frame s s' ∧
  match r with
  | Ok (new, prev) => prev = table_map s d root h ∧
      match prev with
      | None => new = root ∧ fr' = fr
      | Some _ => insert_post s fr d root h None new s' fr' d
      end
  | Err err => may_err err
  | Panic p => may_panic p
  end.
Proof.
  intros Hi Ht Hh E. pose proof Ht as [Hw Hsp Hr Hd Hk].
  destruct (delete_spec alloc Halloc s fr d root h Hi Hw (tb_none _ _ _ Ht) Hd Hh) as [HFr Hp].
  rewrite E in *. split; [exact HFr |]. destruct r as [[new prev] | err | p]; cbn [post fst snd] in *;
    [| done | done].
  destruct Hp as [Hprev Hp]. split; [done |]. destruct prev as [e |]; [| done].
  destruct Hp as (f & Hf & Hn & Hc & Hs & Hm). exists f. ands; [done | | done | intros k [? _]; by apply Hm].
  eapply table_cow; eauto.
Qed.

(** C4 [insert] on every outcome: on success the new root is a well-formed table
    that maps the handle to the entry (to nothing, for an entry flagged deleted)
    and every other handle as before; on an error [self] has the depth it had
    before; it panics only where the allocator or the cache does (no slice or
    assertion of its own fails); and on every outcome the table under the old
    root is what it was. *)
Theorem insert_outcomes s fr d root h e r s' fr' t :
  st_inv s → table s d root → is_u64 h → entry_ok e →
  insert alloc root h e (s, fr, {| depth := d |}) = (r, (s', fr', t)) →
  (table s' d root ∧ ∀ k, is_u64 k → table_map s' d root k = table_map s d root k) ∧
  match r with
  | Ok new => table s' (depth t) new ∧ ∀ k, is_u64 k →
      table_map s' (depth t) new k = if decide (k = h) then entry_val e else table_map s d root k
  | Err err => may_err err ∧ t = {| depth := d |}
  | Panic p => may_panic p
  end.
Proof.
  intros Hi Ht Hh He E. destruct (insert_cases s fr d root h e r s' fr' t) as [Hf Hr]; auto.
  destruct (table_ext s s' d root) as [Ht' Hm]; [apply Hf | done |].
  split; [split; [done | intros k [? _]; auto] |].
  destruct r; [| done | done]. destruct Hr as (f & _ & ? & _ & ?). auto.
Qed.

(** C5 The copy-on-write accounting of a successful [insert]: the call only adds
    to [freed]; a page of the old tree is in the new tree or was added to
    [freed], never both; a page of the new tree was in the old one or was not
    live before; and a page added to [freed] is a page of the old tree or one
    the call itself allocated, and is still allocated. *)
Theorem insert_freed s fr d root h e new s' fr' t :
  st_inv s → table s d root → is_u64 h → entry_ok e →
  insert alloc root h e (s, fr, {| depth := d |}) = (Ok new, (s', fr', t)) →
  ∃ f, fr' = fr ++ f ∧
    (∀ x, table_page s d root x → table_page s' (depth t) new x ∨ x ∈ f) ∧
    (∀ x, x ∈ f → ¬ table_page s' (depth t) new x) ∧
    (∀ x, table_page s' (depth t) new x → table_page s d root x ∨ ¬ live s x) ∧
    (∀ x, x ∈ f → live s' x ∧ (table_page s d root x ∨ ¬ live s x)).
Proof.
  intros Hi Ht Hh He E. destruct (insert_cases s fr d root h e _ s' fr' t Hi Ht Hh He E)
    as [_ (f & -> & _ & Hc & _)]. destruct Hc as [_ _ Hn Ho Hfr Hdis Hl]. exists f.
  ands; [done | done | done | | by auto]. intros x Hx. destruct (Hn x Hx) as [[? _] | ?]; auto.
Qed.

(** C25 [lookup] returns the entry the table maps the handle to, for every 64-bit
    handle: it never reports corruption on a well-formed table, panics only where
    the cache does, and has no logical effect. *)
Theorem lookup_exact s d root h r s' :
  st_inv s → table s d root → is_u64 h →
  lookup {| depth := d |} root h s = (r, s') →
  same view live s s' ∧
  match r with
  | Ok found => found = table_map s d root h
  | Err err => may_err err
  | Panic p => may_panic p
  end.
Proof.
  intros Hi Ht Hh E.
  destruct (lookup_spec s d root h Hi (proj1 (tb_tree _ _ _ Ht)) (tb_none _ _ _ Ht)
    (tb_depth _ _ _ Ht) Hh) as [[_ Hq] Hp].
  rewrite E in *. by destruct r.
Qed.

(** C24 [delete] returns the entry the table had for the handle.  When there was
    none the root and [freed] are unchanged; else the new root maps the handle to
    nothing and every other handle as before, and the superseded pages are
    exactly the old pages the new tree does not use.  The old table survives on
    every outcome. *)
Theorem delete_outcomes s fr d root h r s' fr' :
  st_inv s → table s d root → is_u64 h →
  delete alloc {| depth := d |} root h (s, fr) = (r, (s', fr')) →
  (table s' d root ∧ ∀ k, is_u64 k → table_map s' d root k = table_map s d root k) ∧
  match r with
  | Ok (new, prev) => prev = table_map s d root h ∧
      match prev with
      | None => new = root ∧ fr' = fr
      | Some _ => table s' d new ∧
          (∀ k, is_u64 k → table_map s' d new k =
            if decide (k = h) then None else table_map s d root k) ∧
          ∃ f, fr' = fr ++ f ∧ ∀ x, table_page s d root x → (x ∈ f ↔ ¬ table_page s' d new x)
      end
  | Err err => may_err err
  | Panic p => may_panic p
  end.
Proof.
  intros Hi Ht Hh E. destruct (delete_cases s fr d root h r s' fr') as [Hf Hr]; auto.
  destruct (table_ext s s' d root) as [Ht' Hm]; [apply Hf | done |].
  split; [split; [done | intros k [? _]; auto] |].
  destruct r as [[new [e |]] | |]; [| done..]. destruct Hr as [-> (f & -> & Ht2 & Hc & Hm2)].
  ands; [done.. |]. exists f. split; [done |]. intros x Hx.
  split; [apply (cow_disj _ _ _ _ _ _ _ _ _ Hc) |].
  destruct (cow_old _ _ _ _ _ _ _ _ _ Hc x Hx); [done | auto].
Qed.

(** C26 [iter_live] lists the handles the table maps to something, each with its
    entry, once and in increasing order. *)
Theorem iter_live_exact s d root r s' :
  st_inv s → table s d root →
  iter_live {| depth := d |} root s = (r, s') →
  same view live s s' ∧
  match r with
  | Ok xs => StronglySorted (λ a b, a.1 < b.1) xs ∧
      ∀ h e, (h, e) ∈ xs ↔ is_u64 h ∧ table_map s d root h = Some e
  | Err err => may_err err
  | Panic p => may_panic p
  end.
Proof.
  intros Hi Ht E. pose proof Ht as [Hw _ _ Hd Hk].
  destruct (iter_live_spec s d root Hi (proj1 Hw) (tb_none _ _ _ Ht) Hd) as [[_ Hq] Hp].
  rewrite E in *. split; [done |]. destruct r as [xs | |]; [| done..].
  cbn [post fst] in Hp. subst xs.
  assert (Hkey : ∀ k e, 0 ≤ k < keys ENTRIES_PER_LEAF d →
    den None ENTRIES_PER_LEAF leaf_val s d root k = Some e → k ≤ u64_max).
  { intros k e Hk0 He. destruct (Z.le_gt_cases k u64_max) as [? | Hgt]; [done |].
    specialize (Hk k Hgt). unfold table_map, lookup_den in Hk.
    destruct (Z.leb_spec (keys ENTRIES_PER_LEAF d) k); [lia | congruence]. }
  split; [by apply entries_sorted |]. intros h e. rewrite elem_of_entries by done.
  unfold table_map, lookup_den. split.
  - intros [Hr He]. pose proof (Hkey h e Hr He). unfold u64_max, is_u64 in *.
    split; [lia |]. destruct (Z.leb_spec (keys ENTRIES_PER_LEAF d) h); [lia | done].
  - intros [[? ?] He]. destruct (Z.leb_spec (keys ENTRIES_PER_LEAF d) h); [done | auto].
Qed.

(** [recover_depth] on reopen finds the depth the table was built with: the
    leftmost path every table keeps is complete, so counting its interior pages
    is exact. *)
Theorem recover_depth_exact s d root r s' :
  st_inv s → table s d root →
  recover_depth root s = (r, s') →
  same view live s s' ∧
  match r with
  | Ok found => found = d
  | Err err => may_err err
  | Panic p => may_panic p
  end.
Proof.
  intros Hi Ht E. pose proof Ht as [[Hw _] Hsp _ Hd _].
  destruct (recover_depth_spec s d root Hi Hw Hsp (tb_none _ _ _ Ht) Hd) as [[_ Hq] Hp].
  rewrite E in *. by destruct r.
Qed.

(** ** A table's life, from [create_root] on *)

Lemma create_root_spec s t :
  st_inv s →
  spec (framed s) create_root (s, t)
    (λ root sx, sx.2 = {| depth := 0 |} ∧ table sx.1 0 root ∧
      ∀ k, 0 ≤ k → table_map sx.1 0 root k = None).
Proof.
  intros Hi. unfold create_root. apply bind_alloc;
    [intros s1 Hs1; by apply new_page_ok | by apply frame_refl |].
  intros n s1 Hn Hl Hnr Hf1 He1. step_assert; [by apply assert_id_ne0 |].
  apply (bind_modify s s1); [done | done | done | |].
  { intros p Hp. by apply init_node_wf; [| split]. }
  intros p s2 [Hp _] Hf2 Ho2 Hh2. apply bind_writes, spec_ret; [done |]. cbn [fst snd].
  pose proof (init_node_empty 0 p FLAG_LEAF Hp eq_refl) as Hemp.
  destruct (fresh_node _ _ _ _ _ entries_pos s2 0 n _ Hh2 Hemp) as (Hw & _ & Hd).
  assert (Hm : ∀ k, 0 ≤ k → table_map s2 0 n k = None).
  { intros k Hk. unfold table_map, lookup_den.
    destruct (Z.leb_spec (keys ENTRIES_PER_LEAF 0) k); [done | by apply Hd]. }
  split; [done |]. split; [| done]. split; [done | done | lia | unfold MAX_DEPTH; lia |].
  intros k Hk. apply Hm. unfold u64_max in *. lia.
Qed.

(** The calls the transaction layer makes on its table, with the root it keeps
    next to it. *)
Inductive op :=
  | OpInsert (h : Z) (e : HandleEntry)
  | OpDelete (h : Z)
  | OpLookup (h : Z).

Definition tstate : Type := St * list Z * HandleTable * Z.

(** [let root = table.insert(..., root, ...)?], and so on. *)
Definition run_op (o : op) : M tstate (option HandleEntry) :=
  let* root := reads snd in
  match o with
  | OpInsert h e =>
      let* new := lift (insert alloc root h e) in
      writes (λ sx, (sx.1, new)) ;;;
      ret None
  | OpDelete h =>
      let* t := reads (λ sx, sx.1.2) in
      let* '(new, prev) := lift (lift (delete alloc t root h)) in
      writes (λ sx, (sx.1, new)) ;;;
      ret prev
  | OpLookup h =>
      let* t := reads (λ sx, sx.1.2) in
      lift (lift (lift (lookup t root h)))
  end.

Fixpoint run (os : list op) : M tstate (list (option HandleEntry)) :=
  match os with
  | [] => ret []
  | o :: os =>
      let* r := run_op o in
      let* rs := run os in
      ret (r :: rs)
  end.

(** The specification: a finite map. *)
Definition op_map (m : gmap Z HandleEntry) (o : op) : gmap Z HandleEntry :=
  match o with
  | OpInsert h e => partial_alter (λ _, entry_val e) h m
  | OpDelete h => base.delete h m
  | OpLookup h => m
  end.

Definition op_result (m : gmap Z HandleEntry) (o : op) : option HandleEntry :=
  match o with
  | OpInsert _ _ => None
  | OpDelete h | OpLookup h => m !! h
  end.

Fixpoint op_results (m : gmap Z HandleEntry) (os : list op) : list (option HandleEntry) :=
  match os with
  | [] => []
  | o :: os => op_result m o :: op_results (op_map m o) os
  end.

Definition op_ok (o : op) : Prop :=
  match o with
  | OpInsert h e => is_u64 h ∧ entry_ok e
  | OpDelete h | OpLookup h => is_u64 h
  end.

(** The state represents the map. *)
Definition rep (sx : tstate) (m : gmap Z HandleEntry) : Prop :=
  let '(s, _, t, root) := sx in
  st_inv s ∧ table s (depth t) root ∧ ∀ k, is_u64 k → table_map s (depth t) root k = m !! k.

Lemma rep_frame s s' fr fr' t root m :
  frame s s' → rep (s, fr, t, root) m → rep (s', fr', t, root) m.
Proof.
  intros [Hi He] (_ & Ht & Hm). destruct (table_ext s s' _ _ He Ht) as [Ht' Hm'].
  unfold rep. ands; [done | done |]. intros k Hk. rewrite Hm' by apply Hk. by apply Hm.
Qed.

(** One call: the map moves by [op_map] on success and not at all on an error. *)
Lemma run_op_rep o sx m r sx' :
  rep sx m → op_ok o → run_op o sx = (r, sx') →
  match r with
  | Ok v => v = op_result m o ∧ rep sx' (op_map m o)
  | Err err => may_err err ∧ rep sx' m
  | Panic p => may_panic p
  end.
Proof.
  destruct sx as [[[s fr] [d]] root]. intros Hrep Hok. pose proof Hrep as (Hi & Ht & Hm).
  cbn [depth] in *. unfold run_op, bind at 1, reads at 1. cbn [snd]. destruct o as [h e | h | h].
  - destruct Hok as [Hh He]. unfold bind, lift. cbn [fst snd].
    destruct (insert alloc root h e (s, fr, {| depth := d |})) as [r1 [[s1 fr1] t1]] eqn:E.
    destruct (insert_cases s fr d root h e r1 s1 fr1 t1 Hi Ht Hh He E) as [Hf Hr].
    destruct r1 as [new | err | p]; intros [= <- <-].
    + destruct Hr as (f & _ & Ht1 & _ & Hm1). unfold rep. ands; [done | apply Hf | done |].
      intros k Hk. rewrite Hm1 by done. simpl. case_decide as Hd.
      * subst k. by rewrite lookup_partial_alter_eq.
      * by rewrite lookup_partial_alter_ne, Hm by done.
    + destruct Hr as [He' ->]. split; [done |]. by eapply rep_frame.
    + done.
  - unfold bind, lift, reads. cbn [fst snd].
    destruct (HandleTable.delete alloc {| depth := d |} root h (s, fr)) as [r1 [s1 fr1]] eqn:E.
    destruct (delete_cases s fr d root h r1 s1 fr1 Hi Ht Hok E) as [Hf Hr].
    destruct r1 as [[new prev] | err | p]; intros [= <- <-]; [| split; [done | by eapply rep_frame] | done].
    destruct Hr as [Hprev Hr]. rewrite Hm in Hprev by done. split; [done |].
    destruct prev as [e |].
    + destruct Hr as (f & _ & Ht1 & _ & Hm1). unfold rep. ands; [apply Hf | done |]. cbn [fst snd depth].
      intros k Hk. rewrite Hm1 by done. simpl. case_decide as Hd.
      * subst k. by rewrite lookup_delete_eq.
      * by rewrite lookup_delete_ne, Hm by done.
    + destruct Hr as [-> ->]. simpl op_map. rewrite delete_id by done. by eapply rep_frame.
  - unfold bind, lift, reads. cbn [fst snd].
    destruct (lookup {| depth := d |} root h s) as [r1 s1] eqn:E.
    destruct (lookup_spec s d root h Hi (proj1 (tb_tree _ _ _ Ht)) (tb_none _ _ _ Ht)
      (tb_depth _ _ _ Ht) Hok) as [Hq Hp].
    rewrite E in *. apply quiet_frame in Hq.
    destruct r1; intros [= <- <-]; cbn [post fst] in Hp; (split || idtac); try done;
      try (by eapply rep_frame). rewrite Hp. by apply Hm.
Qed.

End props.

(** ** Examples on the reference store *)

Definition demo_run := create_root (mem_empty, new).
Definition demo_store : MemStore := demo_run.2.1.
Definition demo_root : Z := 1.
Definition demo_entry : HandleEntry :=
  {| page_id := 9; slot_index := 2; flags := Live; tag := 5; client_byte := 0 |}.

Lemma demo_entry_ok : entry_ok demo_entry.
Proof. by repeat split. Qed.

Lemma demo_run_ok : demo_run.1 = Ok demo_root.
Proof. by vm_compute. Qed.

Lemma demo_facts :
  st_inv demo_store ∧ table demo_store 0 demo_root ∧
  ∀ k, 0 ≤ k → table_map demo_store 0 demo_root k = None.
Proof.
  destruct (create_root_spec (HS := mem_store_ok) mem_empty new mem_empty_inv) as [[Hi _] Hp].
  fold demo_run in Hi, Hp. fold demo_store in Hi. rewrite demo_run_ok in Hp. cbn [post] in Hp.
  destruct Hp as (_ & Ht & Hm). done.
Qed.

(** The handle 600 is beyond one leaf: the table grows to depth 1. *)
Definition demo_insert :=
  insert ps_new_page demo_root 600 demo_entry (demo_store, [], {| depth := 0 |}).

Lemma demo_insert_ok : is_ok demo_insert.1 = true.
Proof. by vm_compute. Qed.

Lemma u64_600 : is_u64 600.
Proof. by split. Qed.

Lemma insert_outcomes_witness :
  match demo_insert with
  | (Ok new, (s', _, t)) => table s' (depth t) new ∧ table_map s' (depth t) new 600 = Some demo_entry
  | _ => False
  end.
Proof.
  destruct demo_facts as (Hi & Ht & Hm). destruct demo_insert as [r [[s' fr'] t]] eqn:E.
  destruct (is_ok_run _ _ _ E demo_insert_ok) as [a ->].
  destruct (insert_outcomes ps_new_page new_page_alloc_ok demo_store [] 0 demo_root 600 demo_entry
    _ _ _ _ Hi Ht u64_600 demo_entry_ok E) as [_ [Ht' Hm']].
  split; [done |]. rewrite Hm' by apply u64_600. done.
Defined.

Lemma insert_freed_witness :
  match demo_insert with
  | (Ok new, (s', fr', t)) => ∃ f, fr' = [] ++ f ∧
      ∀ x, table_page demo_store 0 demo_root x → table_page s' (depth t) new x ∨ x ∈ f
  | _ => False
  end.
Proof.
  destruct demo_facts as (Hi & Ht & Hm). destruct demo_insert as [r [[s' fr'] t]] eqn:E.
  destruct (is_ok_run _ _ _ E demo_insert_ok) as [a ->].
  destruct (insert_freed ps_new_page new_page_alloc_ok demo_store [] 0 demo_root 600 demo_entry
    _ _ _ _ Hi Ht u64_600 demo_entry_ok E) as (f & Hf & Ho & _). eauto.
Defined.

Lemma lookup_exact_witness :
  (lookup {| depth := 0 |} demo_root 7 demo_store).1 = Ok None.
Proof.
  destruct demo_facts as (Hi & Ht & Hm). destruct (lookup _ _ _ _) as [r s'] eqn:E.
  assert (Hu : is_u64 7) by by split.
  destruct (lookup_exact demo_store 0 demo_root 7 r s' Hi Ht Hu E) as [_ Hr].
  assert (Hok : is_ok (lookup {| depth := 0 |} demo_root 7 demo_store).1 = true) by by vm_compute.
  destruct (is_ok_run _ _ _ E Hok) as [a ->]. rewrite Hr. cbn [fst]. by rewrite Hm.
Defined.

(** A table with one entry, to delete from and to list. *)
Definition demo_insert7 :=
  insert ps_new_page demo_root 7 demo_entry (demo_store, [], {| depth := 0 |}).
Definition demo_store1 : MemStore := demo_insert7.2.1.1.
Definition demo_root1 : Z := 2.

Lemma demo_insert7_ok : demo_insert7.1 = Ok demo_root1 ∧ demo_insert7.2.2 = {| depth := 0 |}.
Proof. by vm_compute. Qed.

Lemma demo_facts1 :
  st_inv demo_store1 ∧ table demo_store1 0 demo_root1 ∧
  ∀ k, is_u64 k → table_map demo_store1 0 demo_root1 k = if decide (k = 7) then Some demo_entry else None.
Proof.
  destruct demo_facts as (Hi & Ht & Hm).
  destruct demo_insert7_ok as [Hok Hd].
  destruct demo_insert7 as [r [[s' fr'] t]] eqn:E. cbn [fst snd] in *. subst r t.
  assert (Hu : is_u64 7) by by split.
  destruct (insert_cases ps_new_page new_page_alloc_ok demo_store [] 0 demo_root 7 demo_entry
    _ _ _ _ Hi Ht Hu demo_entry_ok E) as [[Hi' _] (f & _ & Ht' & _ & Hm')].
  assert (Hs : demo_store1 = s') by (unfold demo_store1; by rewrite E).
  rewrite Hs. ands; [done | done |]. intros k Hk. rewrite Hm' by done. case_decide; [done |].
  apply Hm, Hk.
Qed.

Lemma delete_outcomes_witness :
  match delete ps_new_page {| depth := 0 |} demo_root1 7 (demo_store1, []) with
  | (Ok (new, prev), (s', _)) => prev = Some demo_entry ∧ table_map s' 0 new 7 = None
  | _ => False
  end.
Proof.
  destruct demo_facts1 as (Hi & Ht & Hm). assert (Hu : is_u64 7) by by split.
  assert (Hok : is_ok (delete ps_new_page {| depth := 0 |} demo_root1 7 (demo_store1, [])).1 = true)
    by by vm_compute.
  destruct (delete _ _ _ _ _) as [r [s' fr']] eqn:E. cbn [fst] in Hok. destruct r as [[new prev] | |]; [| done..].
  destruct (delete_outcomes ps_new_page new_page_alloc_ok demo_store1 [] 0 demo_root1 7
    _ _ _ Hi Ht Hu E) as [_ [Hprev Hr]]. rewrite Hm in Hprev by done. simpl in Hprev. subst prev.
  split; [done |]. destruct Hr as (_ & Hm' & _). by rewrite Hm'.
Defined.

Lemma iter_live_exact_witness :
  match iter_live {| depth := 0 |} demo_root1 demo_store1 with
  | (Ok xs, _) => (7, demo_entry) ∈ xs
  | _ => False
  end.
Proof.
  destruct demo_facts1 as (Hi & Ht & Hm).
  assert (Hok : is_ok (iter_live {| depth := 0 |} demo_root1 demo_store1).1 = true) by by vm_compute.
  destruct (iter_live _ _ _) as [r s'] eqn:E. cbn [fst] in Hok. destruct r as [xs | |]; [| done..].
  destruct (iter_live_exact demo_store1 0 demo_root1 _ _ Hi Ht E) as [_ [_ Hx]].
  assert (Hu : is_u64 7) by by split. apply Hx. split; [done |]. by rewrite Hm.
Defined.

Lemma recover_depth_exact_witness : (recover_depth demo_root1 demo_store1).1 = Ok 0%nat.
Proof.
  destruct demo_facts1 as (Hi & Ht & Hm).
  assert (Hok : is_ok (recover_depth demo_root1 demo_store1).1 = true) by by vm_compute.
  destruct (recover_depth _ _) as [r s'] eqn:E. cbn [fst] in *. destruct r as [xs | |]; [| done..].
  destruct (recover_depth_exact demo_store1 0 demo_root1 _ _ Hi Ht E) as [_ ->]. done.
Defined.

Definition demo_ops : list op :=
  [OpInsert 7 demo_entry; OpLookup 7; OpInsert 600 demo_entry; OpDelete 7; OpLookup 7].

End HandleTableProps.
