(* ===== verification/Durability.v ===== *)
(** * What a flush makes durable

    The handle table over the page cache: a table that a flush has written is found
    again by a cache opened on the page file. *)

From S2P Require Export CacheProps HandleTableProps.

Module Durability.
Import PageCache CacheInv CacheEvict CacheOps CacheFlush CacheProps CacheStore.
Import HandleTable HandleTableFacts HandleTableRead HandleTableProps.

Section durable.
Context `{HX : Xxh3} `{HO : HashOrder} `{HC : Primitives}.
#[local] Instance durable_fault : Fault := cache_fault True True.
Implicit Types (c : PageCache).

(** The pages live before the flush are those of the cache opened after it. *)
Lemma flush_reopen_ext c c' m sb dr l x :
  cache_inv c → tidy c → flush c = (Ok tt, c') → live c x →
  st_inv (reopen c' m sb dr l) ∧ ext c (reopen c' m sb dr l).
Proof.
  intros Hi Ht E Hx. destruct (spec_ok _ _ _ _ _ _ (flush_spec c Hi Ht) E) as [Hf [Hk Hq]].
  pose proof (fw_inv _ _ Hf) as Hi'. set (r := reopen c' m sb dr l).
  assert (Hp : ∀ j p, page_at c j = Some p → page_at r j = Some p).
  { intros j p Hp. unfold r. rewrite reopen_page, <- quiescent_disk by done. auto. }
  assert (Hr : cache_inv r).
  { apply reopen_inv; try apply Hi'. destruct Hx as [p Hpx%Hp]. unfold r in Hpx. rewrite reopen_page in Hpx.
    unfold disk_at, disk_page in Hpx. pose proof (ci_count _ Hi'). pose proof (ci_next _ Hi').
    destruct (Z.leb_spec 0 x), (Z.ltb_spec x (PageIo.page_count (io c'))); try done. lia. }
  split; [done |]. intros j [p Hj]. pose proof (Hp j p Hj) as Hj'. split; [by exists p |].
  cbn [view cache_store_ok]. rewrite !view_page by done. congruence.
Qed.

(** C16 After a successful flush, a cache opened anew on the page file holds the
    handle table: under the same root it is a well-formed table that maps every handle
    as before, [recover_depth] finds its depth from the pages, and a lookup in it
    returns the entry that the table had. *)
Theorem table_survives_reopen c d root c' m sb dr l :
  cache_inv c → tidy c → table c d root → flush c = (Ok tt, c') →
  let r := reopen c' m sb dr l in
  cache_inv r ∧ table r d root ∧ (∀ h, is_u64 h → table_map r d root h = table_map c d root h) ∧
  (∀ found r', recover_depth root r = (Ok found, r') → found = d) ∧
  ∀ h found r', is_u64 h → lookup {| depth := d |} root h r = (Ok found, r') → found = table_map c d root h.
Proof.
  intros Hi Ht Htb E. cbv zeta.
  assert (Hl : live c root).
  { destruct (tree_root_holds ENTRIES_PER_LEAF is_leaf is_int leaf_val c d root (proj1 (tb_tree _ _ _ Htb))) as (v & Hv & _). by eapply holds_live. }
  destruct (flush_reopen_ext c c' m sb dr l root Hi Ht E Hl) as [Hr He]. set (r := reopen c' m sb dr l) in *.
  destruct (table_ext c r d root He Htb) as [Htr Hm]. ands; [done | done | | |].
  - intros h [? _]. auto.
  - intros found r' Erun. pose proof Htr as [[Hw _] Hsp _ Hd _].
    by destruct (spec_ok _ _ _ _ _ _ (recover_depth_spec r d root Hr Hw Hsp (tb_none _ _ _ Htr) Hd) Erun).
  - intros h found r' Hh Erun.
    destruct (spec_ok _ _ _ _ _ _ (lookup_spec r d root h Hr (proj1 (tb_tree _ _ _ Htr)) (tb_none _ _ _ Htr) (tb_depth _ _ _ Htr) Hh) Erun)
      as [_ ->]. destruct Hh as [Hh _]. exact (Hm h Hh).
Qed.
End durable.

(** A table of one leaf in the small cache. *)
Import CryptoProps.
#[local] Instance example_fault : Fault := cache_fault True True.

Definition small_table := create_root (small_cache, HandleTable.new).
Definition small_flush := flush small_table.2.1.

Lemma table_survives_reopen_witness :
  cache_inv (reopen small_flush.2 PAGE_SIZE 0 Mru InMemory) ∧
  ∀ h, is_u64 h → table_map (reopen small_flush.2 PAGE_SIZE 0 Mru InMemory) 0 1 h = None.
Proof.
  destruct (create_root_spec (HS := cache_store_ok) small_cache HandleTable.new (proj1 small_inv)) as [[Hi _] Hp].
  assert (Er : small_table.1 = Ok 1) by (vm_compute; reflexivity). fold small_table in Hi, Hp. rewrite Er in Hp. cbn [post] in Hp.
  destruct Hp as (_ & Htb & Hm).
  assert (Hs : spillway small_table.2.1 = None) by (vm_compute; reflexivity).
  assert (Ht : tidy small_table.2.1) by (intros j _; unfold resident; by rewrite Hs).
  assert (Hok : is_ok small_flush.1 = true) by (vm_compute; reflexivity).
  destruct small_flush as [r c'] eqn:E. destruct (is_ok_run _ r c' E) as [[] ->]; [rewrite E; exact Hok |].
  destruct (table_survives_reopen small_table.2.1 0 1 c' PAGE_SIZE 0 Mru InMemory Hi Ht Htb E) as (H1 & _ & H2 & _).
  split; [exact H1 |]. intros h Hh. cbn [snd]. rewrite H2 by done. apply Hm, Hh.
Defined.
End Durability.
