(* ===== verification/RadixU64.v ===== *)
(** * The membership index's radix tree ([src/membership_index.rs], [RadixU64])

    A copy-on-write radix tree from [u64] keys to non-zero [u64] values; a zero
    slot is an absent key.  The conventions are those of [HandleTable]: [alloc] is
    the closure the transaction layer injects, the state carries the [freed]
    vector where the code takes it and [self] where it mutates it, and a level is
    a [nat].  A slot has the layout of a child pointer, so [read_slot] and
    [write_slot] are [read_child] and [write_child]. *)

From S2P Require Export RadixPath.

Module RadixU64.

Definition SLOT_SIZE : Z := 8.
Definition SLOTS_PER_PAGE : Z := (CHECKSUM_OFFSET - DATA_PAGE_HEADER_SIZE) / SLOT_SIZE.
Definition MAX_DEPTH : nat := 6.

Definition read_slot (buf : list Z) (index : Z) : Z :=
  get_u64 (DATA_PAGE_HEADER_SIZE + index * SLOT_SIZE) buf.

Definition write_slot (index value : Z) (buf : list Z) : list Z :=
  put_u64 (DATA_PAGE_HEADER_SIZE + index * SLOT_SIZE) value buf.

(** [fill(0)], the type tag and the version at byte 1. *)
Definition init_buf (page_type : PageType) (buf : list Z) : list Z :=
  let buf := zeros (zlen buf) in
  let buf := setb 0 (type_tag page_type) buf in
  setb 1 (current_version page_type) buf.

Definition expected_type_at (level : nat) : PageType :=
  match level with O => MembershipLeaf | S _ => MembershipInterior end.

Definition check_type_at {St} (buf : list Z) (page_id : Z) (level : nat) : M St unit :=
  if negb (getb 0 buf =? type_tag (expected_type_at level)) then fail (CorruptPage page_id)
  else ret tt.

Record RadixU64 := { depth : nat }.

Definition new : RadixU64 := {| depth := 0 |}.

Definition capacity (self : RadixU64) : Z := sat_pow SLOTS_PER_PAGE (depth self).

(** [for _ in 1..level] runs [level - 1] times. *)
Definition span_at_level (level : nat) : Z := sat_pow SLOTS_PER_PAGE (level - 1).

(** The non-zero slots of a page, with their indices. *)
Definition slots (buf : list Z) : list (Z * Z) :=
  filter (λ ic, ic.2 ≠ 0) (map (λ i, (i, read_slot buf i)) (seqZ 0 SLOTS_PER_PAGE)).

(** [for x in xs { f(x, out)?; }] *)
Fixpoint fold_m {S A B} (f : A → B → M S B) (xs : list A) (out : B) : M S B :=
  match xs with
  | [] => ret out
  | x :: xs => let* out := f x out in fold_m f xs out
  end.

(** [for x in xs { if out.len() >= limit { break; } f(x, out)?; }] *)
Fixpoint fold_until {S A B} (limit : Z) (f : A → list B → M S (list B)) (xs : list A)
    (out : list B) : M S (list B) :=
  match xs with
  | [] => ret out
  | x :: xs =>
      if limit <=? zlen out then ret out else
      let* out := f x out in fold_until limit f xs out
  end.

(** [for x in xs { if f(x)? { return Ok(true); } } Ok(false)] *)
Fixpoint any_m {S A} (f : A → M S bool) (xs : list A) : M S bool :=
  match xs with
  | [] => ret false
  | x :: xs =>
      let* found := f x in
      if found then ret true else any_m f xs
  end.

Section ops.
Context {St : Type} `{HX : Xxh3} `{HP : !PageStore St}.

Fixpoint free_subtree (depth : nat) (root : Z) : M (St * list Z) unit :=
  if root =? PAGE_ID_NONE then ret tt else
  let* buf := lift (ps_get root) in
  check_type_at buf root depth ;;;
  match depth with
  | O => ret tt
  | S d =>
      let* buf := lift (ps_get root) in
      fold_m (λ child _, free_subtree d child) (map snd (slots buf)) tt
  end ;;;
  push_freed root.

(** The loop of [find_leaf], from [level] down. *)
Fixpoint find_loop (level : nat) (current remaining : Z) : M St (option (Z * Z)) :=
  match level with
  | O => ret (Some (current, remaining mod SLOTS_PER_PAGE))
  | S l =>
      let span := span_at_level level in
      let child_idx := remaining / span in
      if SLOTS_PER_PAGE <=? child_idx then ret None else
      let remaining := remaining mod span in
      let* buf := ps_get current in
      check_type_at buf current level ;;;
      let child := read_slot buf child_idx in
      if child =? 0 then ret None else
      find_loop l child remaining
  end.

Definition find_leaf (self : RadixU64) (root key : Z) : M St (option (Z * Z)) :=
  let cap := capacity self in
  if negb (cap =? u64_max) && (cap <=? key) then ret None else
  match depth self with
  | O => ret (Some (root, key mod SLOTS_PER_PAGE))
  | S _ => find_loop (depth self) root key
  end.

Definition lookup (self : RadixU64) (root key : Z) : M St Z :=
  if root =? PAGE_ID_NONE then ret 0 else
  let* found := find_leaf self root key in
  match found with
  | None => ret 0
  | Some (leaf, idx) =>
      let* buf := ps_get leaf in
      check_type_at buf leaf 0 ;;;
      ret (read_slot buf idx)
  end.

(** The leaf loop of [iter_recursive]. *)
Definition iter_leaf (buf : list Z) (base : Z) : list (Z * Z) :=
  map (λ ic, (sat_add base ic.1, ic.2)) (slots buf).

Fixpoint iter_recursive (level : nat) (page base : Z) (out : list (Z * Z))
    : M St (list (Z * Z)) :=
  match level with
  | O =>
      let* buf := ps_get page in
      check_type_at buf page 0 ;;;
      ret (out ++ iter_leaf buf base)
  | S l =>
      let span := span_at_level level in
      let* buf := ps_get page in
      check_type_at buf page level ;;;
      fold_m (λ '(i, child), iter_recursive l child (sat_add base (sat_mul i span)))
        (slots buf) out
  end.

Definition iter (self : RadixU64) (root : Z) : M St (list (Z * Z)) :=
  if root =? PAGE_ID_NONE then ret [] else
  iter_recursive (depth self) root 0 [].

(** The leaf loop of [iter_bounded_recursive], from the slots [idxs] on. *)
Fixpoint bounded_leaf (buf : list Z) (base limit : Z) (idxs : list Z) (out : list (Z * Z))
    : list (Z * Z) :=
  match idxs with
  | [] => out
  | i :: idxs =>
      if limit <=? zlen out then out else
      let v := read_slot buf i in
      bounded_leaf buf base limit idxs
        (if negb (v =? 0) then out ++ [(sat_add base i, v)] else out)
  end.

Fixpoint iter_bounded_recursive (level : nat) (limit page base : Z) (out : list (Z * Z))
    : M St (list (Z * Z)) :=
  if limit <=? zlen out then ret out else
  match level with
  | O =>
      let* buf := ps_get page in
      check_type_at buf page 0 ;;;
      ret (bounded_leaf buf base limit (seqZ 0 SLOTS_PER_PAGE) out)
  | S l =>
      let span := span_at_level level in
      let* buf := ps_get page in
      check_type_at buf page level ;;;
      fold_until limit
        (λ '(i, child), iter_bounded_recursive l limit child (sat_add base (sat_mul i span)))
        (slots buf) out
  end.

Definition iter_bounded (self : RadixU64) (root limit : Z) : M St (list (Z * Z)) :=
  if (root =? PAGE_ID_NONE) || (limit =? 0) then ret [] else
  iter_bounded_recursive (depth self) limit root 0 [].

Fixpoint any_recursive (level : nat) (page : Z) : M St bool :=
  match level with
  | O =>
      let* buf := ps_get page in
      check_type_at buf page 0 ;;;
      ret (existsb (λ i, negb (read_slot buf i =? 0)) (seqZ 0 SLOTS_PER_PAGE))
  | S l =>
      let* buf := ps_get page in
      check_type_at buf page level ;;;
      any_m (any_recursive l) (map snd (slots buf))
  end.

Definition any_present (self : RadixU64) (root : Z) : M St bool :=
  if root =? PAGE_ID_NONE then ret false else
  any_recursive (depth self) root.

(** The loop of [recover_depth]: it stops after [MAX_DEPTH + 1] levels, so
    that many turns are enough. *)
Fixpoint recover_loop (fuel depth : nat) (current : Z) : M St nat :=
  match fuel with
  | O => fail (CorruptPage current)
  | S fuel =>
      let* buf := ps_get current in
      if negb (getb 0 buf =? type_tag MembershipInterior) then ret depth else
      let depth := S depth in
      if (MAX_DEPTH <? depth)%nat then fail (CorruptPage current) else
      let child := read_slot buf 0 in
      if child =? 0 then ret depth else
      recover_loop fuel depth child
  end.

Definition recover_depth (root : Z) : M St nat :=
  if root =? PAGE_ID_NONE then ret 0%nat else
  recover_loop (MAX_DEPTH + 2) 0 root.

Variable alloc : M St Z.

Definition init_page (page_type : PageType) : M St Z :=
  let* id := alloc in
  assert_that PanicAssert (negb (id =? 0)) ;;;
  ps_modify id (λ buf, stamp_checksum (init_buf page_type buf)) ;;;
  ret id.

Definition create_root : M (St * RadixU64) Z :=
  writes (λ sx, (sx.1, {| depth := 0 |})) ;;;
  lift (init_page MembershipLeaf).

Definition grow (old_root : Z) : M (St * list Z * RadixU64) Z :=
  let* new_root := lift (lift alloc) in
  assert_that PanicAssert (negb (new_root =? 0)) ;;;
  lift (lift (ps_modify new_root (λ buf,
    stamp_checksum (write_slot 0 old_root (init_buf MembershipInterior buf))))) ;;;
  writes (λ sx, (sx.1, {| depth := S (depth sx.2) |})) ;;;
  ret new_root.

Fixpoint insert_recursive (level : nat) (page key value : Z) : M (St * list Z) Z :=
  let* buf := lift (ps_get page) in
  check_type_at buf page level ;;;
  let* new_page := lift alloc in
  assert_that PanicAssert (negb (new_page =? 0)) ;;;
  lift (copy_page page new_page) ;;;
  push_freed page ;;;
  match level with
  | O =>
      let idx := key mod SLOTS_PER_PAGE in
      lift (ps_modify new_page (λ buf, stamp_checksum (write_slot idx value buf))) ;;;
      ret new_page
  | S l =>
      let span := span_at_level level in
      let child_idx := key / span in
      let* buf := lift (ps_get new_page) in
      slice_guard child_idx ;;;
      let child := read_slot buf child_idx in
      let* actual_child :=
        (if child =? 0 then
           let pt := match l with O => MembershipLeaf | S _ => MembershipInterior end in
           let* id := lift alloc in
           lift (ps_modify id (λ buf, stamp_checksum (init_buf pt buf))) ;;;
           ret id
         else ret child) in
      let* new_child := insert_recursive l actual_child (key mod span) value in
      lift (ps_modify new_page (λ buf, stamp_checksum (write_slot child_idx new_child buf))) ;;;
      ret new_page
  end.

(** The growth loop of [insert]; the depth grows to [MAX_DEPTH] at most, so
    [MAX_DEPTH] turns are enough. *)
Fixpoint grow_loop (fuel : nat) (current_root key : Z) : M (St * list Z * RadixU64) Z :=
  match fuel with
  | O => ret current_root
  | S fuel =>
      let* self := reads snd in
      if (depth self <? MAX_DEPTH)%nat && (capacity self <=? key) then
        let* current_root := grow current_root in
        grow_loop fuel current_root key
      else ret current_root
  end.

Definition insert (root key value : Z) : M (St * list Z * RadixU64) Z :=
  assert_that PanicAssert (negb (value =? 0)) ;;;
  let* current_root := grow_loop MAX_DEPTH root key in
  let* self := reads snd in
  lift (insert_recursive (depth self) current_root key value).

Fixpoint delete_recursive (level : nat) (page key : Z) : M (St * list Z) (Z * Z) :=
  match level with
  | O =>
      let idx := key mod SLOTS_PER_PAGE in
      let* pbuf := lift (ps_get page) in
      check_type_at pbuf page 0 ;;;
      let prev := read_slot pbuf idx in
      if prev =? 0 then ret (page, 0) else
      let* new_leaf := lift alloc in
      assert_that PanicAssert (negb (new_leaf =? 0)) ;;;
      lift (copy_page page new_leaf) ;;;
      lift (ps_modify new_leaf (λ buf, stamp_checksum (write_slot idx 0 buf))) ;;;
      push_freed page ;;;
      ret (new_leaf, prev)
  | S l =>
      let span := span_at_level level in
      let child_idx := key / span in
      let* pbuf := lift (ps_get page) in
      check_type_at pbuf page level ;;;
      slice_guard child_idx ;;;
      let child := read_slot pbuf child_idx in
      if child =? 0 then ret (page, 0) else
      let* '(new_child, prev) := delete_recursive l child (key mod span) in
      if prev =? 0 then ret (page, 0) else
      let* new_page := lift alloc in
      assert_that PanicAssert (negb (new_page =? 0)) ;;;
      lift (copy_page page new_page) ;;;
      lift (ps_modify new_page (λ buf, stamp_checksum (write_slot child_idx new_child buf))) ;;;
      push_freed page ;;;
      ret (new_page, prev)
  end.

Definition delete (self : RadixU64) (root key : Z) : M (St * list Z) (Z * Z) :=
  let cap := capacity self in
  if (root =? PAGE_ID_NONE) || (negb (cap =? u64_max) && (cap <=? key)) then ret (root, 0) else
  delete_recursive (depth self) root key.
End ops.
End RadixU64.
