(* ===== verification/RadixU64Write.v ===== *)
(** * The membership index's radix tree: insertion and deletion

    [RadixU64] as a radix tree of [Radix], and its updates: [insert] and [delete]
    change one key, copy the path to it and list the superseded pages. *)

From S2P Require Export RadixU64.

Module RadixU64Facts.
Import RadixU64.

Definition is_leaf (v : list Z) : Prop := getb 0 v = type_tag MembershipLeaf.
Definition is_int (v : list Z) : Prop := getb 0 v = type_tag MembershipInterior.

Lemma slots_1021 : SLOTS_PER_PAGE = 1021.
Proof. done. Qed.

Lemma slots_pos : 0 < SLOTS_PER_PAGE.
Proof. done. Qed.

Lemma read_slot_child : read_slot = read_child.
Proof. done. Qed.

Lemma write_slot_child : write_slot = write_child.
Proof. done. Qed.

Lemma rx_int_hdr : header_only is_int.
Proof. intros v v' Hj H0. unfold is_int. by rewrite Hj. Qed.

Lemma leaf_hdr : header_only is_leaf.
Proof. intros v v' Hj H0. unfold is_leaf. by rewrite Hj. Qed.

Lemma rx_span_keys l : (l ≤ 5)%nat → span_at_level (S l) = keys SLOTS_PER_PAGE l.
Proof.
  intros Hl. unfold span_at_level. replace (S l - 1)%nat with l by lia.
  rewrite sat_pow_keys by done. apply Z.min_l.
  do 6 (destruct l as [| l]; [by vm_compute |]). lia.
Qed.

Lemma rx_capacity_keys d : capacity {| depth := d |} = Z.min (keys SLOTS_PER_PAGE d) u64_max.
Proof. unfold capacity. by apply sat_pow_keys. Qed.

(** At the deepest level every [u64] is in reach. *)
Lemma rx_keys_max : u64_max < keys SLOTS_PER_PAGE MAX_DEPTH.
Proof. by vm_compute. Qed.

(** The early return of [find_leaf] and [delete] is the exact range check. *)
Lemma rx_capacity_cut d k :
  (d ≤ MAX_DEPTH)%nat → is_u64 k →
  negb (capacity {| depth := d |} =? u64_max) && (capacity {| depth := d |} <=? k) =
    (keys SLOTS_PER_PAGE d <=? k).
Proof.
  intros Hd [H1 H2]. rewrite rx_capacity_keys. unfold MAX_DEPTH in Hd.
  assert (keys SLOTS_PER_PAGE d ≠ u64_max).
  { do 7 (destruct d as [| d]; [by vm_compute |]). lia. }
  unfold u64_max in *.
  destruct (Z.eqb_spec (Z.min (keys SLOTS_PER_PAGE d) (2 ^ 64 - 1)) (2 ^ 64 - 1)); simpl;
    case_tests; lia || done.
Qed.

(** A node of a tree passes the check of its level. *)
Definition is_node (l : nat) : list Z → Prop :=
  match l with O => is_leaf | S _ => is_int end.

Lemma check_ok {St} l p v id :
  body p = body v → is_node l v → check_type_at (St := St) p id l = ret tt.
Proof.
  intros Hb Hn. unfold check_type_at. rewrite (body_getb 0 p v) by (done || plia).
  destruct l; simpl in Hn; rewrite Hn; by rewrite Z.eqb_refl.
Qed.

Lemma node_tag l v : is_node l v → getb 0 v ≠ type_tag DataPageType.
Proof. by destruct l; simpl; intros ->. Qed.

Lemma init_buf_wf pt p : wf_page p → wf_page (init_buf pt p).
Proof.
  intros [Hl _]. unfold init_buf. cbv zeta. rewrite Hl.
  change (zeros PAGE_SIZE) with zero_page.
  assert (is_u8 (type_tag pt) ∧ is_u8 (current_version pt)) as [? ?] by by destruct pt.
  eauto 12 with chisel.
Qed.

Lemma init_buf_fields pt p :
  wf_page p →
  getb 0 (init_buf pt p) = type_tag pt ∧
  ∀ i, 0 ≤ i < SLOTS_PER_PAGE → read_slot (init_buf pt p) i = 0.
Proof.
  intros [Hl _]. unfold init_buf, read_slot, SLOT_SIZE. cbv zeta. rewrite Hl, slots_1021.
  change (zeros PAGE_SIZE) with zero_page.
  assert (is_u8 (type_tag pt) ∧ is_u8 (current_version pt)) as [? ?] by by destruct pt.
  split; intros; fields; unfold zero_page; rewrite ?get_le_zeros; done.
Qed.

Section pages.
Context `{HX : Xxh3}.

Lemma init_empty l p :
  wf_page p →
  empty_node 0 SLOTS_PER_PAGE is_leaf is_int read_slot l
    (stamp_checksum (init_buf (expected_type_at l) p)).
Proof.
  intros Hp. pose proof (init_buf_wf (expected_type_at l) p Hp) as Hw.
  destruct (init_buf_fields (expected_type_at l) p Hp) as [H0 Hz].
  split; [by apply stamp_stores_checksum |].
  assert (Hr : ∀ i, 0 ≤ i < SLOTS_PER_PAGE →
    read_slot (stamp_checksum (init_buf (expected_type_at l) p)) i = 0).
  { intros i Hi. rewrite read_slot_child, read_child_stamp by done. by apply Hz. }
  assert (Ht : getb 0 (stamp_checksum (init_buf (expected_type_at l) p)) =
    type_tag (expected_type_at l)) by (by rewrite getb_stamp by (done || plia)).
  by destruct l.
Qed.

Lemma rx_leaf_update p v i x :
  wf_page p → body p = body v → is_leaf v → 0 ≤ i < SLOTS_PER_PAGE → is_u64 x →
  let v' := stamp_checksum (write_slot i x p) in
  is_leaf v' ∧ verify_checksum v' = true ∧
  ∀ j, 0 ≤ j < SLOTS_PER_PAGE → read_slot v' j = if decide (j = i) then x else read_slot v j.
Proof. intros. by apply (int_update _ leaf_hdr). Qed.

Lemma grow_fields p root :
  wf_page p → is_u64 root →
  let v := stamp_checksum (write_slot 0 root (init_buf MembershipInterior p)) in
  is_int v ∧ verify_checksum v = true ∧
  ∀ i, 0 ≤ i < PTRS_PER_INTERIOR → read_child v i = if decide (i = 0) then root else 0.
Proof.
  intros Hp Hr. pose proof (init_buf_wf MembershipInterior p Hp) as Hw.
  destruct (init_buf_fields MembershipInterior p Hp) as [H0 Hz].
  destruct (int_update _ rx_int_hdr (init_buf MembershipInterior p) (init_buf MembershipInterior p) 0 root)
    as (Hi & Hv & Hch); [done | done | done | by rewrite ptrs_1021 | done |].
  cbv zeta. ands; [done | done |]. intros i Hi'. etrans; [by apply Hch |].
  case_decide; [done | by apply Hz].
Qed.
End pages.

Section write.
Context {St : Type} `{HX : Xxh3} `{HF : Fault} `{HP : !PageStore St} `{HS : !StoreOk St}.
Variable alloc : M St Z.
Hypothesis Halloc : alloc_ok alloc.
Implicit Types (s : St) (l : nat).

Abbreviation leafn := SLOTS_PER_PAGE.
Abbreviation den := (den 0 leafn read_slot).
Abbreviation wf_tree := (wf_tree is_leaf is_int).
Abbreviation cow := (cow is_leaf is_int).
Abbreviation updated := (updated 0 leafn is_leaf is_int read_slot).

Lemma root_node s l root : wf_tree s l root → ∃ v, holds s root v ∧ is_node l v.
Proof. intros [Ht _]. destruct l; destruct Ht as (v & Hv & Hn & _); by exists v. Qed.

(** The entry of an insertion: the page is checked, copied and queued. *)
Lemma enter_spec {B} l s fr root (k : Z → M (St * list Z) B) Q :
  st_inv s → wf_tree s l root →
  (∀ v v1 n s', holds s root v → is_node l v → ¬ live s n → 0 < n < PAGE_ID_NONE →
    frame s s' → holds s' n v1 → body v1 = body v →
    spec (framed s) (k n) (s', fr ++ [root]) Q) →
  spec (framed s)
    (let* buf := lift (ps_get root) in
     check_type_at buf root l ;;;
     let* new_page := lift alloc in
     assert_that PanicAssert (negb (new_page =? 0)) ;;;
     lift (copy_page root new_page) ;;;
     push_freed root ;;;
     k new_page) (s, fr) Q.
Proof.
  intros Hi Hw Hk. destruct (root_node s l root Hw) as (v & Hv & Hn).
  apply bind_get; [by apply frame_refl |]. intros p s1 [Hp Hpb] Hf1 He1 _.
  rewrite (check_ok l p v) by (done || by apply Hpb). apply bind_ret.
  step_alloc Halloc. intros n s2 Hn2 Hl2 Hnr Hf2 He2.
  assert (Hns : ¬ live s n) by (contradict Hn2; by eapply live_ext).
  step_assert; [by apply assert_id_ne0 |].
  apply (bind_copy s s2 _ root n v); [done | eapply holds_ext; [apply Hf2 | done] | by eapply node_tag | done | done |].
  intros v1 s3 Hf3 Ho3 Hh3 Hb3. apply bind_push; [done |]. by eapply Hk.
Qed.

(** A fresh child is made and initialised. *)
Lemma new_child_spec {B} l s0 s fr (k : Z → M (St * list Z) B) Q :
  frame s0 s →
  (∀ m v s', ¬ live s m → 0 < m < PAGE_ID_NONE → frame s0 s' → ext s s' → holds s' m v →
    empty_node 0 leafn is_leaf is_int read_slot l v → spec (framed s0) (k m) (s', fr) Q) →
  spec (framed s0)
    (bind (let pt := match l with O => MembershipLeaf | S _ => MembershipInterior end in
           let* id := lift alloc in
           lift (ps_modify id (λ buf, stamp_checksum (init_buf pt buf))) ;;;
           ret id) k) (s, fr) Q.
Proof.
  intros Hf Hk. cbv zeta. fold (expected_type_at l).
  eapply (spec_bind _ _ _ _ (λ m sx, ∃ v, ¬ live s m ∧ 0 < m < PAGE_ID_NONE ∧ ext s sx.1 ∧
    holds sx.1 m v ∧ empty_node 0 leafn is_leaf is_int read_slot l v ∧ sx.2 = fr)).
  - step_alloc Halloc. intros m s1 Hn Hl Hm Hf1 He1. apply (bind_modify s0 s1); auto using init_buf_wf.
    { intros Hx. apply Hn. eapply live_ext; [apply Hf | done]. }
    intros p s2 Hp Hf2 Ho Hh. apply spec_ret; [done |].
    eexists. ands; [done | lia | lia | | done | apply init_empty, Hp | done].
    simpl. eapply only_at_ext; done.
  - intros m [s' fr'] Hf' (v & H1 & H2 & H3 & H4 & H5 & H6). simpl in *. subst fr'. eauto.
Qed.

Definition insert_goal l : Prop := ∀ s fr root key x,
  st_inv s → wf_tree s l root → 0 ≤ key < keys leafn l → is_u64 x →
  spec (framed s) (insert_recursive alloc l root key x) (s, fr)
    (λ new sx, ∃ fr', sx.2 = fr ++ fr' ∧ updated s l root key x new fr' sx.1).

Lemma rx_insert_leaf_spec : insert_goal 0.
Proof.
  intros s fr root key x Hi Hw Hk Hx.
  assert (Hk' : 0 ≤ key < leafn) by (unfold keys in Hk; simpl in Hk; lia).
  cbn [insert_recursive]. apply (enter_spec 0); [done | done |].
  intros v v1 n s3 Hv Hlf Hn Hnr Hf3 Hh3 Hb3. rewrite Z.mod_small by lia.
  apply (bind_modify s s3); [done | by eapply holds_live | done | rewrite write_slot_child; auto with chisel |].
  intros p s4 [Hp Hpb] Hf4 Ho4 Hh4. apply spec_ret; [done |].
  destruct (rx_leaf_update p v key x) as (Hlf' & Hver' & Hval); [done | by rewrite (Hpb v1) | done | done | done |].
  exists [root]. split; [done |]. by eapply updated_leaf.
Qed.

Lemma rx_insert_recursive_spec l : (l ≤ MAX_DEPTH)%nat → insert_goal l.
Proof.
  induction l as [| l IH]; intros Hl; [apply rx_insert_leaf_spec |].
  intros s fr root key x Hi Hw Hk Hx.
  destruct (child_idx leafn l key slots_pos Hk) as [Hidx Hmod]. unfold MAX_DEPTH in *.
  cbn [insert_recursive]. rewrite rx_span_keys by lia. apply (enter_spec (S l)); [done | done |].
  intros v v1 n s3 Hv Hint Hn Hnr Hf3 Hh3 Hb3. set (i := key / keys leafn l) in *.
  apply bind_get; [done |]. intros p s4 [Hp Hpb] Hf4 He4 _. step_assert; [by apply slot_in_page |].
  rewrite write_slot_child, read_slot_child.
  rewrite (read_child_body i p v) by (by rewrite ?(Hpb v1)).
  assert (Hh4 : holds s4 n v1) by by eapply holds_ext.
  assert (He04 : ext s s4) by apply Hf4.
  destruct (Z.eqb_spec (read_child v i) 0) as [Hc0 | Hc0].
  - apply (new_child_spec l s s4); [done |]. intros m w s5 Hm Hmr Hf5 He5 Hh5 Hemp.
    assert (Hch := chosen_fresh 0 leafn _ _ read_slot slots_pos s s4 s5 l v i n m w Hc0 He04
      (holds_live _ _ _ Hh4) Hm Hh5 Hemp).
    eapply (descend_spec 0 leafn _ _ read_slot slots_pos rx_int_hdr l s s5 root key n m v v1);
      eauto; [by eapply holds_ext |].
    apply (IH ltac:(lia)); [apply Hf5 | apply Hch | done | done].
  - apply bind_ret. destruct (old_child is_leaf is_int s l root v Hw Hv i Hidx Hc0) as [Hwc _].
    assert (Hch := chosen_old 0 leafn _ _ read_slot slots_pos s s4 l v i n Hwc He04 Hc0).
    eapply (descend_spec 0 leafn _ _ read_slot slots_pos rx_int_hdr l s s4 root key n _ v v1); eauto.
    apply (IH ltac:(lia)); [apply Hf4 | apply Hch | done | done].
Qed.

(** ** Growth *)

Definition framed2 (s0 : St) (sx : St * list Z * RadixU64) : Prop := frame s0 sx.1.1.
Abbreviation grown := (grown 0 leafn is_leaf is_int read_slot).
Abbreviation lookup_den := (lookup_den 0 leafn read_slot).

Lemma rx_grow_spec s0 s fr d root :
  frame s0 s → wf_tree s d root → is_u64 root → root ≠ 0 →
  spec (framed2 s0) (grow alloc root) (s, fr, {| depth := d |})
    (λ new sx, ∃ s', sx = (s', fr, {| depth := S d |}) ∧ 0 < new < PAGE_ID_NONE ∧
      grown s d root s' (S d) new).
Proof.
  intros Hf Hw Hr Hr0. unfold grow.
  eapply (bind_lift _ _ _ _ _ (λ n sx, ¬ live s n ∧ live sx.1 n ∧ 0 < n < PAGE_ID_NONE ∧
    ext s sx.1 ∧ sx.2 = fr)).
  { apply spec_lift. apply alloc_rule; [done | done |]. simpl. auto. }
  intros n [s1 fr1] Hf1 (Hn & Hl & Hnr & He & Hfr). cbn [fst snd] in *. subst fr1.
  step_assert; [by apply assert_id_ne0 |].
  assert (Hwf : ∀ p, wf_page p → wf_page (write_slot 0 root (init_buf MembershipInterior p))).
  { intros p Hp. rewrite write_slot_child. apply write_child_wf; [by apply init_buf_wf | by rewrite ptrs_1021]. }
  eapply (bind_lift _ _ _ _ _ (λ _ sx, ∃ p, wf_page p ∧ ext s sx.1 ∧ sx.2 = fr ∧
    holds sx.1 n (stamp_checksum (write_slot 0 root (init_buf MembershipInterior p))))).
  { apply spec_lift. apply modify_rule; auto.
    - intros Hx. apply Hn. eapply live_ext; [apply Hf | done].
    - intros p Hp. by apply wf_stamp, Hwf.
    - by apply stamps_stamp.
    - intros p v' s2 [Hp _] Hf2 Ho Hh _ Hst. exists p. rewrite <- Hst; cbn [fst snd].
      + ands; [done | by eapply only_at_ext | done | done].
      + by apply stamp_stores_checksum, Hwf. }
  intros pb [s2 fr2] Hf2 (p & Hp & He2 & Hfr & Hh). cbn [fst snd] in *. subst fr2.
  destruct (grow_fields p root Hp Hr) as (Hi & Hv & Hc).
  apply bind_writes, spec_ret; [done |]. cbn [fst snd depth].
  eexists. ands; [done | lia | lia |]. by eapply (grow_step _ _ _ _ _ slots_pos s s2 d root n).
Qed.

Lemma rx_grow_loop_spec fuel s0 s fr d root key :
  frame s0 s → wf_tree s d root → 0 < root < PAGE_ID_NONE → is_u64 key →
  (d ≤ MAX_DEPTH)%nat → (MAX_DEPTH - d ≤ fuel)%nat →
  spec (framed2 s0) (grow_loop alloc fuel root key) (s, fr, {| depth := d |})
    (λ new sx, ∃ s' d', sx = (s', fr, {| depth := d' |}) ∧ (d' ≤ MAX_DEPTH)%nat ∧
      0 < new < PAGE_ID_NONE ∧ key < keys leafn d' ∧ grown s d root s' d' new).
Proof.
  pose proof rx_keys_max as Hmax. assert (H64 : is_u64 key → key ≤ u64_max) by (unfold is_u64, u64_max; lia).
  revert s d root. induction fuel as [| fuel IH]; intros s d root Hf Hw Hr Hk Hd Hfuel.
  - assert (d = MAX_DEPTH) as -> by lia. apply spec_ret; [done |]. exists s, MAX_DEPTH.
    ands; [done | lia | lia | lia | specialize (H64 Hk); lia | by apply grown_refl].
  - cbn [grow_loop]. apply bind_reads. cbn [snd depth].
    destruct ((d <? MAX_DEPTH)%nat && (capacity {| depth := d |} <=? key)) eqn:E.
    + apply andb_true_iff in E as [E1%Nat.ltb_lt E2].
      eapply spec_bind; [apply rx_grow_spec; [done | done | by apply id_u64 | lia] |].
      intros new sx Hf1 (s1 & -> & Hn & Hg).
      eapply spec_conseq; [apply (IH s1 (S d) new); [done | apply Hg | lia | done | lia | lia] | done |].
      intros n2 sx2 _ (s2 & d2 & -> & H1 & H2 & H3 & H4). exists s2, d2.
      ands; [done | lia | lia | lia | lia | by eapply grown_trans].
    + apply spec_ret; [done |]. exists s, d. ands; [done | lia | lia | lia | | by apply grown_refl].
      rewrite rx_capacity_keys in E. specialize (H64 Hk).
      apply andb_false_iff in E as [E%Nat.ltb_ge | E%Z.leb_gt]; [| lia].
      assert (d = MAX_DEPTH) as -> by lia. lia.
Qed.

Lemma rx_insert_spec s fr d root key x :
  st_inv s → wf_tree s d root → 0 < root < PAGE_ID_NONE → (d ≤ MAX_DEPTH)%nat →
  is_u64 key → is_u64 x → x ≠ 0 →
  spec (framed2 s) (insert alloc root key x) (s, fr, {| depth := d |})
    (λ new sx, ∃ s' d' fr', sx = (s', fr ++ fr', {| depth := d' |}) ∧ (d' ≤ MAX_DEPTH)%nat ∧
      0 < new < PAGE_ID_NONE ∧ cow s d root s' d' new fr' ∧ (spine s d root → spine s' d' new) ∧
      ∀ k, 0 ≤ k → lookup_den s' d' new k = if decide (k = key) then x else lookup_den s d root k).
Proof.
  intros Hi Hw Hr Hd Hk Hx Hx0. unfold insert. pose proof (frame_refl s Hi) as Hf0.
  step_assert; [by apply negb_true_iff, Z.eqb_neq |].
  eapply spec_bind; [apply rx_grow_loop_spec; auto; lia |].
  intros cur sx Hf (s1 & d1 & -> & Hd1 & Hcur & Hhd & Hg). apply bind_reads. cbn [snd depth].
  apply spec_lift.
  eapply spec_conseq; [apply (rx_insert_recursive_spec d1); [done | apply Hf | apply Hg | | done] | |].
  { split; [apply Hk | done]. }
  { intros sx Hsx. unfold framed2. eapply frame_trans; [apply Hf | done]. }
  intros new [s2 fr2] _ (fr' & Hfr & Hcow & Hn & Hsp & Hden). cbn [fst snd] in *. subst fr2.
  exists s2, d1, fr'. ands; [done | lia | lia | lia | by eapply cow_grown | |].
  { intros Hs. by apply Hsp, (gr_spine _ _ _ _ _ _ _ _ _ _ _ Hg). }
  intros k Hk0. rewrite <- (gr_den _ _ _ _ _ _ _ _ _ _ _ Hg k) by lia.
  unfold Radix.lookup_den. destruct (Z.leb_spec (keys leafn d1) k) as [Hle | Hlt].
  - rewrite decide_False by lia. done.
  - apply Hden. lia.
Qed.

(** A new root: an empty leaf. *)
Lemma rx_create_root_spec s t :
  st_inv s →
  spec (framed s) (create_root alloc) (s, t)
    (λ root sx, sx.2 = {| depth := 0 |} ∧ wf_tree sx.1 0 root ∧ 0 < root < PAGE_ID_NONE ∧
      (∀ x, reach sx.1 0 root x → ¬ live s x) ∧ ∀ k, 0 ≤ k → lookup_den sx.1 0 root k = 0).
Proof.
  intros Hi. unfold create_root, init_page. apply bind_writes, spec_lift. cbn [fst].
  eapply (spec_bind _ _ _ _ (λ n s1, ¬ live s n ∧ live s1 n ∧ 0 < n < PAGE_ID_NONE)).
  { apply alloc_rule; [done | by apply frame_refl | auto]. }
  intros n s1 Hf1 (Hn & Hl & Hnr). step_assert; [by apply assert_id_ne0 |].
  apply (step_modify s s1 n (init_buf MembershipLeaf)); auto using init_buf_wf.
  intros p s2 [Hp _] Hf2 Ho2 Hh2. apply spec_ret; [done |]. cbn [fst snd].
  pose proof (init_empty 0 p Hp) as Hemp.
  destruct (fresh_node _ _ _ _ _ slots_pos s2 0 n _ Hh2 Hemp) as (Hw & Hr & Hd).
  ands; [done | done | lia | lia | |].
  - intros x Hx. by rewrite (proj1 (Hr x) Hx).
  - intros k Hk. unfold Radix.lookup_den. destruct (Z.leb_spec (keys leafn 0) k); [done | by apply Hd].
Qed.

(** ** Deletion *)

(** What deleting [key] does: nothing when it is absent, else one key goes. *)
Definition deleted s l root key fr (r : Z * Z) (sx : St * list Z) : Prop :=
  r.2 = den s l root key ∧
  if r.2 =? 0 then r.1 = root ∧ sx.2 = fr
  else ∃ fr', sx.2 = fr ++ fr' ∧ updated s l root key 0 r.1 fr' sx.1.

Definition delete_goal l : Prop := ∀ s fr root key,
  st_inv s → wf_tree s l root → 0 ≤ key < keys leafn l →
  spec (framed s) (delete_recursive alloc l root key) (s, fr) (deleted s l root key fr).

(** The copy of a page and the write of its slot [i]. *)
Lemma rewrite_spec l s s2 fr root v i x r (Q : Z * Z → St * list Z → Prop) :
  frame s s2 → holds s root v → is_node l v → 0 ≤ i < leafn →
  (∀ n p s3 s4 s5, ¬ live s2 n → 0 < n < PAGE_ID_NONE → ext s2 s3 →
    only_at view live n s3 s4 → only_at view live n s4 s5 → frame s s5 →
    wf_page p → body p = body v → holds s5 n (stamp_checksum (write_slot i x p)) →
    Q (n, r) (s5, fr ++ [root])) →
  spec (framed s)
    (let* new_page := lift alloc in
     assert_that PanicAssert (negb (new_page =? 0)) ;;;
     lift (copy_page root new_page) ;;;
     lift (ps_modify new_page (λ buf, stamp_checksum (write_slot i x buf))) ;;;
     push_freed root ;;;
     ret (new_page, r)) (s2, fr) Q.
Proof.
  intros Hf2 Hv Hnode Hi HQ. step_alloc Halloc. intros n s3 Hn Hl3 Hnr Hf3 He3.
  assert (Hns : ¬ live s n) by (contradict Hn; eapply live_ext; [apply Hf2 | done]).
  step_assert; [by apply assert_id_ne0 |].
  apply (bind_copy s s3 _ root n v); [done | eapply holds_ext; [apply Hf3 | done] | by eapply node_tag | done | done |].
  intros v1 s4 Hf4 Ho4 Hh4 Hb4.
  apply (bind_modify s s4); [done | by eapply holds_live | done | rewrite write_slot_child; auto with chisel |].
  intros p s5 [Hp Hpb] Hf5 Ho5 Hh5. apply bind_push; [done |]. apply spec_ret; [done |].
  eapply HQ; eauto. by rewrite (Hpb v1).
Qed.

Lemma rx_delete_leaf_spec : delete_goal 0.
Proof.
  intros s fr root key Hi Hw Hk. destruct (root_node s 0 root Hw) as (v & Hv & Hlf).
  assert (Hk' : 0 ≤ key < leafn) by (unfold keys in Hk; simpl in Hk; lia).
  cbn [delete_recursive]. rewrite Z.mod_small by lia.
  apply bind_get; [by apply frame_refl |]. intros p s1 [Hp Hpb] Hf1 He1 _.
  rewrite (check_ok 0 p v) by (done || by apply Hpb). apply bind_ret.
  rewrite read_slot_child, (read_child_body key p v) by (done || by apply Hpb).
  assert (Hden : den s 0 root key = read_child v key).
  { pose proof Hv as [_ Hvv]. simpl. by rewrite Hvv. }
  unfold deleted. rewrite Hden. destruct (Z.eqb_spec (read_child v key) 0) as [H0 | H0].
  { apply spec_ret; [done |]. cbn [snd fst]. by rewrite H0. }
  apply (rewrite_spec 0 s s1 fr root v key 0); [done | done | done | done |].
  intros n q s3 s4 s5 Hn Hnr He3 Ho4 Ho5 Hf5 Hq Hqb Hh5. cbn [fst snd]. split; [done |].
  destruct (Z.eqb_spec (read_child v key) 0); [done |].
  destruct (rx_leaf_update q v key 0) as (Hlf' & Hver' & Hval); [done.. |].
  exists [root]. split; [done |]. eapply updated_leaf; eauto. contradict Hn. by eapply live_ext.
Qed.

Lemma rx_delete_recursive_spec l : (l ≤ MAX_DEPTH)%nat → delete_goal l.
Proof.
  induction l as [| l IH]; intros Hl; [apply rx_delete_leaf_spec |].
  intros s fr root key Hi Hw Hk. destruct (root_node s (S l) root Hw) as (v & Hv & Hint).
  destruct (child_idx leafn l key slots_pos Hk) as [Hidx Hm]. unfold MAX_DEPTH in *.
  cbn [delete_recursive]. rewrite rx_span_keys by lia. set (i := key / keys leafn l) in *.
  apply bind_get; [by apply frame_refl |]. intros p s1 [Hp Hpb] Hf1 He1 _.
  rewrite (check_ok (S l) p v) by (done || by apply Hpb). apply bind_ret.
  step_assert; [by apply slot_in_page |].
  rewrite read_slot_child, (read_child_body i p v) by (done || by apply Hpb).
  assert (Hden : den s (S l) root key = if read_child v i =? 0 then 0
    else den s l (read_child v i) (key mod keys leafn l)).
  { pose proof Hv as [_ Hvv]. cbn [Radix.den]. by rewrite Hvv. }
  unfold deleted. rewrite Hden. destruct (Z.eqb_spec (read_child v i) 0) as [Hc0 | Hc0]; [by apply spec_ret |].
  destruct (old_subtree 0 leafn _ _ read_slot slots_pos l s s1 root key v Hw Hv Hidx Hc0 He1)
    as (_ & Hw1 & _ & Hd1).
  eapply spec_bind.
  { eapply spec_conseq; [apply (IH ltac:(lia) s1 fr _ (key mod keys leafn l)); [apply Hf1 | done | done] | |].
    - intros sx Hsx. eapply frame_trans; [apply Hf1 | done].
    - intros r sx Hsx Hpost. exact Hpost. }
  intros [c prev] [s2 fr2] Hf2 [Hprev Hpost]. cbn [fst snd] in *. rewrite Hd1 in Hprev by done.
  destruct (Z.eqb_spec prev 0) as [H0 | H0].
  - destruct Hpost as [-> ->]. apply spec_ret; [done |]. cbn [fst snd]. split; [exact (eq_trans (eq_sym H0) Hprev) | done].
  - destruct Hpost as (frc & -> & Hup).
    apply (rewrite_spec (S l) s s2 (fr ++ frc) root v i c prev); [done | done | done | done |].
    intros n q s3 s4 s5 Hn Hnr He3 Ho4 Ho5 Hf5 Hq Hqb Hh5. cbn [fst snd]. split; [done |].
    destruct (Z.eqb_spec prev 0); [done |]. exists (frc ++ [root]). split; [by rewrite <- app_assoc |].
    eapply (ascend_updated 0 leafn _ _ read_slot slots_pos rx_int_hdr l s s1 s2); eauto.
Qed.

Lemma rx_delete_spec s fr d root key :
  st_inv s → wf_tree s d root → root ≠ PAGE_ID_NONE → (d ≤ MAX_DEPTH)%nat → is_u64 key →
  spec (framed s) (delete alloc {| depth := d |} root key) (s, fr)
    (λ r sx, r.2 = lookup_den s d root key ∧
      if r.2 =? 0 then r.1 = root ∧ sx.2 = fr
      else ∃ fr', sx.2 = fr ++ fr' ∧ 0 < r.1 < PAGE_ID_NONE ∧
        cow s d root sx.1 d r.1 fr' ∧ (spine s d root → spine sx.1 d r.1) ∧
        ∀ k, 0 ≤ k → lookup_den sx.1 d r.1 k =
          if decide (k = key) then 0 else lookup_den s d root k).
Proof.
  intros Hi Hw Hr Hd Hk. unfold delete. destruct (Z.eqb_spec root PAGE_ID_NONE); [done |].
  cbv zeta. rewrite orb_false_l, rx_capacity_cut by done. unfold Radix.lookup_den. cbn [depth].
  destruct (Z.leb_spec (keys leafn d) key) as [Hle | Hlt].
  - apply spec_ret; [by apply frame_refl | done].
  - eapply spec_conseq; [apply rx_delete_recursive_spec; [done.. |] | done |].
    { destruct Hk. lia. }
    intros [new prev] [s' fr'] _ [Hprev Hpost]. cbn [fst snd] in *. split; [done |].
    destruct (Z.eqb_spec prev 0); [done |]. destruct Hpost as (frc & -> & Hcow & Hn & Hsp & Hden).
    exists frc. ands; auto; try lia. intros k Hk0.
    destruct (Z.leb_spec (keys leafn d) k); [by case_decide | apply Hden; lia].
Qed.
End write.
End RadixU64Facts.
