(* ===== verification/RadixU64Read.v ===== *)
(** * The membership index's radix tree: reads

    [lookup], [iter], [iter_bounded], [any_present], [recover_depth] and
    [free_subtree] against the map a root denotes and the pages it reaches. *)

From S2P Require Export RadixU64Write.

Module RadixU64Read.
Import RadixU64 RadixU64Facts.

(** A value as the code reads it: 0 is absent. *)
Definition present (x : Z) : option Z := if x =? 0 then None else Some x.

Lemma present_none x : x = 0 → present x = None.
Proof. by intros ->. Qed.

Lemma present_some x : x ≠ 0 → present x = Some x.
Proof. intros. unfold present. by destruct (Z.eqb_spec x 0). Qed.

Lemma slots_children : slots = children.
Proof. done. Qed.

(** Truncating twice is truncating once. *)
Lemma take_take_app {A} n (xs ys : list A) : take n (take n xs ++ ys) = take n (xs ++ ys).
Proof.
  destruct (Nat.le_gt_cases n (length xs)).
  - rewrite !take_app_le, take_idemp by (rewrite ?length_take; lia). done.
  - by rewrite (take_ge xs) by lia.
Qed.

Lemma take_full {A} limit (out ys : list A) :
  limit ≤ zlen out → zlen out ≤ limit → take (Z.to_nat limit) (out ++ ys) = out.
Proof. unfold zlen. intros. apply take_app_length'. lia. Qed.

Section reads.
Context {St : Type} `{HX : Xxh3} `{HF : Fault} `{HP : !PageStore St} `{HS : !StoreOk St}.
Implicit Types (s : St) (l : nat).

Abbreviation leafn := SLOTS_PER_PAGE.
Abbreviation den := (den 0 leafn read_slot).
Abbreviation lookup_den := (lookup_den 0 leafn read_slot).
Abbreviation tree := (tree is_leaf is_int).
Abbreviation entries := (entries 0 leafn read_slot present).

(** A read of the root of a subtree: the page passes its check. *)
Lemma visit_spec {B} l s0 s root v (k : list Z → M St B) Q :
  quiet s0 s → holds s0 root v → is_node l v →
  (∀ p s', wf_page p → body p = body v → quiet s0 s' → spec (quiet s0) (k p) s' Q) →
  spec (quiet s0) (let* buf := ps_get root in check_type_at buf root l ;;; k buf) s Q.
Proof.
  intros Hq Hv Hn Hk. apply (bind_read s0 s root v); [done | done |]. intros p s1 Hp Hb Hq1.
  rewrite (check_ok l p v) by done. apply bind_ret. auto.
Qed.

Lemma rx_find_loop_spec l s0 s root key :
  quiet s0 s → tree s0 l root → (l ≤ MAX_DEPTH)%nat → 0 ≤ key < keys leafn l →
  spec (quiet s0) (find_loop l root key) s
    (λ r _, match r with
            | None => den s0 l root key = 0
            | Some (leaf, idx) => ∃ v, holds s0 leaf v ∧ is_leaf v ∧ 0 ≤ idx < leafn ∧
                den s0 l root key = read_slot v idx
            end).
Proof.
  revert s root key. induction l as [| l IH]; intros s root key Hq Ht Hl Hk.
  - destruct Ht as (v & Hv & Hlf & _). unfold keys in Hk. simpl in Hk.
    apply spec_ret; [done |]. rewrite Z.mod_small by lia. exists v.
    pose proof Hv as [_ Hvv]. simpl. rewrite Hvv. ands; [done | done | lia | lia | done].
  - destruct Ht as (v & Hv & Hint & Hver & Hch). unfold MAX_DEPTH in *.
    destruct (child_idx leafn l key slots_pos Hk) as [Hi Hm].
    cbn [find_loop]. rewrite rx_span_keys by lia.
    change SLOTS_PER_PAGE with PTRS_PER_INTERIOR at 1.
    destruct (Z.leb_spec PTRS_PER_INTERIOR (key / keys leafn l)); [lia |].
    apply (visit_spec (S l) s0 s root v); [done.. |]. intros p s1 Hp Hb Hq1.
    rewrite read_slot_child, (read_child_body _ p v) by done.
    pose proof Hv as [_ Hvv]. cbn [Radix.den]. rewrite Hvv.
    destruct (Z.eqb_spec (read_child v (key / keys leafn l)) 0); [by apply spec_ret |].
    apply IH; [done | by apply Hch | lia | done].
Qed.

(** [lookup] is the map of the tree. *)
Lemma rx_lookup_spec s0 s d root key :
  quiet s0 s → tree s0 d root → root ≠ PAGE_ID_NONE → (d ≤ MAX_DEPTH)%nat → is_u64 key →
  spec (quiet s0) (lookup {| depth := d |} root key) s (λ r _, r = lookup_den s0 d root key).
Proof.
  intros Hq Ht Hr Hd Hk. unfold lookup. destruct (Z.eqb_spec root PAGE_ID_NONE); [done |].
  eapply spec_bind with (Q1 := λ r _, match r with
    | None => lookup_den s0 d root key = 0
    | Some (leaf, idx) => ∃ v, holds s0 leaf v ∧ is_leaf v ∧ 0 ≤ idx < leafn ∧
        lookup_den s0 d root key = read_slot v idx
    end).
  - unfold find_leaf. cbv zeta. rewrite rx_capacity_cut by done. unfold Radix.lookup_den. cbn [depth].
    destruct (Z.leb_spec (keys leafn d) key); [by apply spec_ret |].
    pose proof (rx_find_loop_spec d s0 s root key Hq Ht Hd ltac:(destruct Hk; lia)) as Hs.
    destruct d; exact Hs.
  - intros [[leaf idx] |] s1 Hq1; [| intros ->; by apply spec_ret].
    intros (v & Hv & Hlf & Hidx & ->). apply (visit_spec 0 s0 s1 leaf v); [done.. |].
    intros p s2 Hp Hb Hq2. apply spec_ret; [done |]. by apply read_child_body.
Qed.

(** ** Enumeration *)

Lemma fold_m_spec {A B} s0 (f : A → list B → M St (list B)) (g : A → list B) xs out s :
  quiet s0 s →
  (∀ x o s', x ∈ xs → quiet s0 s' → spec (quiet s0) (f x o) s' (λ r _, r = o ++ g x)) →
  spec (quiet s0) (fold_m f xs out) s (λ r _, r = out ++ concat (map g xs)).
Proof.
  revert s out. induction xs as [| x xs IH]; intros s out Hq Hf.
  - apply spec_ret; [done |]. cbn. by rewrite app_nil_r.
  - cbn [fold_m]. eapply spec_bind; [apply Hf; [left | done] |]. intros o s1 Hq1 ->.
    eapply spec_conseq; [apply IH; [done |] | done |].
    + intros y o s' Hy. apply Hf. by right.
    + cbn. intros r _ _ ->. by rewrite <- app_assoc.
Qed.

Lemma leaf_entries s root p v base :
  holds s root v → body p = body v →
  entries s 0 root base =
    omap (λ i, (λ x, (sat_add base i, x)) <$> present (read_slot p i)) (seqZ 0 leafn).
Proof.
  intros [_ Hv] Hb. unfold RadixPath.entries, keys. simpl (1021 ^ _). rewrite Z.mul_1_r.
  apply omap_ext_in. intros k Hk%elem_of_seqZ. cbn [Radix.den]. rewrite Hv.
  by rewrite read_slot_child, (read_child_body k p v) by (done || (rewrite ptrs_1021, slots_1021 in *; lia)).
Qed.

Lemma rx_iter_leaf_entries s root p v base :
  holds s root v → body p = body v → iter_leaf p base = entries s 0 root base.
Proof.
  intros Hv Hb. rewrite (leaf_entries s root p v) by done. unfold iter_leaf, slots.
  induction (seqZ 0 leafn) as [| i js IH]; [done |]. cbn [map]. rewrite filter_cons. cbn [omap list_omap snd].
  case_decide as Hd.
  - rewrite (present_some (read_slot p i)) by done. cbn. by f_equal.
  - rewrite (present_none (read_slot p i)) by done. done.
Qed.

(** The recursion of an enumeration, for both kinds. *)
Lemma entries_slots s l root p v base :
  holds s root v → body p = body v → 0 ≤ base →
  entries s (S l) root base =
    concat (map (λ ic, entries s l ic.2 (sat_add base (sat_mul ic.1 (keys leafn l)))) (slots p)).
Proof.
  intros Hv Hb Hbase. rewrite slots_children, (children_body p v) by done.
  by apply (entries_children 0 leafn read_slot slots_pos present eq_refl).
Qed.

Lemma rx_iter_recursive_spec l s0 s root base out :
  quiet s0 s → tree s0 l root → (l ≤ MAX_DEPTH)%nat → 0 ≤ base →
  spec (quiet s0) (iter_recursive l root base out) s (λ r _, r = out ++ entries s0 l root base).
Proof.
  revert s root base out. induction l as [| l IH]; intros s root base out Hq Ht Hl Hb.
  - destruct Ht as (v & Hv & Hlf & _). apply (visit_spec 0 s0 s root v); [done.. |].
    intros p s1 Hp Hpb Hq1. apply spec_ret; [done |]. by erewrite rx_iter_leaf_entries.
  - destruct Ht as (v & Hv & Hint & Hver & Hch). unfold MAX_DEPTH in *. cbn [iter_recursive].
    rewrite rx_span_keys by lia. apply (visit_spec (S l) s0 s root v); [done.. |]. intros p s1 Hp Hpb Hq1.
    rewrite (entries_slots s0 l root p v) by done.
    rewrite slots_children, (children_body p v) by done.
    apply fold_m_spec; [done |]. intros [i c] o s2 (Hi & -> & Hc0)%child_in Hq2.
    cbn [fst snd] in *. apply IH; [done | by apply Hch | lia |].
    pose proof (keys_pos leafn l slots_pos). unfold sat_add, sat_mul, u64_max. lia.
Qed.

(** The bounded loops stop at the limit: what they return is a prefix. *)
Lemma fold_until_spec {A B} s0 limit (f : A → list B → M St (list B)) (g : A → list B) xs out s :
  quiet s0 s → zlen out ≤ limit →
  (∀ x o s', x ∈ xs → quiet s0 s' → zlen o ≤ limit →
    spec (quiet s0) (f x o) s' (λ r _, r = take (Z.to_nat limit) (o ++ g x))) →
  spec (quiet s0) (fold_until limit f xs out) s
    (λ r _, r = take (Z.to_nat limit) (out ++ concat (map g xs))).
Proof.
  revert s out. induction xs as [| x xs IH]; intros s out Hq Hlen Hf.
  - apply spec_ret; [done |]. cbn. rewrite app_nil_r, take_ge; [done |]. unfold zlen in Hlen. lia.
  - cbn [fold_until]. destruct (Z.leb_spec limit (zlen out)).
    { apply spec_ret; [done |]. by rewrite take_full. }
    eapply spec_bind; [apply Hf; [left | done | done] |]. intros o s1 Hq1 ->.
    eapply spec_conseq; [apply IH; [done | |] | done |].
    + unfold zlen in *. rewrite length_take. lia.
    + intros y o s' Hy. apply Hf. by right.
    + cbn. intros r _ _ ->. by rewrite take_take_app, <- app_assoc.
Qed.

Lemma bounded_leaf_take p base limit idxs out :
  zlen out ≤ limit →
  bounded_leaf p base limit idxs out = take (Z.to_nat limit)
    (out ++ omap (λ i, (λ x, (sat_add base i, x)) <$> present (read_slot p i)) idxs).
Proof.
  revert out. induction idxs as [| i idxs IH]; intros out Hlen; cbn [bounded_leaf].
  - cbn. rewrite app_nil_r, take_ge; [done |]. unfold zlen in Hlen. lia.
  - destruct (Z.leb_spec limit (zlen out)); [by rewrite take_full |].
    cbn [omap list_omap]. destruct (Z.eqb_spec (read_slot p i) 0); cbn [negb].
    + rewrite (present_none (read_slot p i)) by done. by apply IH.
    + rewrite (present_some (read_slot p i)) by done. rewrite IH by (unfold zlen in *; rewrite length_app; simpl; lia). by rewrite <- app_assoc.
Qed.

Lemma iter_bounded_recursive_spec l limit s0 s root base out :
  quiet s0 s → tree s0 l root → (l ≤ MAX_DEPTH)%nat → 0 ≤ base → zlen out ≤ limit →
  spec (quiet s0) (iter_bounded_recursive l limit root base out) s
    (λ r _, r = take (Z.to_nat limit) (out ++ entries s0 l root base)).
Proof.
  revert s root base out. induction l as [| l IH]; intros s root base out Hq Ht Hl Hb Hlen;
    cbn [iter_bounded_recursive]; (destruct (Z.leb_spec limit (zlen out));
      [apply spec_ret; [done |]; by rewrite take_full |]).
  - destruct Ht as (v & Hv & Hlf & _). apply (visit_spec 0 s0 s root v); [done.. |].
    intros p s1 Hp Hpb Hq1. apply spec_ret; [done |].
    by rewrite bounded_leaf_take, (leaf_entries s0 root p v).
  - destruct Ht as (v & Hv & Hint & Hver & Hch). unfold MAX_DEPTH in *.
    rewrite rx_span_keys by lia. apply (visit_spec (S l) s0 s root v); [done.. |]. intros p s1 Hp Hpb Hq1.
    rewrite (entries_slots s0 l root p v) by done.
    rewrite slots_children, (children_body p v) by done.
    apply fold_until_spec; [done | done |]. intros [i c] o s2 (Hi & -> & Hc0)%child_in Hq2 Ho.
    cbn [fst snd] in *. apply IH; [done | by apply Hch | lia | | done].
    pose proof (keys_pos leafn l slots_pos). unfold sat_add, sat_mul, u64_max. lia.
Qed.

Lemma iter_spec s0 s d root :
  quiet s0 s → tree s0 d root → root ≠ PAGE_ID_NONE → (d ≤ MAX_DEPTH)%nat →
  spec (quiet s0) (iter {| depth := d |} root) s (λ r _, r = entries s0 d root 0).
Proof.
  intros Hq Ht Hr Hd. unfold iter. destruct (Z.eqb_spec root PAGE_ID_NONE); [done |].
  by apply (rx_iter_recursive_spec d s0 s root 0 []).
Qed.

Lemma iter_bounded_spec s0 s d root limit :
  quiet s0 s → tree s0 d root → root ≠ PAGE_ID_NONE → (d ≤ MAX_DEPTH)%nat → 0 ≤ limit →
  spec (quiet s0) (iter_bounded {| depth := d |} root limit) s
    (λ r _, r = take (Z.to_nat limit) (entries s0 d root 0)).
Proof.
  intros Hq Ht Hr Hd Hlim. unfold iter_bounded. destruct (Z.eqb_spec root PAGE_ID_NONE); [done |].
  cbn [orb]. destruct (Z.eqb_spec limit 0) as [-> |]; [by apply spec_ret |].
  by apply (iter_bounded_recursive_spec d limit s0 s root 0 []).
Qed.

(** ** Emptiness *)

Definition inhabited s l root : Prop := ∃ k, 0 ≤ k < keys leafn l ∧ den s l root k ≠ 0.

Lemma any_m_spec {A} s0 (f : A → M St bool) (P : A → Prop) xs s :
  quiet s0 s →
  (∀ x s', x ∈ xs → quiet s0 s' → spec (quiet s0) (f x) s' (λ r _, r = true ↔ P x)) →
  spec (quiet s0) (any_m f xs) s (λ r _, r = true ↔ ∃ x, x ∈ xs ∧ P x).
Proof.
  revert s. induction xs as [| x xs IH]; intros s Hq Hf.
  - apply spec_ret; [done |]. split; [done |]. intros (x & Hx & _). by apply not_elem_of_nil in Hx.
  - cbn [any_m]. eapply spec_bind; [apply Hf; [left | done] |]. intros [] s1 Hq1 Hx.
    + apply spec_ret; [done |]. split; [| done]. intros _. exists x. split; [left | by apply Hx].
    + eapply spec_conseq; [apply IH; [done | intros y s' Hy; apply Hf; by right] | done |].
      cbn. intros r _ _ Hr. rewrite Hr. split.
      * intros (y & Hy & HP'). exists y. split; [by right | done].
      * intros (y & [-> | Hy]%elem_of_cons & HP'); [by apply Hx in HP' | eauto].
Qed.

Lemma inhabited_children s l root v :
  holds s root v →
  inhabited s (S l) root ↔ ∃ c, c ∈ map snd (children v) ∧ inhabited s l c.
Proof.
  intros [_ Hv]. pose proof (keys_pos leafn l slots_pos) as Hpos. split.
  - intros (k & Hk & Hd). destruct (child_idx leafn l k slots_pos Hk) as [Hi Hm].
    cbn [Radix.den] in Hd. rewrite Hv in Hd.
    destruct (Z.eqb_spec (read_child v (k / keys leafn l)) 0) as [| Hc]; [done |].
    exists (read_child v (k / keys leafn l)). split; [| by exists (k mod keys leafn l)].
    apply list_elem_of_fmap. exists (k / keys leafn l, read_child v (k / keys leafn l)).
    split; [done |]. by apply child_in.
  - intros (c & ([i c'] & -> & (Hi & -> & Hc)%child_in)%list_elem_of_fmap & k & Hk & Hd).
    cbn [snd] in *. exists (i * keys leafn l + k). rewrite keys_S. split; [rewrite ptrs_1021 in Hi; nia |].
    rewrite (den_block 0 leafn read_slot slots_pos s l root v) by (done || lia).
    by destruct (Z.eqb_spec (read_child v i) 0).
Qed.

Lemma any_recursive_spec l s0 s root :
  quiet s0 s → tree s0 l root →
  spec (quiet s0) (any_recursive l root) s (λ r _, r = true ↔ inhabited s0 l root).
Proof.
  revert s root. induction l as [| l IH]; intros s root Hq Ht.
  - destruct Ht as (v & Hv & Hlf & _). apply (visit_spec 0 s0 s root v); [done.. |].
    intros p s1 Hp Hpb Hq1. apply spec_ret; [done |]. rewrite existsb_exists. unfold inhabited, keys.
    simpl (1021 ^ _). rewrite Z.mul_1_r. cbn [Radix.den]. destruct Hv as [_ ->].
    split; intros (k & Hk & Hx); exists k; (split; [rewrite <- ?list_elem_of_In, elem_of_seqZ in *; lia |]);
      rewrite <- ?list_elem_of_In, ?elem_of_seqZ in Hk;
      rewrite read_slot_child, (read_child_body k p v) in * by (done || (rewrite ptrs_1021, slots_1021 in *; lia)).
    + by apply negb_true_iff, Z.eqb_neq in Hx.
    + by apply negb_true_iff, Z.eqb_neq.
  - destruct Ht as (v & Hv & Hint & Hver & Hch). cbn [any_recursive].
    apply (visit_spec (S l) s0 s root v); [done.. |]. intros p s1 Hp Hpb Hq1.
    rewrite slots_children, (children_body p v) by done.
    eapply spec_conseq; [apply (any_m_spec s0 _ (inhabited s0 l)); [done |] | done |].
    + intros c s2 ([i c'] & -> & (Hi & -> & Hc)%child_in)%list_elem_of_fmap Hq2. apply IH; [done | by apply Hch].
    + intros r s2 _ Hr. by rewrite Hr, (inhabited_children s0 l root v).
Qed.

Lemma any_present_spec s0 s d root :
  quiet s0 s → tree s0 d root → root ≠ PAGE_ID_NONE →
  spec (quiet s0) (any_present {| depth := d |} root) s (λ r _, r = true ↔ inhabited s0 d root).
Proof.
  intros Hq Ht Hr. unfold any_present. destruct (Z.eqb_spec root PAGE_ID_NONE); [done |].
  by apply any_recursive_spec.
Qed.

(** ** Depth recovery *)

Lemma rx_recover_loop_spec fuel k l s0 s root :
  quiet s0 s → tree s0 l root → spine s0 l root → (k + l ≤ MAX_DEPTH)%nat → (l < fuel)%nat →
  spec (quiet s0) (recover_loop fuel k root) s (λ r _, r = (k + l)%nat).
Proof.
  revert k l s root. induction fuel as [| fuel IH]; intros k l s root Hq Ht Hs Hk Hf; [lia |].
  cbn [recover_loop]. destruct l as [| l].
  - destruct Ht as (v & Hv & H0 & _). apply (bind_read s0 s root v); [done.. |].
    intros p s1 Hp Hb Hq1. rewrite (body_getb 0 p v), H0 by (done || plia).
    apply spec_ret; [done | lia].
  - destruct Ht as (v & Hv & H0 & _ & Hch), Hs as (v1 & Hv1 & Hc & Hs).
    rewrite (holds_fun _ _ _ _ Hv1 Hv) in *. clear v1 Hv1.
    apply (bind_read s0 s root v); [done.. |]. intros p s1 Hp Hb Hq1.
    rewrite (body_getb _ p v), H0, read_slot_child, (read_child_body 0 p v)
      by (done || plia || apply idx0).
    rewrite Z.eqb_refl. cbn [negb]. destruct (Nat.ltb_spec MAX_DEPTH (S k)); [lia |].
    destruct (Z.eqb_spec (read_child v 0) 0); [done |].
    eapply spec_conseq; [apply (IH (S k) l); [done | apply Hch; [apply idx0 | done] | done | lia | lia]
      | done |].
    simpl. intros; lia.
Qed.

Lemma rx_recover_depth_spec s d root :
  st_inv s → tree s d root → spine s d root → root ≠ PAGE_ID_NONE → (d ≤ MAX_DEPTH)%nat →
  spec (quiet s) (recover_depth root) s (λ r _, r = d).
Proof.
  intros Hi Ht Hs Hr Hd. unfold recover_depth. destruct (Z.eqb_spec root PAGE_ID_NONE); [done |].
  eapply spec_conseq; [apply (rx_recover_loop_spec _ 0 d); eauto; [by apply quiet_refl | lia] | done |].
  done.
Qed.

(** ** Freeing a subtree *)

(** The pages a call pushed are those of [P]. *)
Definition pushed (fr : list Z) (P : Z → Prop) (sx : St * list Z) : Prop :=
  ∃ f, sx.2 = fr ++ f ∧ ∀ x, x ∈ f ↔ P x.

Abbreviation still s0 := (λ sx : St * list Z, quiet s0 sx.1).

Lemma fold_free_spec s0 (f : Z → M (St * list Z) unit) (P : Z → Z → Prop) cs s fr :
  quiet s0 s →
  (∀ c s' fr', c ∈ cs → quiet s0 s' →
    spec (still s0) (f c) (s', fr') (λ _, pushed fr' (P c))) →
  spec (still s0) (fold_m (λ c _, f c) cs tt) (s, fr)
    (λ _, pushed fr (λ x, ∃ c, c ∈ cs ∧ P c x)).
Proof.
  revert s fr. induction cs as [| c cs IH]; intros s fr Hq Hf.
  - apply spec_ret; [done |]. exists []. split; [by rewrite app_nil_r |]. intros x.
    split; [intros Hx; by apply not_elem_of_nil in Hx | intros (c & Hc & _); by apply not_elem_of_nil in Hc].
  - cbn [fold_m]. eapply spec_bind; [apply Hf; [left | done] |].
    intros [] [s1 fr1] Hq1 (f1 & Hfr1 & H1). cbn [fst snd] in *. subst fr1.
    eapply spec_conseq; [apply IH; [done | intros y s' fr' Hy; apply Hf; by right] | done |].
    intros [] [s2 fr2] _ (f2 & Hfr2 & H2). cbn [snd] in *. subst fr2. exists (f1 ++ f2).
    split; [by rewrite app_assoc |]. intros x. rewrite elem_of_app, H1, H2. split.
    + intros [Hx | (y & Hy & Hx)]; [exists c; split; [left | done] | exists y; split; [by right | done]].
    + intros (y & [-> | Hy]%elem_of_cons & Hx); eauto.
Qed.

(** A read of a page of the initial state. *)
Lemma still_get {B} s0 s fr root v (k : list Z → M (St * list Z) B) Q :
  quiet s0 s → holds s0 root v →
  (∀ p s', body p = body v → quiet s0 s' → spec (still s0) (k p) (s', fr) Q) →
  spec (still s0) (bind (lift (ps_get root)) k) (s, fr) Q.
Proof.
  intros Hq Hv Hk. eapply (bind_lift _ _ _ _ _ (λ p _, body p = body v)); [| auto].
  eapply spec_conseq; [apply get_ok, Hq | |].
  - intros s' Hs'. eapply quiet_trans; [done | exact Hs'].
  - intros p s' _ [_ Hb]. apply Hb. by apply (quiet_holds s0).
Qed.

(** [free_subtree] queues exactly the pages of the tree. *)
Lemma free_subtree_spec l s0 s fr root :
  quiet s0 s → st_inv s0 → tree s0 l root →
  spec (still s0) (free_subtree l root) (s, fr) (λ _, pushed fr (reach s0 l root)).
Proof.
  revert s fr root. induction l as [| l IH]; intros s fr root Hq Hi0 Ht; cbn [free_subtree];
    destruct Ht as (v & Hv & Hn & Ht);
    (destruct (Z.eqb_spec root PAGE_ID_NONE) as [Hnone |];
      [pose proof (live_none s0 root Hi0 (holds_live _ _ _ Hv)); lia |]);
    apply (still_get s0 s fr root v); [done | done | | done | done |]; intros p s1 Hb Hq1.
  - rewrite (check_ok 0 p v) by done. do 2 apply bind_ret. split; [done |].
    exists [root]. split; [done |]. intros x. apply list_elem_of_singleton.
  - destruct Ht as [_ Hch]. rewrite (check_ok (S l) p v) by done. apply bind_ret.
    eapply (spec_bind _ _ _ _ (λ _, pushed fr (λ x, ∃ c, c ∈ map snd (children v) ∧ reach s0 l c x))).
    { apply (still_get s0 s1 fr root v); [done | done |]. intros q s2 Hb2 Hq2.
      rewrite slots_children, (children_body q v) by done.
      apply fold_free_spec; [done |]. intros c s' fr' ([i c'] & -> & (Hi & -> & Hc)%child_in)%list_elem_of_fmap Hq'.
      apply IH; [done | done | by apply Hch]. }
    intros [] [s2 fr2] Hq2 (f & Hfr & Hf). cbn [fst snd] in *. subst fr2. split; [done |].
    exists (f ++ [root]). split; [by rewrite app_assoc |]. intros x.
    rewrite elem_of_app, list_elem_of_singleton, Hf. cbn [reach]. split.
    + intros [(c & ([i c'] & -> & (Hi & -> & Hc)%child_in)%list_elem_of_fmap & Hx) | ->]; [right | by left].
      exists v, i. ands; try done; lia.
    + intros [-> | (w & i & Hw & Hi & Hc & Hx)]; [by right | left].
      rewrite (holds_fun _ _ _ _ Hw Hv) in *. exists (read_child v i). split; [| done].
      apply list_elem_of_fmap. exists (i, read_child v i). split; [done | by apply child_in].
Qed.
End reads.
End RadixU64Read.
