(* ===== verification/MembershipIndex.v ===== *)
(** * The membership index ([src/membership_index.rs], [MembershipIndex])

    Two levels of [RadixU64]: the outer tree maps a tag to the root and the depth
    of the tag's inner tree, packed into one word; the inner tree maps each handle
    that carries the tag to 1.  The state has the store, the [freed] vector and,
    for the calls that take [&mut self], the index itself; the trees are values the
    calls build from their depths. *)

From S2P Require Export RadixU64Read.

Module MembershipIndex.
Import RadixU64.

Definition INNER_ROOT_BITS : Z := 58.
Definition INNER_ROOT_MASK : Z := Z.shiftl 1 INNER_ROOT_BITS - 1.

(** The two assertions are the [debug_assert!]s of the code. *)
Definition pack_inner {S} (root : Z) (depth : nat) : M S Z :=
  assert_that PanicAssert (root <=? INNER_ROOT_MASK) ;;;
  assert_that PanicAssert (Z.of_nat depth <? Z.shiftl 1 (64 - INNER_ROOT_BITS)) ;;;
  ret (Z.lor (cast 64 (Z.shiftl (Z.of_nat depth) INNER_ROOT_BITS)) root).

Definition unpack_inner (packed : Z) : Z * nat :=
  (Z.land packed INNER_ROOT_MASK, Z.to_nat (cast 32 (Z.shiftr packed INNER_ROOT_BITS))).

Record MembershipIndex := { outer_depth : nat }.

Definition new : MembershipIndex := {| outer_depth := 0 |}.

Definition set_outer_depth {S} (depth : nat) : M (S * MembershipIndex) unit :=
  writes (λ sx, (sx.1, {| outer_depth := depth |})).

(** [let mut x = loc; m(&mut x)]: a local that a call mutates. *)
Definition with_local {S R A} (loc : R) (m : M (S * R) A) : M S (A * R) := λ s,
  match m (s, loc) with
  | (Ok a, (s', loc')) => (Ok (a, loc'), s')
  | (Err e, (s', _)) => (Err e, s')
  | (Panic p, (s', _)) => (Panic p, s')
  end.

Section ops.
Context {St : Type} `{HX : Xxh3} `{HP : !PageStore St}.

(** The lines every call starts with: the packed word of the tag and the check
    of the depth it claims. *)
Definition find_inner (outer : RadixU64) (root tag : Z) : M St (Z * nat) :=
  let* packed := lookup outer root tag in
  let '(inner_root, inner_depth) := unpack_inner packed in
  if negb (inner_root =? 0) && (MAX_DEPTH <? inner_depth)%nat then fail (CorruptPage inner_root)
  else ret (inner_root, inner_depth).

Definition contains (self : MembershipIndex) (outer_root tag handle : Z) : M St bool :=
  if outer_root =? PAGE_ID_NONE then ret false else
  let outer := {| depth := outer_depth self |} in
  let* '(inner_root, inner_depth) := find_inner outer outer_root tag in
  if inner_root =? 0 then ret false else
  let inner := {| depth := inner_depth |} in
  let* v := lookup inner inner_root handle in
  ret (negb (v =? 0)).

Definition handles_for_tag (self : MembershipIndex) (outer_root tag : Z) : M St (list Z) :=
  if outer_root =? PAGE_ID_NONE then ret [] else
  let outer := {| depth := outer_depth self |} in
  let* '(inner_root, inner_depth) := find_inner outer outer_root tag in
  if inner_root =? 0 then ret [] else
  let inner := {| depth := inner_depth |} in
  let* pairs := iter inner inner_root in
  ret (map fst pairs).

Definition handles_for_tag_bounded (self : MembershipIndex) (outer_root tag limit : Z)
    : M St (list Z) :=
  if outer_root =? PAGE_ID_NONE then ret [] else
  let outer := {| depth := outer_depth self |} in
  let* '(inner_root, inner_depth) := find_inner outer outer_root tag in
  if inner_root =? 0 then ret [] else
  let inner := {| depth := inner_depth |} in
  let* pairs := iter_bounded inner inner_root limit in
  ret (map fst pairs).

Variable alloc : M St Z.

(** [insert] up to the assignment of [self.outer_depth]. *)
Definition insert_body (self : MembershipIndex) (outer_root tag handle : Z)
    : M (St * list Z) (Z * RadixU64) :=
  let outer := {| depth := outer_depth self |} in
  let* '(root, outer) :=
    (if outer_root =? PAGE_ID_NONE then lift (with_local outer (create_root alloc))
     else ret (outer_root, outer)) in
  let* '(inner_root, inner_depth) := lift (find_inner outer root tag) in
  let inner := {| depth := inner_depth |} in
  let* '(inner_root, inner) :=
    (if inner_root =? 0 then lift (with_local inner (create_root alloc))
     else ret (inner_root, inner)) in
  let* '(new_inner_root, inner) := with_local inner (insert alloc inner_root handle 1) in
  let* packed := pack_inner new_inner_root (depth inner) in
  with_local outer (insert alloc root tag packed).

Definition insert (outer_root tag handle : Z) : M (St * list Z * MembershipIndex) Z :=
  let* self := reads snd in
  let* '(new_outer_root, outer) := lift (insert_body self outer_root tag handle) in
  writes (λ sx, (sx.1, {| outer_depth := depth outer |})) ;;;
  ret new_outer_root.

(** [remove] up to the assignment of [self.outer_depth]; [None] is an early
    return of [(outer_root, false)]. *)
Definition remove_body (self : MembershipIndex) (outer_root tag handle : Z)
    : M (St * list Z) (option (Z * RadixU64)) :=
  if outer_root =? PAGE_ID_NONE then ret None else
  let outer := {| depth := outer_depth self |} in
  let* '(inner_root, inner_depth) := lift (find_inner outer outer_root tag) in
  if inner_root =? 0 then ret None else
  let inner := {| depth := inner_depth |} in
  let* '(new_inner_root, prev) := delete alloc inner inner_root handle in
  if prev =? 0 then ret None else
  let* any := lift (any_present inner new_inner_root) in
  if any then
    let* packed := pack_inner new_inner_root (depth inner) in
    let* '(r, outer) := with_local outer (RadixU64.insert alloc outer_root tag packed) in
    ret (Some (r, outer))
  else
    free_subtree (depth inner) new_inner_root ;;;
    let* '(r, _) := delete alloc outer outer_root tag in
    ret (Some (r, outer)).

Definition remove (outer_root tag handle : Z) : M (St * list Z * MembershipIndex) (Z * bool) :=
  let* self := reads snd in
  let* r := lift (remove_body self outer_root tag handle) in
  match r with
  | None => ret (outer_root, false)
  | Some (new_outer_root, outer) =>
      writes (λ sx, (sx.1, {| outer_depth := depth outer |})) ;;;
      ret (new_outer_root, true)
  end.
End ops.
End MembershipIndex.
