(* ===== verification/MembershipInv.v ===== *)
(** * The membership index: its invariant

    What a root denotes (a relation between tags and handles), the well-formedness
    of its two levels, the pages it owns, and the lemma that a new inner tree and a
    new outer path make a new index. *)

From S2P Require Export MembershipIndex.

Module MembershipInv.
Import RadixU64 RadixU64Facts RadixU64Read MembershipIndex.

(** ** The packed word *)

Lemma mask_ones : INNER_ROOT_MASK = Z.ones 58.
Proof. done. Qed.

Lemma unpack_bound p : 0 ≤ (unpack_inner p).1 ≤ INNER_ROOT_MASK.
Proof.
  unfold unpack_inner. cbn [fst]. rewrite mask_ones, Z.land_ones by lia.
  pose proof (Z.mod_pos_bound p (2 ^ 58)). rewrite Z.ones_equiv. lia.
Qed.

Lemma pack_unpack r n :
  0 ≤ r ≤ INNER_ROOT_MASK → (n ≤ MAX_DEPTH)%nat →
  let p := Z.lor (cast 64 (Z.shiftl (Z.of_nat n) INNER_ROOT_BITS)) r in
  unpack_inner p = (r, n) ∧ is_u64 p ∧ (r ≠ 0 → p ≠ 0).
Proof.
  unfold INNER_ROOT_BITS, MAX_DEPTH. rewrite mask_ones. intros Hr Hn. cbv zeta.
  assert (Hr' : 0 ≤ r < 2 ^ 58) by (change (Z.ones 58) with (2 ^ 58 - 1) in Hr; lia).
  rewrite Z.shiftl_mul_pow2, cast_small by lia.
  assert (Hor : Z.lor (Z.of_nat n * 2 ^ 58) r = Z.of_nat n * 2 ^ 58 + r).
  { rewrite <- (Z.add_lor_land (Z.of_nat n * 2 ^ 58) r).
    assert (Hl : Z.land (Z.of_nat n * 2 ^ 58) r = 0); [| lia].
    rewrite <- (Z.mod_small r (2 ^ 58)), <- Z.land_ones by lia.
    rewrite (Z.land_comm r), Z.land_assoc, Z.land_ones, Z.mod_mul by lia. done. }
  rewrite Hor. unfold unpack_inner, INNER_ROOT_BITS.
  rewrite mask_ones, Z.land_ones, Z.shiftr_div_pow2, Z.div_add_l, (Z.div_small r) by lia.
  rewrite Z.add_comm, Z.mod_add, Z.mod_small, Z.add_0_r, cast_small, Nat2Z.id by lia.
  split; [done |]. unfold is_u64. lia.
Qed.

#[local] Opaque unpack_inner.

Section inv.
Context {St : Type} `{HX : Xxh3} `{HF : Fault} `{HP : !PageStore St} `{HS : !StoreOk St}.
Implicit Types (s : St).

Abbreviation leafn := SLOTS_PER_PAGE.
Abbreviation lookup_den := (lookup_den 0 leafn read_slot).
Abbreviation wf_tree := (wf_tree is_leaf is_int).
Abbreviation cow := (cow is_leaf is_int).

(** An inner tree: not empty, its handles are [u64]s and its values are 1. *)
Record inner_ok s (rn : Z * nat) : Prop := {
  in_tree : wf_tree s rn.2 rn.1;
  in_root : 0 < rn.1 < PAGE_ID_NONE;
  in_depth : (rn.2 ≤ MAX_DEPTH)%nat;
  in_vals : ∀ k, 0 ≤ k → lookup_den s rn.2 rn.1 k = 0 ∨ lookup_den s rn.2 rn.1 k = 1;
  in_keys : ∀ k, u64_max < k → lookup_den s rn.2 rn.1 k = 0;
  in_some : ∃ k, is_u64 k ∧ lookup_den s rn.2 rn.1 k ≠ 0
}.

(** The inner tree of a tag the outer tree has. *)
Definition inner s d root t : Z * nat := unpack_inner (lookup_den s d root t).
Definition tagged s d root t : Prop := lookup_den s d root t ≠ 0.
Definition inner_page s d root t x : Prop :=
  tagged s d root t ∧ reach s (inner s d root t).2 (inner s d root t).1 x.

Record index_tree s d root : Prop := {
  ix_outer : wf_tree s d root;
  ix_spine : spine s d root;
  ix_root : 0 < root < PAGE_ID_NONE;
  ix_depth : (d ≤ MAX_DEPTH)%nat;
  ix_tags : ∀ t, u32_max < t → lookup_den s d root t = 0;
  ix_inner : ∀ t, 0 ≤ t → tagged s d root t → inner_ok s (inner s d root t);
  ix_apart : ∀ t x, 0 ≤ t → inner_page s d root t x → ¬ reach s d root x;
  ix_disj : ∀ t t' x, 0 ≤ t → 0 ≤ t' → t ≠ t' → inner_page s d root t x → ¬ inner_page s d root t' x
}.

(** An index the code may be handed; without a root it is empty. *)
Definition index s d root : Prop := root = PAGE_ID_NONE ∨ index_tree s d root.

(** The relation between tags and handles. *)
Definition member s d root t h : Prop :=
  root ≠ PAGE_ID_NONE ∧ tagged s d root t ∧
  lookup_den s (inner s d root t).2 (inner s d root t).1 h ≠ 0.

(** The pages of an index. *)
Definition index_page s d root x : Prop :=
  root ≠ PAGE_ID_NONE ∧ (reach s d root x ∨ ∃ t, 0 ≤ t ∧ inner_page s d root t x).

(** ** The index in a later state *)

Lemma lookup_ext s s' d root k :
  ext s s' → tree is_leaf is_int s d root → 0 ≤ k → lookup_den s' d root k = lookup_den s d root k.
Proof.
  intros He Ht Hk. unfold Radix.lookup_den. case_tests; [done |].
  apply (den_ext 0 _ is_leaf is_int read_slot slots_pos); [done | done | lia].
Qed.

Lemma inner_ok_ext s s' rn : ext s s' → inner_ok s rn → inner_ok s' rn.
Proof.
  intros He [Ht Hr Hd Hv Hk Hs].
  assert (Hl : ∀ k, 0 ≤ k → lookup_den s' rn.2 rn.1 k = lookup_den s rn.2 rn.1 k)
    by (intros; apply lookup_ext; [done | apply Ht | done]).
  split; [by eapply wf_ext | done | done | | |].
  - intros k Hk0. rewrite Hl by done. auto.
  - intros k Hk0. rewrite Hl by (unfold u64_max in *; lia). auto.
  - destruct Hs as (k & Hk0 & Hne). exists k. rewrite Hl by apply Hk0. done.
Qed.

Section later.
Variables (s s' : St) (d : nat) (root : Z).
Hypothesis He : ext s s'.
Hypothesis Hix : index_tree s d root.

Lemma ext_lookup k : 0 ≤ k → lookup_den s' d root k = lookup_den s d root k.
Proof. intros. apply lookup_ext; [done | apply (ix_outer _ _ _ Hix) | done]. Qed.

Lemma ext_inner t : 0 ≤ t → inner s' d root t = inner s d root t.
Proof. intros. unfold inner. by rewrite ext_lookup. Qed.

Lemma ext_tagged t : 0 ≤ t → tagged s' d root t ↔ tagged s d root t.
Proof. intros. unfold tagged. by rewrite ext_lookup. Qed.

Lemma ext_inner_page t x : 0 ≤ t → inner_page s' d root t x ↔ inner_page s d root t x.
Proof.
  intros Ht. unfold inner_page. rewrite ext_tagged, ext_inner by done.
  split; intros [Htag Hx]; (split; [done |]);
    pose proof (in_tree _ _ (ix_inner _ _ _ Hix t Ht Htag)) as [Htr _].
  - by rewrite <- (reach_ext is_leaf is_int s s').
  - by rewrite (reach_ext is_leaf is_int s s').
Qed.

Lemma ext_outer_page x : reach s' d root x ↔ reach s d root x.
Proof. apply (reach_ext is_leaf is_int); [done | apply (ix_outer _ _ _ Hix)]. Qed.

Lemma index_tree_ext : index_tree s' d root.
Proof.
  pose proof Hix as [Ho Hsp Hr Hd Htags Hin Hap Hdj]. split; auto.
  - by eapply wf_ext.
  - by eapply spine_ext.
  - intros t Ht. rewrite ext_lookup by (unfold u32_max in *; lia). auto.
  - intros t Ht. rewrite ext_tagged, ext_inner by done. intros Htag. eapply inner_ok_ext; eauto.
  - intros t x Ht. rewrite ext_inner_page, ext_outer_page by done. by apply Hap.
  - intros t t' x Ht Ht' Hne. rewrite !ext_inner_page by done. by apply Hdj.
Qed.

Lemma member_ext t h : 0 ≤ t → 0 ≤ h → member s' d root t h ↔ member s d root t h.
Proof.
  intros Ht Hh. unfold member. rewrite ext_tagged, ext_inner by done.
  split; intros (Hr & Htag & Hm); (split; [done |]; split; [done |]);
    pose proof (in_tree _ _ (ix_inner _ _ _ Hix t Ht Htag)) as [Htr _].
  - by rewrite <- (lookup_ext s s').
  - by rewrite (lookup_ext s s').
Qed.

Lemma index_page_ext x : index_page s' d root x ↔ index_page s d root x.
Proof.
  unfold index_page. rewrite ext_outer_page.
  split; intros [Hr [Hx | (t & Ht & Hx)]]; (split; [exact Hr |]); [by left | right | by left | right];
    exists t; (split; [exact Ht |]); revert Hx; by rewrite ext_inner_page by exact Ht.
Qed.

(** A page of the index is live. *)
Lemma outer_live x : reach s d root x → live s x.
Proof. eapply reach_live, (ix_outer _ _ _ Hix). Qed.

Lemma inner_live t x : 0 ≤ t → inner_page s d root t x → live s x.
Proof.
  intros Ht [Htag Hx]. eapply (reach_live is_leaf is_int); [| exact Hx].
  apply (in_tree _ _ (ix_inner _ _ _ Hix t Ht Htag)).
Qed.
End later.

(** ** Updates *)

(** From the index [root] of [s] an operation made the index [root'] of [s']
    and listed [fr] as superseded: as [Radix.cow], for the pages of both levels. *)
Record index_cow s d root s' d' root' (fr : list Z) : Prop := {
  ic_ext : ext s s';
  ic_new : ∀ x, index_page s' d' root' x → (index_page s d root x ∧ x ∉ fr) ∨ ¬ live s x;
  ic_old : ∀ x, index_page s d root x → index_page s' d' root' x ∨ x ∈ fr;
  ic_freed : ∀ x, x ∈ fr → (index_page s d root x ∨ ¬ live s x) ∧ live s' x;
  ic_disj : ∀ x, x ∈ fr → ¬ index_page s' d' root' x
}.

(** An index made where there was none. *)
Lemma index_cow_start s d0 s1 d root s' d' root' fr :
  ext s s1 → (∀ x, index_page s1 d root x → ¬ live s x) →
  index_cow s1 d root s' d' root' fr → index_cow s d0 PAGE_ID_NONE s' d' root' fr.
Proof.
  intros He Hfresh [Hx Hn Ho Hf Hd].
  assert (Hl : ∀ x, ¬ live s1 x → ¬ live s x) by (intros x Hx1; contradict Hx1; by eapply live_ext).
  split; [by etrans | | | | done].
  - intros x H1. right. destruct (Hn x H1) as [[? _] | ?]; auto.
  - intros x [? _]. done.
  - intros x H1. destruct (Hf x H1) as [[?|?] ?]; auto.
Qed.

(** The tag [t]'s inner tree went from the old one of [s] to [unpack_inner p] of
    [s2] (none where [p] is 0), with the pages [f1] superseded; then the outer
    tree mapped the tag to [p]. *)
Section update.
Variables (s s2 s3 : St) (d d' : nat) (root root' t p : Z) (f1 f2 : list Z).
Hypothesis Hix : index_tree s d root.
Hypothesis Ht : is_u32 t.
Hypothesis Hs2 : ext s s2.
Hypothesis Hcow : cow s2 d root s3 d' root' f2.
Hypothesis Hspine : spine s2 d root → spine s3 d' root'.
Hypothesis Hroot : 0 < root' < PAGE_ID_NONE.
Hypothesis Hdepth : (d' ≤ MAX_DEPTH)%nat.
Hypothesis Hmap : ∀ k, 0 ≤ k →
  lookup_den s3 d' root' k = if decide (k = t) then p else lookup_den s2 d root k.
Let new_page x : Prop := p ≠ 0 ∧ reach s2 (unpack_inner p).2 (unpack_inner p).1 x.
Hypothesis Hp : p ≠ 0 → inner_ok s2 (unpack_inner p).
Hypothesis Hnew : ∀ x, new_page x → (inner_page s d root t x ∧ x ∉ f1) ∨ ¬ live s x.
Hypothesis Hold : ∀ x, inner_page s d root t x → new_page x ∨ x ∈ f1.
Hypothesis Hf1 : ∀ x, x ∈ f1 →
  (inner_page s d root t x ∨ ¬ live s x) ∧ live s2 x ∧ ¬ new_page x.

Lemma s23 : ext s2 s3.
Proof. apply (cow_ext _ _ _ _ _ _ _ _ _ Hcow). Qed.

Lemma t0 : 0 ≤ t.
Proof. apply Ht. Qed.

Lemma map_other k : 0 ≤ k → k ≠ t → lookup_den s3 d' root' k = lookup_den s d root k.
Proof. intros Hk Hne. rewrite Hmap, decide_False by done. by apply ext_lookup. Qed.

Lemma map_t : lookup_den s3 d' root' t = p.
Proof. rewrite Hmap, decide_True by (done || apply t0). done. Qed.

Lemma new_live x : new_page x → live s2 x.
Proof. intros [Hp0 Hx]. eapply (reach_live is_leaf is_int); [apply (in_tree _ _ (Hp Hp0)) | exact Hx]. Qed.

(** Inner pages after the update. *)
Lemma new_inner_t x : inner_page s3 d' root' t x ↔ new_page x.
Proof.
  unfold inner_page, tagged, inner, new_page. rewrite map_t. split; intros [Hp0 Hx]; (split; [done |]).
  - by apply (reach_ext is_leaf is_int s2 s3) in Hx; [| apply s23 | apply (in_tree _ _ (Hp Hp0))].
  - by apply (reach_ext is_leaf is_int s2 s3); [apply s23 | apply (in_tree _ _ (Hp Hp0)) |].
Qed.

Lemma new_inner_other k x : 0 ≤ k → k ≠ t → inner_page s3 d' root' k x ↔ inner_page s d root k x.
Proof.
  intros Hk Hne. rewrite <- (ext_inner_page s s3 d root) by (done || (etrans; [done | apply s23])).
  unfold inner_page, tagged, inner. rewrite map_other by done.
  by rewrite (ext_lookup s s3 d root) by (done || (etrans; [done | apply s23])).
Qed.

(** The outer pages after the update, and those it superseded. *)
Lemma new_outer x : reach s3 d' root' x → (reach s d root x ∧ x ∉ f2) ∨ ¬ live s2 x.
Proof.
  intros Hx. destruct (cow_new _ _ _ _ _ _ _ _ _ Hcow x Hx) as [[Hr ?] | ?]; [left | by right].
  by rewrite (ext_outer_page s s2) in Hr.
Qed.

Lemma freed_outer x : x ∈ f2 → reach s d root x ∨ ¬ live s2 x.
Proof.
  intros Hx. destruct (cow_freed _ _ _ _ _ _ _ _ _ Hcow x Hx) as [Hr | ?]; [left | by right].
  by rewrite (ext_outer_page s s2) in Hr.
Qed.

Lemma new_apart x : new_page x → ¬ reach s d root x.
Proof.
  intros Hx Hr. destruct (Hnew x Hx) as [[Hi _] | Hn].
  - by apply (ix_apart _ _ _ Hix t x t0 Hi).
  - apply Hn. by eapply outer_live.
Qed.

Lemma new_disj k x : 0 ≤ k → k ≠ t → new_page x → ¬ inner_page s d root k x.
Proof.
  intros Hk Hne Hx Hi. destruct (Hnew x Hx) as [[Hit _] | Hn].
  - by apply (ix_disj _ _ _ Hix k t x Hk t0 Hne Hi).
  - apply Hn. eapply inner_live; [exact Hix | exact Hk | exact Hi].
Qed.

Lemma update_tree : index_tree s3 d' root'.
Proof.
  pose proof Hix as [Ho Hsp Hr Hd Htags Hin Hap Hdj]. pose proof s23 as He3. pose proof t0 as Ht0.
  assert (He03 : ext s s3) by by etrans.
  split; [apply Hcow | apply Hspine; by eapply spine_ext | done | done | | | |].
  - intros k Hk. rewrite map_other; [auto | unfold u32_max in *; lia |]. unfold is_u32, u32_max in *. lia.
  - intros k Hk. unfold tagged, inner. destruct (decide (k = t)) as [-> | Hne].
    + rewrite map_t. intros Hp0. eapply (inner_ok_ext s2); [done | by apply Hp].
    + rewrite map_other by done. intros Htag. eapply inner_ok_ext; [exact He03 |]. by apply Hin.
  - intros k x Hk Hx Hout. destruct (new_outer x Hout) as [[Hr' _] | Hn]; destruct (decide (k = t)) as [-> | Hne].
    + apply (new_apart x); [by rewrite <- new_inner_t | done].
    + apply (Hap k x Hk); [by rewrite <- new_inner_other | done].
    + apply Hn, new_live. by rewrite <- new_inner_t.
    + apply Hn. eapply live_ext; [done |]. eapply inner_live; [exact Hix | exact Hk |].
      by rewrite <- new_inner_other.
  - intros k k' x Hk Hk' Hne. destruct (decide (k = t)) as [-> | H1], (decide (k' = t)) as [-> | H2]; [done | | |].
    + rewrite new_inner_t, new_inner_other by done. intros Hx. by apply new_disj.
    + rewrite new_inner_t, new_inner_other by done. intros Hx Hx'. by apply (new_disj k x).
    + rewrite !new_inner_other by done. by apply Hdj.
Qed.

Lemma update_member k h :
  0 ≤ k → 0 ≤ h →
  member s3 d' root' k h ↔
    if decide (k = t) then p ≠ 0 ∧ lookup_den s2 (unpack_inner p).2 (unpack_inner p).1 h ≠ 0
    else member s d root k h.
Proof.
  intros Hk Hh. pose proof s23 as He3. pose proof (ix_root _ _ _ Hix) as Hr. unfold member, tagged, inner.
  destruct (decide (k = t)) as [-> | Hne].
  - rewrite map_t. assert (Hrne : root' ≠ PAGE_ID_NONE) by lia.
    split; [intros (_ & Hp0 & Hm) | intros [Hp0 Hm]].
    + split; [done |]. rewrite <- (lookup_ext s2 s3); [done | done | apply (in_tree _ _ (Hp Hp0)) | done].
    + ands; [done | done |]. rewrite (lookup_ext s2 s3); [done | done | apply (in_tree _ _ (Hp Hp0)) | done].
  - rewrite map_other by done. assert (root ≠ PAGE_ID_NONE ∧ root' ≠ PAGE_ID_NONE) as [? ?] by lia.
    assert (He03 : ext s s3) by by etrans.
    split; intros (_ & Htag & Hm); (ands; [done | done |]);
      pose proof (in_tree _ _ (ix_inner _ _ _ Hix k Hk Htag)) as [Htr _].
    + by rewrite <- (lookup_ext s s3).
    + by rewrite (lookup_ext s s3).
Qed.

Lemma update_cow : index_cow s d root s3 d' root' (f1 ++ f2).
Proof.
  pose proof s23 as He3. pose proof t0 as Ht0. pose proof (ix_root _ _ _ Hix) as Hr.
  assert (Hne1 : root ≠ PAGE_ID_NONE) by lia. assert (Hne2 : root' ≠ PAGE_ID_NONE) by lia.
  assert (Hl : ∀ x, ¬ live s2 x → ¬ live s x) by (intros x Hx; contradict Hx; by eapply live_ext).
  assert (Hf1out : ∀ x, x ∈ f1 → ¬ reach s d root x).
  { intros x Hx Hrx. destruct (Hf1 x Hx) as ([Hi | Hn] & _).
    - by apply (ix_apart _ _ _ Hix t x).
    - apply Hn. by eapply outer_live. }
  assert (Hf2in : ∀ x, x ∈ f2 → live s2 x → reach s d root x).
  { intros x Hx Hlx. by destruct (freed_outer x Hx). }
  split; [by etrans | | | |]; intros x.
  - intros [_ [Hx | (k & Hk & Hx)]]; [| destruct (decide (k = t)) as [-> | Hne]].
    + destruct (new_outer x Hx) as [[Hrx Hnf] | Hn]; [left | right; auto].
      split; [by split; [| left] |]. rewrite elem_of_app. intros [? | ?]; [by apply (Hf1out x) | done].
    + rewrite new_inner_t in Hx. destruct (Hnew x Hx) as [[Hi Hnf] | Hn]; [left | by right].
      split; [split; [done | right; eauto] |]. rewrite elem_of_app. intros [? | Hx2]; [done |].
      apply (new_apart x Hx), (Hf2in x Hx2), (new_live x Hx).
    + rewrite new_inner_other in Hx by done. left.
      assert (Hlx : live s x) by (eapply inner_live; [exact Hix | exact Hk | exact Hx]).
      split; [split; [done | right; eauto] |]. rewrite elem_of_app. intros [H1 | H2].
      * destruct (Hf1 x H1) as ([Hi | ?] & _); [| done]. by apply (ix_disj _ _ _ Hix k t x Hk t0 Hne).
      * apply (ix_apart _ _ _ Hix k x Hk Hx), (Hf2in x H2). by eapply live_ext.
  - intros [_ [Hx | (k & Hk & Hx)]]; rewrite elem_of_app; [| destruct (decide (k = t)) as [-> | Hne]].
    + destruct (cow_old _ _ _ _ _ _ _ _ _ Hcow x) as [? | ?]; [by rewrite (ext_outer_page s s2) | | by auto].
      left. split; [done | by left].
    + destruct (Hold x Hx) as [? | ?]; [| by auto]. left. split; [done |]. right. exists t.
      split; [done |]. by rewrite new_inner_t.
    + left. split; [done |]. right. exists k. split; [done |]. by rewrite new_inner_other.
  - rewrite elem_of_app. intros [Hx | Hx].
    + destruct (Hf1 x Hx) as ([Hi | ?] & Hlx & _); (split; [| by eapply live_ext]); [left | by right].
      split; [done | right; eauto].
    + split; [| by eapply cow_live]. destruct (freed_outer x Hx) as [? | ?]; [left | right; auto].
      by split; [| left].
  - rewrite elem_of_app. intros Hx [_ [Hout | (k & Hk & Hin)]].
    + destruct Hx as [Hx | Hx]; [| by apply (cow_disj _ _ _ _ _ _ _ _ _ Hcow x)].
      destruct (new_outer x Hout) as [[Hrx _] | Hn]; [by apply (Hf1out x) |]. by apply Hn, (Hf1 x Hx).
    + destruct (decide (k = t)) as [-> | Hne].
      * rewrite new_inner_t in Hin. destruct Hx as [Hx | Hx]; [by apply (Hf1 x Hx) |].
        apply (new_apart x Hin), (Hf2in x Hx), (new_live x Hin).
      * rewrite new_inner_other in Hin by done.
        assert (Hlx : live s x) by (eapply inner_live; [exact Hix | exact Hk | exact Hin]).
        destruct Hx as [Hx | Hx].
        -- destruct (Hf1 x Hx) as ([Hi | ?] & _); [| done]. by apply (ix_disj _ _ _ Hix k t x Hk t0 Hne).
        -- apply (ix_apart _ _ _ Hix k x Hk Hin), (Hf2in x Hx). by eapply live_ext.
Qed.
End update.
End inv.
End MembershipInv.
