(* ===== verification/MembershipOps.v ===== *)
(** * The membership index: its operations

    [insert], [remove], [contains] and the two enumerations against the relation a
    root denotes.  The only assertion of the module that can fail is the one on
    the 58 bits a page id has in a packed word; [runs] states that outcome. *)

From S2P Require Export MembershipInv.

Module MembershipOps.
Import RadixU64 RadixU64Facts RadixU64Read MembershipIndex MembershipInv.

#[local] Opaque unpack_inner.

Lemma unpack_0 : unpack_inner 0 = (0, 0%nat).
Proof. by vm_compute. Qed.

(** ** Outcomes *)

(** As [spec], where an assertion may also fail in a state [W] allows. *)
Definition runs {S A} `{Fault} (F W : S → Prop) (m : M S A) (s : S) (Q : A → S → Prop) : Prop :=
  F (m s).2 ∧
  match (m s).1 with
  | Ok a => Q a (m s).2
  | Err e => may_err e
  | Panic p => may_panic p ∨ (p = PanicAssert ∧ W (m s).2)
  end.

Section runs.
Context {S : Type} `{HF : Fault} (F W : S → Prop).

Lemma runs_spec {A} (m : M S A) s Q : spec F m s Q → runs F W m s Q.
Proof. intros [HF' HQ]. split; [done |]. destruct (m s) as [[a | e | p] s']; cbn in *; auto. Qed.

Lemma runs_bind {A B} (m : M S A) (k : A → M S B) s Q1 Q :
  spec F m s Q1 → (∀ a s', F s' → Q1 a s' → runs F W (k a) s' Q) → runs F W (bind m k) s Q.
Proof.
  intros [HF' HQ] Hk. unfold runs, bind. destruct (m s) as [[a | e | p] s']; cbn in *; auto.
  by apply Hk.
Qed.

(** A last step that only repackages the result. *)
Lemma runs_map {A B C} (m : M S A) (k : A → M S B) (k' : B → M S C) g s Q :
  (∀ b, k' b = ret (g b)) → runs F W (bind m k) s (λ b, Q (g b)) →
  runs F W (bind m (λ a, bind (k a) k')) s Q.
Proof.
  intros Hk [HF' HQ]. unfold runs, bind in *. destruct (m s) as [[a | e | p] s']; [| done..].
  destruct (k a s') as [[b | e | p] s2]; [| done..]. by rewrite Hk.
Qed.

Lemma runs_assert {B} b (k : unit → M S B) s Q :
  F s → (b = false → W s) → (b = true → runs F W (k tt) s Q) →
  runs F W (bind (assert_that PanicAssert b) k) s Q.
Proof. intros Hs Hw Hk. destruct b; [by apply Hk |]. split; [done |]. right. auto. Qed.
End runs.

Lemma runs_conseq {S A} `{Fault} (F F' W : S → Prop) (m : M S A) s Q Q' :
  runs F W m s Q → (∀ s', F s' → F' s') → (∀ a s', F s' → Q a s' → Q' a s') → runs F' W m s Q'.
Proof.
  intros [HF HQ] HFF HQQ. split; [auto |]. destruct (m s) as [[a | e | p] s']; cbn in *; auto.
Qed.

Lemma with_local_spec {S R A} `{Fault} (F : S → Prop) loc (m : M (S * R) A) s Q :
  spec (λ sx, F sx.1) m (s, loc) (λ a sx, Q (a, sx.2) sx.1) → spec F (with_local loc m) s Q.
Proof.
  unfold spec, with_local. destruct (m (s, loc)) as [[a | e | p] [s' loc']]; cbn; done.
Qed.

Section ops.
Context {St : Type} `{HX : Xxh3} `{HF : Fault} `{HP : !PageStore St} `{HS : !StoreOk St}.
Implicit Types (s : St).

Abbreviation leafn := SLOTS_PER_PAGE.
Abbreviation lookup_den := (lookup_den 0 leafn read_slot).
Abbreviation wf_tree := (wf_tree is_leaf is_int).
Abbreviation cow := (cow is_leaf is_int).

(** A page id that does not fit in a packed word. *)
Definition wide s : Prop := ∃ id, live s id ∧ INNER_ROOT_MASK < id.

Lemma tag_u64 t : is_u32 t → is_u64 t.
Proof. unfold is_u32, is_u64. lia. Qed.

Lemma ix_none s d root : index_tree s d root → root ≠ PAGE_ID_NONE.
Proof. intros H. pose proof (ix_root _ _ _ H). lia. Qed.

Lemma untagged s d root t : ¬ tagged s d root t → inner s d root t = (0, 0%nat).
Proof.
  unfold tagged, inner. intros Hn. destruct (Z.eq_dec (lookup_den s d root t) 0) as [-> | ?]; [| done].
  apply unpack_0.
Qed.

Lemma inner_tagged s d root t :
  index_tree s d root → 0 ≤ t → (inner s d root t).1 ≠ 0 ↔ tagged s d root t.
Proof.
  intros Hix Ht. split.
  - intros Hr Hn. rewrite untagged in Hr; [done | by intros Htag].
  - intros Htag. pose proof (in_root _ _ (ix_inner _ _ _ Hix t Ht Htag)). lia.
Qed.

Lemma find_inner_spec s0 s d root t :
  quiet s0 s → index_tree s0 d root → is_u32 t →
  spec (quiet s0) (find_inner {| depth := d |} root t) s (λ r _, r = inner s0 d root t).
Proof.
  intros Hq Hix Ht. unfold find_inner.
  eapply spec_bind; [apply (rx_lookup_spec s0); [done | apply Hix | by eapply ix_none | apply Hix | by apply tag_u64] |].
  intros packed s1 Hq1 ->. fold (inner s0 d root t).
  destruct (inner s0 d root t) as [r n] eqn:Er.
  assert (Hno : negb (r =? 0) && (MAX_DEPTH <? n)%nat = false).
  { destruct (Z.eqb_spec r 0) as [| Hr]; [done |]. cbn [negb andb]. apply Nat.ltb_ge.
    assert (Htag : tagged s0 d root t) by (apply inner_tagged; [done | apply Ht | by rewrite Er]).
    pose proof (in_depth _ _ (ix_inner _ _ _ Hix t (proj1 Ht) Htag)) as Hd. by rewrite Er in Hd. }
  rewrite Hno. by apply spec_ret.
Qed.

(** ** Reads *)

Lemma contains_spec s d root t h :
  st_inv s → index s d root → is_u32 t → is_u64 h →
  spec (quiet s) (contains {| outer_depth := d |} root t h) s
    (λ r _, r = true ↔ member s d root t h).
Proof.
  intros Hi Hix Ht Hh. pose proof (quiet_refl s Hi) as Hq. unfold contains.
  destruct (Z.eqb_spec root PAGE_ID_NONE) as [Hn | Hn].
  { apply spec_ret; [done |]. split; [done |]. by intros [? _]. }
  destruct Hix as [| Hix]; [done |]. cbv zeta. cbn [outer_depth].
  eapply spec_bind; [by apply find_inner_spec |]. intros [r n] s1 Hq1 Hr.
  assert (Hmem : member s d root t h ↔ r ≠ 0 ∧ lookup_den s n r h ≠ 0).
  { unfold member. rewrite <- (inner_tagged s d root t Hix (proj1 Ht)), <- Hr. tauto. }
  destruct (Z.eqb_spec r 0) as [-> | Hr0].
  { apply spec_ret; [done |]. rewrite Hmem. split; [done | tauto]. }
  assert (Htag : tagged s d root t) by (apply inner_tagged; [done | apply Ht | by rewrite <- Hr]).
  pose proof (ix_inner _ _ _ Hix t (proj1 Ht) Htag) as Hin. rewrite <- Hr in Hin.
  destruct Hin as [[Htr _] Hrt Hd _ _ _]. cbn [fst snd] in *.
  eapply spec_bind; [apply (rx_lookup_spec s); [done | done | lia | done | done] |].
  intros v s2 Hq2 ->. apply spec_ret; [done |]. rewrite Hmem.
  destruct (Z.eqb_spec (lookup_den s n r h) 0); cbn [negb]; [split; [done | tauto] | tauto].
Qed.

(** The handles of a tag in increasing order. *)
Definition handles_of s d root t : list Z :=
  if (inner s d root t).1 =? 0 then [] else
  map fst (entries 0 leafn read_slot present s (inner s d root t).2 (inner s d root t).1 0).

(** Both enumerations, for the code [e] that lists an inner tree. *)
Lemma handles_body s d root t (e : RadixU64 → Z → M St (list (Z * Z))) (f : list (Z * Z) → list (Z * Z)) :
  st_inv s → index s d root → is_u32 t → f [] = [] →
  (∀ n r s1, quiet s s1 → tree is_leaf is_int s n r → r ≠ PAGE_ID_NONE → (n ≤ MAX_DEPTH)%nat →
    spec (quiet s) (e {| depth := n |} r) s1 (λ xs _, xs = f (entries 0 leafn read_slot present s n r 0))) →
  spec (quiet s)
    (if root =? PAGE_ID_NONE then ret [] else
     let outer := {| depth := outer_depth {| outer_depth := d |} |} in
     let* '(inner_root, inner_depth) := find_inner outer root t in
     if inner_root =? 0 then ret [] else
     let inner := {| depth := inner_depth |} in
     let* pairs := e inner inner_root in
     ret (map fst pairs)) s
    (λ xs _, xs = if decide (root = PAGE_ID_NONE) then [] else
       if (inner s d root t).1 =? 0 then [] else
       map fst (f (entries 0 leafn read_slot present s (inner s d root t).2 (inner s d root t).1 0))).
Proof.
  intros Hi Hix Ht Hf He. pose proof (quiet_refl s Hi) as Hq.
  destruct (Z.eqb_spec root PAGE_ID_NONE) as [Hn | Hn].
  { apply spec_ret; [done |]. by rewrite decide_True. }
  rewrite decide_False by done. destruct Hix as [| Hix]; [done |]. cbv zeta. cbn [outer_depth].
  eapply spec_bind; [by apply find_inner_spec |]. intros [r n] s1 Hq1 Hr. rewrite <- Hr. cbn [fst snd].
  destruct (Z.eqb_spec r 0) as [-> | Hr0]; [by apply spec_ret |].
  assert (Htag : tagged s d root t) by (apply inner_tagged; [done | apply Ht | by rewrite <- Hr]).
  pose proof (ix_inner _ _ _ Hix t (proj1 Ht) Htag) as Hin. rewrite <- Hr in Hin.
  destruct Hin as [[Htr _] Hrt Hd _ _ _]. cbn [fst snd] in *.
  eapply spec_bind; [apply He; [done | done | lia | done] |].
  intros xs s2 Hq2 ->. by apply spec_ret.
Qed.

Lemma handles_for_tag_spec s d root t :
  st_inv s → index s d root → is_u32 t →
  spec (quiet s) (handles_for_tag {| outer_depth := d |} root t) s
    (λ xs _, xs = if decide (root = PAGE_ID_NONE) then [] else handles_of s d root t).
Proof.
  intros Hi Hix Ht. apply (handles_body s d root t iter id); [done.. |].
  intros n r s1 Hq Htr Hr Hn. by apply iter_spec.
Qed.

Lemma handles_for_tag_bounded_spec s d root t limit :
  st_inv s → index s d root → is_u32 t → 0 ≤ limit →
  spec (quiet s) (handles_for_tag_bounded {| outer_depth := d |} root t limit) s
    (λ xs _, xs = take (Z.to_nat limit)
      (if decide (root = PAGE_ID_NONE) then [] else handles_of s d root t)).
Proof.
  intros Hi Hix Ht Hlim. eapply spec_conseq;
    [apply (handles_body s d root t (λ i r, iter_bounded i r limit) (take (Z.to_nat limit)));
       [done | done | done | apply take_nil |] | done |].
  - intros n r s1 Hq Htr Hr Hn. by apply iter_bounded_spec.
  - cbn. intros xs s' _ ->. unfold handles_of. repeat case_match; rewrite ?take_nil; try done.
    symmetry. apply firstn_map.
Qed.

Lemma inner_fit s rn : inner_ok s rn → keys_fit 0 leafn read_slot present s rn.2 rn.1.
Proof.
  intros Hin k x Hk Hx. destruct (Z.le_gt_cases k u64_max) as [? | Hgt]; [done |].
  pose proof (in_keys _ _ Hin k Hgt) as Hz. unfold Radix.lookup_den in Hz.
  destruct (Z.leb_spec (keys leafn rn.2) k); [lia |]. by rewrite Hz in Hx.
Qed.

(** They are sorted, and are the members. *)
Lemma handles_of_exact s d root t :
  index_tree s d root → is_u32 t →
  StronglySorted Z.lt (handles_of s d root t) ∧
  ∀ h, h ∈ handles_of s d root t ↔ is_u64 h ∧ member s d root t h.
Proof.
  intros Hix Ht. pose proof (ix_none _ _ _ Hix) as Hne. unfold handles_of, member.
  pose proof (inner_tagged s d root t Hix (proj1 Ht)) as Htg.
  destruct (Z.eqb_spec (inner s d root t).1 0) as [H0 | H0].
  { split; [constructor |]. intros h. split; [intros Hx; by apply not_elem_of_nil in Hx |].
    intros (_ & _ & Htag & _). by apply Htg in Htag. }
  assert (Htag : tagged s d root t) by by apply Htg.
  pose proof (ix_inner _ _ _ Hix t (proj1 Ht) Htag) as Hin. pose proof (inner_fit _ _ Hin) as Hfit.
  split.
  - pose proof (entries_sorted _ _ _ _ _ _ _ Hfit) as Hs.
    induction Hs as [| x xs Hs IH Hall]; cbn; constructor; [done |].
    apply Forall_map. eapply Forall_impl; [exact Hall | done].
  - intros h. rewrite list_elem_of_fmap. split.
    + intros ([h' x] & -> & Hx). cbn [fst]. apply elem_of_entries in Hx as [Hk Hx]; [| done].
      pose proof (Hfit h' x Hk Hx) as Hle. unfold u64_max, is_u64 in *. ands; [lia | lia | done | done |].
      unfold Radix.lookup_den. destruct (Z.leb_spec (keys leafn (inner s d root t).2) h'); [lia |].
      intros Hz. by rewrite Hz in Hx.
    + intros ([Hh0 _] & _ & _ & Hm). unfold Radix.lookup_den in Hm.
      destruct (Z.leb_spec (keys leafn (inner s d root t).2) h); [done |].
      eexists (h, _). split; [done |]. apply elem_of_entries; [done |]. split; [lia |]. by apply present_some.
Qed.

(** ** Writes *)

Variable alloc : M St Z.
Hypothesis Halloc : alloc_ok alloc.

(** The same index, with the same members, in a state from which any update is
    an update of the old index. *)
Record same_index s d root s1 d1 root1 : Prop := {
  si_tree : index_tree s1 d1 root1;
  si_member : ∀ t h, 0 ≤ t → 0 ≤ h → member s1 d1 root1 t h ↔ member s d root t h;
  si_cow : ∀ s' d' root' fr, index_cow s1 d1 root1 s' d' root' fr → index_cow s d root s' d' root' fr
}.

Lemma same_index_ext s s1 d root :
  ext s s1 → index_tree s d root → same_index s d root s1 d root.
Proof.
  intros He Hix. split; [by eapply index_tree_ext | intros; by apply member_ext |].
  intros s' d' root' fr [Hx Hn Ho Hf Hd].
  assert (Hp : ∀ x, index_page s1 d root x ↔ index_page s d root x) by (intros; by apply index_page_ext).
  assert (Hl : ∀ x, ¬ live s1 x → ¬ live s x) by (intros x Hx1; contradict Hx1; by eapply live_ext).
  split; [by etrans | | | | done]; intros x.
  - intros H1. destruct (Hn x H1) as [[? ?] | ?]; [left; by rewrite <- Hp | auto].
  - rewrite <- Hp. apply Ho.
  - intros H1. destruct (Hf x H1) as [[? | ?] ?]; (split; [| done]); [left; by rewrite <- Hp | auto].
Qed.

Lemma same_index_trans s d root s1 d1 root1 s2 d2 root2 :
  same_index s d root s1 d1 root1 → same_index s1 d1 root1 s2 d2 root2 → same_index s d root s2 d2 root2.
Proof.
  intros [T1 M1 C1] [T2 M2 C2]. split; [done | | auto].
  intros t h Ht Hh. by rewrite M2, M1.
Qed.

(** An index with no entry. *)
Lemma empty_index s d0 s1 root :
  ext s s1 → wf_tree s1 0 root → 0 < root < PAGE_ID_NONE → (∀ x, reach s1 0 root x → ¬ live s x) →
  (∀ k, 0 ≤ k → lookup_den s1 0 root k = 0) → same_index s d0 PAGE_ID_NONE s1 0 root.
Proof.
  intros He Hw Hr Hfresh Hz.
  assert (Hno : ∀ t, 0 ≤ t → ¬ tagged s1 0 root t) by (intros t Ht Hx; by apply Hx, Hz).
  split.
  - split; [done | done | done | lia | | | |].
    + intros t Ht. apply Hz. unfold u32_max in Ht. lia.
    + intros t Ht Hx. by destruct (Hno t Ht).
    + intros t x Ht [Hx _]. by destruct (Hno t Ht).
    + intros t t' x Ht _ _ [Hx _]. by destruct (Hno t Ht).
  - intros t h Ht _. unfold member. split; [intros (_ & Hx & _); by destruct (Hno t Ht) | by intros [? _]].
  - intros s' d' root' fr. apply index_cow_start; [done |].
    intros x [_ [Hx | (t & Ht & [Hx _])]]; [by apply Hfresh | by destruct (Hno t Ht)].
Qed.

Lemma new_tree_spec s (fr : list Z) n :
  st_inv s →
  spec (framed s) (lift (with_local {| depth := n |} (create_root alloc))) (s, fr)
    (λ r sx, ∃ s1 root, r = (root, {| depth := 0 |}) ∧ sx = (s1, fr) ∧ wf_tree s1 0 root ∧
      0 < root < PAGE_ID_NONE ∧ (∀ x, reach s1 0 root x → ¬ live s x) ∧
      ∀ k, 0 ≤ k → lookup_den s1 0 root k = 0).
Proof.
  intros Hi. apply spec_lift, with_local_spec.
  eapply spec_conseq; [apply (rx_create_root_spec alloc Halloc s); done | done |].
  intros root [s1 t] Hf (-> & Hw & Hr & Hx & Hz). by exists s1, root.
Qed.

(** The outer tree of an insertion: the one there is, or a new one. *)
Lemma outer_start s (fr : list Z) d root :
  st_inv s → index s d root →
  spec (framed s)
    (if root =? PAGE_ID_NONE then lift (with_local {| depth := d |} (create_root alloc))
     else ret (root, {| depth := d |})) (s, fr)
    (λ r sx, ∃ s1, sx = (s1, fr) ∧ same_index s d root s1 (depth r.2) r.1).
Proof.
  intros Hi Hix. destruct (Z.eqb_spec root PAGE_ID_NONE) as [-> | Hne].
  - eapply spec_conseq; [by apply new_tree_spec | done |].
    intros r sx Hf (s1 & root1 & -> & -> & Hw & Hr & Hx & Hz). exists s1. split; [done |].
    apply empty_index; [apply Hf | done..].
  - destruct Hix as [| Hix]; [done |]. apply spec_ret; [by apply frame_refl |]. exists s.
    split; [done |]. by apply same_index_ext.
Qed.

(** The inner tree of an insertion: the tag's, or a new one. *)
Record inner_start s d root t s1 (r : Z) (n : nat) : Prop := {
  is_tree : wf_tree s1 n r;
  is_root : 0 < r < PAGE_ID_NONE;
  is_depth : (n ≤ MAX_DEPTH)%nat;
  is_vals : ∀ k, 0 ≤ k → lookup_den s1 n r k = 0 ∨ lookup_den s1 n r k = 1;
  is_keys : ∀ k, u64_max < k → lookup_den s1 n r k = 0;
  is_new : ∀ x, reach s1 n r x → inner_page s d root t x ∨ ¬ live s x;
  is_old : ∀ x, inner_page s d root t x → reach s1 n r x;
  is_member : ∀ h, 0 ≤ h → lookup_den s1 n r h ≠ 0 ↔ member s d root t h
}.

Lemma inner_start_spec s (fr : list Z) d root t :
  st_inv s → index_tree s d root → is_u32 t →
  let '(r, n) := inner s d root t in
  spec (framed s)
    (if r =? 0 then lift (with_local {| depth := n |} (create_root alloc))
     else ret (r, {| depth := n |})) (s, fr)
    (λ r sx, ∃ s1, sx = (s1, fr) ∧ inner_start s d root t s1 r.1 (depth r.2)).
Proof.
  intros Hi Hix Ht. pose proof (inner_tagged s d root t Hix (proj1 Ht)) as Htg.
  pose proof (ix_none _ _ _ Hix) as Hne. destruct (inner s d root t) as [r n] eqn:Er. cbn [fst] in Htg.
  destruct (Z.eqb_spec r 0) as [-> | Hr0].
  - assert (Hno : ¬ tagged s d root t) by (intros Hx; by apply Htg in Hx).
    eapply spec_conseq; [by apply new_tree_spec | done |].
    intros rr sx Hf (s1 & r1 & -> & -> & Hw & Hr & Hx & Hz). exists s1. split; [done |].
    split; cbn [fst snd depth]; [done | done | lia | by left; apply Hz | | | |].
    + intros k Hk. apply Hz. unfold u64_max in Hk. lia.
    + intros x Hrx. right. by apply Hx.
    + by intros x [? _].
    + intros h Hh. rewrite Hz by done. split; [done |]. by intros (_ & ? & _).
  - assert (Htag : tagged s d root t) by by apply Htg.
    pose proof (ix_inner _ _ _ Hix t (proj1 Ht) Htag) as [H1 H2 H3 H4 H5 _]. rewrite Er in *. cbn [fst snd] in *.
    apply spec_ret; [by apply frame_refl |]. exists s. split; [done |].
    split; cbn [fst snd depth]; [done.. | | |]; unfold inner_page, member; rewrite Er; cbn [fst snd].
    + intros x Hx. by left.
    + by intros x [_ Hx].
    + intros h Hh. tauto.
Qed.

(** What an insertion into the chosen inner tree leaves for the outer update. *)
Section inserted.
Variables (s s1 s2 : St) (d n n' : nat) (root t h r r' : Z) (f1 : list Z).
Hypothesis Hst : inner_start s d root t s1 r n.
Hypothesis He : ext s s1.
Hypothesis Hh : is_u64 h.
Hypothesis Hcow : cow s1 n r s2 n' r' f1.
Hypothesis Hr' : 0 < r' < PAGE_ID_NONE.
Hypothesis Hn' : (n' ≤ MAX_DEPTH)%nat.
Hypothesis Hmap : ∀ k, 0 ≤ k → lookup_den s2 n' r' k = if decide (k = h) then 1 else lookup_den s1 n r k.

Lemma inserted_ok : inner_ok s2 (r', n').
Proof.
  destruct Hst as [_ _ _ Hv Hk _ _ _]. pose proof Hh as [Hh0 Hh1].
  split; cbn [fst snd]; [apply Hcow | done | done | | |].
  - intros k Hk0. rewrite Hmap by done. case_decide; auto.
  - intros k Hk0. unfold u64_max in Hk0. rewrite Hmap, decide_False by lia. apply Hk. unfold u64_max. lia.
  - exists h. rewrite Hmap, decide_True by done. done.
Qed.

Lemma inserted_new x : reach s2 n' r' x → (inner_page s d root t x ∧ x ∉ f1) ∨ ¬ live s x.
Proof.
  intros Hx. destruct (cow_new _ _ _ _ _ _ _ _ _ Hcow x Hx) as [[Hr Hf] | Hn].
  - destruct (is_new _ _ _ _ _ _ _ Hst x Hr); auto.
  - right. contradict Hn. by eapply live_ext.
Qed.

Lemma inserted_freed x : x ∈ f1 → (inner_page s d root t x ∨ ¬ live s x) ∧ live s2 x ∧ ¬ reach s2 n' r' x.
Proof.
  intros Hx. ands; [| by eapply cow_live | by eapply cow_disj].
  destruct (cow_freed _ _ _ _ _ _ _ _ _ Hcow x Hx) as [Hr | Hn].
  - by apply (is_new _ _ _ _ _ _ _ Hst).
  - right. contradict Hn. by eapply live_ext.
Qed.

Lemma inserted_old x : inner_page s d root t x → reach s2 n' r' x ∨ x ∈ f1.
Proof. intros Hx. eapply cow_old; [exact Hcow |]. by apply (is_old _ _ _ _ _ _ _ Hst). Qed.
End inserted.

(** [pack_inner] on the root of a tree. *)
Lemma pack_runs {B} s0 s fr r n (k : Z → M (St * list Z) B) Q :
  frame s0 s → live s r → 0 < r → (n ≤ MAX_DEPTH)%nat →
  (∀ p, unpack_inner p = (r, n) → is_u64 p → p ≠ 0 →
    runs (framed s0) (λ sx, wide sx.1) (k p) (s, fr) Q) →
  runs (framed s0) (λ sx, wide sx.1) (bind (pack_inner r n) k) (s, fr) Q.
Proof.
  intros Hf Hl Hr Hn Hk.
  assert (Hd : (Z.of_nat n <? Z.shiftl 1 (64 - INNER_ROOT_BITS)) = true).
  { unfold MAX_DEPTH in Hn. apply Z.ltb_lt. change (Z.shiftl 1 (64 - INNER_ROOT_BITS)) with 64. lia. }
  unfold pack_inner. rewrite Hd. unfold runs.
  destruct (Z.leb_spec r INNER_ROOT_MASK) as [Hle | Hgt]; cbn.
  - destruct (pack_unpack r n) as (Hu & H64 & H0); [lia | done |]. apply Hk; [done | done |].
    apply H0. lia.
  - split; [done |]. right. split; [done |]. by exists r.
Qed.
End ops.
End MembershipOps.
