(* ===== verification/MembershipWrite.v ===== *)
(** * The membership index: insertion and removal

    Each changes the relation by one pair, keeps every page of the old index as
    it was, and queues exactly the pages the new index no longer uses. *)

From S2P Require Export MembershipOps.

Module MembershipWrite.
Import RadixU64 RadixU64Facts RadixU64Read MembershipIndex MembershipInv MembershipOps.

#[local] Opaque unpack_inner.

Section write.
Context {St : Type} `{HX : Xxh3} `{HF : Fault} `{HP : !PageStore St} `{HS : !StoreOk St}.
Variable alloc : M St Z.
Hypothesis Halloc : alloc_ok alloc.
Implicit Types (s : St).

Abbreviation leafn := SLOTS_PER_PAGE.
Abbreviation lookup_den := (lookup_den 0 leafn read_slot).
Abbreviation wf_tree := (wf_tree is_leaf is_int).
Abbreviation cow := (cow is_leaf is_int).
Abbreviation wide_at := (λ sx : St * list Z, wide sx.1).

(** A step from a state the operation reached. *)
Lemma framed_from {X A} s s1 (m : M (St * X) A) sx Q :
  frame s s1 → spec (framed s1) m sx Q →
  spec (framed s) m sx (λ a sx', frame s1 sx'.1 ∧ Q a sx').
Proof.
  intros Hf Hm. eapply spec_conseq; [exact Hm | | done].
  intros sx' Hsx. eapply frame_trans; [apply Hf | exact Hsx].
Qed.

Lemma lift_quiet {X A} s0 s (x : X) (m : M St A) (Q : A → St → Prop) :
  frame s0 s → spec (quiet s) m s Q →
  spec (framed s0) (lift m) (s, x) (λ a sx, ∃ s', sx = (s', x) ∧ quiet s s' ∧ Q a s').
Proof.
  intros Hf Hm. apply spec_lift. eapply spec_conseq; [exact Hm | |].
  - intros s' Hq. eapply frame_trans; [apply Hf | by apply quiet_frame].
  - intros a s' Hq HQ. by exists s'.
Qed.

Lemma local_insert s (fr : list Z) n r key x :
  st_inv s → wf_tree s n r → 0 < r < PAGE_ID_NONE → (n ≤ MAX_DEPTH)%nat →
  is_u64 key → is_u64 x → x ≠ 0 →
  spec (framed s) (with_local {| depth := n |} (RadixU64.insert alloc r key x)) (s, fr)
    (λ rr sx, ∃ s' f, sx = (s', fr ++ f) ∧ (depth rr.2 ≤ MAX_DEPTH)%nat ∧ 0 < rr.1 < PAGE_ID_NONE ∧
      cow s n r s' (depth rr.2) rr.1 f ∧ (spine s n r → spine s' (depth rr.2) rr.1) ∧
      ∀ k, 0 ≤ k → lookup_den s' (depth rr.2) rr.1 k = if decide (k = key) then x else lookup_den s n r k).
Proof.
  intros Hi Hw Hr Hn Hk Hx Hx0. apply with_local_spec.
  eapply spec_conseq; [by apply (rx_insert_spec alloc Halloc s fr n r key x) | done |].
  intros new sx Hf (s' & d' & f & -> & Hd' & Hnew & Hcow & Hsp & Hmap).
  exists s', f. cbn [fst snd depth]. ands; done || lia.
Qed.

(** The end of an insertion: the packed word of the new inner tree goes into the
    outer tree. *)
Lemma outer_update s s4 fr d root t r n f1 :
  index_tree s d root → is_u32 t → frame s s4 → inner_ok s4 (r, n) →
  (∀ x, reach s4 n r x → (inner_page s d root t x ∧ x ∉ f1) ∨ ¬ live s x) →
  (∀ x, inner_page s d root t x → reach s4 n r x ∨ x ∈ f1) →
  (∀ x, x ∈ f1 → (inner_page s d root t x ∨ ¬ live s x) ∧ live s4 x ∧ ¬ reach s4 n r x) →
  runs (framed s) wide_at
    (let* packed := pack_inner r n in
     with_local {| depth := d |} (RadixU64.insert alloc root t packed)) (s4, fr ++ f1)
    (λ rr sx, ∃ s' f, sx = (s', fr ++ f) ∧ index_tree s' (depth rr.2) rr.1 ∧
      index_cow s d root s' (depth rr.2) rr.1 f ∧
      ∀ t' k, 0 ≤ t' → 0 ≤ k → member s' (depth rr.2) rr.1 t' k ↔
        if decide (t' = t) then lookup_den s4 n r k ≠ 0 else member s d root t' k).
Proof.
  intros Hix Ht Hf4 Hok Hnew Hold Hfreed. pose proof (in_root _ _ Hok) as Hr. cbn [fst] in Hr.
  apply pack_runs; [done | | lia | apply (in_depth _ _ Hok) |].
  { eapply (reach_live is_leaf is_int); [apply (in_tree _ _ Hok) | apply reach_root]. }
  intros p Hu H64 Hp0. apply runs_spec.
  pose proof (ix_outer _ _ _ Hix) as Hw. assert (He4 : ext s s4) by apply Hf4.
  eapply spec_conseq; [apply (framed_from s s4), (local_insert s4 (fr ++ f1) d root t p) | done |];
    [done | apply Hf4 | by eapply wf_ext | apply Hix | apply Hix | by apply tag_u64 | done | done |].
  intros [root' [d']] sx Hf5 (_ & s' & f2 & -> & Hd' & Hr' & Hcow & Hsp & Hmap). cbn [fst snd depth] in *.
  exists s', (f1 ++ f2). split; [by rewrite <- app_assoc |].
  assert (Hp : p ≠ 0 → inner_ok s4 (unpack_inner p)) by (intros _; by rewrite Hu).
  assert (Hnp : ∀ x, p ≠ 0 ∧ reach s4 (unpack_inner p).2 (unpack_inner p).1 x ↔ reach s4 n r x)
    by (intros x; rewrite Hu; cbn [fst snd]; tauto).
  ands.
  - eapply (update_tree s s4 s' d d' root root' t p f1 f2); eauto. intros x Hx. apply Hnew. by apply Hnp.
  - eapply (update_cow s s4 s' d d' root root' t p f1 f2); eauto.
    + intros x Hx. apply Hnew. by apply Hnp.
    + intros x Hx. rewrite Hnp. by apply Hold.
    + intros x Hx. rewrite Hnp. by apply Hfreed.
  - intros t' k Ht' Hk.
    rewrite (update_member s s4 s' d d' root root' t p f2 Hix Ht He4 Hcow Hr' Hd' Hmap Hp t' k Ht' Hk).
    case_decide; [| done]. rewrite Hu. cbn [fst snd]. tauto.
Qed.

(** What an operation that adds or drops the pair [(t, h)] leaves. *)
Definition changed s d root t h (add : bool) (root' : Z) (d' : nat) (fr : list Z) (sx : St * list Z) : Prop :=
  ∃ s' f, sx = (s', fr ++ f) ∧ index_tree s' d' root' ∧ index_cow s d root s' d' root' f ∧
    ∀ t' k, 0 ≤ t' → 0 ≤ k → member s' d' root' t' k ↔
      if decide (t' = t ∧ k = h) then add = true else member s d root t' k.

Lemma changed_from s d root s1 d1 root1 t h add root' d' fr sx :
  same_index s d root s1 d1 root1 → changed s1 d1 root1 t h add root' d' fr sx →
  changed s d root t h add root' d' fr sx.
Proof.
  intros Hsi (s' & f & -> & Hix' & Hc' & Hm'). exists s', f.
  ands; [done | done | by apply (si_cow _ _ _ _ _ _ Hsi) |]. intros t' k Ht' Hk. rewrite Hm' by done.
  case_decide; [done |]. by apply (si_member _ _ _ _ _ _ Hsi).
Qed.

Lemma inhabited_ext s s' n r :
  ext s s' → tree is_leaf is_int s n r → inhabited s' n r ↔ inhabited s n r.
Proof.
  intros He Ht. unfold inhabited. split; intros (k & Hk & Hd); exists k; (split; [done |]); revert Hd;
    by rewrite (den_ext 0 leafn is_leaf is_int read_slot slots_pos s s').
Qed.

Lemma insert_body_runs s fr d root t h :
  st_inv s → index s d root → is_u32 t → is_u64 h →
  runs (framed s) wide_at (insert_body alloc {| outer_depth := d |} root t h) (s, fr)
    (λ rr, changed s d root t h true rr.1 (depth rr.2) fr).
Proof.
  intros Hi Hix Ht Hh. unfold insert_body. cbv zeta. cbn [outer_depth].
  eapply runs_bind; [by apply outer_start |].
  intros [root1 [d1]] sx Hf1 (s1 & -> & Hsi1). cbn [fst snd depth] in *.
  pose proof (si_tree _ _ _ _ _ _ Hsi1) as Hix1.
  eapply runs_bind.
  { apply (lift_quiet s s1); [exact Hf1 |]. apply (find_inner_spec s1 s1); [apply quiet_refl, Hf1 | done | done]. }
  intros [r0 n0] sx Hf2 (s2 & -> & Hq2 & Hr0). cbn [fst snd depth] in *.
  assert (He2 : ext s1 s2) by apply (quiet_frame _ _ Hq2).
  pose proof (same_index_trans _ _ _ _ _ _ _ _ _ Hsi1 (same_index_ext s1 s2 d1 root1 He2 Hix1)) as Hsi2.
  pose proof (si_tree _ _ _ _ _ _ Hsi2) as Hix2.
  rewrite <- (ext_inner s1 s2 d1 root1 He2 Hix1) in Hr0 by apply Ht.
  pose proof (inner_start_spec alloc Halloc s2 fr d1 root1 t (proj1 Hq2) Hix2 Ht) as Hst. rewrite <- Hr0 in Hst.
  eapply runs_bind; [apply (framed_from s s2); [exact Hf2 | exact Hst] |].
  intros [r3 [n3]] sx Hf3 ([Hi3 He3] & s3 & -> & Hs3). cbn [fst snd depth] in *.
  destruct Hs3 as [Hw3 Hr3 Hn3 Hv3 Hk3 Hnew3 Hold3 Hm3] eqn:Hs3'. clear Hs3'.
  eapply runs_bind; [apply (framed_from s s3), (local_insert s3 fr n3 r3 h 1); done |].
  intros [r4 [n4]] sx Hf4 (Hfr4 & s4 & f1 & -> & Hn4 & Hr4 & Hcow & _ & Hmap). cbn [fst snd depth] in *.
  eapply runs_conseq.
  { apply (outer_update s2 s4 fr d1 root1 t r4 n4 f1); [done | done | | | | |].
    - eapply frame_trans; [exact He3 | exact Hfr4].
    - by eapply (inserted_ok s2 s3 s4).
    - intros x. by eapply (inserted_new s2 s3 s4).
    - intros x. by eapply (inserted_old s2 s3 s4).
    - intros x. by eapply (inserted_freed s2 s3 s4). }
  - intros sx Hsx. eapply frame_trans; [apply Hf2 | exact Hsx].
  - intros [root' [d']] sx _ (s' & f & -> & Hix' & Hcow' & Hm'). cbn [fst snd depth] in *.
    apply (changed_from s d root s2 d1 root1); [done |]. exists s', f. ands; [done | done | done |].
    intros t' k Ht' Hk. rewrite Hm' by done. destruct (decide (t' = t)) as [-> | Hne].
    + rewrite Hmap by done. destruct (decide (k = h)) as [-> | Hkh]; [by rewrite decide_True |].
      rewrite decide_False by tauto. by rewrite Hm3.
    + by rewrite decide_False by tauto.
Qed.

(** ** Removal *)

Lemma removed_pages s d n root t r x :
  inner s d root t = (r, n) → tagged s d root t → inner_page s d root t x ↔ reach s n r x.
Proof. intros Hrn Htag. unfold inner_page. rewrite Hrn. cbn [fst snd]. tauto. Qed.

Lemma removed_member s d n root t r k :
  index_tree s d root → inner s d root t = (r, n) → tagged s d root t →
  member s d root t k ↔ lookup_den s n r k ≠ 0.
Proof.
  intros Hix Hrn Htag. pose proof (ix_none _ _ _ Hix). unfold member. rewrite Hrn. cbn [fst snd]. tauto.
Qed.

(** A tag's inner tree [(r, n)] of [s] from which one handle went: [r'] of [s2]. *)
Section removed.
Variables (s s2 : St) (d n : nat) (root t h r r' : Z) (f1 : list Z).
Hypothesis Hix : index_tree s d root.
Hypothesis Ht : is_u32 t.
Hypothesis Hrn : inner s d root t = (r, n).
Hypothesis Htag : tagged s d root t.
Hypothesis Hcow : cow s n r s2 n r' f1.
Hypothesis Hr' : 0 < r' < PAGE_ID_NONE.
Hypothesis Hmap : ∀ k, 0 ≤ k → lookup_den s2 n r' k = if decide (k = h) then 0 else lookup_den s n r k.

Lemma removed_keys k : u64_max < k → lookup_den s2 n r' k = 0.
Proof.
  intros Hk. pose proof (ix_inner _ _ _ Hix t (proj1 Ht) Htag) as Hin. rewrite Hrn in Hin.
  rewrite Hmap by (unfold u64_max in Hk; lia). case_decide; [done |]. by apply (in_keys _ _ Hin).
Qed.

Lemma removed_ok : inhabited s2 n r' → inner_ok s2 (r', n).
Proof.
  intros (k & Hk & Hd). pose proof (ix_inner _ _ _ Hix t (proj1 Ht) Htag) as Hin. rewrite Hrn in Hin.
  split; cbn [fst snd]; [apply Hcow | done | apply (in_depth _ _ Hin) | | apply removed_keys |].
  - intros j Hj. rewrite Hmap by done. case_decide; [by left |]. by apply (in_vals _ _ Hin).
  - assert (Hl : lookup_den s2 n r' k ≠ 0).
    { unfold Radix.lookup_den. destruct (Z.leb_spec (keys leafn n) k); [lia | done]. }
    exists k. split; [| done]. destruct (Z.le_gt_cases k u64_max) as [? | Hgt].
    + unfold is_u64, u64_max in *. lia.
    + by destruct (Hl (removed_keys k Hgt)).
Qed.

Lemma removed_empty k : ¬ inhabited s2 n r' → 0 ≤ k → lookup_den s2 n r' k = 0.
Proof.
  intros Hno Hk. unfold Radix.lookup_den. destruct (Z.leb_spec (keys leafn n) k); [done |].
  destruct (Z.eq_dec (den 0 leafn read_slot s2 n r' k) 0); [done |]. destruct Hno. by exists k.
Qed.

Lemma removed_new x : reach s2 n r' x → (inner_page s d root t x ∧ x ∉ f1) ∨ ¬ live s x.
Proof. rewrite (removed_pages s d n root t r x Hrn Htag). apply (cow_new _ _ _ _ _ _ _ _ _ Hcow). Qed.

Lemma removed_old x : inner_page s d root t x → reach s2 n r' x ∨ x ∈ f1.
Proof. rewrite (removed_pages s d n root t r x Hrn Htag). apply (cow_old _ _ _ _ _ _ _ _ _ Hcow). Qed.

Lemma removed_freed x : x ∈ f1 → (inner_page s d root t x ∨ ¬ live s x) ∧ live s2 x ∧ ¬ reach s2 n r' x.
Proof.
  rewrite (removed_pages s d n root t r x Hrn Htag). intros Hx.
  ands; [by eapply cow_freed | by eapply cow_live | by eapply cow_disj].
Qed.
End removed.

(** The last handle of a tag: the inner tree's pages are queued and the outer
    tree drops the tag. *)
Lemma drop_tag s s4 fr d root t h r r' n f1 :
  index_tree s d root → is_u32 t → inner s d root t = (r, n) → tagged s d root t →
  frame s s4 → cow s n r s4 n r' f1 → 0 < r' < PAGE_ID_NONE →
  (∀ k, 0 ≤ k → lookup_den s4 n r' k = if decide (k = h) then 0 else lookup_den s n r k) →
  ¬ inhabited s4 n r' →
  spec (framed s)
    (free_subtree n r' ;;;
     let* '(x, _) := RadixU64.delete alloc {| depth := d |} root t in
     ret (Some (x, {| depth := d |}))) (s4, fr ++ f1)
    (λ o sx, ∃ x, o = Some (x, {| depth := d |}) ∧ changed s d root t h false x d fr sx).
Proof.
  intros Hix Ht Hrn Htag Hf4 Hcow Hr' Hmap Hempty.
  pose proof (cow_wf _ _ _ _ _ _ _ _ _ Hcow) as [Htr _].
  eapply (spec_bind _ _ _ _ (λ _ sx, quiet s4 sx.1 ∧ pushed (fr ++ f1) (reach s4 n r') sx)).
  { eapply (spec_conseq (λ sx : St * list Z, quiet s4 sx.1));
      [apply (free_subtree_spec n s4 s4); [apply quiet_refl, Hf4 | apply Hf4 | done] | |].
    - intros sx Hq. eapply frame_trans; [apply Hf4 | by apply quiet_frame].
    - intros [] sx Hq Hp. by split. }
  intros [] [s5 fr5] Hf5 [Hq5 (g & Hfr5 & Hg)]. cbn [fst snd] in *. subst fr5.
  assert (He5 : ext s4 s5) by apply (quiet_frame _ _ Hq5). assert (He05 : ext s s5) by apply Hf5.
  eapply spec_bind.
  { apply (framed_from s s5), (rx_delete_spec alloc Halloc s5 _ d root t);
      [exact Hf5 | apply Hq5 | eapply wf_ext, Hix; done | by eapply ix_none | apply Hix | by apply tag_u64]. }
  intros [x prev] [s6 fr6] Hf6 (_ & Hprev & Hpost). cbn [fst snd] in *.
  rewrite (ext_lookup s s5 d root He05 Hix) in Hprev by apply Ht.
  destruct (Z.eqb_spec prev 0) as [H0 | H0]; [by destruct Htag; rewrite <- Hprev |].
  destruct Hpost as (f2 & -> & Hx & Hcow2 & Hsp2 & Hmap2). apply spec_ret; [done |].
  exists x. split; [done |]. exists s6, ((f1 ++ g) ++ f2). split; [by rewrite !app_assoc |].
  assert (Hf1 : ∀ y, y ∈ f1 ++ g → (inner_page s d root t y ∨ ¬ live s y) ∧ live s5 y ∧
    ¬ (0 ≠ 0 ∧ reach s5 (unpack_inner 0).2 (unpack_inner 0).1 y)).
  { intros y Hy. rewrite (removed_pages s d n root t r y Hrn Htag). apply elem_of_app in Hy as [Hy | Hy%Hg].
    - ands; [by eapply cow_freed | eapply live_ext; [exact He5 |]; by eapply cow_live | by intros [? _]].
    - ands; [| eapply live_ext; [exact He5 |]; by eapply (reach_live is_leaf is_int) | by intros [? _]].
      destruct (cow_new _ _ _ _ _ _ _ _ _ Hcow y Hy) as [[? _] | ?]; auto. }
  assert (Hold : ∀ y, inner_page s d root t y →
    (0 ≠ 0 ∧ reach s5 (unpack_inner 0).2 (unpack_inner 0).1 y) ∨ y ∈ f1 ++ g).
  { intros y Hy. right. apply elem_of_app. rewrite Hg.
    destruct (removed_old s s4 d n root t r r' f1 Hrn Htag Hcow y Hy); auto. }
  ands.
  - apply (update_tree s s5 s6 d d root x t 0 (f1 ++ g) f2); try done; [apply Hix |]. by intros y [? _].
  - apply (update_cow s s5 s6 d d root x t 0 (f1 ++ g) f2); try done; [apply Hix |]. by intros y [? _].
  - intros t' k Ht' Hk.
    rewrite (update_member s s5 s6 d d root x t 0 f2 Hix Ht He05 Hcow2 Hx (ix_depth _ _ _ Hix) Hmap2
      ltac:(done) t' k Ht' Hk).
    destruct (decide (t' = t)) as [-> | Hne]; [| by rewrite decide_False by tauto].
    pose proof (removed_empty s4 n r' k Hempty Hk) as Hz. rewrite Hmap in Hz by done.
    destruct (decide (k = h)) as [-> | Hkh]; [rewrite decide_True by done; by split; [intros [] |] |].
    rewrite decide_False by tauto. rewrite (removed_member s d n root t r k Hix Hrn Htag), Hz. tauto.
Qed.

(** A tag with handles left: the outer tree gets the new inner tree. *)
Lemma keep_tag s s4 fr d root t h r r' n f1 :
  index_tree s d root → is_u32 t → inner s d root t = (r, n) → tagged s d root t →
  frame s s4 → cow s n r s4 n r' f1 → 0 < r' < PAGE_ID_NONE →
  (∀ k, 0 ≤ k → lookup_den s4 n r' k = if decide (k = h) then 0 else lookup_den s n r k) →
  inhabited s4 n r' →
  runs (framed s) wide_at
    (let* packed := pack_inner r' n in
     let* '(x, outer) := with_local {| depth := d |} (RadixU64.insert alloc root t packed) in
     ret (Some (x, outer))) (s4, fr ++ f1)
    (λ o sx, ∃ x outer, o = Some (x, outer) ∧ changed s d root t h false x (depth outer) fr sx).
Proof.
  intros Hix Ht Hrn Htag Hf4 Hcow Hr' Hmap Hsome. apply (runs_map _ _ _ _ _ Some); [by intros [] |].
  eapply runs_conseq; [apply (outer_update s s4 fr d root t r' n f1); try done | done |].
  - by eapply (removed_ok s s4 d n root t h r r' f1).
  - intros x. by apply (removed_new s s4 d n root t r r' f1).
  - intros x. by apply (removed_old s s4 d n root t r r' f1).
  - intros x. by apply (removed_freed s s4 d n root t r r' f1).
  - intros [x outer] sx _ (s' & f & -> & Hix' & Hc' & Hm'). cbn [fst snd] in *.
    exists x, outer. split; [done |]. exists s', f. ands; [done | done | done |].
    intros t' k Ht' Hk. rewrite Hm' by done.
    destruct (decide (t' = t)) as [-> | Hne]; [| by rewrite decide_False by tauto].
    rewrite Hmap by done. destruct (decide (k = h)) as [-> | Hkh];
      [by rewrite decide_True by done; split; [intros [] |] |].
    rewrite decide_False by tauto. by rewrite (removed_member s d n root t r k Hix Hrn Htag).
Qed.

(** The removal from a tag's inner tree [(r, n)]. *)
Lemma remove_inner_runs s fr d root t h r n :
  st_inv s → index_tree s d root → is_u32 t → is_u64 h →
  inner s d root t = (r, n) → tagged s d root t →
  runs (framed s) wide_at
    (let* '(new_inner_root, prev) := RadixU64.delete alloc {| depth := n |} r h in
     if prev =? 0 then ret None else
     let* any := lift (any_present {| depth := n |} new_inner_root) in
     if any then
       let* packed := pack_inner new_inner_root n in
       let* '(x, outer) := with_local {| depth := d |} (RadixU64.insert alloc root t packed) in
       ret (Some (x, outer))
     else
       free_subtree n new_inner_root ;;;
       let* '(x, _) := RadixU64.delete alloc {| depth := d |} root t in
       ret (Some (x, {| depth := d |}))) (s, fr)
    (λ o sx, match o with
             | None => ¬ member s d root t h ∧ sx.2 = fr
             | Some (x, outer) => member s d root t h ∧
                 changed s d root t h false x (depth outer) fr sx
             end).
Proof.
  intros Hi Hix Ht Hh Hrn Htag. pose proof (removed_member s d n root t r h Hix Hrn Htag) as Hmem.
  pose proof (ix_inner _ _ _ Hix t (proj1 Ht) Htag) as Hin. rewrite Hrn in Hin.
  pose proof (in_root _ _ Hin) as Hrr. cbn [fst] in Hrr.
  eapply runs_bind.
  { apply (rx_delete_spec alloc Halloc s fr n r h);
      [done | apply (in_tree _ _ Hin) | lia | apply (in_depth _ _ Hin) | done]. }
  intros [r' prev] [s2 fr2] Hf2 (Hprev & Hpost). cbn [fst snd] in *. rewrite <- Hprev in Hmem.
  destruct (Z.eqb_spec prev 0) as [Hp0 | Hp0].
  { apply runs_spec, spec_ret; [done |]. split; [tauto | apply Hpost]. }
  destruct Hpost as (f1 & -> & Hr' & Hcow & _ & Hmap).
  eapply runs_bind.
  { apply (lift_quiet s s2); [exact Hf2 |].
    apply (any_present_spec s2 s2); [apply quiet_refl, Hf2 | apply Hcow | lia]. }
  intros any sx Hf3 (s3 & -> & Hq3 & Hany). cbn [fst snd] in *.
  assert (He3 : ext s2 s3) by apply (quiet_frame _ _ Hq3).
  pose proof (cow_later _ _ _ _ _ _ _ _ _ _ Hcow He3) as Hcow3.
  assert (Hmap3 : ∀ k, 0 ≤ k → lookup_den s3 n r' k = if decide (k = h) then 0 else lookup_den s n r k).
  { intros k Hk. rewrite (lookup_ext s2 s3); [by apply Hmap | done | apply Hcow | done]. }
  rewrite <- (inhabited_ext s2 s3) in Hany by (done || apply Hcow). destruct any.
  - eapply runs_conseq; [apply (keep_tag s s3 fr d root t h r r' n f1); try done; by apply Hany | done |].
    intros o sx _ (x & outer & -> & Hc). split; [tauto | done].
  - apply runs_spec.
    eapply spec_conseq; [apply (drop_tag s s3 fr d root t h r r' n f1); try done | done |].
    + intros Hx. by apply Hany in Hx.
    + intros o sx _ (x & -> & Hc). split; [tauto | done].
Qed.

Lemma remove_body_runs s fr d root t h :
  st_inv s → index s d root → is_u32 t → is_u64 h →
  runs (framed s) wide_at (remove_body alloc {| outer_depth := d |} root t h) (s, fr)
    (λ o sx, match o with
             | None => ¬ member s d root t h ∧ sx.2 = fr
             | Some (x, outer) => member s d root t h ∧
                 changed s d root t h false x (depth outer) fr sx
             end).
Proof.
  intros Hi Hix Ht Hh. unfold remove_body. cbv zeta. cbn [outer_depth depth].
  destruct (Z.eqb_spec root PAGE_ID_NONE) as [Hn | Hn].
  { apply runs_spec, spec_ret; [by apply frame_refl |]. split; [by intros [? _] | done]. }
  destruct Hix as [| Hix]; [done |].
  eapply runs_bind.
  { apply (lift_quiet s s); [by apply frame_refl |].
    apply (find_inner_spec s s); [by apply quiet_refl | done | done]. }
  intros [r n] sx Hf1 (s1 & -> & Hq1 & Hr). cbn [fst snd] in *.
  assert (He1 : ext s s1) by apply Hf1. pose proof (same_index_ext s s1 d root He1 Hix) as Hsi.
  pose proof (si_tree _ _ _ _ _ _ Hsi) as Hix1.
  assert (Hr1 : inner s1 d root t = (r, n)) by (rewrite (ext_inner s s1 d root He1 Hix); [done | apply Ht]).
  pose proof (inner_tagged s1 d root t Hix1 (proj1 Ht)) as Htg. rewrite Hr1 in Htg. cbn [fst] in Htg.
  pose proof (si_member _ _ _ _ _ _ Hsi t h (proj1 Ht) (proj1 Hh)) as Hmem.
  destruct (Z.eqb_spec r 0) as [H0 | H0].
  { apply runs_spec, spec_ret; [done |]. split; [| done]. rewrite <- Hmem. intros (_ & Hx & _). by apply Htg in Hx. }
  eapply runs_conseq; [apply (remove_inner_runs s1 fr d root t h r n); try done; [apply Hq1 | by apply Htg] | |].
  - intros sx Hsx. eapply frame_trans; [apply Hf1 | exact Hsx].
  - intros [[x outer] |] sx _; rewrite Hmem; [| done]. intros [Hm Hc]. split; [done |]. by eapply changed_from.
Qed.
End write.
End MembershipWrite.
