(* ===== verification/MembershipProps.v ===== *)
(** * The membership index: what it promises the transaction layer

    The properties of [src/membership_index.rs], for every store that meets the
    interface and every allocator the transaction layer may inject. *)

From S2P Require Export MembershipWrite MemStore.

Module MembershipProps.
Import RadixU64 RadixU64Facts RadixU64Read MembershipIndex MembershipInv MembershipOps MembershipWrite.

#[local] Opaque unpack_inner.

Section props.
Context {St : Type} `{HX : Xxh3} `{HF : Fault} `{HP : !PageStore St} `{HS : !StoreOk St}.
Variable alloc : M St Z.
Hypothesis Halloc : alloc_ok alloc.
Implicit Types (s : St).

(** ** A call on the index, with the root its caller keeps *)

Inductive op :=
  | OpInsert (tag handle : Z)
  | OpRemove (tag handle : Z)
  | OpContains (tag handle : Z)
  | OpHandles (tag : Z)
  | OpBounded (tag limit : Z).

Inductive result :=
  | Done
  | Answer (b : bool)
  | Handles (xs : list Z).

Definition istate : Type := St * list Z * MembershipIndex * Z.

(** [let root = index.insert(..., root, ...)?], and so on. *)
Definition run_op (o : op) : M istate result :=
  let* root := reads snd in
  let* self := reads (λ sx, sx.1.2) in
  match o with
  | OpInsert t h =>
      let* new := lift (insert alloc root t h) in
      writes (λ sx, (sx.1, new)) ;;;
      ret Done
  | OpRemove t h =>
      let* '(new, was) := lift (remove alloc root t h) in
      writes (λ sx, (sx.1, new)) ;;;
      ret (Answer was)
  | OpContains t h =>
      let* b := lift (lift (lift (contains self root t h))) in
      ret (Answer b)
  | OpHandles t =>
      let* xs := lift (lift (lift (handles_for_tag self root t))) in
      ret (Handles xs)
  | OpBounded t limit =>
      let* xs := lift (lift (lift (handles_for_tag_bounded self root t limit))) in
      ret (Handles xs)
  end.

Fixpoint run (os : list op) : M istate (list result) :=
  match os with
  | [] => ret []
  | o :: os =>
      let* r := run_op o in
      let* rs := run os in
      ret (r :: rs)
  end.

(** ** The specification: a finite relation between tags and handles *)

Definition op_rel (R : gset (Z * Z)) (o : op) : gset (Z * Z) :=
  match o with
  | OpInsert t h => {[(t, h)]} ∪ R
  | OpRemove t h => R ∖ {[(t, h)]}
  | _ => R
  end.

(** The handles of a tag, in increasing order. *)
Definition listing (R : gset (Z * Z)) (t : Z) (xs : list Z) : Prop :=
  StronglySorted Z.lt xs ∧ ∀ h, h ∈ xs ↔ is_u64 h ∧ (t, h) ∈ R.

Definition op_result (R : gset (Z * Z)) (o : op) (r : result) : Prop :=
  match o with
  | OpInsert _ _ => r = Done
  | OpRemove t h | OpContains t h => r = Answer (bool_decide ((t, h) ∈ R))
  | OpHandles t => ∃ xs, r = Handles xs ∧ listing R t xs
  | OpBounded t limit => ∃ xs, r = Handles (take (Z.to_nat limit) xs) ∧ listing R t xs
  end.

Fixpoint op_results (R : gset (Z * Z)) (os : list op) (rs : list result) : Prop :=
  match os, rs with
  | [], [] => True
  | o :: os, r :: rs => op_result R o r ∧ op_results (op_rel R o) os rs
  | _, _ => False
  end.

Definition op_ok (o : op) : Prop :=
  match o with
  | OpInsert t h | OpRemove t h | OpContains t h => is_u32 t ∧ is_u64 h
  | OpHandles t => is_u32 t
  | OpBounded t limit => is_u32 t ∧ 0 ≤ limit
  end.

(** The state represents the relation. *)
Definition rep (sx : istate) (R : gset (Z * Z)) : Prop :=
  let '(s, _, self, root) := sx in
  st_inv s ∧ index s (outer_depth self) root ∧
  ∀ t h, is_u32 t → is_u64 h → member s (outer_depth self) root t h ↔ (t, h) ∈ R.

(** The pages of the index. *)
Definition pages (sx : istate) (x : Z) : Prop :=
  let '(s, _, self, root) := sx in index_page s (outer_depth self) root x.

Definition store (sx : istate) : St := sx.1.1.1.
Definition freed (sx : istate) : list Z := sx.1.1.2.

(** The accounting of a call: it only adds to [freed]; a page of the old index is
    in the new one or was added, never both; a page of the new index was in the
    old one or was not live; and a page that was added was in the old index or was
    allocated by the call, and is still allocated. *)
Definition accounted (sx sx' : istate) : Prop :=
  ∃ f, freed sx' = freed sx ++ f ∧
    (∀ x, pages sx x → pages sx' x ∨ x ∈ f) ∧
    (∀ x, x ∈ f → ¬ pages sx' x) ∧
    (∀ x, pages sx' x → pages sx x ∨ ¬ live (store sx) x) ∧
    (∀ x, x ∈ f → live (store sx') x ∧ (pages sx x ∨ ¬ live (store sx) x)).

(** One call: what it leaves on every outcome. *)
Definition op_post (sx : istate) (o : op) (r : outcome result) (sx' : istate) : Prop :=
  ∀ R, rep sx R →
  match r with
  | Ok v => op_result R o v ∧ rep sx' (op_rel R o) ∧ accounted sx sx'
  | Err err => may_err err ∧ rep sx' R
  | Panic p => may_panic p ∨ (p = PanicAssert ∧ wide (store sx'))
  end.

Lemma rep_ext s s' fr fr' d root R :
  st_inv s' → ext s s' → rep (s, fr, d, root) R → rep (s', fr', d, root) R.
Proof.
  intros Hi He (_ & Hix & Hm). split; [done |]. destruct Hix as [-> | Hix].
  - split; [by left |]. intros t h Ht Hh. rewrite <- Hm by done. split; by intros [? _].
  - split; [right; by eapply index_tree_ext |]. intros t h Ht Hh.
    rewrite (member_ext s s') by (done || apply Ht || apply Hh). by apply Hm.
Qed.

Lemma index_rep_frame s s' fr fr' d root R :
  frame s s' → rep (s, fr, d, root) R → rep (s', fr', d, root) R.
Proof. intros [Hi He]. by apply rep_ext. Qed.

(** A call that does not change the index. *)
Lemma accounted_same s s' fr self root :
  ext s s' → index s (outer_depth self) root → accounted (s, fr, self, root) (s', fr, self, root).
Proof.
  intros He Hix. exists []. unfold freed. cbn [fst snd]. split; [by rewrite app_nil_r |].
  assert (Hp : ∀ x, pages (s', fr, self, root) x ↔ pages (s, fr, self, root) x).
  { intros x. unfold pages. destruct Hix as [-> | Hix]; [split; by intros [? _] | by apply index_page_ext]. }
  ands; intros x; rewrite ?Hp; auto; intros Hx; by apply not_elem_of_nil in Hx.
Qed.

Lemma accounted_cow s s' fr f self self' root root' :
  index_cow s (outer_depth self) root s' (outer_depth self') root' f →
  accounted (s, fr, self, root) (s', fr ++ f, self', root').
Proof.
  intros [He Hn Ho Hf Hd]. exists f. unfold pages, freed, store. cbn [fst snd].
  ands; [done | done | done | |].
  - intros x Hx. destruct (Hn x Hx) as [[? _] | ?]; auto.
  - intros x Hx. destruct (Hf x Hx). auto.
Qed.

Lemma changed_rep s fr self root t h add root' d' sx R :
  st_inv sx.1 → is_u32 t → is_u64 h → rep (s, fr, self, root) R →
  changed s (outer_depth self) root t h add root' d' fr sx →
  rep (sx, {| outer_depth := d' |}, root') (if add then {[(t, h)]} ∪ R else R ∖ {[(t, h)]}) ∧
  accounted (s, fr, self, root) (sx, {| outer_depth := d' |}, root').
Proof.
  intros Hi Ht Hh (_ & _ & Hm) (s' & f & -> & Hix & Hc & Hm'). cbn [fst] in Hi. split.
  - split; [done |]. split; [by right |]. intros t' k Ht' Hk. cbn [outer_depth].
    rewrite Hm' by (apply Ht' || apply Hk). destruct (decide (t' = t ∧ k = h)) as [[-> ->] | Hne].
    + destruct add; rewrite ?elem_of_union, ?elem_of_difference, elem_of_singleton; [tauto |].
      split; [done | tauto].
    + rewrite Hm by done. assert ((t', k) ≠ (t, h)) by (intros [= -> ->]; tauto).
      destruct add; rewrite ?elem_of_union, ?elem_of_difference, elem_of_singleton; tauto.
  - by apply accounted_cow.
Qed.

Lemma insert_post s fr self root t h :
  is_u32 t → is_u64 h →
  op_post (s, fr, self, root) (OpInsert t h)
    (run_op (OpInsert t h) (s, fr, self, root)).1 (run_op (OpInsert t h) (s, fr, self, root)).2.
Proof.
  intros Ht Hh R Hrep. pose proof Hrep as (Hi & Hix & _). destruct self as [d]. cbn [outer_depth] in *.
  pose proof (insert_body_runs alloc Halloc s fr d root t h Hi Hix Ht Hh) as [Hf Hr].
  unfold run_op, insert, bind, reads, lift, writes, ret. cbn [fst snd].
  destruct (insert_body alloc {| outer_depth := d |} root t h (s, fr)) as [[[new outer] | e | p] [s' fr']];
    cbn [fst snd] in *.
  - destruct (changed_rep s fr {| outer_depth := d |} root t h true new (depth outer) (s', fr') R);
      [apply Hf | done..].
  - split; [done |]. by eapply index_rep_frame.
  - done.
Qed.

Lemma remove_post s fr self root t h :
  is_u32 t → is_u64 h →
  op_post (s, fr, self, root) (OpRemove t h)
    (run_op (OpRemove t h) (s, fr, self, root)).1 (run_op (OpRemove t h) (s, fr, self, root)).2.
Proof.
  intros Ht Hh R Hrep. pose proof Hrep as (Hi & Hix & Hm). destruct self as [d]. cbn [outer_depth] in *.
  pose proof (remove_body_runs alloc Halloc s fr d root t h Hi Hix Ht Hh) as [Hf Hr].
  unfold run_op, remove, bind, reads, lift, writes, ret. cbn [fst snd].
  destruct (remove_body alloc {| outer_depth := d |} root t h (s, fr)) as [[[[new outer] |] | e | p] [s' fr']];
    cbn [fst snd] in *.
  - destruct Hr as [Hin Hc]. rewrite Hm in Hin by done.
    destruct (changed_rep s fr {| outer_depth := d |} root t h false new (depth outer) (s', fr') R) as [? ?];
      [apply Hf | done..|]. split; [| done]. cbn. by rewrite bool_decide_true.
  - destruct Hr as [Hin ->]. rewrite Hm in Hin by done. split; [cbn; by rewrite bool_decide_false |].
    split; [| apply accounted_same; [apply Hf | done]].
    cbn [op_rel]. rewrite difference_disjoint_L by (by apply disjoint_singleton_r). by eapply index_rep_frame.
  - split; [done |]. by eapply index_rep_frame.
  - done.
Qed.

(** A read. *)
Lemma read_post {A} s fr self root o (m : M St A) (f : A → result) (Q : A → St → Prop) :
  run_op o (s, fr, self, root) =
    (let* a := lift (lift (lift m)) in ret (f a)) (s, fr, self, root) →
  (st_inv s → index s (outer_depth self) root → spec (quiet s) m s Q) →
  (∀ R, op_rel R o = R) →
  (∀ R a s', index s (outer_depth self) root → rep (s, fr, self, root) R → Q a s' → op_result R o (f a)) →
  op_post (s, fr, self, root) o (run_op o (s, fr, self, root)).1 (run_op o (s, fr, self, root)).2.
Proof.
  intros Heq Hm Hrel HQ R Hrep. pose proof Hrep as (Hi & Hix & _). rewrite Heq.
  destruct (Hm Hi Hix) as [Hq Hr]. apply quiet_frame in Hq. unfold bind, lift, ret. cbn [fst snd].
  destruct (m s) as [[a | e | p] s']; cbn [fst snd] in *.
  - split; [by eapply HQ |]. rewrite Hrel. split; [by eapply index_rep_frame | apply accounted_same; [apply Hq | done]].
  - split; [done | by eapply index_rep_frame].
  - by left.
Qed.

Lemma handles_listing s fr self root t R :
  index s (outer_depth self) root → rep (s, fr, self, root) R → is_u32 t →
  listing R t (if decide (root = PAGE_ID_NONE) then [] else handles_of s (outer_depth self) root t).
Proof.
  intros Hix (_ & _ & Hm) Ht. case_decide as Hd.
  - split; [constructor |]. intros h. split; [intros Hx; by apply not_elem_of_nil in Hx |].
    intros [Hh Hin]. apply Hm in Hin as [? _]; done.
  - destruct Hix as [| Hix]; [done |]. destruct (handles_of_exact s _ root t Hix Ht) as [Hs Hx].
    split; [done |]. intros h. rewrite Hx. split; intros [Hh Hin]; (split; [done |]); by apply Hm.
Qed.

Lemma run_op_post o sx : op_ok o → op_post sx o (run_op o sx).1 (run_op o sx).2.
Proof.
  destruct sx as [[[s fr] self] root]. destruct self as [d]. destruct o as [t h | t h | t h | t | t limit].
  - intros [Ht Hh]. by apply insert_post.
  - intros [Ht Hh]. by apply remove_post.
  - intros [Ht Hh]. eapply (read_post _ _ _ _ _ _ Answer); [done | | done |].
    { intros Hi Hix. by apply contains_spec. }
    intros R b s' Hix (_ & _ & Hm) Hb. cbn in *. f_equal. rewrite Hm in Hb by done.
    destruct b; [by rewrite bool_decide_true by tauto |]. rewrite bool_decide_false; [done |].
    intros Hin. by apply Hb in Hin.
  - intros Ht. eapply (read_post _ _ _ _ _ _ Handles); [done | | done |].
    { intros Hi Hix. by apply handles_for_tag_spec. }
    intros R xs s' Hix Hrep ->. eexists. split; [done |].
    exact (handles_listing s fr {| outer_depth := d |} root t R Hix Hrep Ht).
  - intros [Ht Hlim]. eapply (read_post _ _ _ _ _ _ Handles); [done | | done |].
    { intros Hi Hix. by apply handles_for_tag_bounded_spec. }
    intros R xs s' Hix Hrep ->. eexists. split; [done |].
    exact (handles_listing s fr {| outer_depth := d |} root t R Hix Hrep Ht).
Qed.


(** C14 The copy-on-write accounting of the two levels: over any call that succeeds
    a page of the old index (of the outer tree or of a tag's inner tree) is in the
    new index or was added to [freed], never both; a page of the new index was in
    the old one or was not live before; and a page added to [freed] was in the old
    index or was allocated by the call itself, and is still allocated.  So the
    removal of a tag's last handle leaks no page of its tree, and no page is
    freed that the index still uses. *)
Theorem index_freed o sx R v sx' :
  rep sx R → op_ok o → run_op o sx = (Ok v, sx') → accounted sx sx'.
Proof.
  intros Hrep Hok E. pose proof (run_op_post o sx Hok R Hrep) as H. rewrite E in H. by destruct H as (_ & _ & ?).
Qed.
End props.

(** ** Examples on the reference store *)

Definition demo_index : istate (St := MemStore) := (mem_empty, [], new, PAGE_ID_NONE).

Lemma demo_index_rep : rep demo_index ∅.
Proof.
  split; [exact mem_empty_inv |]. split; [by left |]. intros t h _ _. split; [by intros [? _] |]. by intros ?%not_elem_of_empty.
Qed.

(** Two tags; the handle 2000 is beyond one leaf, so the inner tree grows; then
    the tag 7 loses its only handle. *)
Definition demo_ops : list op :=
  [OpInsert 7 3; OpInsert 9 2000; OpInsert 9 5; OpContains 9 2000; OpHandles 9; OpBounded 9 1;
   OpRemove 7 3; OpRemove 7 3].


Lemma index_freed_witness :
  match run_op ps_new_page (OpInsert 7 3) demo_index with
  | (Ok _, sx') => accounted demo_index sx'
  | _ => False
  end.
Proof.
  assert (Hok : is_ok (run_op ps_new_page (OpInsert 7 3) demo_index).1 = true) by by vm_compute.
  destruct (run_op _ _ _) as [r sx] eqn:E. cbn [fst] in Hok. destruct r as [v | |]; [| done..].
  assert (Hop : op_ok (OpInsert 7 3)) by by repeat split.
  exact (index_freed ps_new_page new_page_alloc_ok (OpInsert 7 3) demo_index ∅ v sx demo_index_rep Hop E).
Defined.
End MembershipProps.
