(* ===== verification/FreeMapTree.v ===== *)
(** * The freemap tree ([src/freemap_tree.rs])

    A radix tree of bitmap leaves over page ids.  Within one session (from one
    commit to the next) a page the tree allocated itself is written in place; any
    other page is copied first and listed in [pending_superseded].  The functions
    run in [M (St * FreeMapTree)]; [extend] is the closure that hands out fresh
    pages. *)

From S2P Require Export Radix FreeMap.

Module FreeMapTree.

Definition LEAF_CAPACITY : Z := PAGE_BODY_SIZE * 8.
Definition MAX_DEPTH : nat := 5.

(** [init_interior] without its final stamp. *)
Definition init_interior_fields (buf : list Z) : list Z :=
  let buf := zeros (zlen buf) in
  let buf := setb 0 (type_tag FreeMapInterior) buf in
  setb 1 (current_version FreeMapInterior) buf.

Definition init_interior `{Xxh3} (buf : list Z) : list Z := stamp_checksum (init_interior_fields buf).

Record FreeMapTree := {
  root : Z;
  depth : nat;
  pending_superseded : list Z;
  session_owned : gset Z
}.

Definition from_roots (root : Z) (depth : nat) : FreeMapTree :=
  {| root := root; depth := depth; pending_superseded := []; session_owned := ∅ |}.

Definition set_root (r : Z) (d : nat) (t : FreeMapTree) : FreeMapTree :=
  {| root := r; depth := d; pending_superseded := pending_superseded t; session_owned := session_owned t |}.
Definition own (id : Z) (t : FreeMapTree) : FreeMapTree :=
  {| root := root t; depth := depth t; pending_superseded := pending_superseded t;
     session_owned := {[id]} ∪ session_owned t |}.
Definition supersede (id : Z) (t : FreeMapTree) : FreeMapTree :=
  {| root := root t; depth := depth t; pending_superseded := pending_superseded t ++ [id];
     session_owned := session_owned t |}.

Definition capacity (self : FreeMapTree) : Z := sat_pow LEAF_CAPACITY (depth self).
Definition child_span (level : nat) : Z := sat_pow LEAF_CAPACITY (level - 1).

Section ops.
Context {St : Type} `{HX : Xxh3} `{HP : !PageStore St}.

Definition check_type {S} (buf : list Z) (expected : PageType) (page_id : Z) : M S unit :=
  if negb (getb 0 buf =? type_tag expected) then fail (CorruptPage page_id) else ret tt.

Definition check_depth (self : FreeMapTree) {S} : M S unit :=
  if (MAX_DEPTH <? depth self)%nat then fail (CorruptPage (root self)) else ret tt.

(** The loop of [find_leaf], from [level] down. *)
Fixpoint find_loop (level : nat) (current remaining : Z) : M St (option Z) :=
  match level with
  | O =>
      let* buf := ps_get current in
      check_type buf FreeMapPage current ;;;
      ret (Some current)
  | S l =>
      let* buf := ps_get current in
      check_type buf FreeMapInterior current ;;;
      let span := child_span level in
      let child_idx := remaining / span in
      if PTRS_PER_INTERIOR <=? child_idx then ret None else
      let child := read_child buf child_idx in
      if child =? 0 then ret None else
      find_loop l child (remaining mod span)
  end.

(** At depth 0 the code checks the root leaf before the loop would: the same
    read and the same check. *)
Definition find_leaf (self : FreeMapTree) (id : Z) : M St (option Z) :=
  check_depth self ;;;
  let cap := capacity self in
  if negb (cap =? u64_max) && (cap <=? id) then ret None else
  find_loop (depth self) (root self) id.

Definition is_free (self : FreeMapTree) (id : Z) : M St bool :=
  let* leaf := find_leaf self id in
  match leaf with
  | None => ret false
  | Some leaf =>
      let* buf := ps_get leaf in
      ret (FreeMap.is_free buf (id mod LEAF_CAPACITY))
  end.

Variable extend : M St Z.

Definition create : M St FreeMapTree :=
  let* root := extend in
  ps_modify root (λ buf, stamp_checksum (FreeMap.init_page buf)) ;;;
  ret {| root := root; depth := 0; pending_superseded := []; session_owned := {[root]} |}.

(** The page is initialised and stamped, then child 0 is written and it is
    stamped again. *)
Definition grow : M (St * FreeMapTree) unit :=
  let* self := reads snd in
  if (MAX_DEPTH <=? depth self)%nat then ret tt else
  let* new_root := lift extend in
  lift (ps_modify new_root (λ buf, stamp_checksum (write_child 0 (root self) (init_interior buf)))) ;;;
  writes (λ sx, (sx.1, set_root new_root (S (depth sx.2)) (own new_root sx.2))).

Definition cow_node (page_id : Z) (expected : PageType) : M (St * FreeMapTree) Z :=
  let* self := reads snd in
  if decide (page_id ∈ session_owned self) then ret page_id else
  let* buf := lift (ps_get page_id) in
  check_type buf expected page_id ;;;
  let* new_id := lift extend in
  lift (copy_page page_id new_id) ;;;
  writes (λ sx, (sx.1, supersede page_id (own new_id sx.2))) ;;;
  ret new_id.

(** The loop of [cow_descend], from [level] down, and the leaf write after it:
    [get_mut], the type check of the buffer, and the leaf operation if it passes. *)
Fixpoint descend_loop (level : nat) (current remaining : Z) (leaf_op : list Z → Z → list Z)
    : M (St * FreeMapTree) unit :=
  match level with
  | O =>
      let* buf := lift (ps_modify current (λ buf,
        if getb 0 buf =? type_tag FreeMapPage
        then stamp_checksum (leaf_op buf (remaining mod LEAF_CAPACITY)) else buf)) in
      check_type buf FreeMapPage current
  | S l =>
      let span := child_span level in
      let child_idx := remaining / span in
      if PTRS_PER_INTERIOR <=? child_idx then fail (CorruptPage current) else
      let* buf := lift (ps_get current) in
      let child := read_child buf child_idx in
      let child_expected := match l with O => FreeMapPage | S _ => FreeMapInterior end in
      let* new_child :=
        (if child =? 0 then
           let* id_new := lift extend in
           lift (ps_modify id_new (λ buf,
             match l with
             | O => stamp_checksum (FreeMap.init_page buf)
             | S _ => init_interior buf
             end)) ;;;
           writes (λ sx, (sx.1, own id_new sx.2)) ;;;
           ret id_new
         else cow_node child child_expected) in
      lift (ps_modify current (λ buf, stamp_checksum (write_child child_idx new_child buf))) ;;;
      descend_loop l new_child (remaining mod span) leaf_op
  end.

Definition cow_descend (id : Z) (leaf_op : list Z → Z → list Z) : M (St * FreeMapTree) unit :=
  let* self := reads snd in
  check_depth self ;;;
  let cap := capacity self in
  if negb (cap =? u64_max) && (cap <=? id) then fail (CorruptPage (root self)) else
  let root_expected := if (0 <? depth self)%nat then FreeMapInterior else FreeMapPage in
  let* new_root := cow_node (root self) root_expected in
  writes (λ sx, (sx.1, set_root new_root (depth sx.2) sx.2)) ;;;
  descend_loop (depth self) new_root id leaf_op.

Definition mark_free (id : Z) : M (St * FreeMapTree) unit := cow_descend id FreeMap.mark_free.
Definition clear_bit (id : Z) : M (St * FreeMapTree) unit := cow_descend id FreeMap.clear_bit.

(** [while self.capacity() <= id && self.depth < MAX_DEPTH { self.grow(..)?; }]:
    each turn adds a level, so [MAX_DEPTH] turns are enough. *)
Fixpoint grow_loop (fuel : nat) (id : Z) : M (St * FreeMapTree) unit :=
  match fuel with
  | O => ret tt
  | S fuel =>
      let* self := reads snd in
      if (capacity self <=? id) && (depth self <? MAX_DEPTH)%nat then
        grow ;;; grow_loop fuel id
      else ret tt
  end.

Definition mark_free_growing (id : Z) : M (St * FreeMapTree) unit :=
  let* self := reads snd in
  check_depth self ;;;
  grow_loop MAX_DEPTH id ;;;
  mark_free id.

(** [for (i, child) in children] of [scan_node]. *)
Fixpoint scan_children (scan : Z → Z → M St (option Z)) (span base lo : Z) (cs : list (Z * Z))
    : M St (option Z) :=
  match cs with
  | [] => ret None
  | (i, child) :: cs =>
      let child_base := sat_add base (sat_mul i span) in
      let child_end := sat_add child_base span in
      if child_end <=? lo then scan_children scan span base lo cs else
      let* r := scan child child_base in
      match r with
      | Some found => ret (Some found)
      | None => scan_children scan span base lo cs
      end
  end.

(** The non-zero children of an interior page, with their indices. *)
Definition children (buf : list Z) : list (Z * Z) :=
  filter (λ ic, ic.2 ≠ 0) (map (λ i, (i, read_child buf i)) (seqZ 0 PTRS_PER_INTERIOR)).

(** [base + b] is checked arithmetic. *)
Fixpoint scan_node (level : nat) (page_id base lo : Z) : M St (option Z) :=
  match level with
  | O =>
      let* buf := ps_get page_id in
      check_type buf FreeMapPage page_id ;;;
      let local_lo := sat_sub lo base in
      match FreeMap.first_free_bit_from buf local_lo with
      | None => ret None
      | Some b => if u64_max <? base + b then crash PanicOverflow else ret (Some (base + b))
      end
  | S l =>
      let* buf := ps_get page_id in
      check_type buf FreeMapInterior page_id ;;;
      scan_children (λ child child_base, scan_node l child child_base lo)
        (child_span level) base lo (children buf)
  end.

Definition scan_from (self : FreeMapTree) (lo : Z) : M St (option Z) :=
  check_depth self ;;;
  scan_node (depth self) (root self) 0 lo.

(** The state has the caller's [hint] beside the tree. *)
Definition allocate_first : M (St * FreeMapTree * Z) (option Z) :=
  let* hint := reads snd in
  let* self := reads (λ sx, sx.1.2) in
  let* found := lift (lift (scan_from self hint)) in
  match found with
  | None => ret None
  | Some found =>
      lift (clear_bit found) ;;;
      writes (λ sx, (sx.1, found)) ;;;
      ret (Some found)
  end.

(** [for child in children { self.collect_reachable(..)?; }] *)
Fixpoint each (f : Z → gset Z → M St (gset Z)) (cs : list Z) (set : gset Z) : M St (gset Z) :=
  match cs with
  | [] => ret set
  | c :: cs => let* set := f c set in each f cs set
  end.

Fixpoint collect_reachable (level : nat) (page : Z) (set : gset Z) : M St (gset Z) :=
  let set := {[page]} ∪ set in
  match level with
  | O =>
      let* buf := ps_get page in
      check_type buf FreeMapPage page ;;;
      ret set
  | S l =>
      let* buf := ps_get page in
      check_type buf FreeMapInterior page ;;;
      let* buf := ps_get page in
      each (collect_reachable l) (map snd (children buf)) set
  end.

Definition reachable_pages (self : FreeMapTree) : M St (gset Z) :=
  check_depth self ;;;
  if root self =? PAGE_ID_NONE then ret ∅ else
  collect_reachable (depth self) (root self) ∅.
End ops.
End FreeMapTree.
