(* ===== verification/FreeMapTreeRead.v ===== *)
(** * The freemap tree: reads

    What a tree denotes as a set of page ids, and [is_free], [scan_node] and
    [collect_reachable] against it. *)

From S2P Require Export FreeMapTree.

Module FreeMapTreeRead.
Import FreeMapTree.

Definition is_leaf (v : list Z) : Prop := getb 0 v = type_tag FreeMapPage.
Definition is_int (v : list Z) : Prop := getb 0 v = type_tag FreeMapInterior.
Definition leaf_val (v : list Z) (k : Z) : bool := FreeMap.is_free v k.

Abbreviation LC := LEAF_CAPACITY.

Lemma leaf_65344 : LC = 65344.
Proof. done. Qed.

Lemma leaf_pos : 0 < LC.
Proof. done. Qed.

Lemma ft_span_keys l : (l ≤ 4)%nat → child_span (S l) = keys LC l.
Proof.
  intros Hl. unfold child_span. replace (S l - 1)%nat with l by lia.
  rewrite sat_pow_keys by done. apply Z.min_l.
  do 5 (destruct l as [| l]; [by vm_compute |]). lia.
Qed.

Lemma ft_keys_max : u64_max < keys LC MAX_DEPTH.
Proof. by vm_compute. Qed.

Lemma ft_capacity_keys t : capacity t = Z.min (keys LC (depth t)) u64_max.
Proof. unfold capacity. by apply sat_pow_keys. Qed.

(** The early return of [find_leaf] and the refusal of [cow_descend] are the exact
    range check. *)
Lemma ft_capacity_cut t id :
  (depth t ≤ MAX_DEPTH)%nat → is_u64 id →
  negb (capacity t =? u64_max) && (capacity t <=? id) = (keys LC (depth t) <=? id).
Proof.
  intros Hd [H1 H2]. rewrite ft_capacity_keys. unfold MAX_DEPTH in Hd. revert Hd. generalize (depth t) as d. intros d Hd.
  assert (keys LC d ≠ u64_max).
  { do 6 (destruct d as [| d]; [by vm_compute |]). lia. }
  unfold u64_max in *.
  destruct (Z.eqb_spec (Z.min (keys LC d) (2 ^ 64 - 1)) (2 ^ 64 - 1)); simpl; case_tests; lia || done.
Qed.

Lemma mod_leaf h l : (h mod keys LC l) mod LC = h mod LC.
Proof. apply Z.mod_mod_divide. unfold keys. apply Z.divide_factor_l. Qed.

(** A bit of a page depends on its body only. *)
Lemma is_free_body p v k : body p = body v → 0 ≤ k → FreeMap.is_free p k = FreeMap.is_free v k.
Proof.
  intros Hb Hk. unfold FreeMap.is_free, FreeMap.bit_position.
  destruct (Z.leb_spec PAGE_BODY_SIZE (k / 8)); [done |]. pose proof (Z.div_pos k 8).
  rewrite (body_getb _ p v); [done | done |]. unfold BITMAP_OFFSET. plia.
Qed.

Lemma is_free_range v k : 0 ≤ k → FreeMap.is_free v k = true → k < LC.
Proof.
  intros Hk. unfold FreeMap.is_free, FreeMap.bit_position.
  destruct (Z.leb_spec PAGE_BODY_SIZE (k / 8)) as [| Hlt]; [done |]. intros _.
  unfold LEAF_CAPACITY. pose proof (Z.div_mod k 8). pose proof (Z.mod_pos_bound k 8). lia.
Qed.

Section reads.
Context {St : Type} `{HX : Xxh3} `{HF : Fault} `{HP : !PageStore St} `{HS : !StoreOk St} `{HV : Ver}.
Implicit Types (s : St) (l : nat).

Abbreviation den := (den false LC leaf_val).
Abbreviation tree := (tree is_leaf is_int).

Lemma check_type_ok {S} (F : S → Prop) p v pt id {B} (k : unit → M S B) sx Q :
  body p = body v → getb 0 v = type_tag pt →
  spec F (k tt) sx Q → spec F (bind (check_type p pt id) k) sx Q.
Proof.
  intros Hb Hv Hk. unfold check_type. rewrite (body_getb 0 p v), Hv, Z.eqb_refl by (done || plia). done.
Qed.

Lemma check_depth_ok {S} (F : S → Prop) t {B} (k : unit → M S B) sx Q :
  (depth t ≤ MAX_DEPTH)%nat → spec F (k tt) sx Q → spec F (bind (check_depth t) k) sx Q.
Proof. intros Hd Hk. unfold check_depth. by destruct (Nat.ltb_spec MAX_DEPTH (depth t)); [lia |]. Qed.

Lemma ft_find_loop_spec l s0 s root h :
  quiet s0 s → tree s0 l root → (l ≤ MAX_DEPTH)%nat → 0 ≤ h < keys LC l →
  spec (quiet s0) (find_loop l root h) s
    (λ r _, match r with
            | None => den s0 l root h = false
            | Some leaf => ∃ v, holds s0 leaf v ∧ den s0 l root h = leaf_val v (h mod LC)
            end).
Proof.
  revert s root h. induction l as [| l IH]; intros s root h Hq Ht Hl Hh.
  - destruct Ht as (v & Hv & Hlf & _). unfold keys in Hh. simpl in Hh. cbn [find_loop].
    apply (bind_read s0 s root v); [done | done |]. intros p s1 Hp Hb Hq1.
    apply (check_type_ok _ p v); [done | done |]. apply spec_ret; [done |]. exists v.
    pose proof Hv as [_ Hvv]. simpl. rewrite Hvv, Z.mod_small by lia. done.
  - destruct Ht as (v & Hv & Hint & Hver & Hch). unfold MAX_DEPTH in *.
    pose proof (keys_pos LC l leaf_pos) as Hpos. rewrite keys_S in Hh.
    assert (Hi : 0 ≤ h / keys LC l < PTRS_PER_INTERIOR).
    { rewrite ptrs_1021. split; [apply Z.div_pos; lia | apply Z.div_lt_upper_bound; lia]. }
    cbn [find_loop]. apply (bind_read s0 s root v); [done | done |]. intros p s1 Hp Hb Hq1.
    apply (check_type_ok _ p v); [done | done |]. rewrite ft_span_keys by lia.
    destruct (Z.leb_spec PTRS_PER_INTERIOR (h / keys LC l)); [lia |].
    rewrite (read_child_body _ p v) by done. pose proof Hv as [_ Hvv]. cbn [Radix.den]. rewrite Hvv.
    destruct (Z.eqb_spec (read_child v (h / keys LC l)) 0); [by apply spec_ret |].
    eapply spec_conseq; [apply IH; [done | by apply Hch | lia | by apply Z.mod_pos_bound] | done |].
    intros [leaf |] s2 _; [| done]. by rewrite mod_leaf.
Qed.

Lemma is_free_spec s t id :
  st_inv s → tree s (depth t) (root t) → (depth t ≤ MAX_DEPTH)%nat → is_u64 id →
  spec (quiet s) (is_free t id) s (λ r _, r = lookup_den false LC leaf_val s (depth t) (root t) id).
Proof.
  intros Hi Ht Hd Hid. pose proof (quiet_refl s Hi) as Hq. unfold is_free.
  eapply spec_bind with (Q1 := λ r _, match r with
    | None => lookup_den false LC leaf_val s (depth t) (root t) id = false
    | Some leaf => ∃ v, holds s leaf v ∧
        lookup_den false LC leaf_val s (depth t) (root t) id = leaf_val v (id mod LC)
    end).
  - unfold find_leaf. apply check_depth_ok; [done |]. cbv zeta. rewrite ft_capacity_cut by done.
    unfold lookup_den. destruct (Z.leb_spec (keys LC (depth t)) id); [by apply spec_ret |].
    apply ft_find_loop_spec; [done | done | done |]. destruct Hid. lia.
  - intros [leaf |] s1 Hq1; [| intros ->; by apply spec_ret]. intros (v & Hv & ->).
    apply (bind_read s s1 leaf v); [done | done |]. intros p s2 Hp Hb Hq2.
    apply spec_ret; [done |]. apply is_free_body; [done |]. by apply Z.mod_pos_bound.
Qed.

(** ** The scan *)

(** [r] is the least free id at or above [lo] among the keys [from ..] of a subtree
    whose keys start at [base]. *)
Definition least (base lo from to : Z) (d : Z → bool) (r : option Z) : Prop :=
  match r with
  | Some id => ∃ k, id = base + k ∧ from ≤ k < to ∧ lo ≤ id ∧ d k = true ∧
      ∀ j, from ≤ j < k → lo ≤ base + j → d j = false
  | None => ∀ k, from ≤ k < to → lo ≤ base + k → d k = false
  end.

(** No key of the subtree is beyond the 64-bit page ids. *)
Definition in_u64 (base to : Z) (d : Z → bool) : Prop :=
  ∀ k, 0 ≤ k < to → d k = true → base + k < u64_max.

Lemma scan_leaf_spec s0 s root base lo :
  quiet s0 s → tree s0 0 root → 0 ≤ base → is_u64 lo →
  in_u64 base (keys LC 0) (den s0 0 root) →
  spec (quiet s0) (scan_node 0 root (Z.min base u64_max) lo) s
    (λ r _, least base lo 0 (keys LC 0) (den s0 0 root) r).
Proof.
  intros Hq (v & Hv & Hlf & _) Hb Hlo Hin. cbn [scan_node].
  apply (bind_read s0 s root v); [done | done |]. intros p s1 Hp Hpb Hq1.
  apply (check_type_ok _ p v); [done | done |]. cbv zeta.
  assert (Hden : ∀ k, den s0 0 root k = FreeMap.is_free v k) by (destruct Hv as [_ Hvv]; intros; simpl; by rewrite Hvv).
  assert (Hk0 : keys LC 0 = LC) by (unfold keys; simpl; lia). rewrite Hk0 in *.
  assert (Hloc : 0 ≤ sat_sub lo (Z.min base u64_max)) by (unfold sat_sub; lia).
  pose proof (FreeMapProps.first_free_least p (sat_sub lo (Z.min base u64_max)) Hp Hloc) as Hff.
  destruct (FreeMap.first_free_bit_from p _) as [b |].
  - destruct Hff as (H1 & H2 & H3). assert (Hb0 : 0 ≤ b) by lia. rewrite (is_free_body p v) in H2 by done.
    pose proof (is_free_range v b Hb0 H2) as Hbr.
    assert (Hbu : base + b < u64_max) by (apply Hin; [lia | by rewrite Hden]).
    rewrite Z.min_l in * by lia. destruct (Z.ltb_spec u64_max (base + b)); [lia |].
    apply spec_ret; [done |]. exists b. unfold sat_sub in *.
    ands; [done | lia | lia | lia | by rewrite Hden |]. intros j Hj Hl. rewrite Hden, <- (is_free_body p v) by (done || lia).
    apply H3. lia.
  - apply spec_ret; [done |]. intros k Hk Hl. destruct (den s0 0 root k) eqn:Ed; [| done].
    pose proof (Hin k Hk Ed) as Hu. rewrite Hden, <- (is_free_body p v) in Ed by (done || lia).
    rewrite Hff in Ed; [done |]. unfold sat_sub. lia.
Qed.

Definition scan_goal l : Prop := ∀ s0 s root base lo,
  quiet s0 s → tree s0 l root → 0 ≤ base → is_u64 lo →
  in_u64 base (keys LC l) (den s0 l root) →
  spec (quiet s0) (scan_node l root (Z.min base u64_max) lo) s
    (λ r _, least base lo 0 (keys LC l) (den s0 l root) r).

(** Joining the blocks of two ranges of keys. *)
Lemma least_skip base lo from mid to d r :
  from ≤ mid ≤ to → (∀ k, from ≤ k < mid → lo ≤ base + k → d k = false) →
  least base lo mid to d r → least base lo from to d r.
Proof.
  intros Hm Hf. destruct r as [id |]; cbn [least].
  - intros (k & H1 & H2 & H3 & H4 & H5). exists k. ands; [done | lia | lia | done | done |].
    intros j Hj Hl. destruct (Z.lt_ge_cases j mid); [apply Hf; lia | apply H5; lia].
  - intros Hn k Hk Hl. destruct (Z.lt_ge_cases k mid); [apply Hf; lia | apply Hn; lia].
Qed.

(** The loop over the children from index [i] on. *)
Lemma scan_children_spec l s0 s root v base lo n i :
  scan_goal l → (l ≤ 4)%nat → quiet s0 s → tree s0 (S l) root → holds s0 root v →
  0 ≤ base → is_u64 lo → in_u64 base (keys LC (S l)) (den s0 (S l) root) →
  0 ≤ i → i + Z.of_nat n = PTRS_PER_INTERIOR →
  spec (quiet s0)
    (scan_children (λ child child_base, scan_node l child child_base lo) (keys LC l)
      (Z.min base u64_max) lo
      (filter (λ ic, ic.2 ≠ 0) (map (λ i, (i, read_child v i)) (seqZ i (Z.of_nat n))))) s
    (λ r _, least base lo (i * keys LC l) (keys LC (S l)) (den s0 (S l) root) r).
Proof.
  intros Hg Hl Hq Ht Hv Hb Hlo Hin. pose proof (keys_pos LC l leaf_pos) as Hpos.
  pose proof (keys_S LC l) as HkS. rewrite ptrs_1021.
  revert s Hq i. induction n as [| n IH]; intros s Hq i Hi Hn.
  { apply spec_ret; [done |]. intros k Hk. nia. }
  rewrite seqZ_cons by lia. rewrite Nat2Z.inj_succ, Z.pred_succ. cbn [map]. rewrite filter_cons. cbn [snd].
  assert (Hblock : ∀ k, 0 ≤ k < keys LC l → den s0 (S l) root (i * keys LC l + k) =
    if read_child v i =? 0 then false else den s0 l (read_child v i) k).
  { intros k Hk. apply den_block; [apply leaf_pos | apply Hv | done | done]. }
  assert (Hskip : (∀ k, 0 ≤ k < keys LC l → lo ≤ base + (i * keys LC l + k) →
      den s0 (S l) root (i * keys LC l + k) = false) →
    ∀ r, least base lo ((i + 1) * keys LC l) (keys LC (S l)) (den s0 (S l) root) r →
      least base lo (i * keys LC l) (keys LC (S l)) (den s0 (S l) root) r).
  { intros Hf r. apply least_skip; [nia |]. intros k Hk Hle.
    replace k with (i * keys LC l + (k - i * keys LC l)) by lia. apply Hf; [nia |].
    by replace (i * keys LC l + (k - i * keys LC l)) with k by lia. }
  case_decide as Hc.
  2: { eapply spec_conseq; [apply (IH s Hq (i + 1)); lia | done |]. intros r s' _. apply Hskip.
       intros k Hk _. rewrite Hblock by done.
       by destruct (Z.eqb_spec (read_child v i) 0). }
  destruct (Z.eqb_spec (read_child v i) 0) as [| _]; [done |].
  assert (Htc : tree s0 l (read_child v i)).
  { destruct Ht as (v1 & H1 & _ & _ & Hch). rewrite (holds_fun _ _ _ _ H1 Hv) in Hch.
    apply Hch; [rewrite ptrs_1021; lia | done]. }
  cbn [scan_children]. assert (Hcb : sat_add (Z.min base u64_max) (sat_mul i (keys LC l)) =
    Z.min (base + i * keys LC l) u64_max).
  { assert (0 ≤ i * keys LC l) by nia. assert (0 ≤ u64_max) by done. unfold sat_add, sat_mul. lia. }
  rewrite Hcb. unfold sat_add.
  destruct (Z.leb_spec (Z.min (Z.min (base + i * keys LC l) u64_max + keys LC l) u64_max) lo) as [Hle | Hgt].
  { eapply spec_conseq; [apply (IH s Hq (i + 1)); lia | done |]. intros r s' _. apply Hskip.
    intros k Hk Hlk. destruct (den s0 (S l) root (i * keys LC l + k)) eqn:Ed; [| done].
    pose proof (Hin (i * keys LC l + k) ltac:(nia) Ed). lia. }
  eapply spec_bind.
  { apply (Hg s0 s (read_child v i) (base + i * keys LC l) lo); [done | done | nia | done |].
    intros k Hk Hd. rewrite <- Z.add_assoc. apply Hin; [nia |]. by rewrite Hblock. }
  intros [found |] s1 Hq1.
  - intros (k & -> & Hk & Hlk & Hd & Hmin). apply spec_ret; [done |].
    exists (i * keys LC l + k). ands; [lia | lia | nia | lia | by rewrite Hblock |].
    intros j Hj Hlj. replace j with (i * keys LC l + (j - i * keys LC l)) by lia.
    rewrite Hblock by lia. apply Hmin; lia.
  - intros Hnone. eapply spec_conseq; [apply (IH s1 Hq1 (i + 1)); lia | done |]. intros r s' _. apply Hskip.
    intros k Hk Hlk. rewrite Hblock by done. apply Hnone; lia.
Qed.

Lemma scan_node_spec l : (l ≤ MAX_DEPTH)%nat → scan_goal l.
Proof.
  unfold MAX_DEPTH. induction l as [| l IH]; intros Hl s0 s root base lo Hq Ht Hb Hlo Hin;
    [by apply scan_leaf_spec |].
  pose proof Ht as (v & Hv & Hint & Hver & Hch). cbn [scan_node].
  apply (bind_read s0 s root v); [done | done |]. intros p s1 Hp Hpb Hq1.
  apply (check_type_ok _ p v); [done | done |]. rewrite ft_span_keys by lia.
  assert (Hc : children p = filter (λ ic, ic.2 ≠ 0)
    (map (λ i, (i, read_child v i)) (seqZ 0 (Z.of_nat 1021)))).
  { unfold children. f_equal. apply map_ext_in. intros i Hi%list_elem_of_In%elem_of_seqZ.
    by rewrite (read_child_body i p v) by (done || lia). }
  rewrite Hc. apply (scan_children_spec l s0 s1 root v base lo 1021 0); auto; try lia.
  apply IH. lia.
Qed.

Lemma scan_from_spec s t lo :
  st_inv s → tree s (depth t) (root t) → (depth t ≤ MAX_DEPTH)%nat → is_u64 lo →
  (∀ k, u64_max ≤ k → lookup_den false LC leaf_val s (depth t) (root t) k = false) →
  spec (quiet s) (scan_from t lo) s
    (λ r _, match r with
     | Some id => lo ≤ id < u64_max ∧ lookup_den false LC leaf_val s (depth t) (root t) id = true ∧
         ∀ j, lo ≤ j < id → lookup_den false LC leaf_val s (depth t) (root t) j = false
     | None => ∀ j, lo ≤ j → lookup_den false LC leaf_val s (depth t) (root t) j = false
     end).
Proof.
  intros Hi Ht Hd Hlo Hk. unfold scan_from. apply check_depth_ok; [done |].
  assert (Hin : in_u64 0 (keys LC (depth t)) (den s (depth t) (root t))).
  { intros k Hkr Hden. destruct (Z.lt_ge_cases (0 + k) u64_max); [done |]. specialize (Hk k ltac:(lia)).
    unfold lookup_den in Hk. destruct (Z.leb_spec (keys LC (depth t)) k); [lia | congruence]. }
  eapply spec_conseq; [apply (scan_node_spec (depth t) Hd s s (root t) 0 lo); auto; [by apply quiet_refl | lia] | done |].
  destruct Hlo as [Hlo _]. unfold lookup_den. intros [id |] s' _; cbn [least].
  - intros (k & -> & Hkr & Hl & Hden & Hmin). pose proof (Hin k Hkr Hden). rewrite Z.add_0_l in *.
    ands; [lia | lia | |].
    + destruct (Z.leb_spec (keys LC (depth t)) k); [lia | done].
    + intros j Hj. destruct (Z.leb_spec (keys LC (depth t)) j); [done | apply Hmin; lia].
  - intros Hn j Hj. destruct (Z.leb_spec (keys LC (depth t)) j); [done | apply Hn; lia].
Qed.

(** ** Reachable pages *)

Lemma each_spec s0 s (f : Z → gset Z → M St (gset Z)) (R : Z → Z → Prop) cs set :
  quiet s0 s →
  (∀ c set s', c ∈ cs → quiet s0 s' → spec (quiet s0) (f c set) s' (λ r _, ∀ x, x ∈ r ↔ x ∈ set ∨ R c x)) →
  spec (quiet s0) (each f cs set) s (λ r _, ∀ x, x ∈ r ↔ x ∈ set ∨ ∃ c, c ∈ cs ∧ R c x).
Proof.
  revert s set. induction cs as [| c cs IH]; intros s set Hq Hf; cbn [each].
  - apply spec_ret; [done |]. intros x. split; [by left |]. intros [? | (c & Hc & _)]; [done |].
    by apply not_elem_of_nil in Hc.
  - eapply spec_bind; [apply Hf; [left | done] |]. intros set1 s1 Hq1 H1.
    eapply spec_conseq; [apply IH; [done |] | done |].
    { intros c' set' s' Hc'. apply Hf. by right. }
    intros r s2 _ Hr x. specialize (H1 x). specialize (Hr x). cbv beta in *. rewrite Hr, H1. split.
    + intros [[? | ?] | (c' & Hc' & ?)]; [by left | right; exists c; split; [left | done] |].
      right. exists c'. split; [by right | done].
    + intros [? | (c' & [-> | Hc']%elem_of_cons & ?)]; [by left; left | by left; right |].
      right. eauto.
Qed.

Lemma elem_of_children v c :
  c ∈ map snd (children v) ↔ ∃ i, 0 ≤ i < PTRS_PER_INTERIOR ∧ c = read_child v i ∧ c ≠ 0.
Proof.
  unfold children. rewrite list_elem_of_fmap. split.
  - intros ([i c'] & -> & Hin). apply list_elem_of_filter in Hin as [Hc Hin].
    apply list_elem_of_fmap in Hin as (j & [= -> ->] & Hj%elem_of_seqZ). exists j. split; [lia | done].
  - intros (i & Hi & -> & Hc). exists (i, read_child v i). split; [done |].
    apply list_elem_of_filter. split; [done |]. apply list_elem_of_fmap. exists i.
    split; [done | apply elem_of_seqZ; lia].
Qed.

Lemma collect_reachable_spec l s0 s root set :
  quiet s0 s → tree s0 l root →
  spec (quiet s0) (collect_reachable l root set) s (λ r _, ∀ x, x ∈ r ↔ x ∈ set ∨ reach s0 l root x).
Proof.
  revert s root set. induction l as [| l IH]; intros s root set Hq Ht; cbn [collect_reachable].
  - destruct Ht as (v & Hv & Hlf & _). apply (bind_read s0 s root v); [done | done |].
    intros p s1 Hp Hb Hq1. apply (check_type_ok _ p v); [done | done |]. apply spec_ret; [done |].
    intros x. cbn [reach]. rewrite elem_of_union, elem_of_singleton. tauto.
  - destruct Ht as (v & Hv & Hint & Hver & Hch). apply (bind_read s0 s root v); [done | done |].
    intros p s1 Hp Hb Hq1. apply (check_type_ok _ p v); [done | done |].
    apply (bind_read s0 s1 root v); [done | done |]. intros p2 s2 Hp2 Hb2 Hq2.
    assert (Hcs : ∀ c, c ∈ map snd (children p2) ↔
      ∃ i, 0 ≤ i < PTRS_PER_INTERIOR ∧ c = read_child v i ∧ c ≠ 0).
    { intros c. rewrite elem_of_children. split; intros (i & Hi & -> & Hc); exists i;
        rewrite (read_child_body i p2 v) in * by done; done. }
    eapply spec_conseq; [apply (each_spec s0 s2 _ (reach s0 l)); [done |] | done |].
    { intros c set' s' (i & Hi & -> & Hc)%Hcs Hq'. apply IH; [done | by apply Hch]. }
    intros r s' _ Hr x. specialize (Hr x). cbv beta in Hr. rewrite Hr. cbn [reach]. rewrite elem_of_union, elem_of_singleton. split.
    + intros [[-> | ?] | (c & (i & Hi & -> & Hc)%Hcs & Hx)]; [by right; left | by left |].
      right. right. eauto 10.
    + intros [? | [-> | (v1 & i & H1 & Hi & Hc & Hx)]]; [by left; right | by left; left |].
      rewrite (holds_fun _ _ _ _ H1 Hv) in *. right. exists (read_child v i). split; [| done].
      apply Hcs. eauto.
Qed.
End reads.
End FreeMapTreeRead.
