(* ===== verification/FreeMapTreeWrite.v ===== *)
(** * The freemap tree: writes

    The descent of [cow_descend], growth and the pages they write, by the session
    lemmas: pages that were live before the session and that the session does not
    own keep their contents on every outcome, errors included. *)

From S2P Require Export FreeMapTreeRead RadixSession.

Module FreeMapTreeWrite.
Import FreeMapTree FreeMapTreeRead.

(** ** Pages *)

Lemma init_leaf_wf p : wf_page p → wf_page (FreeMap.init_page p).
Proof.
  intros [Hl _]. unfold FreeMap.init_page. cbv zeta. rewrite Hl.
  change (zeros PAGE_SIZE) with zero_page. eauto 12 with chisel.
Qed.

Lemma init_int_wf p : wf_page p → wf_page (init_interior_fields p).
Proof.
  intros [Hl _]. unfold init_interior_fields. cbv zeta. rewrite Hl.
  change (zeros PAGE_SIZE) with zero_page. eauto 12 with chisel.
Qed.

Lemma init_leaf_free p k : wf_page p → 0 ≤ k → FreeMap.is_free (FreeMap.init_page p) k = false.
Proof.
  intros [Hl _] Hk. unfold FreeMap.is_free, FreeMap.bit_position. pose proof (Z.div_pos k 8).
  destruct (Z.leb_spec PAGE_BODY_SIZE (k / 8)); [done |].
  assert (getb (BITMAP_OFFSET + k / 8) (FreeMap.init_page p) = 0) as ->; [| by rewrite Z.shiftr_0_l].
  unfold FreeMap.init_page, BITMAP_OFFSET. cbv zeta. rewrite Hl. change (zeros PAGE_SIZE) with zero_page.
  fields. unfold zero_page. apply getb_zeros.
Qed.

Lemma init_int_fields p :
  wf_page p → getb 0 (init_interior_fields p) = type_tag FreeMapInterior ∧
  ∀ i, 0 ≤ i < PTRS_PER_INTERIOR → read_child (init_interior_fields p) i = 0.
Proof.
  intros [Hl _]. unfold init_interior_fields, read_child, PTR_SIZE. cbv zeta. rewrite Hl, ptrs_1021.
  change (zeros PAGE_SIZE) with zero_page. ands; intros; fields; unfold zero_page; rewrite ?get_le_zeros; done.
Qed.

Lemma init_leaf_tag p : wf_page p → getb 0 (FreeMap.init_page p) = type_tag FreeMapPage.
Proof.
  intros [Hl _]. unfold FreeMap.init_page. cbv zeta. rewrite Hl.
  change (zeros PAGE_SIZE) with zero_page. fields. done.
Qed.

(** What a leaf operation of a descent does: bit [b] at one position. *)
Definition leaf_op_ok (op : list Z → Z → list Z) (b : bool) : Prop :=
  ∀ p k, wf_page p → 0 ≤ k < LC →
    wf_page (op p k) ∧ getb 0 (op p k) = getb 0 p ∧
    ∀ j, 0 ≤ j < LC → FreeMap.is_free (op p k) j = if decide (j = k) then b else FreeMap.is_free p j.

Lemma leaf_byte k : 0 ≤ k < LC → 0 ≤ k / 8 < PAGE_BODY_SIZE.
Proof.
  unfold LEAF_CAPACITY. intros Hk. split; [apply Z.div_pos; lia | apply Z.div_lt_upper_bound; lia].
Qed.

Lemma mark_free_ok : leaf_op_ok FreeMap.mark_free true.
Proof.
  intros p k Hp Hk. pose proof (leaf_byte k Hk). ands.
  - apply FreeMap.mark_free_wf; [done | lia].
  - unfold FreeMap.mark_free, FreeMap.bit_position. case_tests; [| done].
    unfold BITMAP_OFFSET. apply pgetb_setb; [done | plia..].
  - intros j Hj. rewrite FreeMap.is_free_mark by (done || lia).
    case_decide; [by rewrite bool_decide_eq_true_2 | by rewrite bool_decide_eq_false_2].
Qed.

Lemma clear_bit_ok : leaf_op_ok FreeMap.clear_bit false.
Proof.
  intros p k Hp Hk. pose proof (leaf_byte k Hk). ands.
  - apply FreeMap.clear_bit_wf; [done | lia].
  - unfold FreeMap.clear_bit, FreeMap.bit_position. case_tests; [| done].
    unfold BITMAP_OFFSET. apply pgetb_setb; [done | plia..].
  - intros j Hj. rewrite FreeMap.is_free_clear by (done || lia).
    case_decide; [by rewrite bool_decide_eq_true_2 | by rewrite bool_decide_eq_false_2].
Qed.

Section pages.
Context `{HX : Xxh3}.

Lemma ft_int_update p v i c :
  wf_page p → body p = body v → is_int v → 0 ≤ i < PTRS_PER_INTERIOR → is_u64 c →
  let v' := stamp_checksum (write_child i c p) in
  is_int v' ∧ verify_checksum v' = true ∧
  ∀ j, 0 ≤ j < PTRS_PER_INTERIOR → read_child v' j = if decide (j = i) then c else read_child v j.
Proof.
  intros Hp Hb Hv Hi Hc. assert (Hw : wf_page (write_child i c p)) by auto with chisel.
  cbv zeta. ands.
  - unfold is_int. rewrite getb_stamp, getb_write_child by (done || plia).
    rewrite (body_getb _ p v) by (done || plia). done.
  - by apply stamp_stores_checksum.
  - intros j Hj. rewrite read_child_stamp by done. case_decide as Hd.
    + subst j. by apply read_child_write_same.
    + rewrite read_child_write_other by done. by apply read_child_body.
Qed.

(** The initialisation of a fresh child, with its stamp. *)
Definition fresh_fields (l : nat) (p : list Z) : list Z :=
  match l with O => FreeMap.init_page p | S _ => init_interior_fields p end.

Lemma fresh_fields_wf l p : wf_page p → wf_page (fresh_fields l p).
Proof. destruct l; [apply init_leaf_wf | apply init_int_wf]. Qed.

Lemma fresh_empty l p :
  wf_page p → empty_node false LC is_leaf is_int leaf_val l (stamp_checksum (fresh_fields l p)).
Proof.
  intros Hp. pose proof (fresh_fields_wf l p Hp) as Hw.
  split; [by apply stamp_stores_checksum |]. destruct l as [| l]; cbn [fresh_fields] in *.
  - split; [unfold is_leaf; rewrite getb_stamp by (done || plia); by apply init_leaf_tag |].
    intros k Hk. unfold leaf_val. rewrite (is_free_body _ (FreeMap.init_page p)) by (by apply body_stamp || lia).
    apply init_leaf_free; [done | lia].
  - destruct (init_int_fields p Hp) as [Ht Hc].
    split; [unfold is_int; by rewrite getb_stamp by (done || plia) |].
    intros i Hi. rewrite read_child_stamp by done. by apply Hc.
Qed.

Lemma ft_leaf_update op b p v k :
  leaf_op_ok op b → wf_page p → body p = body v → is_leaf v → 0 ≤ k < LC →
  let v' := stamp_checksum (op p k) in
  is_leaf v' ∧ verify_checksum v' = true ∧
  ∀ j, 0 ≤ j < LC → leaf_val v' j = if decide (j = k) then b else leaf_val v j.
Proof.
  intros Hop Hp Hb Hl Hk. destruct (Hop p k Hp Hk) as (Hw & H0 & Hf). cbv zeta. ands.
  - unfold is_leaf. rewrite getb_stamp, H0 by (done || plia). rewrite (body_getb _ p v) by (done || plia). done.
  - by apply stamp_stores_checksum.
  - intros j Hj. unfold leaf_val. rewrite (is_free_body _ (op p k)) by (by apply body_stamp || lia).
    rewrite Hf by done. case_decide; [done |]. apply is_free_body; [done | lia].
Qed.

Lemma ft_grow_page_fields p root :
  wf_page p → is_u64 root →
  let v := stamp_checksum (write_child 0 root (init_interior p)) in
  is_int v ∧ verify_checksum v = true ∧
  ∀ i, 0 ≤ i < PTRS_PER_INTERIOR → read_child v i = if decide (i = 0) then root else 0.
Proof.
  intros Hp Hr. destruct (init_int_fields p Hp) as [H0 Hc]. pose proof (init_int_wf p Hp) as Hw.
  assert (Hws : wf_page (init_interior p)) by (by apply wf_stamp).
  destruct (ft_int_update (init_interior p) (init_interior_fields p) 0 root) as (Hi & Hv & Hch);
    [done | by apply body_stamp | done | apply idx0 | done |].
  cbv zeta. ands; [done | done |]. intros i Hi'. etrans; [by apply Hch |].
  case_decide; [done | by apply Hc].
Qed.
End pages.
(** ** The frame of a session *)

Section session.
Context {St : Type} `{HX : Xxh3} `{HF : Fault} `{HP : !PageStore St} `{HS : !StoreOk St} `{HV : Ver}.
Hypothesis Hver : ∀ v, verify_checksum v = true → ver v.
Implicit Types (s : St) (t : FreeMapTree) (l : nat).

Abbreviation den := (den false LC leaf_val).
Abbreviation wf_tree := (wf_tree is_leaf is_int).
Abbreviation open_tree := (open_tree is_leaf is_int).
Abbreviation upd := (upd is_leaf is_int).
Abbreviation fetched := (fetched false LC is_leaf is_int leaf_val).
Abbreviation wf_weak := (Radix.wf_tree (HV := any_ver) is_leaf is_int).
Abbreviation upd_weak := (RadixSession.upd (HV := any_ver) is_leaf is_int).
Abbreviation owned := session_owned.

(** Between [(s0, t0)] and [sx]: every page live at the start is live, and is as it
    was unless the session owned it; the pages the session owns are live, and are
    those it owned or pages that were not live. *)
Record sess (s0 : St) (t0 : FreeMapTree) (sx : St * FreeMapTree) : Prop := {
  se_inv : st_inv sx.1;
  se_live : ∀ x, live s0 x → live sx.1 x;
  se_keep : ∀ x, live s0 x → x ∉ owned t0 → view sx.1 !! x = view s0 !! x;
  se_owned : ∀ x, x ∈ owned t0 → x ∈ owned sx.2;
  se_mine : ∀ x, x ∈ owned sx.2 → live sx.1 x ∧ (x ∈ owned t0 ∨ ¬ live s0 x)
}.

Lemma sess_refl s t : st_inv s → (∀ x, x ∈ owned t → live s x) → sess s t (s, t).
Proof. intros Hi Ho. by split; auto. Qed.

(** A step that extends the store. *)
Lemma sess_ext s0 t0 s t s' : sess s0 t0 (s, t) → st_inv s' → ext s s' → sess s0 t0 (s', t).
Proof.
  intros [Hi Hl Hk Ho Hm] Hi' He. simpl in *. split; simpl; auto.
  - intros x Hx. eapply live_ext; eauto.
  - intros x Hx Hn. destruct (He x) as [_ ->]; auto.
  - intros x Hx. destruct (Hm x Hx). split; [by eapply live_ext | done].
Qed.

(** A write to a page that is the session's own, or that was not live. *)
Lemma sess_write s0 t0 s t s' id :
  sess s0 t0 (s, t) → st_inv s' → only_at view live id s s' → id ∈ owned t0 ∨ ¬ live s0 id →
  sess s0 t0 (s', t).
Proof.
  intros [Hi Hl Hk Ho Hm] Hi' Hat Hid. simpl in *.
  assert (Hlv : ∀ x, live s x → live s' x) by (intros x; apply (only_at_live _ _ _ _ Hat)).
  split; simpl; auto.
  - intros x Hx Hn. rewrite <- Hk by done. apply (Hat x); [auto |]. intros ->. by destruct Hid.
  - intros x Hx. destruct (Hm x Hx). auto.
Qed.

Lemma sess_own s0 t0 s t id r d pend :
  sess s0 t0 (s, t) → live s id → ¬ live s0 id →
  sess s0 t0 (s, {| root := r; depth := d; pending_superseded := pend; session_owned := {[id]} ∪ owned t |}).
Proof.
  intros [Hi Hl Hk Ho Hm] Hid Hn. simpl in *. split; simpl; auto.
  - intros x Hx. apply elem_of_union. auto.
  - intros x [->%elem_of_singleton | Hx]%elem_of_union; auto.
Qed.

Lemma sess_fields s0 t0 s t r d pend :
  sess s0 t0 (s, t) →
  sess s0 t0 (s, {| root := r; depth := d; pending_superseded := pend; session_owned := owned t |}).
Proof. intros [Hi Hl Hk Ho Hm]. by split. Qed.

Lemma fresh_back s0 t0 s t id : sess s0 t0 (s, t) → ¬ live s id → ¬ live s0 id.
Proof. intros Hs Hn Hx. by apply Hn, (se_live _ _ _ Hs). Qed.

(** ** Steps

    [F] is the frame of the caller; [reaches] is what every step up to a write of the
    tree's pages leaves. *)

Definition reaches s0 t0 s t (sx : St * FreeMapTree) : Prop :=
  sess s0 t0 sx ∧ ext s sx.1 ∧ root sx.2 = root t ∧ depth sx.2 = depth t.

Lemma reaches_ext s0 t0 s t s1 t1 s2 :
  sess s0 t0 (s1, t1) → ext s s1 → root t1 = root t → depth t1 = depth t → st_inv s2 → ext s1 s2 →
  reaches s0 t0 s t (s2, t1).
Proof. intros Hs He Hr Hd Hi He2. split; [by eapply sess_ext |]. ands; [by etrans | done | done]. Qed.

Section steps.
Context (F : St * FreeMapTree → Prop) {B : Type}.
Variables (s0 : St) (t0 : FreeMapTree) (s : St) (t : FreeMapTree) (Q : B → St * FreeMapTree → Prop).
Hypothesis Hs : sess s0 t0 (s, t).
(** Nothing logical is written. *)
Hypothesis Hfr : ∀ s', sess s0 t0 (s', t) → ext s s' → F (s', t).

Lemma bind_sget id (k : list Z → M (St * FreeMapTree) B) :
  (∀ p s', buf_of s id p → ext s s' → same view live s s' → sess s0 t0 (s', t) → spec F (k p) (s', t) Q) →
  spec F (bind (lift (ps_get id)) k) (s, t) Q.
Proof.
  intros Hk. eapply (bind_lift _ _ _ _ _ (λ p s', buf_of s id p ∧ ext s s' ∧ same view live s s' ∧ sess s0 t0 (s', t))).
  - eapply spec_conseq; [apply (get_ok s id), (se_inv _ _ _ Hs) | |].
    + intros s' [Hi He%same_ext]. apply Hfr; [by eapply sess_ext | done].
    + intros p s' [Hi He] [Hp Hb]. pose proof (same_ext _ _ He).
      ands; [split; [done | intros v []; auto] | done | done | by eapply sess_ext].
  - intros p s' Hs' (H1 & H2 & H3 & H4). auto.
Qed.

Variable extend : M St Z.
Hypothesis Hextend : alloc_ok extend.

Lemma bind_salloc (k : Z → M (St * FreeMapTree) B) :
  (∀ n s', ¬ live s n → live s' n → 0 < n < PAGE_ID_NONE → ext s s' → sess s0 t0 (s', t) → spec F (k n) (s', t) Q) →
  spec F (bind (lift extend) k) (s, t) Q.
Proof.
  intros Hk. eapply (bind_lift _ _ _ _ _ (λ n s', (¬ live s n) ∧ live s' n ∧ (0 < n < PAGE_ID_NONE) ∧ ext s s' ∧
    sess s0 t0 (s', t))).
  - eapply spec_conseq; [apply Hextend, (se_inv _ _ _ Hs) | |].
    + intros s' [Hi He]. apply Hfr; [by eapply sess_ext | done].
    + intros n s' [Hi He] (? & ? & ?). ands; try done; [lia | lia | by eapply sess_ext].
  - intros n s' Hs' (H1 & H2 & H3 & H4 & H5). auto.
Qed.

Lemma bind_smodify id f (k : list Z → M (St * FreeMapTree) B) :
  live s id → id ∈ owned t0 ∨ ¬ live s0 id → (∀ p, wf_page p → wf_page (f p)) → stamps f →
  (∀ p v' s', buf_of s id p → only_at view live id s s' → sess s0 t0 (s', t) →
    holds s' id v' → body v' = body (f p) → (verify_checksum (f p) = true → v' = f p) →
    spec F (k p) (s', t) Q) →
  spec F (bind (lift (ps_modify id f)) k) (s, t) Q.
Proof.
  intros Hl Hid Hf Hst Hk. pose proof (se_inv _ _ _ Hs) as Hi.
  eapply (spec_bind_ok (sess s0 t0) _ _ _ _ (λ p sx, sx.2 = t ∧ buf_of s id p ∧ only_at view live id s sx.1 ∧
    ∃ v', holds sx.1 id v' ∧ body v' = body (f p) ∧ (verify_checksum (f p) = true → v' = f p))).
  - apply spec_lift. eapply spec_conseq; [by apply (modify_ok s id f) | |].
    + intros s' [Hi' Ho]. by eapply sess_write.
    + intros p s' [Hi' Ho] (Hp & Hb & v' & Hv & Hbv & Hver'). cbn [fst snd].
      ands; [done | split; [done | intros v []; auto] | done |].
      exists v'. ands; [split; [by apply (Ho id) | done] | done | done].
  - pose proof (modify_fail s id f Hi Hl) as Hfail. unfold lift. cbn [fst snd].
    destruct (ps_modify id f s) as [r s']. cbn [fst snd] in *. intros Hs' Hr. apply Hfr; [done | by apply same_ext, Hfail].
  - intros p [s' t'] Hs' (Ht & H1 & H2 & v' & H3 & H4 & H5). cbn [fst snd] in *. subst t'. by apply (Hk p v').
Qed.

End steps.

(** Writes to a page that was not live in [s1]. *)
Section fresh.
Context (F : St * FreeMapTree → Prop) {B : Type}.
Variables (s0 : St) (t0 : FreeMapTree) (s1 s : St) (t : FreeMapTree) (Q : B → St * FreeMapTree → Prop) (id : Z).
Hypothesis Hs : sess s0 t0 (s, t).
Hypothesis Hfr : ∀ s', sess s0 t0 (s', t) → ext s1 s' → F (s', t).
Hypothesis He : ext s1 s.
Hypothesis Hnew : ¬ live s1 id.
Hypothesis Hl : live s id.
Hypothesis Hid : ¬ live s0 id.

Lemma bind_sfresh f (k : list Z → M (St * FreeMapTree) B) :
  (∀ p, wf_page p → wf_page (f p)) → stamps f →
  (∀ p v' s', wf_page p → ext s1 s' → sess s0 t0 (s', t) → holds s' id v' →
    (verify_checksum (f p) = true → v' = f p) → spec F (k p) (s', t) Q) →
  spec F (bind (lift (ps_modify id f)) k) (s, t) Q.
Proof.
  intros Hf Hst Hk. eapply bind_smodify; [exact Hs | | done | by right | done | done |].
  - intros s' Hs' He'. apply Hfr; [done | by etrans].
  - intros p v' s' [Hp _] Ho Hs' Hv' _ Hst'. apply (Hk p v'); [done | by eapply only_at_ext | done | done | done].
Qed.

Lemma bind_scopy src v (k : unit → M (St * FreeMapTree) B) :
  holds s src v → getb 0 v ≠ type_tag DataPageType →
  (∀ v' s', ext s1 s' → holds s' id v' → body v' = body v → sess s0 t0 (s', t) → spec F (k tt) (s', t) Q) →
  spec F (bind (lift (copy_page src id)) k) (s, t) Q.
Proof.
  intros Hv Htag Hk.
  eapply (bind_lift _ _ _ _ _ (λ _ s', ext s1 s' ∧ sess s0 t0 (s', t) ∧ ∃ v', holds s' id v' ∧ body v' = body v));
    [| intros [] s' _ (H1 & H2 & v' & H3 & H4); by apply (Hk v')].
  apply (spec_conseq (λ s', sess s0 t0 (s', t) ∧ ext s1 s') _ _ _ (λ _ s', ∃ v', holds s' id v' ∧ body v' = body v));
    [| intros s' []; auto | by intros [] s' [] ?].
  unfold copy_page. eapply spec_bind.
  { eapply spec_conseq; [apply (get_ok s src), (se_inv _ _ _ Hs) | |].
    - intros s' [Hi Hsm%same_ext]. split; [by eapply sess_ext | by etrans].
    - intros p s' [Hi Hsm] [Hp Hb]. instantiate (1 := λ p s', st_inv s' ∧ live s' id ∧ wf_page p ∧ body p = body v).
      destruct Hv as [_ Hv]. ands; auto. by apply Hsm. }
  intros p s2 [Hs2 He2] (Hi2 & Hl2 & Hp & Hb). eapply spec_bind; [| intros ? ? ? Hq; apply spec_ret; [done | exact Hq]].
  eapply spec_conseq; [apply (modify_ok s2 id (λ _, p)); [done | done | done |] | |].
  { apply stamps_tag. intros _ _. rewrite (body_getb 0 p v) by (done || plia). done. }
  - intros s' [Hi Ho]. split; [eapply sess_write; [exact Hs2 | done | done | by right] | by eapply only_at_ext].
  - intros p' s' [Hi Ho] (_ & _ & v' & Hv' & Hbv & _). exists v'. split; [| by rewrite Hbv].
    split; [by apply (Ho id) | done].
Qed.
End fresh.

Variable extend : M St Z.
Hypothesis Hextend : alloc_ok extend.

(** ** Fetching a node *)

(** The tree record after [n] was fetched. *)
Definition owns (t : FreeMapTree) (n : Z) (f0 : list Z) : FreeMapTree :=
  {| root := root t; depth := depth t; pending_superseded := pending_superseded t ++ f0;
     session_owned := {[n]} ∪ owned t |}.

Definition node_type (l : nat) : PageType := match l with O => FreeMapPage | S _ => FreeMapInterior end.

Lemma node_holds s l a : wf_tree s l a → ∃ v, holds s a v ∧ getb 0 v = type_tag (node_type l).
Proof. intros [Ht _]. destruct l; destruct Ht as (v & Hv & Hl & _); by exists v. Qed.

Lemma owns_same t n : n ∈ owned t → owns t n [] = t.
Proof.
  intros Hn. unfold owns. rewrite app_nil_r. destruct t as [r d p o]; simpl in *. f_equal.
  apply set_eq. intros x. rewrite elem_of_union, elem_of_singleton. split; [by intros [-> | ?] | by right].
Qed.

(** A copy whose bytes are those of the node. *)
Lemma copy_fetched (W : gset Z) s s1 l a n v v' :
  wf_tree s l a → ext s s1 → ¬ live s n → n ≠ 0 → a ≠ 0 → a ∉ W → holds s a v → holds s1 n v' →
  body v' = body v → fetched W s l a s1 n [a].
Proof.
  intros Hw He Hn Hn0 Ha0 Ha Hv Hv' Hb. destruct (node_holds s l a Hw) as (w & Hv1 & Ht).
  rewrite (holds_fun _ _ _ _ Hv1 Hv) in Ht. destruct l as [| l].
  - apply (fetched_copy_leaf _ _ _ _ _ _ _ _ _ _ v v'); auto.
    + unfold is_leaf. rewrite (body_getb _ v' v) by (done || plia). exact Ht.
    + intros k Hk. apply is_free_body; [done | lia].
  - apply (fetched_copy _ _ _ _ _ leaf_pos _ _ _ _ _ v v'); auto.
    + unfold is_int. rewrite (body_getb _ v' v) by (done || plia). exact Ht.
    + intros i Hi. by apply read_child_body.
Qed.

Lemma new_id_u64 n : 0 < n < PAGE_ID_NONE → is_u64 n.
Proof. unfold PAGE_ID_NONE, u64_max, is_u64. lia. Qed.

Definition fetch_post s t l a (n : Z) (sx : St * FreeMapTree) : Prop :=
  ∃ f0, sx.2 = owns t n f0 ∧ fetched (owned t) s l a sx.1 n f0 ∧ is_u64 n.

Lemma cow_node_spec (F : St * FreeMapTree → Prop) s0 t0 s t l a :
  sess s0 t0 (s, t) → (∀ sx, reaches s0 t0 s t sx → F sx) → wf_tree s l a → a ≠ 0 → is_u64 a →
  spec F (cow_node extend a (node_type l)) (s, t) (λ n sx, sess s0 t0 sx ∧ fetch_post s t l a n sx).
Proof.
  intros Hs Hfr Hw Ha Ha64. unfold cow_node. apply bind_reads. cbn [snd]. case_decide as Hin.
  { apply spec_ret; [by apply Hfr |]. split; [done |]. exists []. cbn [fst snd]. rewrite owns_same by done. ands; [done | | done].
    by apply fetched_own; [apply leaf_pos | ..]. }
  destruct (node_holds s l a Hw) as (v & Hv & Ht).
  assert (Hfr' : ∀ s', sess s0 t0 (s', t) → ext s s' → F (s', t)) by (intros s' H1 H2; by apply Hfr).
  eapply bind_sget; [exact Hs | done |]. intros p s1 Hp He1 Hsame1 Hs1.
  eapply check_type_ok; [by apply (proj2 Hp v) | done |].
  eapply bind_salloc; [exact Hs1 | intros s' H1 H2; apply Hfr'; [done | by etrans] | exact Hextend |].
  intros n s2 Hn Hl Hnr He2 Hs2.
  assert (Hv2 : holds s2 a v) by (eapply holds_ext; [done |]; by eapply holds_ext).
  assert (Hn' : ¬ live s n) by (contradict Hn; by eapply live_ext).
  pose proof (fresh_back _ _ _ _ _ Hs Hn') as Hn0.
  eapply (bind_scopy F s0 t0 s s2); [done | done | by etrans | done | done | done | done | rewrite Ht; by destruct l |].
  intros v' s3 He3 Hv' Hb Hs3.
  assert (Hs4 : sess s0 t0 (s3, supersede a (own n t))) by (apply sess_own; [done | by eapply holds_live | done]).
  apply bind_writes, spec_ret; cbn [fst snd]; [by apply Hfr |]. split; [done |].
  exists [a]. ands; [done | | by apply new_id_u64]. cbn [fst].
  eapply (copy_fetched _ s s3 l a n v v'); auto. lia.
Qed.

(** The fresh child of a descent. *)
Lemma fresh_child_spec (F : St * FreeMapTree → Prop) s0 t0 s t l :
  sess s0 t0 (s, t) → (∀ sx, reaches s0 t0 s t sx → F sx) →
  spec F
    (let* id_new := lift extend in
     lift (ps_modify id_new (λ buf,
       match l with
       | O => stamp_checksum (FreeMap.init_page buf)
       | S _ => init_interior buf
       end)) ;;;
     writes (λ sx, (sx.1, own id_new sx.2)) ;;;
     ret id_new) (s, t) (λ n sx, sess s0 t0 sx ∧ fetch_post s t l 0 n sx).
Proof.
  intros Hs Hfr.
  assert (Hfr' : ∀ s', sess s0 t0 (s', t) → ext s s' → F (s', t)) by (intros s' H1 H2; by apply Hfr).
  eapply bind_salloc; [exact Hs | done | exact Hextend |]. intros n s1 Hn Hl Hnr He1 Hs1.
  pose proof (fresh_back _ _ _ _ _ Hs Hn) as Hn0.
  assert (Hsame : ∀ p, match l with O => stamp_checksum (FreeMap.init_page p) | S _ => init_interior p end =
    stamp_checksum (fresh_fields l p)) by (by destruct l).
  eapply (bind_sfresh F s0 t0 s s1); [done | done | done | done | done | done | | |].
  { intros p Hp. rewrite Hsame. by apply wf_stamp, fresh_fields_wf. }
  { intros p Hp _. rewrite Hsame. by apply data_stamped_stamp, fresh_fields_wf. }
  intros p v' s2 Hp He2 Hs2 Hv' Hst. rewrite Hsame in Hst.
  pose proof (fresh_empty l p Hp) as Hempty. specialize (Hst (proj1 Hempty)). subst v'.
  assert (Hs3 : sess s0 t0 (s2, own n t)) by (apply sess_own; [done | by eapply holds_live | done]).
  apply bind_writes, spec_ret; cbn [fst snd]; [by apply Hfr |]. split; [done |].
  exists []. cbn [fst snd]. unfold owns. rewrite app_nil_r. ands; [done | | by apply new_id_u64].
  eapply fetched_fresh; [apply leaf_pos | done | done | lia | done |]. split; [apply Hver, Hempty | apply Hempty].
Qed.

Lemma owned_owns t n f0 x : x ∈ owned (owns t n f0) ↔ x = n ∨ x ∈ owned t.
Proof. unfold owns. cbn [session_owned]. by rewrite elem_of_union, elem_of_singleton. Qed.
(** ** The descent *)

Definition descended (b : bool) s t l cur h (sx : St * FreeMapTree) : Prop :=
  ∃ fr, upd (owned t) s l cur sx.1 fr ∧ root sx.2 = root t ∧ depth sx.2 = depth t ∧
    pending_superseded sx.2 = pending_superseded t ++ fr ∧
    ∀ k, 0 ≤ k < keys LC l → den sx.1 l cur k = if decide (k = h) then b else den s l cur k.

(** What a descent leaves on every outcome: the keys below [cur] but for [h]. *)
Definition midway s t l cur h (sx : St * FreeMapTree) : Prop :=
  root sx.2 = root t ∧ depth sx.2 = depth t ∧ ∃ fr, upd_weak (owned t) s l cur sx.1 fr ∧
    ∀ k, 0 ≤ k < keys LC l → k ≠ h → den sx.1 l cur k = den s l cur k.

Lemma midway_ext s t l cur h s' t' :
  open_tree s l cur → ext s s' → root t' = root t → depth t' = depth t → midway s t l cur h (s', t').
Proof.
  intros Hw%open_any%any_open He Hr Hd. do 2 (split; [done |]). exists []. split; [by apply upd_ext |].
  intros k Hk _. apply (den_ext (HV := any_ver) _ _ is_leaf is_int leaf_val leaf_pos); [done | apply Hw | done].
Qed.

Definition descend_goal op b l : Prop := ∀ (F : St * FreeMapTree → Prop) s0 t0 s t cur h,
  sess s0 t0 (s, t) → (∀ sx, sess s0 t0 sx → midway s t l cur h sx → F sx) →
  open_tree s l cur → cur ∈ owned t → 0 ≤ h < keys LC l →
  spec F (descend_loop extend l cur h op) (s, t) (λ _ sx, sess s0 t0 sx ∧ descended b s t l cur h sx).

Lemma keys_0 : keys LC 0 = LC.
Proof. unfold keys. simpl. lia. Qed.

Lemma descend_leaf op b : leaf_op_ok op b → descend_goal op b 0.
Proof.
  intros Hop F s0 t0 s t cur h Hs Hfr Hopen Hc Hh. pose proof Hopen as [(v & Hv & Hl) _]. rewrite keys_0 in Hh.
  destruct (se_mine _ _ _ Hs cur Hc) as [Hlive Hown]. cbn [descend_loop]. rewrite Z.mod_small by done.
  eapply bind_smodify; [exact Hs | intros s' H1 H2; apply Hfr; [done | by apply midway_ext] | done | done | | |].
  { intros p Hp. destruct (Z.eqb_spec (getb 0 p) (type_tag FreeMapPage)); [| done].
    by apply wf_stamp, (Hop p h). }
  { intros p Hp Hd. destruct (Z.eqb_spec (getb 0 p) (type_tag FreeMapPage)); [| done].
    by apply data_stamped_stamp, (Hop p h). }
  intros p v' s1 [Hp Hb] Ho Hs1 Hv' _ Hst. specialize (Hb v Hv).
  assert (Hg : getb 0 p = type_tag FreeMapPage) by (rewrite (body_getb _ p v) by (done || plia); exact Hl).
  destruct (ft_leaf_update op b p v h Hop Hp Hb Hl Hh) as (Hl' & Hst' & Hval).
  unfold check_type. rewrite Hg, Z.eqb_refl in *. rewrite (Hst Hst') in Hv'.
  assert (Hd : ∀ k, 0 ≤ k < keys LC 0 → den s1 0 cur k = if decide (k = h) then b else den s 0 cur k).
  { intros k. rewrite keys_0. intros Hk. cbn [Radix.den]. pose proof Hv as [_ ->]. pose proof Hv' as [_ ->]. by apply Hval. }
  assert (Hu : upd (owned t) s 0 cur s1 []) by (by eapply upd_leaf; try done; apply Hver).
  apply spec_ret; [| split; [done |]; exists []; by rewrite app_nil_r].
  apply Hfr; [done |]. do 2 (split; [done |]). exists []. split; [by apply upd_any |].
  intros k Hk Hne. cbn [fst]. by rewrite Hd, decide_False.
Qed.

(** The child of a step, fetched in either branch. *)
Lemma fetch_child (F : St * FreeMapTree → Prop) s0 t0 s s1 t l cur v i :
  open_tree s (S l) cur → holds s cur v → 0 ≤ i < PTRS_PER_INTERIOR → wf_page v →
  ext s s1 → sess s0 t0 (s1, t) → (∀ sx, reaches s0 t0 s t sx → F sx) →
  spec F
    (if read_child v i =? 0 then
       let* id_new := lift extend in
       lift (ps_modify id_new (λ buf,
         match l with
         | O => stamp_checksum (FreeMap.init_page buf)
         | S _ => init_interior buf
         end)) ;;;
       writes (λ sx, (sx.1, own id_new sx.2)) ;;;
       ret id_new
     else cow_node extend (read_child v i) (node_type l)) (s1, t)
    (λ n sx, sess s0 t0 sx ∧ fetch_post s t l (read_child v i) n sx).
Proof.
  intros Ho Hv Hi Hwf He Hs1 Hfr.
  assert (Hw : read_child v i ≠ 0 → wf_tree s l (read_child v i)) by (intros Hc; by eapply open_child).
  assert (Hfr' : ∀ sx, reaches s0 t0 s1 t sx → F sx).
  { intros sx (H1 & H2 & H3). apply Hfr. split; [done |]. split; [by etrans | done]. }
  apply (spec_conseq F _ _ _ (λ n sx, sess s0 t0 sx ∧ fetch_post s1 t l (read_child v i) n sx)); [| done |].
  - destruct (Z.eqb_spec (read_child v i) 0) as [Hc | Hc]; [rewrite Hc; by apply fresh_child_spec |].
    apply cow_node_spec; [done | done | | done | by apply read_child_u64].
    eapply wf_ext; [exact He | by apply Hw].
  - intros n sx _ [H0 (f0 & H1 & H2 & H3)]. split; [done |]. exists f0. ands; [done | | done].
    by eapply (fetched_later false LC is_leaf is_int leaf_val leaf_pos).
Qed.

(** A descent below the child, seen from the page. *)
Lemma midway_link s t s1 s2 l cur v v2 n f0 h sx :
  let i := h / keys LC l in
  open_tree s (S l) cur → holds s cur v → 0 ≤ i < PTRS_PER_INTERIOR → cur ∈ owned t →
  fetched (owned t) s l (read_child v i) s1 n f0 → only_at view live cur s1 s2 → holds s2 cur v2 → is_int v2 →
  (∀ j, 0 ≤ j < PTRS_PER_INTERIOR → read_child v2 j = if decide (j = i) then n else read_child v j) →
  midway s2 (owns t n f0) l n (h mod keys LC l) sx → midway s t (S l) cur h sx.
Proof.
  intros i Ho%open_any Hv Hi Hc Hfe%fetched_any Hat Hv2 Hint Hch (Hr & Hd & fr & Hu & Hden).
  assert (HW' : ∀ x, x ∈ owned (owns t n f0) → x ∈ owned t ∨ x = n) by (intros x [|]%owned_owns; auto).
  do 2 (split; [done |]). exists (f0 ++ fr). split.
  - eapply (link_upd (HV := any_ver) false LC is_leaf is_int leaf_val leaf_pos (owned t) (owned (owns t n f0)) s s1 s2 sx.1); try done.
    + intros x Hx. apply owned_owns. by right.
    + apply owned_owns. by left.
  - intros k Hk Hne.
    rewrite (link_den (HV := any_ver) false LC is_leaf is_int leaf_val leaf_pos (owned t) (owned (owns t n f0)) s s1 s2 sx.1 l cur i n v
      v2 f0 fr Ho Hv Hi Hfe Hat Hv2 Hch HW' Hu h (λ k', den sx.1 l n k')); [by rewrite decide_False | done | | done].
    intros k' Hk'. case_decide; [done |]. by apply Hden.
Qed.

Lemma descend_step op b l : (l < MAX_DEPTH)%nat → descend_goal op b l → descend_goal op b (S l).
Proof.
  unfold MAX_DEPTH. intros Hl IH F s0 t0 s t cur h Hs Hfr Hopen Hc Hh.
  pose proof Hopen as [(v & Hv & Hint & _) _]. pose proof (keys_pos LC l leaf_pos) as Hpos.
  assert (Hwf : wf_page v) by (eapply holds_wf; [apply (se_inv _ _ _ Hs) | done]).
  rewrite keys_S in Hh. assert (Hi : 0 ≤ h / keys LC l < PTRS_PER_INTERIOR).
  { rewrite ptrs_1021. split; [apply Z.div_pos; lia | apply Z.div_lt_upper_bound; lia]. }
  assert (Hfr' : ∀ sx, reaches s0 t0 s t sx → F sx).
  { intros [s' t'] (H1 & H2 & H3 & H4). apply Hfr; [done |]. by apply midway_ext. }
  cbn [descend_loop]. rewrite ft_span_keys by lia. cbv zeta.
  destruct (Z.leb_spec PTRS_PER_INTERIOR (h / keys LC l)); [lia |].
  eapply bind_sget; [exact Hs | intros s' H1 H2; by apply Hfr' |]. intros p s' [Hp Hb] He' _ Hs'. rewrite (read_child_body _ p v) by auto.
  eapply spec_bind; [by apply (fetch_child F s0 t0 s s' t l cur v) |]. clear p s' Hp Hb He' Hs'.
  intros n [s1 t1] _ [Hs1 (f0 & Ht1 & Hfe & Hn)]. cbn [fst snd] in *. subst t1.
  set (i := h / keys LC l) in *. destruct (se_mine _ _ _ Hs1 cur) as [Hlive Hown].
  { apply owned_owns. by right. }
  pose proof (fe_ext _ _ _ _ _ _ _ _ _ _ _ _ Hfe) as He1.
  assert (Hv1 : holds s1 cur v) by (by eapply holds_ext).
  eapply bind_smodify; [exact Hs1 | | done | done | intros p Hp; by apply wf_stamp, write_child_wf | |].
  { intros s' H1 H2. apply Hfr'. split; [done |]. ands; [by etrans | done | done]. }
  { apply stamps_stamp. intros p Hp. by apply write_child_wf. }
  intros p v2 s2 [Hp Hb] Ho Hs2 Hv2 _ Hst.
  destruct (ft_int_update p v i n Hp (Hb v Hv1) Hint Hi Hn) as (Hint2 & Hver2 & Hch). rewrite (Hst Hver2) in Hv2.
  assert (HW' : ∀ x, x ∈ owned (owns t n f0) → x ∈ owned t ∨ x = n) by (intros x [|]%owned_owns; auto).
  assert (HnW : n ∈ owned (owns t n f0)) by (apply owned_owns; by left).
  eapply spec_conseq; [apply (IH F s0 t0 s2 (owns t n f0) n (h mod keys LC l)); [done | | | done |] | done |].
  { intros sx Hsx Hm. apply Hfr; [done |]. by eapply (midway_link s t s1 s2 l cur v _ n f0). }
  { eapply (open_n false LC is_leaf is_int leaf_val (owned t) s s1 s2 l cur i n v f0); done. }
  { by apply Z.mod_pos_bound. }
  intros [] [s3 t3] _ [Hs3 (fr & Hu & Hr & Hd & Hps & Hden)]. cbn [fst snd] in *.
  split; [done |]. exists (f0 ++ fr). cbn [fst snd]. ands; [| done | done | | ].
  - eapply (link_upd false LC is_leaf is_int leaf_val leaf_pos (owned t) (owned (owns t n f0)) s s1 s2 s3); try done.
    + by apply Hver.
    + intros x Hx. apply owned_owns. by right.
  - rewrite Hps. unfold owns. cbn [pending_superseded]. by rewrite app_assoc.
  - eapply (link_den false LC is_leaf is_int leaf_val leaf_pos (owned t) (owned (owns t n f0)) s s1 s2 s3 l cur i n v
      _ f0 fr Hopen Hv Hi Hfe Ho Hv2 Hch HW' Hu h (λ _, b)); done.
Qed.

Lemma ft_descend_spec op b l : leaf_op_ok op b → (l ≤ MAX_DEPTH)%nat → descend_goal op b l.
Proof.
  intros Hop. induction l as [| l IH]; intros Hl; [by apply descend_leaf |].
  apply descend_step; [lia | apply IH; lia].
Qed.
(** ** Growth *)

Abbreviation pages s t := (reach s (depth t) (root t)).
Definition free s t (id : Z) : bool := lookup_den false LC leaf_val s (depth t) (root t) id.

Record grew s t (sx : St * FreeMapTree) : Prop := {
  gw_grown : grown false LC is_leaf is_int leaf_val s (depth t) (root t) sx.1 (depth sx.2) (root sx.2);
  gw_root : root sx.2 ≠ 0 ∧ is_u64 (root sx.2);
  gw_depth : (depth sx.2 ≤ MAX_DEPTH)%nat;
  gw_pending : pending_superseded sx.2 = pending_superseded t;
  gw_owned : ∀ x, x ∈ owned t → x ∈ owned sx.2;
  gw_new : ∀ x, pages sx.1 sx.2 x → pages s t x ∨ x ∈ owned sx.2
}.

Lemma grew_refl s t :
  wf_tree s (depth t) (root t) → root t ≠ 0 → is_u64 (root t) → (depth t ≤ MAX_DEPTH)%nat → grew s t (s, t).
Proof. intros. split; auto. by apply grown_refl. Qed.

Lemma grew_trans s t s1 t1 sx : grew s t (s1, t1) → grew s1 t1 sx → grew s t sx.
Proof.
  intros [G1 R1 D1 P1 O1 N1] [G2 R2 D2 P2 O2 N2]. cbn [fst snd] in *. split; auto.
  - by eapply grown_trans.
  - congruence.
  - intros x Hx. destruct (N2 x Hx) as [H1 |]; [| by right]. destruct (N1 x H1); auto.
Qed.

(** The pages of a new root over the old one. *)
Lemma grow_pages s s' l r n v x :
  wf_tree s l r → ext s s' → holds s' n v →
  (∀ i, 0 ≤ i < PTRS_PER_INTERIOR → read_child v i = if decide (i = 0) then r else 0) →
  reach s' (S l) n x → x = n ∨ reach s l r x.
Proof.
  intros Hw He Hv Hc [-> | (w & i & Hw' & Hi & Hci & Hx)]; [by left | right].
  rewrite (holds_fun _ _ _ _ Hw' Hv) in *. rewrite Hc in * by done. case_decide; [| done].
  by rewrite (reach_ext is_leaf is_int s s') in Hx by (done || apply Hw).
Qed.

Lemma grew_ext s t s' :
  wf_tree s (depth t) (root t) → root t ≠ 0 → is_u64 (root t) → (depth t ≤ MAX_DEPTH)%nat → ext s s' → grew s t (s', t).
Proof.
  intros Hw Hr0 Hr Hd He. assert (Hre : ∀ x, pages s' t x ↔ pages s t x) by (intros x; apply (reach_ext is_leaf is_int); [done | apply Hw]).
  split; cbn [fst snd]; auto; [| intros x; rewrite Hre; auto]. split; [done | by eapply wf_ext | | | |].
  - intros x. rewrite Hre. auto.
  - intros x. by rewrite Hre.
  - intros k Hk. unfold lookup_den. case_tests; [done |]. apply (den_ext _ _ is_leaf is_int); [apply leaf_pos | done | apply Hw | lia].
  - by apply spine_ext.
Qed.

Lemma ft_grow_spec (F : St * FreeMapTree → Prop) s0 t0 s t :
  sess s0 t0 (s, t) → (∀ sx, sess s0 t0 sx → grew s t sx → F sx) →
  wf_tree s (depth t) (root t) → root t ≠ 0 → is_u64 (root t) → (depth t < MAX_DEPTH)%nat →
  spec F (grow extend) (s, t) (λ _ sx, sess s0 t0 sx ∧ grew s t sx ∧ depth sx.2 = S (depth t)).
Proof.
  intros Hs Hfr Hw Hr0 Hr Hd. unfold grow. apply bind_reads. cbn [snd].
  destruct (Nat.leb_spec MAX_DEPTH (depth t)); [lia |].
  assert (Hfr' : ∀ s', sess s0 t0 (s', t) → ext s s' → F (s', t)).
  { intros s' H1 H2. apply Hfr; [done |]. apply grew_ext; done || lia. }
  eapply bind_salloc; [exact Hs | done | exact Hextend |]. intros n s1 Hn Hl Hnr He1 Hs1.
  pose proof (fresh_back _ _ _ _ _ Hs Hn) as Hn0.
  eapply (bind_sfresh F s0 t0 s s1); [done | done | done | done | done | done | | |].
  { intros p Hp. apply wf_stamp, write_child_wf; [by apply wf_stamp, init_int_wf | apply idx0]. }
  { apply stamps_stamp. intros p Hp. apply write_child_wf; [by apply wf_stamp, init_int_wf | apply idx0]. }
  intros p v' s2 Hp He Hs2 Hv' Hst.
  destruct (ft_grow_page_fields p (root t) Hp Hr) as (Hi & Hver' & Hc). rewrite (Hst Hver') in Hv'.
  set (t2 := set_root n (S (depth t)) (own n t)).
  assert (Hs3 : sess s0 t0 (s2, t2)) by (apply sess_own; [done | by eapply holds_live | done]).
  assert (Hg : grew s t (s2, t2)).
  { split; cbn [t2 own set_root fst snd root depth pending_superseded session_owned].
    - eapply (grow_step false LC is_leaf is_int leaf_val leaf_pos); try done. by apply Hver.
    - split; [lia | by apply new_id_u64].
    - lia.
    - done.
    - intros x Hx. apply elem_of_union. by right.
    - intros x Hx. rewrite elem_of_union, elem_of_singleton.
      destruct (grow_pages s s2 (depth t) (root t) n _ x Hw He Hv' Hc Hx); auto. }
  apply spec_writes; [by apply Hfr | by split].
Qed.

Lemma ft_grow_loop_spec fuel (F : St * FreeMapTree → Prop) s0 t0 s t id :
  sess s0 t0 (s, t) → (∀ sx, sess s0 t0 sx → grew s t sx → F sx) →
  wf_tree s (depth t) (root t) → root t ≠ 0 → is_u64 (root t) → is_u64 id →
  (depth t ≤ MAX_DEPTH)%nat → (MAX_DEPTH - depth t ≤ fuel)%nat →
  spec F (grow_loop extend fuel id) (s, t) (λ _ sx, sess s0 t0 sx ∧ grew s t sx ∧ id < keys LC (depth sx.2)).
Proof.
  revert s t. induction fuel as [| fuel IH]; intros s t Hs Hfr Hw Hr0 Hr Hid Hd Hfuel; pose proof ft_keys_max as Hmax;
    pose proof (grew_refl s t Hw Hr0 Hr Hd) as Hg0.
  - apply spec_ret; [by apply Hfr |]. do 2 (split; [done |]). cbn [snd].
    replace (depth t) with MAX_DEPTH by lia. unfold is_u64, u64_max in *. lia.
  - cbn [grow_loop]. apply bind_reads. cbn [snd].
    destruct ((capacity t <=? id) && (depth t <? MAX_DEPTH)%nat) eqn:E.
    + apply andb_true_iff in E as [_ E%Nat.ltb_lt].
      eapply spec_bind; [by apply (ft_grow_spec F s0 t0 s t) |]. intros [] [s1 t1] _ (Hs1 & Hg & Hd1). cbn [snd] in Hd1.
      pose proof Hg as [G [R0 R1] D _ _ _]. cbn [fst snd] in *.
      assert (Hfr1 : ∀ sx, sess s0 t0 sx → grew s1 t1 sx → F sx).
      { intros sx Hsx Hgx. apply Hfr; [done | by eapply grew_trans]. }
      eapply spec_conseq; [apply (IH s1 t1 Hs1 Hfr1 (gr_wf _ _ _ _ _ _ _ _ _ _ _ G) R0 R1 Hid D); lia | done |].
      intros [] sx _ (Hsx & Hg2 & Hlt). split; [done |]. split; [by eapply grew_trans | done].
    + apply spec_ret; [by apply Hfr |]. do 2 (split; [done |]). cbn [snd]. rewrite ft_capacity_keys in E.
      unfold is_u64, u64_max in *.
      apply andb_false_iff in E as [E%Z.leb_gt | E%Nat.ltb_ge]; [lia |].
      replace (depth t) with MAX_DEPTH by lia. lia.
Qed.

(** ** The invariant, and what an operation does to the tree *)

(** A well-formed tree over 64-bit ids; the session's own pages are live; a page it
    superseded is listed once, is live, is in the tree no more and is not its own. *)
Record ft_inv s t : Prop := {
  fi_st : st_inv s;
  fi_wf : wf_tree s (depth t) (root t);
  fi_depth : (depth t ≤ MAX_DEPTH)%nat;
  fi_root : root t ≠ 0 ∧ is_u64 (root t);
  fi_ids : ∀ k, u64_max ≤ k → free s t k = false;
  fi_owned : ∀ x, x ∈ owned t → live s x;
  fi_nodup : NoDup (pending_superseded t);
  fi_pending : ∀ x, x ∈ pending_superseded t → live s x ∧ (¬ pages s t x) ∧ x ∉ owned t
}.

(** From [(s, t)] to [sx] the pages [fr] were superseded. *)
Record changed s t (fr : list Z) (sx : St * FreeMapTree) : Prop := {
  cg_wf : wf_tree sx.1 (depth sx.2) (root sx.2);
  cg_depth : (depth sx.2 ≤ MAX_DEPTH)%nat;
  cg_root : root sx.2 ≠ 0 ∧ is_u64 (root sx.2);
  cg_pending : pending_superseded sx.2 = pending_superseded t ++ fr;
  cg_new : ∀ x, pages sx.1 sx.2 x → (pages s t x ∧ x ∉ fr) ∨ ¬ live s x;
  cg_old : ∀ x, pages s t x → pages sx.1 sx.2 x ∨ x ∈ fr;
  cg_freed : ∀ x, x ∈ fr → pages s t x ∧ (x ∉ owned t) ∧ (¬ pages sx.1 sx.2 x);
  cg_nodup : NoDup fr
}.

Lemma ft_inv_sess s t : ft_inv s t → sess s t (s, t).
Proof. intros Hf. apply sess_refl; apply Hf. Qed.

Lemma pages_live s t x : ft_inv s t → pages s t x → live s x.
Proof. intros Hf. apply (reach_live is_leaf is_int), (fi_wf _ _ Hf). Qed.

Lemma ft_inv_changed s t fr sx :
  ft_inv s t → sess s t sx → changed s t fr sx → (∀ k, u64_max ≤ k → free sx.1 sx.2 k = false) →
  ft_inv sx.1 sx.2.
Proof.
  intros Hf Hs Hc Hk. pose proof (fi_pending _ _ Hf) as Hp.
  split; [apply Hs | apply Hc.. | done | intros x Hx; by apply (se_mine _ _ _ Hs) | |]; rewrite (cg_pending _ _ _ _ Hc).
  - apply NoDup_app. ands; [apply Hf | | apply Hc]. intros x Hx Hx'.
    destruct (Hp x Hx) as (_ & Hn & _). by apply Hn, (cg_freed _ _ _ _ Hc).
  - assert (Hown : ∀ x, live s x → x ∉ owned t → x ∉ owned sx.2).
    { intros x Hl Hn Hx. by destruct (se_mine _ _ _ Hs x Hx) as [_ [? | ?]]. }
    intros x [Hx | Hx]%elem_of_app.
    + destruct (Hp x Hx) as (Hl & Hn & Ho). ands; [by apply (se_live _ _ _ Hs) | | auto].
      intros [[? _] | ?]%(cg_new _ _ _ _ Hc); done.
    + destruct (cg_freed _ _ _ _ Hc x Hx) as (Hr & Ho & Hn). pose proof (pages_live _ _ _ Hf Hr).
      ands; [by apply (se_live _ _ _ Hs) | done | auto].
Qed.

(** Growth before a change. *)
Lemma grew_changed s t s1 t1 fr sx :
  grew s t (s1, t1) → changed s1 t1 fr sx → changed s t fr sx.
Proof.
  intros [G R D P O N] [C1 C2 C3 C4 C5 C6 C7 C8]. cbn [fst snd] in *.
  assert (Hnl : ∀ x, ¬ live s1 x → ¬ live s x) by (intros x Hn; contradict Hn; eapply live_ext; [apply G | done]).
  split; auto; [congruence | | |].
  - intros x Hx. destruct (C5 x Hx) as [[H1 H2] |]; [| auto].
    destruct (gr_new _ _ _ _ _ _ _ _ _ _ _ G x H1); auto.
  - intros x Hx. apply C6, (gr_old _ _ _ _ _ _ _ _ _ _ _ G), Hx.
  - intros x Hx. destruct (C7 x Hx) as (H1 & H2 & H3). ands; [| contradict H2; auto | done].
    by destruct (N x H1).
Qed.

(** ** [cow_descend] *)

Lemma free_key s t k : 0 ≤ k → free s t k = if keys LC (depth t) <=? k then false else den s (depth t) (root t) k.
Proof. done. Qed.

(** A fetched root and the descent below it. *)
Lemma fetch_changed s t n f0 fr s1 s2 t2 :
  wf_tree s (depth t) (root t) → (depth t ≤ MAX_DEPTH)%nat → root t ≠ 0 → is_u64 n →
  fetched (owned t) s (depth t) (root t) s1 n f0 → upd ({[n]} ∪ owned t) s1 (depth t) n s2 fr →
  root t2 = n → depth t2 = depth t → pending_superseded t2 = (pending_superseded t ++ f0) ++ fr →
  changed s t (f0 ++ fr) (s2, t2).
Proof.
  intros Hw Hd Hr0 Hn Hfe Hu Hroot Hdep Hps.
  assert (Hlive1 : ∀ x, live s x → live s1 x).
  { intros x. apply live_ext, (fe_ext _ _ _ _ _ _ _ _ _ _ _ _ Hfe). }
  assert (Hla : root t ≠ 0 → live s (root t)) by (intros _; eapply reach_live; [apply Hw | apply reach_root]).
  assert (HW : ∀ x, x ∈ owned t → x ∈ {[n]} ∪ owned t) by (intros x Hx; apply elem_of_union; by right).
  assert (HnW : n ∈ {[n]} ∪ owned t) by (apply elem_of_union; left; by apply elem_of_singleton).
  split; cbn [fst snd]; rewrite ?Hroot, ?Hdep.
  - apply (u_wf _ _ _ _ _ _ _ _ Hu).
  - done.
  - split; [apply (fe_id _ _ _ _ _ _ _ _ _ _ _ _ Hfe) | done].
  - by rewrite Hps, app_assoc.
  - intros x Hx. destruct (fetch_new _ _ _ _ _ _ _ s s1 s1 s2 _ _ _ _ _ Hfe (λ _, iff_refl _) Hlive1 Hu x Hx)
      as [(_ & ? & ?) | ?]; auto.
  - intros x. by apply (fetch_old _ _ _ _ _ _ _ s s1 s1 s2 _ _ _ _ _ Hfe (λ _, iff_refl _) Hu).
  - intros x Hx. destruct (fetch_freed _ _ _ _ _ _ _ s s1 s1 s2 _ _ _ _ _ Hfe (λ _, iff_refl _) Hlive1 Hla HW HnW Hu x Hx)
      as (_ & ? & ? & ?). auto.
  - by eapply (fetch_nodup _ _ _ _ _ _ _ s s1 s1 s2 _ _ _ _ _ Hfe (λ _, iff_refl _) Hla).
Qed.

(** What is left of the tree of [(s, t)] on every outcome: a tree over the pages it had
    and fresh ones, whose free ids are as they were but for those in [X]. *)
Record intact s t (X : Z → Prop) (sx : St * FreeMapTree) : Prop := {
  it_wf : wf_weak sx.1 (depth sx.2) (root sx.2);
  it_depth : (depth sx.2 ≤ MAX_DEPTH)%nat;
  it_root : root sx.2 ≠ 0 ∧ is_u64 (root sx.2);
  it_new : ∀ x, pages sx.1 sx.2 x → pages s t x ∨ ¬ live s x;
  it_free : ∀ k, 0 ≤ k → ¬ X k → free sx.1 sx.2 k = free s t k
}.

Lemma intact_weaken s t (X X' : Z → Prop) sx : (∀ k, X k → X' k) → intact s t X sx → intact s t X' sx.
Proof. intros HX' []. split; auto. Qed.

Lemma grew_intact s t (X : Z → Prop) sx : grew s t sx → intact s t X sx.
Proof.
  intros [G R D _ _ _]. split; [apply wf_any, (gr_wf _ _ _ _ _ _ _ _ _ _ _ G) | done | done | |].
  - apply (gr_new _ _ _ _ _ _ _ _ _ _ _ G).
  - intros k Hk _. by apply (gr_den _ _ _ _ _ _ _ _ _ _ _ G).
Qed.

Lemma intact_ext s t (X : Z → Prop) s' :
  wf_tree s (depth t) (root t) → root t ≠ 0 → is_u64 (root t) → (depth t ≤ MAX_DEPTH)%nat → ext s s' → intact s t X (s', t).
Proof. intros. by apply grew_intact, grew_ext. Qed.

Lemma grew_intact_trans s t s1 t1 (X : Z → Prop) sx : grew s t (s1, t1) → intact s1 t1 X sx → intact s t X sx.
Proof.
  intros [G R D _ _ _] [W D' R' N Fr]. cbn [fst snd] in *. split; auto.
  - intros x Hx. destruct (N x Hx) as [H1 | H1]; [by apply (gr_new _ _ _ _ _ _ _ _ _ _ _ G) | right].
    contradict H1. eapply live_ext; [apply G | done].
  - intros k Hk Hn. rewrite Fr by done. by apply (gr_den _ _ _ _ _ _ _ _ _ _ _ G).
Qed.

(** A fetched root, and a descent below it that may have stopped. *)
Lemma midway_intact s t n f0 s1 t1 id sx :
  wf_tree s (depth t) (root t) → (depth t ≤ MAX_DEPTH)%nat → root t ≠ 0 → is_u64 n →
  fetched (owned t) s (depth t) (root t) s1 n f0 → root t1 = n → depth t1 = depth t →
  midway s1 t1 (depth t) n id sx → intact s t (λ k, k = id) sx.
Proof.
  intros Hw Hd Hr0 Hn Hfe Hr1 Hd1 (Hr & Hdp & fr & Hu & Hden). pose proof Hfe as Hfa%fetched_any. rewrite Hr1, Hd1 in *.
  assert (Hlive1 : ∀ x, live s x → live s1 x) by (intros x; apply live_ext, (fe_ext _ _ _ _ _ _ _ _ _ _ _ _ Hfe)).
  split; rewrite ?Hr, ?Hdp.
  - apply (u_wf _ _ _ _ _ _ _ _ Hu).
  - done.
  - split; [apply (fe_id _ _ _ _ _ _ _ _ _ _ _ _ Hfe) | done].
  - intros x Hx. destruct (fetch_new (HV := any_ver) _ _ _ _ _ _ _ s s1 s1 sx.1 _ _ _ _ _ Hfa (λ _, iff_refl _) Hlive1 Hu x Hx)
      as [(_ & ? & _) | ?]; auto.
  - intros k Hk Hne. rewrite !free_key, Hr, Hdp by done. case_tests; [done |]. rewrite Hden by done.
    rewrite (fe_den _ _ _ _ _ _ _ _ _ _ _ _ Hfe) by done. by destruct (Z.eqb_spec (root t) 0).
Qed.

Lemma cow_descend_spec op b (F : St * FreeMapTree → Prop) s0 t0 s t id :
  leaf_op_ok op b → sess s0 t0 (s, t) → (∀ sx, sess s0 t0 sx → intact s t (λ k, k = id) sx → F sx) →
  wf_tree s (depth t) (root t) → (depth t ≤ MAX_DEPTH)%nat →
  root t ≠ 0 → is_u64 (root t) → is_u64 id → id < keys LC (depth t) →
  spec F (cow_descend extend id op) (s, t)
    (λ _ sx, sess s0 t0 sx ∧ ∃ fr, changed s t fr sx ∧
      ∀ k, 0 ≤ k → free sx.1 sx.2 k = if decide (k = id) then b else free s t k).
Proof.
  intros Hop Hs Hfr Hw Hd Hr0 Hr Hid Hk. unfold cow_descend. apply bind_reads. cbn [snd].
  apply check_depth_ok; [done |]. cbv zeta. rewrite ft_capacity_cut by done.
  destruct (Z.leb_spec (keys LC (depth t)) id); [lia |].
  replace (if (0 <? depth t)%nat then FreeMapInterior else FreeMapPage) with (node_type (depth t))
    by (by destruct (depth t)).
  eapply spec_bind.
  { apply (cow_node_spec F s0 t0 s t (depth t)); try done. intros [s' t'] (H1 & H2 & H3 & H4). cbn [fst snd] in *.
    apply Hfr; [done |]. destruct (intact_ext s t (λ k, k = id) s') as [I1 I2 I3 I4 I5]; try done. cbn [fst snd] in *.
    unfold free in *. split; cbn [fst snd]; unfold free; rewrite ?H3, ?H4; done. }
  intros n [s1 t1] _ [Hs1 (f0 & Ht1 & Hfe & Hn)]. cbn [fst snd] in *. subst t1.
  apply bind_writes. cbn [fst snd]. set (t1 := set_root n _ _).
  eapply spec_conseq; [apply (ft_descend_spec op b (depth t) Hop Hd F s0 t0) | done |].
  - by apply sess_fields.
  - intros sx Hsx Hm. apply Hfr; [done |]. by eapply (midway_intact s t n f0 s1 t1).
  - apply (fe_open _ _ _ _ _ _ _ _ _ _ _ _ Hfe).
  - apply elem_of_union. left. by apply elem_of_singleton.
  - unfold is_u64 in Hid. lia.
  - intros [] [s2 t2] _ [Hs2 (fr & Hu & Hroot & Hdep & Hps & Hden)].
    cbn [t1 fst snd set_root owns root depth pending_superseded session_owned] in *. split; [done |].
    exists (f0 ++ fr). split; [by eapply fetch_changed |].
    intros k Hk0. rewrite !free_key by done. cbn [fst snd]. rewrite Hroot, Hdep.
    destruct (Z.leb_spec (keys LC (depth t)) k); [by rewrite decide_False by lia |].
    rewrite Hden by done. case_decide; [done |].
    rewrite (fe_den _ _ _ _ _ _ _ _ _ _ _ _ Hfe) by done. by destruct (Z.eqb_spec (root t) 0).
Qed.
End session.
End FreeMapTreeWrite.
