(* ===== verification/FreeMapTreeSpec.v ===== *)
(** * The freemap tree: specifications of the operations

    [mark_free_growing], [clear_bit], [allocate_first] and [create], with what each
    leaves on every outcome ([sess] for the store, [intact] for the tree).  [ft_ok] is
    the part of the invariant the operations need; nothing is asked of the list of
    superseded pages, nor (for [any_ver]) of the stamps. *)

From S2P Require Export FreeMapTreeWrite.

Module FreeMapTreeSpec.
Import FreeMapTree FreeMapTreeRead FreeMapTreeWrite.

Section specs.
Context {St : Type} `{HX : Xxh3} `{HF : Fault} `{HP : !PageStore St} `{HS : !StoreOk St} `{HV : Ver}.
Hypothesis Hver : ∀ v, verify_checksum v = true → ver v.
Variable extend : M St Z.
Hypothesis Hextend : alloc_ok extend.
Implicit Types (s : St) (t : FreeMapTree).

Abbreviation owned := session_owned.
Abbreviation pages s t := (reach s (depth t) (root t)).

Record ft_ok s t : Prop := {
  fo_st : st_inv s;
  fo_wf : wf_tree is_leaf is_int s (depth t) (root t);
  fo_depth : (depth t ≤ MAX_DEPTH)%nat;
  fo_root : root t ≠ 0 ∧ is_u64 (root t);
  fo_ids : ∀ k, u64_max ≤ k → free s t k = false;
  fo_owned : ∀ x, x ∈ owned t → live s x
}.

Lemma ft_inv_ok s t : ft_inv s t → ft_ok s t.
Proof. intros []. by split. Qed.

Lemma ft_ok_sess s t : ft_ok s t → sess s t (s, t).
Proof. intros Hf. apply sess_refl; apply Hf. Qed.

Lemma ok_pages_live s t x : ft_ok s t → pages s t x → live s x.
Proof. intros Hf. apply (reach_live is_leaf is_int), (fo_wf _ _ Hf). Qed.

Lemma max_id id : 0 ≤ id < u64_max → is_u64 id.
Proof. unfold is_u64, u64_max. lia. Qed.

Lemma ft_ok_changed s t fr sx :
  sess s t sx → changed s t fr sx → (∀ k, u64_max ≤ k → free sx.1 sx.2 k = false) → ft_ok sx.1 sx.2.
Proof. intros Hs Hc Hk. split; [apply Hs | apply Hc.. | done | intros x Hx; by apply (se_mine _ _ _ Hs)]. Qed.

(** ** Reads *)

Lemma quiet_free s t s1 k : ft_ok s t → quiet s s1 → 0 ≤ k → free s1 t k = free s t k.
Proof.
  intros Hf [_ He]%quiet_frame Hk. rewrite !free_key by done. case_tests; [done |].
  apply (den_ext _ _ is_leaf is_int leaf_val leaf_pos); [done | apply Hf | lia].
Qed.

Lemma quiet_pages s t s1 x : ft_ok s t → quiet s s1 → pages s1 t x ↔ pages s t x.
Proof. intros Hf [_ He]%quiet_frame. apply (reach_ext is_leaf is_int); [done | apply Hf]. Qed.

Lemma quiet_sess s t s1 : ft_ok s t → quiet s s1 → sess s t (s1, t).
Proof. intros Hf [Hi He]%quiet_frame. eapply sess_ext; [by apply ft_ok_sess | done | done]. Qed.

Lemma quiet_intact s t s1 (X : Z → Prop) : ft_ok s t → quiet s s1 → intact s t X (s1, t).
Proof. intros Hf [Hi He]%quiet_frame. destruct (fo_root _ _ Hf). apply intact_ext; try done; apply Hf. Qed.

Lemma ft_ok_quiet s t s1 : ft_ok s t → quiet s s1 → ft_ok s1 t.
Proof.
  intros Hf Hq. pose proof Hq as [Hi He]%quiet_frame.
  split; try apply Hf; [done | eapply wf_ext; [done | apply Hf] | |].
  - intros k Hk. rewrite (quiet_free s t s1) by (done || unfold u64_max in *; lia). by apply Hf.
  - intros x Hx. eapply live_ext; [done | by apply Hf].
Qed.

(** Reads before a change do not matter. *)
Lemma quiet_changed s t s1 fr sx : ft_ok s t → quiet s s1 → changed s1 t fr sx → changed s t fr sx.
Proof.
  intros Hf Hq [C1 C2 C3 C4 C5 C6 C7 C8]. pose proof (λ x, quiet_pages s t s1 x Hf Hq) as Hr.
  split; auto; intros x.
  - intros Hx. destruct (C5 x Hx) as [[? ?] | Hn]; [left; by rewrite <- Hr | right].
    destruct Hq as [_ Hq]. contradict Hn. by apply Hq.
  - rewrite <- Hr. auto.
  - rewrite <- Hr. auto.
Qed.

Lemma quiet_intact_trans s t s1 (X : Z → Prop) sx : ft_ok s t → quiet s s1 → intact s1 t X sx → intact s t X sx.
Proof.
  intros Hf Hq [I1 I2 I3 I4 I5]. split; auto.
  - intros x Hx. destruct (I4 x Hx) as [H1 | Hn]; [left; by rewrite <- (quiet_pages s t s1) | right].
    destruct Hq as [_ Hq]. contradict Hn. by apply Hq.
  - intros k Hk Hn. rewrite I5 by done. by apply quiet_free.
Qed.

(** A free id is within the reach of the tree. *)
Lemma free_range s t k : free s t k = true → k < keys LC (depth t).
Proof. unfold free, lookup_den. by destruct (Z.leb_spec (keys LC (depth t)) k). Qed.

(** ** Marking *)

Lemma mark_free_growing_run s t id :
  ft_ok s t → 0 ≤ id < u64_max →
  spec (λ sx, sess s t sx ∧ intact s t (λ k, k = id) sx) (mark_free_growing extend id) (s, t)
    (λ _ sx, ft_ok sx.1 sx.2 ∧ (∃ fr, changed s t fr sx) ∧
      ∀ k, 0 ≤ k → free sx.1 sx.2 k = if decide (k = id) then true else free s t k).
Proof.
  intros Hf Hid. pose proof (max_id id Hid) as Hid64. destruct (fo_root _ _ Hf) as [Hr0 Hr].
  unfold mark_free_growing. apply bind_reads. cbn [snd]. apply check_depth_ok; [apply Hf |].
  eapply spec_bind.
  { apply (ft_grow_loop_spec Hver extend Hextend MAX_DEPTH _ s t s t id); try apply Hf; [by apply ft_ok_sess | | done | lia].
    intros sx Hsx Hg. split; [done | by apply grew_intact]. }
  intros [] [s1 t1] _ (Hs1 & Hg & Hlt). pose proof Hg as [G [R0 R1] D _ _ _]. cbn [fst snd] in *.
  eapply spec_conseq; [| exact (λ _ H, H) |].
  { eapply (cow_descend_spec Hver extend Hextend _ true); [apply mark_free_ok | exact Hs1 | | apply G | done..].
    intros sx Hsx Hi. split; [done | by eapply grew_intact_trans]. }
  intros [] [s2 t2] _ [Hs2 (fr & Hc & Hk)]. cbn [fst snd] in *.
  assert (Hk' : ∀ k, 0 ≤ k → free s2 t2 k = if decide (k = id) then true else free s t k).
  { intros k Hk0. rewrite Hk by done. case_decide; [done |]. by apply (gr_den _ _ _ _ _ _ _ _ _ _ _ G). }
  pose proof (grew_changed _ _ _ _ _ _ Hg Hc) as Hcg. ands; [| by exists fr | done].
  apply (ft_ok_changed s t fr (s2, t2)); [done | done |]. intros k Hku. cbn [fst snd].
  rewrite Hk' by (unfold u64_max in *; lia). rewrite decide_False by lia. by apply Hf.
Qed.

(** ** Allocating *)

Lemma clear_bit_run s t s1 id :
  ft_ok s t → quiet s s1 → is_u64 id → free s t id = true →
  spec (λ sx, sess s t sx ∧ intact s t (λ k, k = id) sx) (clear_bit extend id) (s1, t)
    (λ _ sx, ft_ok sx.1 sx.2 ∧ (∃ fr, changed s t fr sx) ∧
      ∀ k, 0 ≤ k → free sx.1 sx.2 k = if decide (k = id) then false else free s t k).
Proof.
  intros Hf Hq Hid Hfree. destruct (fo_root _ _ Hf) as [Hr0 Hr].
  pose proof (quiet_sess s t s1 Hf Hq) as Hs1.
  eapply spec_conseq; [| exact (λ _ H, H) |].
  { eapply (cow_descend_spec Hver extend Hextend _ false); [apply clear_bit_ok | exact Hs1 | | | apply Hf | done.. |].
    - intros sx Hsx Hi. split; [done | by eapply quiet_intact_trans].
    - eapply wf_ext; [by apply quiet_frame | apply Hf].
    - by eapply free_range. }
  intros [] [s2 t2] _ [Hs2 (fr & Hc & Hk)]. cbn [fst snd] in *.
  assert (Hk' : ∀ k, 0 ≤ k → free s2 t2 k = if decide (k = id) then false else free s t k).
  { intros k Hk0. rewrite Hk by done. case_decide; [done |]. by apply quiet_free. }
  apply (quiet_changed s t s1) in Hc; [| done | done]. ands; [| by exists fr | done].
  apply (ft_ok_changed s t fr (s2, t2)); [done | done |]. intros k Hku. cbn [fst snd].
  rewrite Hk' by (unfold u64_max in *; lia). case_decide; [done |]. by apply Hf.
Qed.

(** The least free id at or above the bound. *)
Definition least_free s t (lo : Z) (r : option Z) : Prop :=
  match r with
  | Some id => lo ≤ id < u64_max ∧ free s t id = true ∧ ∀ j, lo ≤ j < id → free s t j = false
  | None => ∀ j, lo ≤ j → free s t j = false
  end.

Lemma allocate_first_run s t hint :
  ft_ok s t → is_u64 hint →
  spec (λ sx, sess s t sx.1 ∧ intact s t (λ k, free s t k = true) sx.1 ∧ is_u64 sx.2) (allocate_first extend) (s, t, hint)
    (λ r sx, least_free s t hint r ∧ ft_ok sx.1.1 sx.1.2 ∧
      match r with
      | Some id => sx.2 = id ∧ (∃ fr, changed s t fr sx.1) ∧
          ∀ k, 0 ≤ k → free sx.1.1 sx.1.2 k = if decide (k = id) then false else free s t k
      | None => quiet s sx.1.1 ∧ sx.1.2 = t ∧ sx.2 = hint
      end).
Proof.
  intros Hf Hh. unfold allocate_first. do 2 apply bind_reads. cbn [fst snd].
  eapply (bind_lift _ _ _ _ _ (λ r sx, least_free s t hint r ∧ quiet s sx.1 ∧ sx.2 = t)).
  { apply spec_lift. eapply spec_conseq; [apply (scan_from_spec s t hint); try apply Hf; done | |].
    - intros s1 Hq. ands; [by apply quiet_sess | by apply quiet_intact | done].
    - intros r s1 Hq Hr. cbn [fst snd]. by ands. }
  intros r [s1 t1] Hs1 (Hr & Hq & Ht). cbn [fst snd] in *. subst t1. destruct r as [id |].
  - destruct Hr as (Hid & Hfree & Hmin). assert (Hid64 : is_u64 id) by (destruct Hh; apply max_id; lia).
    eapply bind_lift.
    { eapply spec_conseq; [by apply (clear_bit_run s t s1 id) | | exact (λ _ _ _ H, H)].
      intros sx [Hs2 Hi]. ands; [done | | done]. eapply intact_weaken; [| exact Hi]. by intros k ->. }
    intros [] [s2 t2] (Hs2 & Hi & _) (Hf2 & Hfr & Hk). cbn [fst snd] in *.
    apply bind_writes, spec_ret; cbn [fst snd]; [by ands |]. ands; [by split | done | done | done | done].
  - apply spec_ret; [done |]. cbn [fst snd]. ands; [done | by eapply ft_ok_quiet | done | done | done].
Qed.

(** ** A fresh tree *)

Lemma create_run s :
  st_inv s →
  spec (frame s) (create extend) s (λ t s', ft_ok s' t ∧ (∀ k, 0 ≤ k → free s' t k = false) ∧
    pending_superseded t = [] ∧ depth t = 0%nat ∧ owned t = {[root t]} ∧ ¬ live s (root t)).
Proof.
  intros Hi. unfold create. eapply spec_bind.
  { apply (alloc_rule extend s s (λ n s', (¬ live s n) ∧ live s' n ∧ 0 < n < PAGE_ID_NONE)); [done | by apply frame_refl |].
    intros n s1 ? ? ? _ _. ands; done || lia. }
  intros n s1 Hf1 (Hn & Hl & Hnr).
  apply (step_modify s s1 n FreeMap.init_page); [done | done | done | apply init_leaf_wf |].
  intros p s2 [Hp _] Hf2 Ho Hv. apply spec_ret; [done |].
  assert (Hempty : empty_node false LC is_leaf is_int leaf_val 0 (stamp_checksum (FreeMap.init_page p))).
  { pose proof (fresh_empty 0 p Hp) as [Hve He]. split; [by apply Hver | exact He]. }
  destruct (fresh_node false LC is_leaf is_int leaf_val leaf_pos s2 0 n _ Hv Hempty) as (Hw & _ & Hd).
  assert (Hfree : ∀ k, 0 ≤ k → free s2 {| root := n; depth := 0; pending_superseded := []; session_owned := {[n]} |} k = false).
  { intros k Hk. rewrite free_key by done. cbn [root depth]. case_tests; [done |]. apply Hd. lia. }
  ands; try done. split; cbn [root depth pending_superseded session_owned];
    [apply Hf2 | done | lia | split; [lia | by apply new_id_u64] | |].
  - intros k Hk. apply Hfree. unfold u64_max in *. lia.
  - intros x ->%elem_of_singleton. by eapply holds_live.
Qed.
End specs.
End FreeMapTreeSpec.
