(* ===== verification/FreeMapTreeProps.v ===== *)
(** * The freemap tree: what it promises the transaction layer

    The properties of [src/freemap_tree.rs], for every store that meets the
    interface and every [extend] closure that hands out fresh pages. *)

From S2P Require Export FreeMapTreeSpec MemStore.

Module FreeMapTreeProps.
Import FreeMapTree FreeMapTreeRead FreeMapTreeWrite FreeMapTreeSpec.

Section specs.
Context {St : Type} `{HX : Xxh3} `{HF : Fault} `{HP : !PageStore St} `{HS : !StoreOk St}.
Variable extend : M St Z.
Hypothesis Hextend : alloc_ok extend.
Implicit Types (s : St) (t : FreeMapTree).

Abbreviation owned := session_owned.
Abbreviation pages s t := (reach s (depth t) (root t)).

(** What a session never does on any outcome: write a page that was live when it
    started and is not its own. *)
Definition committed_kept s t s' : Prop :=
  ∀ x, live s x → live s' x ∧ (x ∉ owned t → view s' !! x = view s !! x).

Lemma sess_kept s t sx : sess s t sx → committed_kept s t sx.1.
Proof. intros Hs x Hx. split; [by apply Hs | intros Hn; by apply (se_keep _ _ _ Hs)]. Qed.

(** The superseded pages [fr] of a successful call, against the pages of the tree
    before and after. *)
Definition superseded_ok s t s' t' (fr : list Z) : Prop :=
  pending_superseded t' = pending_superseded t ++ fr ∧ NoDup fr ∧
  (∀ x, x ∈ fr ↔ pages s t x ∧ ¬ pages s' t' x) ∧ (∀ x, x ∈ fr → x ∉ owned t) ∧
  (∀ x, pages s' t' x → pages s t x ∨ ¬ live s x).

Lemma changed_superseded s t fr s' t' : changed s t fr (s', t') → superseded_ok s t s' t' fr.
Proof.
  intros Hc. pose proof (cg_freed _ _ _ _ Hc) as Hf. unfold superseded_ok. ands; [apply Hc | apply Hc | | |].
  - intros x. split; [intros Hx; by destruct (Hf x Hx) as (? & _ & ?) |].
    intros [H1 H2]. by destruct (cg_old _ _ _ _ Hc x H1).
  - intros x Hx. by destruct (Hf x Hx) as (_ & ? & _).
  - intros x Hx. destruct (cg_new _ _ _ _ Hc x Hx) as [[? _] |]; auto.
Qed.

Definition stored (v : list Z) (H : verify_checksum v = true) : ver v := H.

Lemma run_changed s t fr sx :
  ft_inv s t → sess s t sx → ft_ok sx.1 sx.2 → changed s t fr sx → ft_inv sx.1 sx.2 ∧ ∃ fr, superseded_ok s t sx.1 sx.2 fr.
Proof.
  intros Hf Hs Ho Hc. split; [eapply ft_inv_changed; [done.. | apply Ho] |]. exists fr. destruct sx. by apply changed_superseded.
Qed.

Lemma mark_free_growing_spec s t id :
  ft_inv s t → 0 ≤ id < u64_max →
  spec (λ sx, sess s t sx ∧ intact s t (λ k, k = id) sx) (mark_free_growing extend id) (s, t)
    (λ _ sx, ft_inv sx.1 sx.2 ∧ (∃ fr, superseded_ok s t sx.1 sx.2 fr) ∧
      ∀ k, 0 ≤ k → free sx.1 sx.2 k = if decide (k = id) then true else free s t k).
Proof.
  intros Hf Hid. eapply spec_conseq; [apply (mark_free_growing_run stored extend Hextend s t id (ft_inv_ok _ _ Hf) Hid) | done |].
  intros [] sx [Hs _] (Ho & [fr Hc] & Hk). by destruct (run_changed s t fr sx).
Qed.

Lemma ft_inv_quiet s t s1 : ft_inv s t → quiet s s1 → ft_inv s1 t.
Proof.
  intros Hf Hq. pose proof (ft_inv_ok _ _ Hf) as Ho. destruct (ft_ok_quiet s t s1 Ho Hq). split; try done; [apply Hf |].
  intros x Hx. rewrite (quiet_pages s t s1) by done. destruct (fi_pending _ _ Hf x Hx) as (? & ? & ?).
  ands; [by eapply live_ext; [apply quiet_frame |] | done | done].
Qed.

Lemma allocate_first_spec s t hint :
  ft_inv s t → is_u64 hint →
  spec (λ sx, sess s t sx.1 ∧ intact s t (λ k, free s t k = true) sx.1 ∧ is_u64 sx.2) (allocate_first extend) (s, t, hint)
    (λ r sx, least_free s t hint r ∧ ft_inv sx.1.1 sx.1.2 ∧
      match r with
      | Some id => sx.2 = id ∧ (∃ fr, superseded_ok s t sx.1.1 sx.1.2 fr) ∧
          ∀ k, 0 ≤ k → free sx.1.1 sx.1.2 k = if decide (k = id) then false else free s t k
      | None => quiet s sx.1.1 ∧ sx.1.2 = t ∧ sx.2 = hint
      end).
Proof.
  intros Hf Hh. eapply spec_conseq; [apply (allocate_first_run stored extend Hextend s t hint (ft_inv_ok _ _ Hf) Hh) | done |].
  intros r [[s1 t1] h1] (Hs & _ & _) (Hl & Ho & Hr). cbn [fst snd] in *. destruct r as [id |].
  - destruct Hr as (Hh1 & [fr Hc] & Hk). by destruct (run_changed s t fr (s1, t1)).
  - destruct Hr as (Hq & Ht & Hh1). rewrite Ht in *. ands; try done. by eapply ft_inv_quiet.
Qed.
(** ** A fresh tree, and the next session *)

Lemma create_spec s :
  st_inv s →
  spec (frame s) (create extend) s (λ t s', ft_inv s' t ∧ ∀ k, 0 ≤ k → free s' t k = false).
Proof.
  intros Hi. eapply spec_conseq; [apply (create_run stored extend Hextend s Hi) | done |].
  intros t s' _ ([] & Hk & Hp & _). split; [| done].
  split; try done; rewrite Hp; [apply NoDup_nil_2 |]. intros x Hx. by apply not_elem_of_nil in Hx.
Qed.

(** [from_roots] after a commit: nothing is owned, nothing pending. *)
Lemma from_roots_inv s t :
  ft_inv s t → ft_inv s (from_roots (root t) (depth t)) ∧ ∀ k, free s (from_roots (root t) (depth t)) k = free s t k.
Proof.
  intros Hf. split; [| done]. split; try apply Hf; cbn [from_roots pending_superseded session_owned].
  - intros x Hx. by apply not_elem_of_empty in Hx.
  - apply NoDup_nil_2.
  - intros x Hx. by apply not_elem_of_nil in Hx.
Qed.

(** ** A history of calls *)

Inductive op := OpMark (id : Z) | OpAlloc (lo : Z) | OpIsFree (id : Z).
Inductive res := RUnit | RAlloc (r : option Z) | RFree (b : bool).

Definition call (o : op) : M (St * FreeMapTree * Z) res :=
  match o with
  | OpMark id => lift (mark_free_growing extend id) ;;; ret RUnit
  | OpAlloc lo => writes (λ sx, (sx.1, lo)) ;;; let* r := allocate_first extend in ret (RAlloc r)
  | OpIsFree id =>
      let* t := reads (λ sx, sx.1.2) in
      let* b := lift (lift (is_free t id)) in ret (RFree b)
  end.

Fixpoint run (ops : list op) : M (St * FreeMapTree * Z) (list res) :=
  match ops with
  | [] => ret []
  | o :: ops => let* r := call o in let* rs := run ops in ret (r :: rs)
  end.

(** The specification: a finite set of page ids. *)
Definition least_in (lo : Z) (X : gset Z) : option Z :=
  foldr (λ x acc, if lo <=? x then Some (match acc with None => x | Some y => Z.min x y end) else acc)
    None (elements X).

Definition abs_call (o : op) (X : gset Z) : res * gset Z :=
  match o with
  | OpMark id => (RUnit, {[id]} ∪ X)
  | OpAlloc lo =>
      match least_in lo X with
      | Some id => (RAlloc (Some id), X ∖ {[id]})
      | None => (RAlloc None, X)
      end
  | OpIsFree id => (RFree (bool_decide (id ∈ X)), X)
  end.

Fixpoint abs_run (ops : list op) (X : gset Z) : list res * gset Z :=
  match ops with
  | [] => ([], X)
  | o :: ops => let '(r, X1) := abs_call o X in let '(rs, X2) := abs_run ops X1 in (r :: rs, X2)
  end.

Definition op_ok (o : op) : Prop :=
  match o with OpMark id => 0 ≤ id < u64_max | OpAlloc lo => is_u64 lo | OpIsFree id => is_u64 id end.

(** The tree represents the set. *)
Definition rep s t (X : gset Z) : Prop :=
  ft_inv s t ∧ (∀ k, 0 ≤ k → free s t k = bool_decide (k ∈ X)) ∧ ∀ k, k ∈ X → 0 ≤ k.

Lemma least_list lo (xs : list Z) r :
  foldr (λ x acc, if lo <=? x then Some (match acc with None => x | Some y => Z.min x y end) else acc) None xs = r →
  match r with
  | Some id => id ∈ xs ∧ lo ≤ id ∧ ∀ x, x ∈ xs → lo ≤ x → id ≤ x
  | None => ∀ x, x ∈ xs → x < lo
  end.
Proof.
  intros <-. induction xs as [| x xs IH]; cbn [foldr]; [intros x Hx; by apply not_elem_of_nil in Hx |].
  destruct (Z.leb_spec lo x) as [Hx | Hx].
  - destruct (foldr _ None xs) as [y |].
    + destruct IH as (H1 & H2 & H3). ands; [| lia |].
      * destruct (Z.min_spec x y) as [[_ ->] | [_ ->]]; [left | by right].
      * intros z [-> | Hz]%elem_of_cons Hlo; [lia | specialize (H3 z Hz Hlo); lia].
    + ands; [left | done |]. intros z [-> | Hz]%elem_of_cons Hlo; [lia | specialize (IH z Hz); lia].
  - destruct (foldr _ None xs) as [y |].
    + destruct IH as (H1 & H2 & H3). ands; [by right | done |].
      intros z [-> | Hz]%elem_of_cons Hlo; [lia | by apply H3].
    + intros z [-> | Hz]%elem_of_cons; [done | by apply IH].
Qed.

(** The tree finds the least element of the set. *)
Lemma least_rep s t X lo r : rep s t X → 0 ≤ lo → least_free s t lo r → r = least_in lo X.
Proof.
  intros (Hf & Hk & Hp) Hlo Hr. pose proof (least_list lo (elements X) _ eq_refl) as Hl. fold (least_in lo X) in Hl.
  assert (Hin : ∀ x, lo ≤ x → free s t x = true ↔ x ∈ elements X).
  { intros x Hx. rewrite Hk, elem_of_elements by lia. apply bool_decide_eq_true. }
  destruct r as [id |], (least_in lo X) as [id' |]; cbn [least_free] in Hr; [| | | done].
  - destruct Hr as (H1 & H2 & H3), Hl as (L1 & L2 & L3). f_equal. apply Z.le_antisymm.
    + destruct (Z.le_gt_cases id id'); [done |]. rewrite <- Hin in L1 by done. rewrite H3 in L1 by lia. done.
    + apply L3; [apply Hin; [lia | done] | lia].
  - destruct Hr as (H1 & H2 & H3). rewrite Hin in H2 by lia. specialize (Hl id H2). lia.
  - destruct Hl as (L1 & L2 & L3). rewrite <- Hin in L1 by done. by rewrite Hr in L1.
Qed.

Lemma sess_trans s t s1 t1 sx : sess s t (s1, t1) → sess s1 t1 sx → sess s t sx.
Proof.
  intros [I1 L1 K1 O1 M1] [I2 L2 K2 O2 M2]. cbn [fst snd] in *. split; auto.
  - intros x Hx Hn. rewrite K2; [by apply K1 | auto |]. intros Hx1. by destruct (M1 x Hx1) as [_ [|]].
  - intros x Hx. destruct (M2 x Hx) as [H1 [H2 | H2]]; split; [done | by apply M1 | done |].
    right. contradict H2. auto.
Qed.
Lemma union_mem (X : gset Z) id k :
  bool_decide (k ∈ {[id]} ∪ X) = if decide (k = id) then true else bool_decide (k ∈ X).
Proof.
  case_decide; [apply bool_decide_eq_true | apply bool_decide_ext]; rewrite elem_of_union, elem_of_singleton; tauto.
Qed.

Lemma difference_mem (X : gset Z) id k :
  bool_decide (k ∈ X ∖ {[id]}) = if decide (k = id) then false else bool_decide (k ∈ X).
Proof.
  case_decide; [apply bool_decide_eq_false | apply bool_decide_ext]; rewrite elem_of_difference, elem_of_singleton; tauto.
Qed.

Lemma call_spec s t h X o :
  rep s t X → op_ok o →
  spec (λ sx, sess s t sx.1) (call o) (s, t, h)
    (λ r sx, r = (abs_call o X).1 ∧ rep sx.1.1 sx.1.2 (abs_call o X).2).
Proof.
  intros Hrep Ho. pose proof Hrep as (Hf & Hk & Hp). destruct o as [id | lo | id]; cbn [call op_ok abs_call] in *.
  - eapply bind_lift.
    { eapply spec_conseq; [by apply mark_free_growing_spec | by intros sx [] | exact (λ _ _ _ H, H)]. }
    intros [] [s1 t1] Hs1 (Hf1 & _ & Hk1).
    apply spec_ret; [done |]. cbn [fst snd] in *. unfold rep. ands; [done | done | |].
    + intros k Hk0. by rewrite Hk1, Hk, union_mem by done.
    + intros k [->%elem_of_singleton | ?]%elem_of_union; [lia | auto].
  - apply bind_writes. cbn [fst snd]. eapply spec_bind.
    { eapply spec_conseq; [by apply allocate_first_spec | by intros sx [] | exact (λ _ _ _ H, H)]. }
    intros r [[s1 t1] h1] Hs1 (Hl & Hf1 & Hr). cbn [fst snd] in *. apply spec_ret; [done |]. cbn [fst snd].
    rewrite <- (least_rep s t X lo r) by (done || destruct Ho; lia).
    destruct r as [id |]; cbn [fst snd]; (split; [done |]).
    + destruct Hr as (_ & _ & Hk1). unfold rep. ands; [done | |].
      * intros k Hk0. by rewrite Hk1, Hk, difference_mem by done.
      * intros k [? _]%elem_of_difference. auto.
    + destruct Hr as (Hq & -> & _). unfold rep. ands; [done | | done].
      intros k Hk0. rewrite (quiet_free s t s1) by (done || by apply ft_inv_ok). by apply Hk.
  - apply bind_reads. cbn [fst snd].
    eapply (bind_lift _ _ _ _ _ (λ b sx, b = free s t id ∧ quiet s sx.1 ∧ sx.2 = t)).
    { apply spec_lift. eapply spec_conseq; [apply (is_free_spec s t id); try apply Hf; done | |].
      - intros s1 Hq. apply quiet_sess; [by apply ft_inv_ok | done].
      - intros b s1 Hq ->. by ands. }
    intros b [s1 t1] Hs1 (-> & Hq & Ht). cbn [fst snd] in *. subst t1. apply spec_ret; [done |].
    cbn [fst snd]. rewrite Hk by (destruct Ho; lia). unfold rep. ands; [done | by eapply ft_inv_quiet | | done].
    intros k Hk0. rewrite (quiet_free s t s1) by (done || by apply ft_inv_ok). by apply Hk.
Qed.

Lemma run_spec ops s t h X :
  rep s t X → Forall op_ok ops →
  spec (λ sx, sess s t sx.1) (run ops) (s, t, h)
    (λ rs sx, rs = (abs_run ops X).1 ∧ rep sx.1.1 sx.1.2 (abs_run ops X).2).
Proof.
  revert s t h X. induction ops as [| o ops IH]; intros s t h X Hrep Hops; cbn [run abs_run].
  { apply spec_ret; [by apply ft_inv_sess, Hrep | done]. }
  apply Forall_cons in Hops as [Ho Hops]. eapply spec_bind; [by apply (call_spec s t h X o) |].
  destruct (abs_call o X) as [r1 X1]. intros r [[s1 t1] h1] Hs1 [-> Hrep1]. cbn [fst snd] in *.
  destruct (abs_run ops X1) as [rs1 X2] eqn:E.
  apply (spec_bind _ _ _ _ (λ rs sx, rs = rs1 ∧ rep sx.1.1 sx.1.2 X2)).
  - eapply spec_conseq; [apply (IH s1 t1 h1 X1 Hrep1 Hops) | |].
    + intros sx Hsx. by eapply sess_trans.
    + intros rs sx _ Hrs. by rewrite E in Hrs.
  - intros rs sx Hsx [-> Hrs]. by apply spec_ret.
Qed.

(** The hint is written last. *)
Lemma allocate_err_hint s t hint s' t' hint' e :
  allocate_first extend (s, t, hint) = (Err e, (s', t', hint')) → hint' = hint.
Proof.
  unfold allocate_first, bind, reads, lift. cbn [fst snd].
  destruct (scan_from t hint s) as [[[id |] | |] s1]; cbn [fst snd]; try (by intros [= -> -> ->]).
  destruct (clear_bit extend id (s1, t)) as [[| |] s2]; unfold writes, ret; try done; congruence.
Qed.

Lemma reachable_pages_spec s t :
  ft_inv s t → root t ≠ PAGE_ID_NONE →
  spec (quiet s) (reachable_pages t) s (λ set _, ∀ x, x ∈ set ↔ pages s t x).
Proof.
  intros Hf Hn. unfold reachable_pages. apply check_depth_ok; [apply Hf |].
  destruct (Z.eqb_spec (root t) PAGE_ID_NONE); [done |].
  eapply spec_conseq; [apply (collect_reachable_spec (depth t) s s); [apply quiet_refl, Hf | apply Hf] | done |].
  intros set s1 _ Hset x. specialize (Hset x). cbv beta in Hset. rewrite Hset. split; [intros [Hx |]; [by apply not_elem_of_empty in Hx | done] | by right].
Qed.

(** ** Claims *)

(** C20 The freemap tree is a set of page ids.  Over any history of calls that
    succeeds, marking an id free adds it, [allocate_first] removes and returns the
    least free id at or above its hint (and returns nothing, changing nothing, when
    there is none), and [is_free] is membership; the tree keeps its invariant, the
    lists of superseded pages included.  Whatever the outcome, errors in mid-call
    included, no page that was live at the start and not the session's own is
    written, and any error or panic is one that the cache or [extend] raised. *)
Theorem freemap_refines_set ops s t h X r s' t' h' :
  rep s t X → Forall op_ok ops → run ops (s, t, h) = (r, (s', t', h')) →
  committed_kept s t s' ∧
  match r with
  | Ok rs => rs = (abs_run ops X).1 ∧ rep s' t' (abs_run ops X).2
  | Err e => may_err e
  | Panic p => may_panic p
  end.
Proof.
  intros Hrep Hops E. destruct (run_spec ops s t h X Hrep Hops) as [HFr Hp]. rewrite E in *.
  split; [by apply sess_kept in HFr |]. by destruct r.
Qed.

(** C22 The accounting of [mark_free_growing].  A call that succeeds appends to
    [pending_superseded] exactly the pages of the old tree that the new tree does
    not use, each once, none of them owned by the session; every page of the new
    tree is of the old tree or was not live before.  A call that fails, at whatever
    step, leaves a tree over the old pages and fresh ones with the same free ids,
    the one it was to mark excepted. *)
Theorem mark_free_superseded s t id r s' t' :
  ft_inv s t → 0 ≤ id < u64_max → mark_free_growing extend id (s, t) = (r, (s', t')) →
  intact s t (λ k, k = id) (s', t') ∧
  match r with
  | Ok _ => ft_inv s' t' ∧ ∃ fr, superseded_ok s t s' t' fr
  | Err e => may_err e
  | Panic p => may_panic p
  end.
Proof.
  intros Hf Hid E. destruct (mark_free_growing_spec s t id Hf Hid) as [[_ Hi] Hp]. rewrite E in *.
  split; [done |]. destruct r; cbn [post fst snd] in Hp; [| done | done]. by destruct Hp as (? & ? & _).
Qed.

(** C21 [allocate_first] on every outcome: it returns the least free id at or above
    the hint, clears exactly that bit and moves the hint to it; it returns nothing
    exactly when no id is free there, and then the tree, the hint and every live
    page are as before; on an error the hint is as before; and on every outcome no
    committed page was written, and the tree is a tree over its old pages and fresh
    ones in which no id became free. *)
Theorem allocate_first_outcomes s t hint r s' t' hint' :
  ft_inv s t → is_u64 hint → allocate_first extend (s, t, hint) = (r, (s', t', hint')) →
  committed_kept s t s' ∧ intact s t (λ k, free s t k = true) (s', t') ∧
  match r with
  | Ok (Some id) => hint ≤ id < u64_max ∧ hint' = id ∧ ft_inv s' t' ∧ free s t id = true ∧
      (∀ j, hint ≤ j < id → free s t j = false) ∧ (∃ fr, superseded_ok s t s' t' fr) ∧
      ∀ k, 0 ≤ k → free s' t' k = if decide (k = id) then false else free s t k
  | Ok None => t' = t ∧ hint' = hint ∧ quiet s s' ∧ ∀ j, hint ≤ j → free s t j = false
  | Err e => may_err e ∧ hint' = hint
  | Panic p => may_panic p
  end.
Proof.
  intros Hf Hh E. destruct (allocate_first_spec s t hint Hf Hh) as [HFr Hp].
  pose proof (λ e, allocate_err_hint s t hint s' t' hint' e) as He. rewrite E in *.
  destruct HFr as (HFr & Hit & _). do 2 (split; [by apply sess_kept in HFr |]). destruct r as [[id |] | e | p]; cbn [fst snd post least_free] in *;
    [| | split; [done | by eapply He] | done].
  - destruct Hp as ((H1 & H2 & H3) & Hf' & Hh' & Hfr & Hk). ands; try done; lia.
  - destruct Hp as (Hn & _ & Hq & Ht & Hh'). by ands.
Qed.

(** [reachable_pages] is the set of the tree's pages, and the read has no
    logical effect. *)
Theorem reachable_pages_exact s t r s' :
  ft_inv s t → root t ≠ PAGE_ID_NONE → reachable_pages t s = (r, s') →
  quiet s s' ∧
  match r with
  | Ok set => ∀ x, x ∈ set ↔ pages s t x
  | Err e => may_err e
  | Panic p => may_panic p
  end.
Proof. intros Hf Hn E. destruct (reachable_pages_spec s t Hf Hn) as [HFr Hp]. rewrite E in *. by destruct r. Qed.
(** The guards of the descents.  A depth beyond [MAX_DEPTH] (a damaged
    superblock) is refused as corruption of the root by every operation before any
    page is read; an id beyond the tree's capacity reads as not free, and is
    refused as corruption by the write path instead of aliasing a lower id. *)
Theorem descent_guards s t id hint :
  ((MAX_DEPTH < depth t)%nat →
    is_free t id s = (Err (CorruptPage (root t)), s) ∧
    reachable_pages t s = (Err (CorruptPage (root t)), s) ∧
    mark_free_growing extend id (s, t) = (Err (CorruptPage (root t)), (s, t)) ∧
    allocate_first extend (s, t, hint) = (Err (CorruptPage (root t)), (s, t, hint))) ∧
  ((depth t ≤ MAX_DEPTH)%nat → is_u64 id → keys LC (depth t) ≤ id →
    is_free t id s = (Ok false, s) ∧
    mark_free extend id (s, t) = (Err (CorruptPage (root t)), (s, t)) ∧
    clear_bit extend id (s, t) = (Err (CorruptPage (root t)), (s, t))).
Proof.
  split.
  - intros Hd. apply Nat.ltb_lt in Hd.
    unfold is_free, find_leaf, reachable_pages, mark_free_growing, allocate_first, scan_from, check_depth,
      bind, reads, lift. cbn [fst snd]. by rewrite Hd.
  - intros Hd Hid Hk. unfold is_free, find_leaf, mark_free, clear_bit, cow_descend, bind, reads. cbn [snd].
    rewrite ft_capacity_cut by done. unfold check_depth.
    destruct (Nat.ltb_spec MAX_DEPTH (depth t)); [lia |]. destruct (Z.leb_spec (keys LC (depth t)) id); [done | lia].
Qed.
End specs.
(** ** Examples on the reference store *)

Definition demo_tree : FreeMapTree :=
  {| root := 1; depth := 0; pending_superseded := []; session_owned := {[1]} |}.
Definition demo_store : MemStore := (create ps_new_page mem_empty).2.

Lemma demo_created : (create ps_new_page mem_empty).1 = Ok demo_tree.
Proof. by vm_compute. Qed.

Lemma demo_rep : rep demo_store demo_tree ∅.
Proof.
  destruct (create_spec ps_new_page new_page_alloc_ok mem_empty mem_empty_inv) as [_ Hp].
  rewrite demo_created in Hp. destruct Hp as [Hf Hk]. unfold rep. ands; [exact Hf | |].
  - intros k Hk0. rewrite bool_decide_eq_false_2 by apply not_elem_of_empty. by apply Hk.
  - intros k Hk0. by apply not_elem_of_empty in Hk0.
Qed.

(** The tree as the next transaction opens it: the first write copies the root. *)
Definition demo_reopened : FreeMapTree := from_roots 1 0.

Lemma demo_rep2 : rep demo_store demo_reopened ∅.
Proof.
  destruct demo_rep as (Hf & Hk & Hp). destruct (from_roots_inv _ _ Hf) as [Hf' Hk'].
  unfold rep. ands; [exact Hf' | | exact Hp]. intros k Hk0. etrans; [apply Hk' | by apply Hk].
Qed.

Definition demo_ops : list op :=
  [OpMark 9; OpMark 5; OpIsFree 9; OpAlloc 6; OpIsFree 9; OpMark 70000; OpIsFree 70000].

Lemma freemap_refines_set_witness :
  (run ps_new_page demo_ops (demo_store, demo_reopened, 0)).1 =
    Ok [RUnit; RUnit; RFree true; RAlloc (Some 9); RFree false; RUnit; RFree true].
Proof.
  assert (Hok : is_ok (run ps_new_page demo_ops (demo_store, demo_reopened, 0)).1 = true) by by vm_compute.
  destruct (run _ _ _) as [r [[s' t'] h']] eqn:E. cbn [fst] in *. destruct r as [rs | |]; [| done..].
  assert (Hops : Forall op_ok demo_ops) by (unfold demo_ops; repeat constructor; done).
  destruct (freemap_refines_set ps_new_page new_page_alloc_ok _ _ _ _ _ _ _ _ _ demo_rep2 Hops E) as [_ [-> _]].
  by vm_compute.
Defined.

Lemma mark_free_superseded_witness :
  match mark_free_growing ps_new_page 77 (demo_store, demo_reopened) with
  | (Ok _, (s', t')) => ft_inv s' t' ∧ ∃ fr, superseded_ok demo_store demo_reopened s' t' fr
  | _ => False
  end.
Proof.
  assert (Hok : is_ok (mark_free_growing ps_new_page 77 (demo_store, demo_reopened)).1 = true) by by vm_compute.
  destruct (mark_free_growing _ _ _) as [r [s' t']] eqn:E. cbn [fst] in Hok. destruct r as [[] | |]; [| done..].
  apply (mark_free_superseded ps_new_page new_page_alloc_ok demo_store demo_reopened 77 (Ok tt) s' t');
    [apply demo_rep2 | by split | exact E].
Defined.

(** Ids 5 and 9 marked free. *)
Definition demo_marked := run ps_new_page [OpMark 9; OpMark 5] (demo_store, demo_reopened, 0).

Lemma demo_rep3 : rep demo_marked.2.1.1 demo_marked.2.1.2 {[5; 9]}.
Proof.
  assert (Hok : is_ok demo_marked.1 = true) by by vm_compute.
  assert (Hops : Forall op_ok [OpMark 9; OpMark 5]) by (repeat constructor; done).
  destruct (run_spec ps_new_page new_page_alloc_ok [OpMark 9; OpMark 5] demo_store demo_reopened 0 ∅ demo_rep2 Hops) as [_ Hp].
  fold demo_marked in Hp. destruct demo_marked as [r [[s' t'] h']]. cbn [fst snd] in *. destruct r as [rs | |]; [| done..].
  destruct Hp as [_ Hp]. cbn [abs_run abs_call snd fst] in Hp.
  replace ({[5]} ∪ ({[9]} ∪ ∅)) with ({[5; 9]} : gset Z) in Hp by (by vm_compute). exact Hp.
Qed.

Lemma allocate_first_outcomes_witness :
  match allocate_first ps_new_page (demo_marked.2.1.1, demo_marked.2.1.2, 6) with
  | (Ok (Some id), (s', t', hint')) => id = 9 ∧ hint' = 9 ∧ free s' t' 9 = false ∧ free s' t' 5 = true
  | _ => False
  end.
Proof.
  destruct demo_rep3 as (Hf & Hk & _).
  assert (Hok : (allocate_first ps_new_page (demo_marked.2.1.1, demo_marked.2.1.2, 6)).1 = Ok (Some 9)) by by vm_compute.
  destruct (allocate_first _ _) as [r [[s' t'] hint']] eqn:E. cbn [fst] in Hok. subst r.
  assert (Hu : is_u64 6) by by split.
  destruct (allocate_first_outcomes ps_new_page new_page_alloc_ok _ _ _ _ _ _ _ Hf Hu E)
    as (_ & _ & _ & Hh & _ & _ & _ & _ & Hk').
  ands; [done | done | by rewrite Hk' | rewrite Hk' by done]. by rewrite Hk.
Defined.

Lemma reachable_pages_exact_witness :
  match reachable_pages demo_reopened demo_store with
  | (Ok set, _) => 1 ∈ set
  | _ => False
  end.
Proof.
  assert (Hok : is_ok (reachable_pages demo_reopened demo_store).1 = true) by by vm_compute.
  destruct (reachable_pages _ _) as [r s'] eqn:E. cbn [fst] in Hok. destruct r as [set | |]; [| done..].
  destruct demo_rep2 as (Hf & _). assert (Hn : root demo_reopened ≠ PAGE_ID_NONE) by done.
  destruct (reachable_pages_exact demo_store demo_reopened _ _ Hf Hn E) as [_ Hset]. by apply Hset.
Defined.

Lemma descent_guards_witness :
  mark_free ps_new_page 70000 (demo_store, demo_reopened) = (Err (CorruptPage 1), (demo_store, demo_reopened)).
Proof.
  destruct (descent_guards ps_new_page demo_store demo_reopened 70000 0) as [_ H].
  apply H; [cbn; lia | by split | by vm_compute].
Defined.
End FreeMapTreeProps.
