(* ===== verification/Overflow.v ===== *)
(** * Overflow chains ([src/overflow.rs])

    A value too long for a data page is written to a singly linked chain of
    pages: the value's length at byte 16, the next page (0 at the end) at byte 24
    and 8152 bytes of payload from byte 32. *)

From S2P Require Export Store MemStore.

(** [usize::div_ceil] *)
Definition div_ceil (a b : Z) : Z := (a + b - 1) / b.

Module Overflow.

Definition OVERFLOW_HEADER_END : Z := 32.
Definition OVERFLOW_PAYLOAD : Z := CHECKSUM_OFFSET - OVERFLOW_HEADER_END.

(** The bytes [write] puts in one page, before the checksum. *)
Definition fill_page (total_length next_page : Z) (chunk buf : list Z) : list Z :=
  let buf := zeros (zlen buf) in
  let buf := setb 0 (type_tag OverflowPage) buf in
  let buf := setb 1 (current_version OverflowPage) buf in
  let buf := put_u64 16 total_length buf in
  let buf := put_u64 24 next_page buf in
  splice OVERFLOW_HEADER_END chunk buf.

Section ops.
Context {St : Type} `{HX : Xxh3} `{HP : !PageStore St}.

(** [for _ in 0..num_pages { page_ids.push(cache.new_page()?) }] *)
Fixpoint alloc_pages (num_pages : nat) : M St (list Z) :=
  match num_pages with
  | O => ret []
  | S n =>
      let* page_id := ps_new_page in
      let* page_ids := alloc_pages n in
      ret (page_id :: page_ids)
  end.

(** The second loop of [write], from page [i] of the chain on. *)
Fixpoint write_pages (value : list Z) (i : Z) (page_ids : list Z) : M St unit :=
  match page_ids with
  | [] => ret tt
  | page_id :: rest =>
      let start := i * OVERFLOW_PAYLOAD in
      let end_ := Z.min (start + OVERFLOW_PAYLOAD) (zlen value) in
      let chunk := slice start (end_ - start) value in
      let next_page := default 0 (head rest) in
      ps_modify page_id (λ buf, stamp_checksum (fill_page (zlen value) next_page chunk buf)) ;;;
      write_pages value (i + 1) rest
  end.

Definition write (value : list Z) : M St Z :=
  assert_that PanicAssert (negb (zlen value =? 0)) ;;;
  let num_pages := div_ceil (zlen value) OVERFLOW_PAYLOAD in
  let* page_ids := alloc_pages (Z.to_nat num_pages) in
  write_pages value 0 page_ids ;;;
  match page_ids with
  | [] => crash PanicSlice
  | first :: _ => ret first
  end.

(** The checks on the first page that [read] and [collect_chain_pages] share:
    its type, a length that is not 0, and the length the file can hold. *)
Definition check_first (first_page : Z) : M St Z :=
  let* buf := ps_get first_page in
  if negb (getb 0 buf =? type_tag OverflowPage) then fail (CorruptPage first_page) else
  let total_length := get_u64 16 buf in
  if total_length =? 0 then fail (CorruptPage first_page) else
  let* next_page_id := reads ps_next_page_id in
  let ceiling := sat_mul next_page_id OVERFLOW_PAYLOAD in
  if ceiling <? total_length then fail (CorruptPage first_page) else
  ret total_length.

(** The loop of [read]; [budget] is [max_pages - pages_visited]. *)
Fixpoint read_loop (first_page total_length : Z) (budget : nat) (current_page : Z) (result : list Z)
    : M St (list Z) :=
  match budget with
  | O => fail (CorruptPage first_page)
  | S budget =>
      let* buf := ps_get current_page in
      if negb (getb 0 buf =? type_tag OverflowPage) then fail (CorruptPage current_page) else
      let next_page := get_u64 24 buf in
      let remaining := sat_sub total_length (zlen result) in
      if remaining =? 0 then fail (CorruptPage current_page) else
      let chunk_len := Z.min remaining OVERFLOW_PAYLOAD in
      let result := result ++ slice OVERFLOW_HEADER_END chunk_len buf in
      if next_page =? 0 then ret result else
      read_loop first_page total_length budget next_page result
  end.

Definition read (first_page : Z) : M St (list Z) :=
  let* total_length := check_first first_page in
  let max_pages := div_ceil total_length OVERFLOW_PAYLOAD in
  let* result := read_loop first_page total_length (Z.to_nat max_pages) first_page [] in
  if negb (zlen result =? total_length) then fail (CorruptPage first_page) else
  ret result.

(** The loop of [collect_chain_pages]; [budget] is [max_pages - freed.len()]. *)
Fixpoint collect_loop (first_page : Z) (budget : nat) (current_page : Z) (freed : list Z)
    : M St (list Z) :=
  match budget with
  | O => fail (CorruptPage first_page)
  | S budget =>
      let* buf := ps_get current_page in
      if negb (getb 0 buf =? type_tag OverflowPage) then fail (CorruptPage current_page) else
      let next_page := get_u64 24 buf in
      let freed := freed ++ [current_page] in
      if next_page =? 0 then ret freed else
      collect_loop first_page budget next_page freed
  end.

Definition collect_chain_pages (first_page : Z) : M St (list Z) :=
  let* total_length := check_first first_page in
  let max_pages := div_ceil total_length OVERFLOW_PAYLOAD in
  collect_loop first_page (Z.to_nat max_pages) first_page [].
End ops.
End Overflow.

Module OverflowFacts.
Import Overflow.

Abbreviation PAY := OVERFLOW_PAYLOAD.

Lemma payload_8152 : PAY = 8152.
Proof. done. Qed.

Lemma fill_page_wf total next chunk p :
  wf_page p → bytes_ok chunk → zlen chunk ≤ PAY → wf_page (fill_page total next chunk p).
Proof.
  intros [Hl _] Hb Hc. rewrite payload_8152 in Hc. unfold fill_page, OVERFLOW_HEADER_END. cbv zeta.
  rewrite Hl. change (zeros PAGE_SIZE) with zero_page.
  apply wf_splice; [eauto 12 with chisel | done | done | plia].
Qed.

Section chain.
Context {St : Type} `{HX : Xxh3} `{HF : Fault} `{HP : !PageStore St} `{HS : !StoreOk St}.
Implicit Types (s : St).

(** The pages [ids] hold [value], one payload each, linked in order. *)
Fixpoint chain s (total : Z) (ids value : list Z) : Prop :=
  match ids with
  | [] => value = []
  | id :: rest =>
      value ≠ [] ∧ id ≠ 0 ∧
      (∃ v, holds s id v ∧ getb 0 v = type_tag OverflowPage ∧ get_u64 16 v = total ∧
        get_u64 24 v = default 0 (head rest) ∧
        slice OVERFLOW_HEADER_END (Z.min (zlen value) PAY) v = slice 0 (Z.min (zlen value) PAY) value) ∧
      chain s total rest (drop (Z.to_nat PAY) value)
  end.

Lemma chain_ext s s' total ids value : ext s s' → chain s total ids value → chain s' total ids value.
Proof.
  intros He. revert value. induction ids as [| id rest IH]; intros value; [done |]. cbn [chain].
  intros (H1 & H2 & (v & Hv & Hf) & H3). ands; auto. exists v. split; [by eapply holds_ext | done].
Qed.

Lemma div_ceil_0 b : 0 < b → div_ceil 0 b = 0.
Proof. intros. unfold div_ceil. apply Z.div_small. lia. Qed.

Lemma div_ceil_pos n b : 0 < b → 0 < n → div_ceil n b = 1 + div_ceil (Z.max 0 (n - b)) b.
Proof.
  intros Hb Hn. unfold div_ceil. destruct (Z.le_gt_cases b n).
  - rewrite Z.max_r by lia. replace (n + b - 1) with (n - b + b - 1 + 1 * b) by lia.
    rewrite Z.div_add by lia. lia.
  - rewrite Z.max_l by lia. rewrite (Z.div_small (0 + b - 1)) by lia.
    replace (n + b - 1) with (n - 1 + 1 * b) by lia. rewrite Z.div_add, Z.div_small by lia. lia.
Qed.

Lemma div_ceil_nonneg n b : 0 < b → 0 ≤ n → 0 ≤ div_ceil n b.
Proof. intros. apply Z.div_pos; lia. Qed.

Lemma zlen_drop_pay (value : list Z) : zlen (drop (Z.to_nat PAY) value) = Z.max 0 (zlen value - PAY).
Proof. rewrite payload_8152. unfold zlen. rewrite length_drop. lia. Qed.

Lemma zlen_pos (value : list Z) : value ≠ [] ↔ 0 < zlen value.
Proof. unfold zlen. destruct value; simpl; split; intros; try done; lia. Qed.

Lemma slice_drop o n k (l : list Z) : 0 ≤ o → 0 ≤ k → slice o n (drop (Z.to_nat k) l) = slice (k + o) n l.
Proof. intros. unfold slice. rewrite drop_drop. do 2 f_equal. lia. Qed.

(** What [write] put in a page comes back. *)
Lemma fill_page_fields total next chunk p :
  wf_page p → bytes_ok chunk → zlen chunk ≤ PAY → is_u64 total → is_u64 next →
  let v := stamp_checksum (fill_page total next chunk p) in
  getb 0 v = type_tag OverflowPage ∧ get_u64 16 v = total ∧ get_u64 24 v = next ∧
  slice OVERFLOW_HEADER_END (zlen chunk) v = chunk.
Proof.
  intros Hp Hb Hc Ht Hn. pose proof (fill_page_wf total next chunk p Hp Hb Hc) as Hw. cbv zeta.
  pose proof (body_stamp _ Hw) as Hbody. rewrite payload_8152 in Hc.
  pose proof (zlen_nonneg chunk). unfold OVERFLOW_HEADER_END in *.
  rewrite (body_getb 0 _ _ Hbody), !(body_get_le _ _ _ _ Hbody), (body_slice _ _ _ _ Hbody) by (done || plia).
  clear Hw Hbody. unfold fill_page, OVERFLOW_HEADER_END. cbv zeta. destruct Hp as [-> _].
  change (zeros PAGE_SIZE) with zero_page. ands.
  - by fields_by ltac:(solve [page_side | plia]).
  - by fields_by ltac:(solve [page_side | plia]).
  - by fields_by ltac:(solve [page_side | plia]).
  - rewrite slice_splice_same; [done | done | | done].
    assert (Hw : wf_page (put_u64 24 next (put_u64 16 total (setb 1 (current_version OverflowPage)
      (setb 0 (type_tag OverflowPage) zero_page))))) by eauto 12 with chisel.
    destruct Hw as [-> _]. plia.
Qed.

(** ** Writing *)

Lemma alloc_pages_spec n s0 s :
  frame s0 s →
  spec (frame s0) (alloc_pages n) s (λ ids s',
    length ids = n ∧ NoDup ids ∧ ext s s' ∧
    ∀ id, id ∈ ids → ¬ live s id ∧ live s' id ∧ 0 < id < PAGE_ID_NONE).
Proof.
  revert s. induction n as [| n IH]; intros s Hf; cbn [alloc_pages].
  - apply spec_ret; [done |]. ands; [done | constructor | done | set_solver].
  - apply step_new_page; [done |]. intros id s1 Hn Hl Hr Hf1 He1.
    eapply spec_bind; [by apply IH |]. intros ids s2 Hf2 (Hlen & Hnd & He2 & Hids).
    apply spec_ret; [done |]. ands.
    + simpl. by rewrite Hlen.
    + constructor; [| done]. intros Hin. by destruct (Hids id Hin).
    + by etrans.
    + intros j [-> | Hj]%elem_of_cons; [ands; auto; [by eapply live_ext | lia | lia] |].
      destruct (Hids j Hj) as (H1 & H2 & H3). ands; [| done | lia | lia].
      contradict H1. by eapply live_ext.
Qed.

(** The chunk of page [i], relative to what is left of the value. *)
Lemma chunk_eq value i :
  0 ≤ i → i * PAY ≤ zlen value →
  let rest := drop (Z.to_nat (i * PAY)) value in
  slice (i * PAY) (Z.min (i * PAY + PAY) (zlen value) - i * PAY) value =
    slice 0 (Z.min (zlen rest) PAY) rest.
Proof.
  intros Hi Hle rest. assert (0 < PAY) by (rewrite payload_8152; lia).
  assert (zlen rest = zlen value - i * PAY) as ->.
  { subst rest. unfold zlen in *. rewrite length_drop. lia. }
  subst rest. rewrite slice_drop by lia. f_equal; lia.
Qed.

Lemma write_pages_spec ids value i s0 s :
  let rest := drop (Z.to_nat (i * PAY)) value in
  frame s0 s → NoDup ids →
  (∀ id, id ∈ ids → ¬ live s0 id ∧ live s id ∧ 0 < id < PAGE_ID_NONE) →
  bytes_ok value → is_u64 (zlen value) → 0 ≤ i → i * PAY ≤ zlen value ∨ rest = [] →
  Z.of_nat (length ids) = div_ceil (zlen rest) PAY →
  spec (frame s0) (write_pages value i ids) s (λ _ s',
    chain s' (zlen value) ids rest ∧ (∀ j v, j ∉ ids → holds s j v → holds s' j v) ∧
    ∀ j, live s' j ↔ live s j).
Proof.
  assert (Hpay : 0 < PAY) by (rewrite payload_8152; lia).
  revert i s. induction ids as [| id ids IH]; intros i s rest Hf Hnd Hids Hb Hu Hi Hle Hlen.
  - apply spec_ret; [done |]. ands; [| done | done]. cbn [chain].
    destruct (decide (rest = [])) as [| Hne]; [done |]. apply zlen_pos in Hne.
    rewrite div_ceil_pos in Hlen by done. simpl in Hlen.
    pose proof (div_ceil_nonneg (Z.max 0 (zlen rest - PAY)) PAY Hpay ltac:(lia)). lia.
  - assert (Hne : rest ≠ []).
    { intros E. rewrite E in Hlen. change (zlen []) with 0 in Hlen. rewrite div_ceil_0 in Hlen by done. simpl in Hlen. lia. }
    destruct Hle as [Hle | ?]; [| done]. pose proof (proj1 (zlen_pos rest) Hne) as Hpos.
    assert (Hzr : zlen rest = zlen value - i * PAY).
    { subst rest. unfold zlen in *. rewrite length_drop. lia. }
    cbn [write_pages]. rewrite chunk_eq by done. fold rest.
    set (chunk := slice 0 (Z.min (zlen rest) PAY) rest).
    assert (Hcl : zlen chunk = Z.min (zlen rest) PAY) by (apply length_slice; lia).
    assert (Hcb : bytes_ok chunk) by (by apply Forall_take, Forall_drop, Forall_drop).
    destruct (Hids id ltac:(left)) as (Hn & Hl & Hr). inversion Hnd as [| ? ? Hni Hnd']; subst.
    apply (step_modify s0 s); [done | done | done | |].
    { intros p Hp. apply fill_page_wf; [done | done | lia]. }
    assert (Hnext : is_u64 (default 0 (head ids))).
    { destruct ids as [| j ids]; [done |]. simpl. destruct (Hids j) as (_ & _ & ?); [right; left |].
      unfold is_u64, PAGE_ID_NONE, u64_max in *. lia. }
    intros p s1 [Hp _] Hf1 Ho Hh.
    destruct (fill_page_fields (zlen value) (default 0 (head ids)) chunk p) as (F1 & F2 & F3 & F4);
      [done | done | lia | done | done |].
    assert (Hrest : drop (Z.to_nat ((i + 1) * PAY)) value = drop (Z.to_nat PAY) rest).
    { subst rest. rewrite drop_drop. f_equal. lia. }
    eapply spec_conseq; [apply (IH (i + 1) s1); auto; try lia | done |].
    + intros j Hj. destruct (Hids j) as (? & ? & ?); [by right |]. ands; auto; try lia. by apply (Ho j).
    + rewrite Hrest. destruct (Z.le_gt_cases ((i + 1) * PAY) (zlen value)); [by left | right].
      apply drop_ge. unfold zlen in *. lia.
    + rewrite Hrest, zlen_drop_pay. rewrite div_ceil_pos in Hlen by done. simpl in Hlen. lia.
    + intros [] s2 Hf2 (Hc & Hk & Hlv). rewrite Hrest in Hc. ands.
      * cbn [chain]. ands; [done | lia | | done]. eexists. split; [by apply Hk |].
        rewrite Hcl in F4. ands; done.
      * intros j v Hj Hv. apply not_elem_of_cons in Hj as [Hj1 Hj2]. apply Hk; [done |].
        eapply only_at_holds; [done | done | done].
      * intros j. rewrite Hlv. apply (Ho j).
Qed.

Lemma write_spec value s :
  st_inv s → bytes_ok value → value ≠ [] → is_u64 (zlen value) →
  spec (frame s) (write value) s (λ first s', ∃ ids,
    head ids = Some first ∧ chain s' (zlen value) ids value ∧ NoDup ids ∧
    Z.of_nat (length ids) = div_ceil (zlen value) PAY ∧
    ∀ id, id ∈ ids → ¬ live s id ∧ live s' id).
Proof.
  intros Hi Hb Hne Hu. pose proof (proj1 (zlen_pos _) Hne) as Hpos. unfold write.
  apply bind_assert; [| by apply frame_refl |].
  { apply negb_true_iff, Z.eqb_neq. lia. }
  eapply spec_bind; [apply alloc_pages_spec; by apply frame_refl |].
  intros ids s1 Hf1 (Hlen & Hnd & He1 & Hids).
  assert (Hpay : 0 < PAY) by (rewrite payload_8152; lia).
  pose proof (div_ceil_nonneg (zlen value) PAY Hpay ltac:(lia)).
  eapply spec_bind; [apply (write_pages_spec ids value 0 s s1); auto; try lia |].
  { simpl. rewrite drop_0. lia. }
  intros [] s2 Hf2 (Hc & _ & Hl). simpl in Hc. rewrite drop_0 in Hc.
  destruct ids as [| first ids]; [by destruct Hc |].
  apply spec_ret; [done |]. exists (first :: ids). ands; [done | done | done | lia |].
  intros id Hid. destruct (Hids id Hid) as (? & ? & _). split; [done | by apply Hl].
Qed.

(** ** Reading *)

Lemma chain_size s total ids value :
  chain s total ids value →
  Z.of_nat (length ids) = div_ceil (zlen value) PAY ∧ zlen value ≤ Z.of_nat (length ids) * PAY.
Proof.
  assert (Hpay : 0 < PAY) by (rewrite payload_8152; lia).
  revert value. induction ids as [| id ids IH]; intros value; cbn [chain].
  - intros ->. change (zlen []) with 0. by rewrite div_ceil_0.
  - intros (Hne%zlen_pos & _ & _ & Hc). destruct (IH _ Hc) as [H1 H2].
    rewrite zlen_drop_pay in *. rewrite (div_ceil_pos (zlen value)) by done.
    cbn [length]. lia.
Qed.

Lemma chain_live s total ids value id : chain s total ids value → id ∈ ids → live s id.
Proof.
  revert value. induction ids as [| j ids IH]; intros value; cbn [chain]; [set_solver |].
  intros (_ & _ & (v & Hv & _) & Hc) [-> | Hin]%elem_of_cons; [by eapply holds_live | eauto].
Qed.

Lemma check_first_spec s0 s ids value first :
  quiet s0 s → chain s0 (zlen value) ids value → NoDup ids → head ids = Some first →
  is_u64 (zlen value) →
  spec (quiet s0) (check_first first) s (λ r _, r = zlen value).
Proof.
  intros Hq Hc Hnd Hhd Hu. destruct ids as [| j ids]; [done |]. injection Hhd as ->.
  pose proof Hc as (Hne%zlen_pos & _ & (v & Hv & Ht & Hl & _) & _). unfold check_first.
  apply (bind_read s0 s first v); [done | done |]. intros p s1 Hp Hb Hq1.
  rewrite (body_getb 0 p v), (body_get_le 8 16 p v), Ht, Hl, Z.eqb_refl by (done || plia). cbn [negb].
  destruct (Z.eqb_spec (zlen value) 0); [lia |]. apply bind_reads. cbv zeta.
  assert (Hlt : zlen (first :: ids) ≤ ps_next_page_id s1).
  { assert (Hin : ∀ x, x ∈ first :: ids → 0 ≤ x < ps_next_page_id s1).
    { intros x Hx. destruct Hq1 as [Hi1 Hs1]. apply live_next; [done |]. apply (Hs1 x).
      by eapply chain_live. }
    apply nodup_range; [| done | done]. pose proof (Hin first ltac:(left)). lia. }
  destruct (chain_size _ _ _ _ Hc) as [_ Hsz]. rewrite payload_8152 in Hsz.
  unfold zlen in Hlt. unfold sat_mul, u64_max, is_u64 in *. rewrite payload_8152.
  destruct (Z.ltb_spec (Z.min (ps_next_page_id s1 * 8152) (2 ^ 64 - 1)) (zlen value)); [lia |].
  by apply spec_ret.
Qed.

Lemma read_loop_spec ids first total current result rest s0 s :
  quiet s0 s → chain s0 total ids rest → head ids = Some current → total = zlen result + zlen rest →
  spec (quiet s0) (read_loop first total (length ids) current result) s (λ r _, r = result ++ rest).
Proof.
  revert current result rest s. induction ids as [| id ids IH]; intros current result rest s; [done |].
  intros Hq (Hne%zlen_pos & Hid & (v & Hv & Ht & Hl & Hn & Hsl) & Hc) [= ->] Htot.
  cbn [length read_loop]. apply (bind_read s0 s current v); [done | done |]. intros p s1 Hp Hb Hq1.
  rewrite (body_getb 0 p v), (body_get_le 8 24 p v), Ht, Hn, Z.eqb_refl by (done || plia). cbn [negb].
  assert (Hrem : sat_sub total (zlen result) = zlen rest) by (unfold sat_sub; lia).
  rewrite Hrem. destruct (Z.eqb_spec (zlen rest) 0); [lia |].
  rewrite (body_slice _ _ p v), Hsl by (rewrite ?payload_8152; unfold OVERFLOW_HEADER_END; done || plia).
  assert (Hchunk : slice 0 (Z.min (zlen rest) PAY) rest = take (Z.to_nat PAY) rest).
  { unfold slice. rewrite drop_0. destruct (Z.le_gt_cases PAY (zlen rest)).
    - by rewrite Z.min_r.
    - rewrite Z.min_l by lia. unfold zlen in *. rewrite !take_ge by lia. done. }
  rewrite Hchunk. destruct ids as [| next ids].
  - cbn [head default]. simpl default. apply spec_ret; [done |]. cbn [chain] in Hc. f_equal.
    rewrite <- (take_drop (Z.to_nat PAY) rest) at 2. by rewrite Hc, app_nil_r.
  - simpl (default 0 (head (next :: ids))). pose proof Hc as (_ & Hnz & _).
    destruct (Z.eqb_spec next 0); [done |]. eapply spec_conseq; [eapply IH; eauto | done |].
    + rewrite zlen_app, zlen_drop_pay. unfold zlen in *. rewrite length_take.
      rewrite payload_8152. lia.
    + intros r s2 _ ->. by rewrite <- app_assoc, take_drop.
Qed.

Lemma read_spec s0 s ids value first :
  quiet s0 s → chain s0 (zlen value) ids value → NoDup ids → head ids = Some first →
  is_u64 (zlen value) →
  spec (quiet s0) (read first) s (λ r _, r = value).
Proof.
  intros Hq Hc Hnd Hhd Hu. unfold read. eapply spec_bind; [by eapply check_first_spec |].
  intros total s1 Hq1 ->. destruct (chain_size _ _ _ _ Hc) as [<- _]. rewrite Nat2Z.id.
  eapply spec_bind; [eapply (read_loop_spec ids first (zlen value) first [] value); eauto |].
  intros r s2 Hq2 ->. simpl app. rewrite Z.eqb_refl. by apply spec_ret.
Qed.

Lemma collect_loop_spec ids first total current freed rest s0 s :
  quiet s0 s → chain s0 total ids rest → head ids = Some current →
  spec (quiet s0) (collect_loop first (length ids) current freed) s (λ r _, r = freed ++ ids).
Proof.
  revert current freed rest s. induction ids as [| id ids IH]; intros current freed rest s; [done |].
  intros Hq (_ & Hid & (v & Hv & Ht & Hl & Hn & _) & Hc) [= ->].
  cbn [length collect_loop]. apply (bind_read s0 s current v); [done | done |]. intros p s1 Hp Hb Hq1.
  rewrite (body_getb 0 p v), (body_get_le 8 24 p v), Ht, Hn, Z.eqb_refl by (done || plia). cbn [negb].
  destruct ids as [| next ids]; [by apply spec_ret |]. simpl (default 0 (head (next :: ids))).
  pose proof Hc as (_ & Hnz & _). destruct (Z.eqb_spec next 0); [done |].
  eapply spec_conseq; [eapply IH; eauto | done |]. intros r s2 _ ->. by rewrite <- app_assoc.
Qed.

Lemma collect_spec s0 s ids value first :
  quiet s0 s → chain s0 (zlen value) ids value → NoDup ids → head ids = Some first →
  is_u64 (zlen value) →
  spec (quiet s0) (collect_chain_pages first) s (λ r _, r = ids).
Proof.
  intros Hq Hc Hnd Hhd Hu. unfold collect_chain_pages.
  eapply spec_bind; [by eapply check_first_spec |].
  intros total s1 Hq1 ->. destruct (chain_size _ _ _ _ Hc) as [<- _]. rewrite Nat2Z.id.
  eapply spec_conseq; [eapply collect_loop_spec; eauto | done |]. done.
Qed.
End chain.
End OverflowFacts.

(** ** Properties *)

Module OverflowProps.
Import Overflow OverflowFacts.

(** ** Chains that are not what [write] left *)

Section corrupt.
Context {St : Type} `{HX : Xxh3} `{HF : Fault} `{HP : !PageStore St} `{HS : !StoreOk St}.
Hypothesis Hcorrupt : ∀ id, may_err (CorruptPage id).
Implicit Types (s : St).

Lemma check_first_any s0 s first :
  quiet s0 s →
  spec (quiet s0) (check_first first) s
    (λ r s', 0 < r ≤ ps_next_page_id s' * PAY).
Proof.
  intros Hq. unfold check_first. apply step_get; [done |]. intros p s1 Hp _ Hq1.
  destruct (negb _); [by apply spec_fail |].
  destruct (Z.eqb_spec (get_u64 16 p) 0); [by apply spec_fail |]. apply bind_reads. cbv zeta.
  destruct (Z.ltb_spec (sat_mul (ps_next_page_id s1) PAY) (get_u64 16 p)) as [| Hle]; [by apply spec_fail |].
  apply spec_ret; [done |]. destruct Hp as [_ Hb]. pose proof (get_le_u64 16 p Hb).
  unfold sat_mul, is_u64 in *. lia.
Qed.

Lemma read_loop_any first total budget current result s0 s :
  quiet s0 s → spec (quiet s0) (read_loop first total budget current result) s (λ r _, True).
Proof.
  revert current result s. induction budget as [| n IH]; intros current result s Hq; [by apply spec_fail |].
  cbn [read_loop]. apply step_get; [done |]. intros p s1 Hp _ Hq1.
  repeat (destruct (negb _); [by apply spec_fail |]).
  destruct (_ =? 0); [by apply spec_fail |]. destruct (_ =? 0); [by apply spec_ret | by apply IH].
Qed.

Lemma collect_loop_any first budget current freed s0 s :
  quiet s0 s → spec (quiet s0) (collect_loop first budget current freed) s
    (λ r _, (length r ≤ length freed + budget)%nat).
Proof.
  revert current freed s. induction budget as [| n IH]; intros current freed s Hq; [by apply spec_fail |].
  cbn [collect_loop]. apply step_get; [done |]. intros p s1 Hp _ Hq1.
  destruct (negb _); [by apply spec_fail |]. destruct (_ =? 0).
  - apply spec_ret; [done |]. rewrite length_app. simpl. lia.
  - eapply spec_conseq; [by apply IH | done |]. intros r s2 _ Hr. rewrite length_app in Hr. simpl in Hr. lia.
Qed.

Lemma read_any s first :
  st_inv s →
  spec (quiet s) (read first) s (λ r _, 0 < zlen r).
Proof.
  intros Hi. unfold read. eapply spec_bind; [apply check_first_any; by apply quiet_refl |].
  intros total s1 Hq1 [Ht _]. eapply spec_bind; [by apply read_loop_any |]. intros r s2 Hq2 _.
  destruct (Z.eqb_spec (zlen r) total); simpl negb; [apply spec_ret; [done | cbv beta; lia] | by apply spec_fail].
Qed.
End corrupt.

Section props.
Context {St : Type} `{HX : Xxh3} `{HF : Fault} `{HP : !PageStore St} `{HS : !StoreOk St}.
Implicit Types (s : St).

(** C27 A value written by [write] is what [read] returns, in the state [write]
    left and in every later one that kept the live pages; the write itself leaves
    every live page as it was and fails only where the cache does. *)
Theorem write_read_roundtrip value s r s' :
  st_inv s → bytes_ok value → value ≠ [] → is_u64 (zlen value) →
  write value s = (r, s') →
  ext s s' ∧
  match r with
  | Ok first => ∀ s1 r1 s2, st_inv s1 → ext s' s1 → read first s1 = (r1, s2) →
      match r1 with
      | Ok bytes => bytes = value
      | Err e => may_err e
      | Panic p => may_panic p
      end
  | Err e => may_err e
  | Panic p => may_panic p
  end.
Proof.
  intros Hi Hb Hne Hu E. destruct (write_spec value s Hi Hb Hne Hu) as [[_ He] Hp].
  rewrite E in *. split; [done |]. destruct r as [first | |]; [| done..].
  destruct Hp as (ids & Hhd & Hc & Hnd & _). intros s1 r1 s2 Hi1 He1 E1.
  assert (Hc1 : chain s1 (zlen value) ids value) by (by eapply chain_ext).
  destruct (read_spec s1 s1 ids value first (quiet_refl _ Hi1) Hc1 Hnd Hhd Hu) as [_ Hr].
  rewrite E1 in Hr. by destruct r1.
Qed.

(** [collect_chain_pages] of a written value lists exactly the pages the write
    allocated for it: as many as the payload needs, all distinct, none live
    before, starting with the head. *)
Theorem collect_written value s first s' r s2 :
  st_inv s → bytes_ok value → value ≠ [] → is_u64 (zlen value) →
  write value s = (Ok first, s') → st_inv s' →
  collect_chain_pages first s' = (r, s2) →
  same view live s' s2 ∧
  match r with
  | Ok ids => head ids = Some first ∧ NoDup ids ∧ zlen ids = div_ceil (zlen value) PAY ∧
      ∀ id, id ∈ ids → ¬ live s id ∧ live s' id
  | Err e => may_err e
  | Panic p => may_panic p
  end.
Proof.
  intros Hi Hb Hne Hu E Hi' E2. destruct (write_spec value s Hi Hb Hne Hu) as [_ Hp].
  rewrite E in Hp. destruct Hp as (ids & Hhd & Hc & Hnd & Hlen & Hids).
  destruct (collect_spec s' s' ids value first (quiet_refl _ Hi') Hc Hnd Hhd Hu) as [[_ Hq] Hr].
  rewrite E2 in *. split; [done |]. destruct r; [| done..]. cbn [post fst] in Hr. subst a. ands; auto.
Qed.

End props.

(** A value of two pages on the reference store. *)
Definition demo_value : list Z := replicate (Z.to_nat 9000) 7.

Lemma demo_value_ok : bytes_ok demo_value ∧ demo_value ≠ [] ∧ is_u64 (zlen demo_value).
Proof.
  ands; [by apply Forall_replicate | | by split].
  apply zlen_pos. by vm_compute.
Qed.

Definition demo_write := write demo_value mem_empty.

Lemma demo_write_ok : demo_write.1 = Ok 1.
Proof. by vm_compute. Qed.

Lemma demo_write_inv : st_inv demo_write.2.
Proof.
  destruct demo_value_ok as (Hb & Hne & Hu).
  by destruct (write_spec demo_value mem_empty mem_empty_inv Hb Hne Hu) as [[Hi _] _].
Qed.

Lemma write_read_roundtrip_witness : (read 1 demo_write.2).1 = Ok demo_value.
Proof.
  destruct demo_value_ok as (Hb & Hne & Hu). pose proof demo_write_ok as Hok.
  pose proof demo_write_inv as Hi. destruct demo_write as [r s'] eqn:E. cbn [fst snd] in *. subst r.
  destruct (write_read_roundtrip demo_value mem_empty _ _ mem_empty_inv Hb Hne Hu E) as [_ H].
  assert (Hrd : match (read 1 demo_write.2).1 with Ok _ => True | _ => False end) by by vm_compute.
  rewrite E in Hrd. cbn [snd] in Hrd.
  destruct (read 1 s') as [r1 s2] eqn:E1. cbn [fst] in *. specialize (H s' r1 s2 Hi (reflexivity _) E1).
  destruct r1; [by rewrite H | done | done].
Defined.

Lemma collect_written_witness :
  match collect_chain_pages 1 demo_write.2 with
  | (Ok ids, _) => head ids = Some 1 ∧ zlen ids = 2
  | _ => False
  end.
Proof.
  destruct demo_value_ok as (Hb & Hne & Hu). pose proof demo_write_ok as Hok.
  pose proof demo_write_inv as Hi.
  assert (Hrd : match (collect_chain_pages 1 demo_write.2).1 with Ok _ => True | _ => False end)
    by by vm_compute.
  destruct demo_write as [r s'] eqn:E. cbn [fst snd] in *. subst r.
  destruct (collect_chain_pages 1 s') as [r1 s2] eqn:E1. cbn [fst] in *.
  destruct (collect_written demo_value mem_empty 1 s' r1 s2 mem_empty_inv Hb Hne Hu E Hi E1) as [_ H].
  destruct r1; [| done | done]. destruct H as (H1 & _ & H2 & _). split; [done |]. rewrite H2. by vm_compute.
Defined.

End OverflowProps.
