(* ===== verification/CryptoHeader.v ===== *)
(** * The encryption header of a superblock ([src/superblock/crypto_header.rs])

    Eight key slots, each the data-encryption key wrapped under a key derived from
    a user key, at a fixed offset of the superblock page.  [unlock] tries the
    active slots in order; [wrap_into] fills one, with the salt and the nonce it
    draws as arguments.  [overwrite_slot_table] is in [Superblock.v], since it
    reads the superblock first. *)

From S2P Require Export Crypto.

Module CryptoHeader.

Definition KEY_SLOT_COUNT : Z := 8.
Definition KEY_SLOT_SIZE : Z := 128.
Definition KEY_SLOT_ACTIVE : Z := 1.
Definition CRYPTO_HEADER_OFFSET : Z := 324.
Definition CRYPTO_HEADER_SIZE : Z := 8 + KEY_SLOT_COUNT * KEY_SLOT_SIZE.
Definition SLOT_TABLE_OFFSET : Z := CRYPTO_HEADER_OFFSET + 8.
Definition ALGO_XCHACHA20POLY1305 : Z := 1.

Record KeySlot := {
  state : Z;
  kdf_id : Z;
  argon2 : Argon2Params;
  salt : list Z;
  wrap_nonce : list Z;
  wrapped_dek : list Z;
  wrap_tag : list Z
}.

Definition EMPTY : KeySlot := {|
  state := 0;
  kdf_id := 0;
  argon2 := {| m_cost := 0; t_cost := 0; p_cost := 0 |};
  salt := zeros SALT_LEN;
  wrap_nonce := zeros NONCE_LEN;
  wrapped_dek := zeros DEK_LEN;
  wrap_tag := zeros TAG_LEN
|}.

Definition is_active (s : KeySlot) : bool := state s =? KEY_SLOT_ACTIVE.

Definition aad (s : KeySlot) : list Z :=
  let a := zeros (1 + 1 + 12 + SALT_LEN + NONCE_LEN) in
  let a := setb 0 (state s) a in
  let a := setb 1 (kdf_id s) a in
  let a := put_u32 2 (m_cost (argon2 s)) a in
  let a := put_u32 6 (t_cost (argon2 s)) a in
  let a := put_u32 10 (p_cost (argon2 s)) a in
  let a := splice 14 (salt s) a in
  splice (14 + SALT_LEN) (wrap_nonce s) a.

(** [slot] is the 128-byte window of the superblock page. *)
Definition write_into (s : KeySlot) (slot : list Z) : list Z :=
  let slot := setb 0 (state s) slot in
  let slot := setb 1 (kdf_id s) slot in
  let slot := put_u32 2 (m_cost (argon2 s)) slot in
  let slot := put_u32 6 (t_cost (argon2 s)) slot in
  let slot := put_u32 10 (p_cost (argon2 s)) slot in
  let slot := splice 14 (salt s) slot in
  let slot := splice 30 (wrap_nonce s) slot in
  let slot := splice 54 (wrapped_dek s) slot in
  splice 86 (wrap_tag s) slot.

Definition read_from (slot : list Z) : KeySlot := {|
  state := getb 0 slot;
  kdf_id := getb 1 slot;
  argon2 := {| m_cost := get_u32 2 slot; t_cost := get_u32 6 slot; p_cost := get_u32 10 slot |};
  salt := slice 14 SALT_LEN slot;
  wrap_nonce := slice 30 NONCE_LEN slot;
  wrapped_dek := slice 54 DEK_LEN slot;
  wrap_tag := slice 86 TAG_LEN slot
|}.

Record CryptoHeader := { algorithm : Z; stride : Z; slots : list KeySlot }.

(** [slot.write_into(&mut buf[base..base + KEY_SLOT_SIZE])] *)
Definition write_slot (base : Z) (s : KeySlot) (buf : list Z) : list Z :=
  splice base (write_into s (slice base KEY_SLOT_SIZE buf)) buf.

Definition read_slot (base : Z) (buf : list Z) : KeySlot :=
  read_from (slice base KEY_SLOT_SIZE buf).

Definition write_slots : Z → list KeySlot → list Z → list Z := write_array write_slot KEY_SLOT_SIZE.
Definition read_slots : Z → nat → list Z → list KeySlot := read_array read_slot KEY_SLOT_SIZE.

Definition serialize_into (self : CryptoHeader) (buf : list Z) : list Z :=
  let buf := setb CRYPTO_HEADER_OFFSET (algorithm self) buf in
  let buf := put_u32 (CRYPTO_HEADER_OFFSET + 1) (stride self) buf in
  write_slots SLOT_TABLE_OFFSET (slots self) buf.

Definition deserialize (buf : list Z) : option CryptoHeader :=
  let algorithm := getb CRYPTO_HEADER_OFFSET buf in
  if algorithm =? 0 then None else
  Some {| algorithm := algorithm;
          stride := get_u32 (CRYPTO_HEADER_OFFSET + 1) buf;
          slots := read_slots SLOT_TABLE_OFFSET (Z.to_nat KEY_SLOT_COUNT) buf |}.

Definition active_count (self : CryptoHeader) : Z := zlen (filter (λ s, is_active s = true) (slots self)).

(** [self.slots.iter().position(|s| !s.is_active())] *)
Definition free_slot (self : CryptoHeader) : option nat :=
  fst <$> list_find (λ s, is_active s = false) (slots self).

Section crypto.
Context `{HC : Primitives}.

(** The loop of [unlock], from slot [i] on. *)
Fixpoint unlock_loop (key : Key) (i : nat) (slots : list KeySlot) : outcome (nat * list Z) :=
  match slots with
  | [] => Err InvalidEncryptionKey
  | slot :: rest =>
      if negb (is_active slot) then unlock_loop key (S i) rest else
      let try_kdf kdf :=
        match Crypto.derive_kek key kdf (salt slot) (argon2 slot) with
        | CErr _ => unlock_loop key (S i) rest
        | CPanic p => Panic p
        | COk kek =>
            match Crypto.unwrap_dek kek (wrapped_dek slot) (wrap_tag slot) (wrap_nonce slot) (aad slot) with
            | COk dek => Ok (i, dek)
            | CErr _ => unlock_loop key (S i) rest
            | CPanic p => Panic p
            end
        end in
      if kdf_id slot =? kdf_tag Hkdf then try_kdf Hkdf
      else if kdf_id slot =? kdf_tag Argon2id then try_kdf Argon2id
      else unlock_loop key (S i) rest
  end.

Definition unlock (self : CryptoHeader) (key : Key) : outcome (nat * list Z) :=
  unlock_loop key 0 (slots self).

Definition wrap_into (self : CryptoHeader) (slot : nat) (key : Key) (dek : list Z)
    (argon2_override : option Argon2Params) (rnd_salt rnd_nonce : list Z)
    : cresult CryptoHeader :=
  let '(kdf, params) :=
    match key with
    | Raw _ => (Hkdf, {| m_cost := 0; t_cost := 0; p_cost := 0 |})
    | Passphrase _ => (Argon2id, default Argon2Params_default argon2_override)
    end in
  let s := {| state := KEY_SLOT_ACTIVE; kdf_id := kdf_tag kdf; argon2 := params;
              salt := rnd_salt; wrap_nonce := rnd_nonce;
              wrapped_dek := zeros DEK_LEN; wrap_tag := zeros TAG_LEN |} in
  match Crypto.derive_kek key kdf (salt s) (argon2 s) with
  | CErr e => CErr e
  | CPanic p => CPanic p
  | COk kek =>
      let '(wrapped, tag) := Crypto.wrap_dek kek dek (wrap_nonce s) (aad s) in
      let s := {| state := state s; kdf_id := kdf_id s; argon2 := argon2 s; salt := salt s;
                  wrap_nonce := wrap_nonce s; wrapped_dek := wrapped; wrap_tag := tag |} in
      if negb (slot <? length (slots self))%nat then CPanic PanicSlice else
      COk {| algorithm := algorithm self; stride := stride self; slots := <[slot := s]> (slots self) |}
  end.
End crypto.
End CryptoHeader.

Module CryptoHeaderFacts.
Import CryptoHeader.

Definition u32_params (p : Argon2Params) : Prop := is_u32 (m_cost p) ∧ is_u32 (t_cost p) ∧ is_u32 (p_cost p).

(** What the Rust types say of a slot and of a header. *)
Definition slot_ok (s : KeySlot) : Prop :=
  is_u8 (state s) ∧ is_u8 (kdf_id s) ∧ u32_params (argon2 s) ∧ array SALT_LEN (salt s) ∧
  array NONCE_LEN (wrap_nonce s) ∧ array DEK_LEN (wrapped_dek s) ∧ array TAG_LEN (wrap_tag s).

Definition header_ok (h : CryptoHeader) : Prop :=
  is_u8 (algorithm h) ∧ is_u32 (stride h) ∧ zlen (slots h) = KEY_SLOT_COUNT ∧ Forall slot_ok (slots h).

(** Fields of a buffer of a known length. *)
Ltac len_side :=
  unfold SALT_LEN, NONCE_LEN, DEK_LEN, TAG_LEN, KEY_SLOT_SIZE, is_u32, is_u8 in *;
  repeat first [rewrite zlen_splice | rewrite zlen_put_le | rewrite zlen_setb];
  change (Z.of_nat 4) with 4; change (Z.of_nat 8) with 8; change (256 ^ 4) with (2 ^ 32); lia.

Lemma zlen_write_into s slot :
  slot_ok s → zlen slot = KEY_SLOT_SIZE → zlen (write_into s slot) = KEY_SLOT_SIZE.
Proof.
  intros (_ & _ & _ & [H1 _] & [H2 _] & [H3 _] & [H4 _]) Hl. unfold write_into. cbv zeta. len_side.
Qed.

(** Reads through the writes to a buffer of a known length. *)
Ltac buf_fields :=
  repeat first
    [ rewrite slice_splice_same by len_side
    | rewrite slice_splice_out by len_side
    | rewrite get_splice_out by len_side
    | rewrite get_put_same by len_side
    | rewrite get_put_other by len_side
    | rewrite getb_splice_out by len_side
    | rewrite getb_put_other by len_side
    | rewrite getb_setb_same by len_side
    | rewrite getb_setb_other by len_side ].

(** A slot written to a window is the slot read from it. *)
Lemma read_write_into s slot :
  slot_ok s → zlen slot = KEY_SLOT_SIZE → read_from (write_into s slot) = s.
Proof.
  intros (Hs & Hk & (Hm & Ht & Hp) & [H1 _] & [H2 _] & [H3 _] & [H4 _]) Hl.
  destruct s as [st kd [m t p] sa wn wd wt]. unfold read_from, write_into. cbv zeta.
  cbn [state kdf_id argon2 salt wrap_nonce wrapped_dek wrap_tag m_cost t_cost p_cost] in *.
  unfold SALT_LEN, NONCE_LEN, DEK_LEN, TAG_LEN, KEY_SLOT_SIZE in *.
  by buf_fields.
Qed.

(** ** The slot table *)

Lemma write_slot_len base s buf :
  slot_ok s → 0 ≤ base → base + KEY_SLOT_SIZE ≤ zlen buf → zlen (write_slot base s buf) = zlen buf.
Proof.
  intros Hs Hb Hl. unfold write_slot.
  assert (Hw : zlen (write_into s (slice base KEY_SLOT_SIZE buf)) = KEY_SLOT_SIZE).
  { apply zlen_write_into; [done |]. by apply length_slice. }
  by rewrite zlen_splice by (rewrite ?Hw; done).
Qed.

Lemma write_slot_out base s buf off n :
  slot_ok s → 0 ≤ base → base + KEY_SLOT_SIZE ≤ zlen buf → 0 ≤ off → 0 ≤ n →
  off + n ≤ base ∨ base + KEY_SLOT_SIZE ≤ off →
  slice off n (write_slot base s buf) = slice off n buf.
Proof.
  intros Hs Hb Hl Ho Hn Hd. unfold write_slot.
  assert (Hw : zlen (write_into s (slice base KEY_SLOT_SIZE buf)) = KEY_SLOT_SIZE).
  { apply zlen_write_into; [done |]. by apply length_slice. }
  by apply slice_splice_out; rewrite ?Hw.
Qed.

Lemma read_write_slot base s buf :
  slot_ok s → 0 ≤ base → base + KEY_SLOT_SIZE ≤ zlen buf → read_slot base (write_slot base s buf) = s.
Proof.
  intros Hs Hb Hl. unfold read_slot, write_slot.
  assert (Hz : zlen (slice base KEY_SLOT_SIZE buf) = KEY_SLOT_SIZE) by by apply length_slice.
  pose proof (zlen_write_into s _ Hs Hz) as Hw.
  rewrite slice_splice_same by (rewrite ?Hw; done). by apply read_write_into.
Qed.

Lemma read_slot_slice base buf buf' :
  0 ≤ base → slice base KEY_SLOT_SIZE buf = slice base KEY_SLOT_SIZE buf' →
  read_slot base buf = read_slot base buf'.
Proof. intros _ He. unfold read_slot. by rewrite He. Qed.

Lemma zlen_write_slots xs base buf :
  Forall slot_ok xs → 0 ≤ base → base + zlen xs * KEY_SLOT_SIZE ≤ zlen buf →
  zlen (write_slots base xs buf) = zlen buf.
Proof. intros. by apply (zlen_write_array write_slot _ slot_ok); auto using write_slot_len. Qed.

Lemma write_slots_out xs base buf off n :
  Forall slot_ok xs → 0 ≤ base → base + zlen xs * KEY_SLOT_SIZE ≤ zlen buf → 0 ≤ off → 0 ≤ n →
  off + n ≤ base ∨ base + zlen xs * KEY_SLOT_SIZE ≤ off →
  slice off n (write_slots base xs buf) = slice off n buf.
Proof.
  intros. by apply (write_array_out write_slot _ slot_ok); auto using write_slot_len, write_slot_out.
Qed.

Lemma read_write_slots xs base buf :
  Forall slot_ok xs → 0 ≤ base → base + zlen xs * KEY_SLOT_SIZE ≤ zlen buf →
  read_slots base (length xs) (write_slots base xs buf) = xs.
Proof.
  intros. by apply (read_write_array write_slot read_slot _ slot_ok);
    auto using write_slot_len, write_slot_out, read_write_slot, read_slot_slice.
Qed.

(** The header covers bytes 324 to 1356 of the page and touches nothing else. *)
Lemma serialize_into_out h buf off n :
  header_ok h → zlen buf = PAGE_SIZE → 0 ≤ off → 0 ≤ n →
  off + n ≤ CRYPTO_HEADER_OFFSET ∨ CRYPTO_HEADER_OFFSET + CRYPTO_HEADER_SIZE ≤ off →
  slice off n (serialize_into h buf) = slice off n buf.
Proof.
  intros (Ha & Hs & Hn & Hk) Hl Ho Hn0 Hd. unfold serialize_into. cbv zeta.
  unfold CRYPTO_HEADER_SIZE, SLOT_TABLE_OFFSET, CRYPTO_HEADER_OFFSET, KEY_SLOT_COUNT, KEY_SLOT_SIZE, PAGE_SIZE in *.
  set (b1 := setb 324 (algorithm h) buf).
  assert (L1 : zlen b1 = 8192) by (subst b1; rewrite zlen_setb; lia).
  assert (L2 : zlen (put_u32 325 (stride h) b1) = 8192) by (rewrite zlen_put_le; lia).
  rewrite write_slots_out; [| done | lia | | done | done |];
    [| change KEY_SLOT_SIZE with 128; change (324 + 1) with 325; lia
     | change KEY_SLOT_SIZE with 128; lia].
  unfold put_le. rewrite slice_splice_out; [| done | done | lia | |];
    [| rewrite zlen_le_encode; change (324 + 1) with 325; lia | rewrite zlen_le_encode; lia].
  unfold b1, setb. rewrite slice_splice_out; [done | done | done | lia | |];
    change (zlen [algorithm h]) with 1; lia.
Qed.

Lemma zlen_serialize_into h buf :
  header_ok h → zlen buf = PAGE_SIZE → zlen (serialize_into h buf) = PAGE_SIZE.
Proof.
  intros (Ha & Hs & Hn & Hk) Hl. unfold serialize_into. cbv zeta.
  unfold SLOT_TABLE_OFFSET, CRYPTO_HEADER_OFFSET, KEY_SLOT_COUNT, PAGE_SIZE in *.
  assert (L1 : zlen (setb 324 (algorithm h) buf) = 8192) by (rewrite zlen_setb; lia).
  assert (L2 : zlen (put_u32 (324 + 1) (stride h) (setb 324 (algorithm h) buf)) = 8192)
    by (rewrite zlen_put_le; lia).
  rewrite zlen_write_slots; [done | done | done |]. rewrite L2, Hn. done.
Qed.

Lemma write_into_bytes s slot : slot_ok s → bytes_ok slot → bytes_ok (write_into s slot).
Proof.
  intros (Hs & Hk & _ & [_ H1] & [_ H2] & [_ H3] & [_ H4]) Hb. unfold write_into. cbv zeta.
  repeat (apply bytes_ok_splice; [done |]). by repeat (apply bytes_ok_put || (apply bytes_ok_setb; [done |])).
Qed.

Lemma write_slots_bytes xs base buf :
  Forall slot_ok xs → bytes_ok buf → bytes_ok (write_slots base xs buf).
Proof.
  intros Hx. revert base buf. induction Hx as [| x xs Hx _ IH]; intros base buf Hb; [done |].
  apply IH. apply bytes_ok_splice; [| done]. apply write_into_bytes; [done |].
  by apply Forall_take, Forall_drop.
Qed.

Lemma serialize_into_wf h buf : header_ok h → wf_page buf → wf_page (serialize_into h buf).
Proof.
  intros Hh [Hl Hb]. split; [by apply zlen_serialize_into |]. destruct Hh as (Ha & _ & _ & Hk).
  apply write_slots_bytes; [done |]. apply bytes_ok_put. by apply bytes_ok_setb.
Qed.

(** Reads below the slot table go to the two header fields. *)
Lemma write_slots_getb xs buf :
  Forall slot_ok xs → zlen xs = KEY_SLOT_COUNT → zlen buf = PAGE_SIZE → ∀ i,
  0 ≤ i < SLOT_TABLE_OFFSET → getb i (write_slots SLOT_TABLE_OFFSET xs buf) = getb i buf.
Proof.
  intros Hx Hn Hl i Hi. unfold SLOT_TABLE_OFFSET, CRYPTO_HEADER_OFFSET, KEY_SLOT_COUNT, PAGE_SIZE in *.
  assert (Hz : zlen (write_slots (324 + 8) xs buf) = 8192).
  { rewrite zlen_write_slots; [done | done | done |]. unfold KEY_SLOT_SIZE. lia. }
  assert (He : slice i 1 (write_slots (324 + 8) xs buf) = slice i 1 buf).
  { apply write_slots_out; [done | done | | lia | done |]; unfold KEY_SLOT_SIZE; lia. }
  rewrite !getb_slice in He by lia. congruence.
Qed.

Lemma deserialize_serialize h buf :
  header_ok h → wf_page buf → algorithm h ≠ 0 → deserialize (serialize_into h buf) = Some h.
Proof.
  intros (Ha & Hs & Hn & Hk) [Hl Hb] Hne. unfold deserialize, serialize_into. cbv zeta.
  set (b2 := put_u32 (CRYPTO_HEADER_OFFSET + 1) (stride h) (setb CRYPTO_HEADER_OFFSET (algorithm h) buf)).
  unfold CRYPTO_HEADER_OFFSET, KEY_SLOT_COUNT in *.
  assert (L1 : zlen (setb 324 (algorithm h) buf) = PAGE_SIZE) by (rewrite zlen_setb; rewrite ?Hl; done).
  assert (L2 : zlen b2 = PAGE_SIZE) by (subst b2; rewrite zlen_put_le; rewrite ?L1; done).
  assert (G0 : getb 324 b2 = algorithm h).
  { unfold b2. rewrite getb_put_other by (rewrite ?L1; done || (left; done)).
    apply getb_setb_same. rewrite Hl. done. }
  assert (G1 : get_u32 (324 + 1) b2 = stride h).
  { unfold b2. apply get_put_same; rewrite ?L1; done. }
  rewrite write_slots_getb by (done || unfold SLOT_TABLE_OFFSET, CRYPTO_HEADER_OFFSET; lia).
  rewrite G0. destruct (Z.eqb_spec (algorithm h) 0); [done |].
  assert (G2 : get_u32 (324 + 1) (write_slots SLOT_TABLE_OFFSET (slots h) b2) = stride h).
  { unfold get_le. rewrite write_slots_out; [exact G1 | done | done | | done | done |].
    - rewrite L2, Hn. done.
    - left. done. }
  rewrite G2. assert (Z.to_nat 8 = length (slots h)) as -> by (unfold zlen in Hn; lia).
  rewrite read_write_slots; [by destruct h | done | done |]. rewrite L2, Hn. done.
Qed.

(** ** Unlocking *)

Section unlock.
Context `{HC : Primitives}.

(** What [unlock] makes of one slot. *)
Definition open_slot (key : Key) (s : KeySlot) : outcome (nat * list Z) := unlock_loop key 0 [s].

Lemma unlock_loop_cons key i s rest :
  unlock_loop key i (s :: rest) =
    match open_slot key s with
    | Ok (_, dek) => Ok (i, dek)
    | Panic p => Panic p
    | Err _ => unlock_loop key (S i) rest
    end.
Proof.
  unfold open_slot. cbn [unlock_loop]. destruct (negb (is_active s)); [done |]. cbv zeta.
  repeat case_match; simplify_eq; done.
Qed.

Lemma open_slot_cases key s :
  slot_ok s → (∃ dek, open_slot key s = Ok (0%nat, dek) ∧ array DEK_LEN dek) ∨
    open_slot key s = Err InvalidEncryptionKey.
Proof.
  intros (_ & _ & _ & _ & _ & [Hw _] & _). unfold open_slot. cbn [unlock_loop].
  destruct (negb (is_active s)); [by right |]. cbv zeta.
  assert (Hu : ∀ kek, (∃ dek, Crypto.unwrap_dek kek (wrapped_dek s) (wrap_tag s) (wrap_nonce s) (aad s)
      = COk dek ∧ array DEK_LEN dek) ∨
    Crypto.unwrap_dek kek (wrapped_dek s) (wrap_tag s) (wrap_nonce s) (aad s) = CErr Auth).
  { intros kek. unfold Crypto.unwrap_dek, Crypto.open_detached.
    destruct (aead_decrypt _ _ _ _ _) as [pt |] eqn:E; [| by right].
    apply aead_opened in E. rewrite Hw in E. pose proof E as [-> _]. left. by exists pt. }
  destruct (kdf_id s =? kdf_tag Hkdf); [| destruct (kdf_id s =? kdf_tag Argon2id); [| by right]];
    (unfold Crypto.derive_kek; repeat case_match; simplify_eq; auto;
     match goal with H : Crypto.unwrap_dek ?k _ _ _ _ = _ |- _ =>
       destruct (Hu k) as [(dek & Hd & Ha) | Hd]; rewrite Hd in H; simplify_eq; eauto end).
Qed.
End unlock.

End CryptoHeaderFacts.

(** ** Properties *)

Module CryptoHeaderProps.
Import CryptoHeader CryptoHeaderFacts CryptoProps.

Section props.
Context `{HC : Primitives}.

(** The encryption header round trips through a superblock page: written over
    any page it reads back as itself, and it changes no byte outside its own
    range, which the sealed body and the plain fields rely on. *)
Theorem header_roundtrip h buf :
  header_ok h → wf_page buf → algorithm h ≠ 0 →
  deserialize (serialize_into h buf) = Some h ∧
  ∀ off n, 0 ≤ off → 0 ≤ n →
    off + n ≤ CRYPTO_HEADER_OFFSET ∨ CRYPTO_HEADER_OFFSET + CRYPTO_HEADER_SIZE ≤ off →
    slice off n (serialize_into h buf) = slice off n buf.
Proof.
  intros Hh Hb Ha. split; [by apply deserialize_serialize |].
  intros off n Ho Hn Hd. apply serialize_into_out; auto. apply Hb.
Qed.

Lemma wrap_into_slot self slot key dek ov rs rn h' :
  array DEK_LEN dek → wrap_into self slot key dek ov rs rn = COk h' →
  (slot < length (slots self))%nat ∧
  ∃ s, slots h' = <[slot := s]> (slots self) ∧ open_slot key s = Ok (0%nat, dek).
Proof.
  intros [Hl Hb]. unfold wrap_into.
  destruct (match key with Raw _ => _ | _ => _ end) as [kdf params] eqn:Ek. cbn [salt argon2 wrap_nonce].
  destruct (Crypto.derive_kek key kdf rs params) as [kek | |] eqn:Ed; [| done | done].
  unfold Crypto.wrap_dek. destruct (CryptoProps.seal_open_detached kek rn
    (aad {| state := KEY_SLOT_ACTIVE; kdf_id := kdf_tag kdf; argon2 := params; salt := rs;
            wrap_nonce := rn; wrapped_dek := zeros DEK_LEN; wrap_tag := zeros TAG_LEN |}) dek Hb)
    as (ct & tag & -> & _ & _ & Ho).
  destruct (Nat.ltb_spec slot (length (slots self))); [| done]. cbn [negb]. intros [= <-].
  split; [done |]. eexists. split; [done |].
  unfold open_slot. cbn [unlock_loop is_active state kdf_id salt argon2 wrapped_dek wrap_tag wrap_nonce].
  change (KEY_SLOT_ACTIVE =? KEY_SLOT_ACTIVE) with true. cbn [negb]. cbv zeta.
  assert (Hu : Crypto.unwrap_dek kek ct tag rn (aad {| state := KEY_SLOT_ACTIVE; kdf_id := kdf_tag kdf;
    argon2 := params; salt := rs; wrap_nonce := rn; wrapped_dek := ct; wrap_tag := tag |}) = COk dek).
  { unfold Crypto.unwrap_dek, aad in *. cbn [state kdf_id argon2 salt wrap_nonce] in *. rewrite Ho.
    by rewrite Hl. }
  destruct kdf; simpl (_ =? _); by rewrite Ed, Hu.
Qed.

Lemma unlock_prefix key slot i xs s dek :
  (slot < length xs)%nat → Forall slot_ok xs → open_slot key s = Ok (0%nat, dek) →
  ∃ j d, unlock_loop key i (<[slot := s]> xs) = Ok (j, d) ∧ (i ≤ j ≤ i + slot)%nat ∧
    ((∀ k x, (k < slot)%nat → xs !! k = Some x → open_slot key x = Err InvalidEncryptionKey) →
      j = (i + slot)%nat ∧ d = dek).
Proof.
  revert i slot. induction xs as [| x xs IH]; intros i slot Hs Hok Ho; [simpl in Hs; lia |].
  inversion Hok as [| ? ? Hx Hxs]; subst. destruct slot as [| slot].
  - simpl insert. rewrite unlock_loop_cons, Ho. exists i, dek. ands; [done | lia | lia |].
    intros _. split; [lia | done].
  - simpl (insert (S slot) s (x :: xs)). rewrite unlock_loop_cons.
    destruct (open_slot_cases key x Hx) as [(d & Hd & _) | Hd]; rewrite Hd.
    + exists i, d. ands; [done | lia | lia |]. intros Hk. specialize (Hk 0%nat x ltac:(lia) eq_refl).
      congruence.
    + destruct (IH (S i) slot) as (j & d & Hj & Hr & Hlast); [simpl in Hs; lia | done | done |].
      exists j, d. ands; [done | lia | lia |]. intros Hk. destruct Hlast as [-> ->].
      { intros k y Hks Hy. apply (Hk (S k) y); [lia | done]. }
      split; [lia | done].
Qed.

(** C33 A key wrapped into a slot unlocks the header: [unlock] returns the
    data-encryption key from that slot, unless an earlier active slot opens with
    the same key, in which case it returns that one's; it never panics, and the
    other slots (other users' keys) are as they were. *)
Theorem unlock_after_wrap self slot key dek ov rs rn h' :
  header_ok self → array DEK_LEN dek →
  wrap_into self slot key dek ov rs rn = COk h' →
  (∃ j d, unlock h' key = Ok (j, d) ∧ (j ≤ slot)%nat) ∧
  ((∀ k x, (k < slot)%nat → slots self !! k = Some x → open_slot key x = Err InvalidEncryptionKey) →
    unlock h' key = Ok (slot, dek)) ∧
  ∀ k, k ≠ slot → slots h' !! k = slots self !! k.
Proof.
  intros (_ & _ & _ & Hok) Hd Hw. destruct (wrap_into_slot _ _ _ _ _ _ _ _ Hd Hw) as (Hs & s & Es & Ho).
  unfold unlock. rewrite Es.
  destruct (unlock_prefix key slot 0 (slots self) s dek Hs Hok Ho) as (j & d & Hj & Hr & Hl).
  ands.
  - exists j, d. split; [done | lia].
  - intros Hk. destruct (Hl Hk) as [-> ->]. done.
  - intros k Hk. by rewrite list_lookup_insert_ne.
Qed.
End props.

(** A header with no key yet. *)
Definition demo_header : CryptoHeader :=
  {| algorithm := ALGO_XCHACHA20POLY1305; stride := ENC_PAGE_SIZE; slots := replicate 8 EMPTY |}.

Lemma empty_slot_ok : slot_ok EMPTY.
Proof. repeat split; try done; by apply Forall_replicate. Qed.

Lemma demo_header_ok : header_ok demo_header.
Proof. repeat split; try done. apply Forall_replicate, empty_slot_ok. Qed.

Lemma header_roundtrip_witness : deserialize (serialize_into demo_header zero_page) = Some demo_header.
Proof. apply header_roundtrip; [apply demo_header_ok | apply wf_zero_page | done]. Defined.

Definition demo_wrap : cresult CryptoHeader :=
  wrap_into demo_header 2 (Raw [1; 2; 3]) (replicate 32 9) None (replicate 16 1) (replicate 24 2).

Lemma unlock_after_wrap_witness :
  match demo_wrap with
  | COk h' => unlock h' (Raw [1; 2; 3]) = Ok (2%nat, replicate 32 9)
  | _ => False
  end.
Proof.
  destruct demo_wrap as [h' | |] eqn:E; [| by vm_compute in E | by vm_compute in E].
  assert (Hd : array DEK_LEN (replicate 32 9)) by (split; [done | by apply Forall_replicate]).
  destruct (unlock_after_wrap _ _ _ _ _ _ _ _ demo_header_ok Hd E) as (_ & H & _).
  apply H. intros k x _ Hx. apply lookup_replicate_1 in Hx as [-> _]. done.
Defined.
End CryptoHeaderProps.
