(* ===== verification/Superblock.v ===== *)
(** * Superblocks ([src/superblock/mod.rs])

    The root record of a database file: its plain and its encrypted page image,
    the checks a slot must pass, the diagnosis of slots that do not, and the two
    counters whose overflow the engine refuses.  The cipher's key is [dek]; the
    nonce that [serialize_encrypted] draws is an argument. *)

From S2P Require Export CryptoHeader.

Module Superblock.
Import CryptoHeader.

Definition MIN_SUPERBLOCKS : Z := 2.
Definition MAX_SUPERBLOCKS : Z := 16.
Definition DEFAULT_SUPERBLOCK_COUNT : Z := 2.
Definition TXN_COUNTER_RESERVE : Z := Z.shiftl 1 32.
Definition MAX_TXN_COUNTER : Z := u64_max - TXN_COUNTER_RESERVE.
Definition HANDLE_ID_RESERVE : Z := Z.shiftl 1 32.
Definition MAX_NEXT_HANDLE : Z := u64_max - HANDLE_ID_RESERVE.

Definition next_txn_counter (current : Z) : outcome Z :=
  let next := sat_add current 1 in
  if MAX_TXN_COUNTER <? next then Err (TxnCounterExhausted current) else Ok next.

Definition next_handle_after (current : Z) : outcome Z :=
  let next := sat_add current 1 in
  if MAX_NEXT_HANDLE <? next then Err (HandleSpaceExhausted current) else Ok next.

Definition SUPERBLOCK_COUNT_OFFSET : Z := 308.
Definition ROOT_MEMBERSHIP_INDEX_OFFSET : Z := 312.
Definition FREEMAP_DEPTH_OFFSET : Z := 320.
Definition NAMED_ROOT_COUNT : Z := 8.
Definition NAMED_ROOT_NAME_LEN : Z := 24.
Definition NAMED_ROOT_ENTRY_SIZE : Z := NAMED_ROOT_NAME_LEN + 8.
Definition NAMED_ROOTS_OFFSET : Z := 52.

Record NamedRoot := { name : list Z; handle : Z }.

Definition EMPTY_ROOT : NamedRoot := {| name := zeros NAMED_ROOT_NAME_LEN; handle := 0 |}.
Definition is_empty (r : NamedRoot) : bool := getb 0 (name r) =? 0.

Record Superblock := {
  magic : Z;
  format_version : Z;
  txn_counter : Z;
  root_handle_table_page : Z;
  root_freemap_page : Z;
  total_pages : Z;
  next_handle : Z;
  page_size : Z;
  named_roots : list NamedRoot;
  superblock_count : Z;
  root_membership_index_page : Z;
  freemap_depth : Z;
  encryption : option CryptoHeader
}.

Definition count_in_range (n : Z) : bool := (MIN_SUPERBLOCKS <=? n) && (n <=? MAX_SUPERBLOCKS).

(** [base .. base + 24] is the name, then the handle. *)
Definition write_root (base : Z) (entry : NamedRoot) (buf : list Z) : list Z :=
  let buf := splice base (name entry) buf in
  put_u64 (base + NAMED_ROOT_NAME_LEN) (handle entry) buf.

Definition read_root (base : Z) (buf : list Z) : NamedRoot :=
  {| name := slice base NAMED_ROOT_NAME_LEN buf;
     handle := get_u64 (base + NAMED_ROOT_NAME_LEN) buf |}.

Definition write_roots : Z → list NamedRoot → list Z → list Z := write_array write_root NAMED_ROOT_ENTRY_SIZE.
Definition read_roots : Z → nat → list Z → list NamedRoot := read_array read_root NAMED_ROOT_ENTRY_SIZE.

Definition SEALED_BODY_OFFSET : Z := CRYPTO_HEADER_OFFSET + CRYPTO_HEADER_SIZE.
Definition BODY_LEN : Z := 8 * 5 + 4 + NAMED_ROOT_COUNT * NAMED_ROOT_ENTRY_SIZE.

Section ops.
Context `{HX : Xxh3} `{HC : Primitives}.

(** [Ok(())] is [None]. *)
Definition validate (buf : list Z) : option SuperblockDefect :=
  if negb (verify_checksum buf) then Some BadChecksum else
  if negb (get_u32 0 buf =? MAGIC) then Some BadMagic else
  let count := get_u32 SUPERBLOCK_COUNT_OFFSET buf in
  if negb (count_in_range count) then Some (BadCount count) else
  let txn_counter := get_u64 8 buf in
  if MAX_TXN_COUNTER <? txn_counter then Some (BadTxnCounter txn_counter) else
  None.

Definition serialize (self : Superblock) : list Z :=
  let buf := zeros PAGE_SIZE in
  let buf := put_u32 0 (magic self) buf in
  let buf := put_u32 4 (format_version self) buf in
  let buf := put_u64 8 (txn_counter self) buf in
  let buf := put_u64 16 (root_handle_table_page self) buf in
  let buf := put_u64 24 (root_freemap_page self) buf in
  let buf := put_u64 32 (total_pages self) buf in
  let buf := put_u64 40 (next_handle self) buf in
  let buf := put_u32 48 (page_size self) buf in
  let buf := write_roots NAMED_ROOTS_OFFSET (named_roots self) buf in
  let buf := put_u32 SUPERBLOCK_COUNT_OFFSET (superblock_count self) buf in
  let buf := put_u64 ROOT_MEMBERSHIP_INDEX_OFFSET (root_membership_index_page self) buf in
  let buf := put_u32 FREEMAP_DEPTH_OFFSET (freemap_depth self) buf in
  stamp_checksum buf.

Definition sb_identity_aad (self : Superblock) : list Z :=
  let a := zeros 24 in
  let a := put_u32 0 (magic self) a in
  let a := put_u32 4 (format_version self) a in
  let a := put_u64 8 (txn_counter self) a in
  put_u32 16 (superblock_count self) a.

Definition body_plaintext (self : Superblock) : list Z :=
  le_encode 8 (root_handle_table_page self) ++
  le_encode 8 (root_freemap_page self) ++
  le_encode 8 (root_membership_index_page self) ++
  le_encode 8 (total_pages self) ++
  le_encode 8 (next_handle self) ++
  le_encode 4 (freemap_depth self) ++
  concat (map (λ entry, name entry ++ le_encode 8 (handle entry)) (named_roots self)).

(** [self] keeps its identity fields; the [debug_assert_eq!] on the length and the
    slices beyond it panic. *)
Definition load_body (self : Superblock) (body : list Z) : cresult Superblock :=
  if negb (zlen body =? BODY_LEN) then CPanic PanicAssert else
  COk {| magic := magic self;
         format_version := format_version self;
         txn_counter := txn_counter self;
         root_handle_table_page := get_u64 0 body;
         root_freemap_page := get_u64 8 body;
         total_pages := get_u64 24 body;
         next_handle := get_u64 32 body;
         page_size := page_size self;
         named_roots := read_roots 44 (length (named_roots self)) body;
         superblock_count := superblock_count self;
         root_membership_index_page := get_u64 16 body;
         freemap_depth := get_u32 40 body;
         encryption := encryption self |}.

Definition serialize_encrypted (self : Superblock) (dek nonce : list Z) : outcome (list Z) :=
  match encryption self with
  | None => Panic PanicExpect
  | Some header =>
      let buf := zeros PAGE_SIZE in
      let buf := put_u32 0 (magic self) buf in
      let buf := put_u32 4 (format_version self) buf in
      let buf := put_u64 8 (txn_counter self) buf in
      let buf := put_u32 48 (page_size self) buf in
      let buf := put_u32 SUPERBLOCK_COUNT_OFFSET (superblock_count self) buf in
      let buf := serialize_into header buf in
      let aad := sb_identity_aad self in
      let '(nonce, tag, ct) := Crypto.seal_body dek nonce aad (body_plaintext self) in
      let base := SEALED_BODY_OFFSET in
      let buf := splice base nonce buf in
      let buf := splice (base + NONCE_LEN) tag buf in
      let buf := put_u16 (base + NONCE_LEN + TAG_LEN) (cast 16 (zlen ct)) buf in
      let coff := base + NONCE_LEN + TAG_LEN + 2 in
      if PAGE_SIZE <? coff + zlen ct then Panic PanicSlice else
      Ok (stamp_checksum (splice coff ct buf))
  end.

Definition decrypt_body (self : Superblock) (dek raw : list Z) : cresult Superblock :=
  let base := SEALED_BODY_OFFSET in
  let nonce := slice base NONCE_LEN raw in
  let tag := slice (base + NONCE_LEN) TAG_LEN raw in
  let ct_len := get_u16 (base + NONCE_LEN + TAG_LEN) raw in
  let coff := base + NONCE_LEN + TAG_LEN + 2 in
  if CHECKSUM_OFFSET <? coff + ct_len then CErr Auth else
  let ct := slice coff ct_len raw in
  let aad := sb_identity_aad self in
  match Crypto.open_body dek aad nonce tag ct with
  | COk body => load_body self body
  | CErr e => CErr e
  | CPanic p => CPanic p
  end.

Definition deserialize (buf : list Z) : option Superblock :=
  match validate buf with
  | Some _ => None
  | None =>
      let encryption := CryptoHeader.deserialize buf in
      match encryption with
      | Some _ =>
          Some {| magic := get_u32 0 buf;
                  format_version := get_u32 4 buf;
                  txn_counter := get_u64 8 buf;
                  root_handle_table_page := 0;
                  root_freemap_page := 0;
                  total_pages := 0;
                  next_handle := 0;
                  page_size := get_u32 48 buf;
                  named_roots := replicate (Z.to_nat NAMED_ROOT_COUNT) EMPTY_ROOT;
                  superblock_count := get_u32 SUPERBLOCK_COUNT_OFFSET buf;
                  root_membership_index_page := 0;
                  freemap_depth := 0;
                  encryption := encryption |}
      | None =>
          Some {| magic := get_u32 0 buf;
                  format_version := get_u32 4 buf;
                  txn_counter := get_u64 8 buf;
                  root_handle_table_page := get_u64 16 buf;
                  root_freemap_page := get_u64 24 buf;
                  total_pages := get_u64 32 buf;
                  next_handle := get_u64 40 buf;
                  page_size := get_u32 48 buf;
                  named_roots := read_roots NAMED_ROOTS_OFFSET (Z.to_nat NAMED_ROOT_COUNT) buf;
                  superblock_count := get_u32 SUPERBLOCK_COUNT_OFFSET buf;
                  root_membership_index_page := get_u64 ROOT_MEMBERSHIP_INDEX_OFFSET buf;
                  freemap_depth := get_u32 FREEMAP_DEPTH_OFFSET buf;
                  encryption := None |}
      end
  end.

(** [buffers.iter().filter_map(deserialize).max_by_key(|sb| sb.txn_counter)]: the
    last of the maxima. *)
Definition select (buffers : list (list Z)) : option Superblock :=
  foldl (λ best sb,
    match best with
    | None => Some sb
    | Some b => if txn_counter b <=? txn_counter sb then Some sb else best
    end) None (omap deserialize buffers).

(** The count [diagnose] goes by: the first plausible one among the buffers. *)
Definition diagnose_bound (buffers : list (list Z)) : Z :=
  default MIN_SUPERBLOCKS
    (snd <$> list_find (λ n, count_in_range n = true) (map (get_u32 SUPERBLOCK_COUNT_OFFSET) buffers)).

Definition diagnose (buffers : list (list Z)) : list SlotDefect :=
  omap (λ ib : nat * list Z,
      (λ d, {| slot := Z.of_nat ib.1; defect := d |}) <$> validate ib.2)
    (imap pair (take (Z.to_nat (Z.min (diagnose_bound buffers) (zlen buffers))) buffers)).

(** [superblock_count - 1] is checked arithmetic. *)
Definition new_empty (superblock_count : Z) : outcome Superblock :=
  if superblock_count <? 1 then Panic PanicOverflow else
  Ok {| magic := MAGIC;
        format_version := FORMAT_VERSION;
        txn_counter := superblock_count - 1;
        root_handle_table_page := PAGE_ID_NONE;
        root_freemap_page := PAGE_ID_NONE;
        total_pages := superblock_count;
        next_handle := 1;
        page_size := PAGE_SIZE;
        named_roots := replicate (Z.to_nat NAMED_ROOT_COUNT) EMPTY_ROOT;
        superblock_count := superblock_count;
        root_membership_index_page := PAGE_ID_NONE;
        freemap_depth := 0;
        encryption := None |}.

Definition new_empty_encrypted (superblock_count : Z) (header : CryptoHeader) : outcome Superblock :=
  if superblock_count <? 1 then Panic PanicOverflow else
  Ok {| magic := MAGIC;
        format_version := format_version_encrypted;
        txn_counter := superblock_count - 1;
        root_handle_table_page := PAGE_ID_NONE;
        root_freemap_page := PAGE_ID_NONE;
        total_pages := superblock_count;
        next_handle := 1;
        page_size := PAGE_SIZE;
        named_roots := replicate (Z.to_nat NAMED_ROOT_COUNT) EMPTY_ROOT;
        superblock_count := superblock_count;
        root_membership_index_page := PAGE_ID_NONE;
        freemap_depth := 0;
        encryption := Some header |}.

(** [CryptoHeader::overwrite_slot_table]: the page it leaves, [None] for [false]. *)
Definition overwrite_slot_table (self : CryptoHeader) (unit : list Z) : option (list Z) :=
  match deserialize unit with
  | None => None
  | Some _ => Some (stamp_checksum (write_slots SLOT_TABLE_OFFSET (slots self) unit))
  end.
End ops.
End Superblock.
