(* ===== verification/SuperblockFacts.v ===== *)
(** * Superblocks: the two page images

    Which bytes of the plain and of the encrypted image each field occupies, and
    that the fields do not overlap. *)

From S2P Require Export Superblock Store.

Module SuperblockFacts.
Import CryptoHeader CryptoHeaderFacts Superblock.

Definition root_ok (r : NamedRoot) : Prop := array NAMED_ROOT_NAME_LEN (name r) ∧ is_u64 (handle r).

(** What the Rust types say of a superblock. *)
Definition sb_ok (sb : Superblock) : Prop :=
  is_u32 (magic sb) ∧ is_u32 (format_version sb) ∧ is_u64 (txn_counter sb) ∧
  is_u64 (root_handle_table_page sb) ∧ is_u64 (root_freemap_page sb) ∧ is_u64 (total_pages sb) ∧
  is_u64 (next_handle sb) ∧ is_u32 (page_size sb) ∧
  (zlen (named_roots sb) = NAMED_ROOT_COUNT ∧ Forall root_ok (named_roots sb)) ∧
  is_u32 (superblock_count sb) ∧ is_u64 (root_membership_index_page sb) ∧ is_u32 (freemap_depth sb).

(** What [validate] accepts. *)
Definition sb_valid (sb : Superblock) : Prop :=
  magic sb = MAGIC ∧ count_in_range (superblock_count sb) = true ∧ txn_counter sb ≤ MAX_TXN_COUNTER.

(** ** The named-root array *)

Lemma write_root_len base r buf :
  root_ok r → 0 ≤ base → base + NAMED_ROOT_ENTRY_SIZE ≤ zlen buf → zlen (write_root base r buf) = zlen buf.
Proof.
  unfold NAMED_ROOT_ENTRY_SIZE, NAMED_ROOT_NAME_LEN. intros [[Hn _] _] Hb Hl. unfold write_root. cbv zeta.
  unfold NAMED_ROOT_NAME_LEN in *. rewrite zlen_put_le, zlen_splice; rewrite ?zlen_splice; lia.
Qed.

Lemma write_root_out base r buf off n :
  root_ok r → 0 ≤ base → base + NAMED_ROOT_ENTRY_SIZE ≤ zlen buf → 0 ≤ off → 0 ≤ n →
  off + n ≤ base ∨ base + NAMED_ROOT_ENTRY_SIZE ≤ off →
  slice off n (write_root base r buf) = slice off n buf.
Proof.
  unfold NAMED_ROOT_ENTRY_SIZE. intros [[Hn _] _] Hb Hl Ho Hn0 Hd. unfold write_root, put_le. cbv zeta.
  unfold NAMED_ROOT_NAME_LEN in *.
  rewrite slice_splice_out; rewrite ?zlen_le_encode, ?zlen_splice; try lia.
  rewrite slice_splice_out; lia || done.
Qed.

Lemma read_write_root base r buf :
  root_ok r → 0 ≤ base → base + NAMED_ROOT_ENTRY_SIZE ≤ zlen buf → read_root base (write_root base r buf) = r.
Proof.
  unfold NAMED_ROOT_ENTRY_SIZE. intros [[Hn _] Hu] Hb Hl. destruct r as [nm h].
  unfold read_root, write_root. cbv zeta. unfold NAMED_ROOT_NAME_LEN in *. cbn [name handle] in *. f_equal.
  - unfold put_le. rewrite slice_splice_out; rewrite ?zlen_le_encode, ?zlen_splice; try lia.
    apply slice_splice_same; lia.
  - apply get_put_same; rewrite ?zlen_splice; try lia. exact Hu.
Qed.

Lemma read_root_slice base buf buf' :
  0 ≤ base → slice base NAMED_ROOT_ENTRY_SIZE buf = slice base NAMED_ROOT_ENTRY_SIZE buf' →
  read_root base buf = read_root base buf'.
Proof.
  unfold NAMED_ROOT_ENTRY_SIZE, NAMED_ROOT_NAME_LEN. intros Hb He. unfold read_root, NAMED_ROOT_NAME_LEN.
  assert (Hsub : ∀ o n, 0 ≤ o → 0 ≤ n → o + n ≤ 32 → slice (base + o) n buf = slice (base + o) n buf').
  { intros o n ???. rewrite <- !(slice_slice base (24 + 8)) by lia. by rewrite He. }
  f_equal.
  - specialize (Hsub 0 24). rewrite !Z.add_0_r in Hsub. by apply Hsub.
  - unfold get_le. by rewrite Hsub.
Qed.

Lemma zlen_write_roots xs base buf :
  Forall root_ok xs → 0 ≤ base → base + zlen xs * NAMED_ROOT_ENTRY_SIZE ≤ zlen buf →
  zlen (write_roots base xs buf) = zlen buf.
Proof. intros. by apply (zlen_write_array write_root _ root_ok); auto using write_root_len. Qed.

Lemma write_roots_out xs base buf off n :
  Forall root_ok xs → 0 ≤ base → base + zlen xs * NAMED_ROOT_ENTRY_SIZE ≤ zlen buf → 0 ≤ off → 0 ≤ n →
  off + n ≤ base ∨ base + zlen xs * NAMED_ROOT_ENTRY_SIZE ≤ off →
  slice off n (write_roots base xs buf) = slice off n buf.
Proof.
  intros. by apply (write_array_out write_root _ root_ok); auto using write_root_len, write_root_out.
Qed.

Lemma read_write_roots xs base buf :
  Forall root_ok xs → 0 ≤ base → base + zlen xs * NAMED_ROOT_ENTRY_SIZE ≤ zlen buf →
  read_roots base (length xs) (write_roots base xs buf) = xs.
Proof.
  intros. by apply (read_write_array write_root read_root _ root_ok);
    auto using write_root_len, write_root_out, read_write_root, read_root_slice.
Qed.

Lemma read_roots_slice n base buf buf' :
  0 ≤ base → (∀ off k, base ≤ off → 0 ≤ k → off + k ≤ base + Z.of_nat n * NAMED_ROOT_ENTRY_SIZE →
    slice off k buf = slice off k buf') →
  read_roots base n buf = read_roots base n buf'.
Proof. intros. apply (read_array_slice read_root); auto using read_root_slice. done. Qed.

Lemma write_roots_bytes xs base buf :
  Forall root_ok xs → bytes_ok buf → bytes_ok (write_roots base xs buf).
Proof.
  intros Hx. revert base buf. induction Hx as [| x xs [[_ Hx] _] _ IH]; intros base buf Hb; [done |].
  apply IH. apply bytes_ok_put. by apply bytes_ok_splice.
Qed.

Lemma write_roots_wf xs p :
  Forall root_ok xs → zlen xs = NAMED_ROOT_COUNT → wf_page p → wf_page (write_roots NAMED_ROOTS_OFFSET xs p).
Proof.
  intros Hx Hn [Hl Hb]. split; [| by apply write_roots_bytes].
  rewrite zlen_write_roots; [done | done | done |]. rewrite Hn, Hl. done.
Qed.

(** Fields outside the array read through it. *)
Lemma get_write_roots xs p n off :
  Forall root_ok xs → zlen xs = NAMED_ROOT_COUNT → wf_page p → 0 ≤ off →
  off + Z.of_nat n ≤ NAMED_ROOTS_OFFSET ∨ SUPERBLOCK_COUNT_OFFSET ≤ off →
  get_le n off (write_roots NAMED_ROOTS_OFFSET xs p) = get_le n off p.
Proof.
  intros Hx Hn [Hl Hb] Ho Hd. unfold get_le.
  rewrite write_roots_out; [done | done | done | | done | lia |].
  - rewrite Hn, Hl. done.
  - rewrite Hn. exact Hd.
Qed.

Lemma getb_le1 i p : 0 ≤ i < zlen p → getb i p = get_le 1 i p.
Proof. intros. unfold get_le. change (Z.of_nat 1) with 1. rewrite getb_slice by lia. simpl. lia. Qed.

Lemma getb_write_roots xs p i :
  Forall root_ok xs → zlen xs = NAMED_ROOT_COUNT → wf_page p → SUPERBLOCK_COUNT_OFFSET ≤ i < PAGE_SIZE →
  getb i (write_roots NAMED_ROOTS_OFFSET xs p) = getb i p.
Proof.
  intros Hx Hn Hp Hi. destruct (write_roots_wf xs p Hx Hn Hp) as [Hl _]. destruct Hp as [Hl' Hb].
  unfold SUPERBLOCK_COUNT_OFFSET in *.
  rewrite !getb_le1 by lia. apply get_write_roots; [done | done | done | lia |].
  right. unfold SUPERBLOCK_COUNT_OFFSET. lia.
Qed.

Section images.
Context `{HX : Xxh3}.

(** ** The plain image *)

(** The page before the checksum: the identity fields, the roots, the rest. *)
Definition plain_head (sb : Superblock) : list Z :=
  put_u32 48 (page_size sb) (put_u64 40 (next_handle sb) (put_u64 32 (total_pages sb)
    (put_u64 24 (root_freemap_page sb) (put_u64 16 (root_handle_table_page sb)
      (put_u64 8 (txn_counter sb) (put_u32 4 (format_version sb) (put_u32 0 (magic sb) zero_page))))))).

Definition plain_tail (sb : Superblock) (b : list Z) : list Z :=
  put_u32 320 (freemap_depth sb) (put_u64 312 (root_membership_index_page sb)
    (put_u32 308 (superblock_count sb) b)).

Lemma serialize_eq sb :
  serialize sb = stamp_checksum (plain_tail sb (write_roots NAMED_ROOTS_OFFSET (named_roots sb) (plain_head sb))).
Proof. done. Qed.

Lemma plain_head_wf sb : wf_page (plain_head sb).
Proof. unfold plain_head. eauto 20 with chisel. Qed.

Lemma plain_tail_wf sb b : wf_page b → wf_page (plain_tail sb b).
Proof. intros. unfold plain_tail. eauto 20 with chisel. Qed.

Lemma plain_fields sb :
  sb_ok sb →
  let b := plain_tail sb (write_roots NAMED_ROOTS_OFFSET (named_roots sb) (plain_head sb)) in
  get_u32 0 b = magic sb ∧ get_u32 4 b = format_version sb ∧ get_u64 8 b = txn_counter sb ∧
  get_u64 16 b = root_handle_table_page sb ∧ get_u64 24 b = root_freemap_page sb ∧
  get_u64 32 b = total_pages sb ∧ get_u64 40 b = next_handle sb ∧ get_u32 48 b = page_size sb ∧
  get_u32 308 b = superblock_count sb ∧ get_u64 312 b = root_membership_index_page sb ∧
  get_u32 320 b = freemap_depth sb ∧ getb 324 b = 0.
Proof.
  intros (H1 & H2 & H3 & H4 & H5 & H6 & H7 & H8 & (Hn & Hr) & H9 & H10 & H11). cbv zeta.
  pose proof (plain_head_wf sb) as Hw. pose proof (write_roots_wf _ _ Hr Hn Hw) as Hw1.
  unfold plain_tail. ands; fields_by ltac:(solve [done | page_side]); try done;
    rewrite ?get_write_roots, ?getb_write_roots by
      (done || (left; done) || (unfold SUPERBLOCK_COUNT_OFFSET; plia));
    unfold plain_head; fields_by ltac:(solve [done | page_side]); try done.
Qed.

(** A stamped page with the right magic, count and counter passes [validate]. *)
Lemma validate_stamped b :
  wf_page b → get_u32 0 b = MAGIC → count_in_range (get_u32 308 b) = true →
  get_u64 8 b ≤ MAX_TXN_COUNTER → validate (stamp_checksum b) = None.
Proof.
  intros Hw Hm Hc Ht. pose proof (body_stamp _ Hw) as Hb. unfold validate.
  rewrite stamp_stores_checksum by done. cbn [negb]. cbv zeta. unfold SUPERBLOCK_COUNT_OFFSET.
  rewrite !(body_get_le _ _ _ _ Hb), Hm, Hc by (done || plia).
  rewrite Z.eqb_refl. cbn [negb]. by destruct (Z.ltb_spec MAX_TXN_COUNTER (get_u64 8 b)); [lia |].
Qed.

Lemma read_roots_plain sb :
  sb_ok sb →
  read_roots NAMED_ROOTS_OFFSET (Z.to_nat NAMED_ROOT_COUNT) (serialize sb) = named_roots sb.
Proof.
  intros (_ & _ & _ & _ & _ & _ & _ & _ & (Hn & Hr) & _).
  pose proof (plain_head_wf sb) as Hw. pose proof (write_roots_wf _ _ Hr Hn Hw) as Hw1.
  set (b1 := write_roots NAMED_ROOTS_OFFSET (named_roots sb) (plain_head sb)) in *.
  pose proof (plain_tail_wf sb b1 Hw1) as Hw2. unfold NAMED_ROOT_COUNT in *.
  rewrite serialize_eq. fold b1. transitivity (read_roots NAMED_ROOTS_OFFSET (Z.to_nat 8) b1).
  - apply read_roots_slice; [done |]. intros off k H1 H2 H3.
    change (NAMED_ROOTS_OFFSET + Z.of_nat (Z.to_nat 8) * NAMED_ROOT_ENTRY_SIZE) with 308 in H3.
    unfold NAMED_ROOTS_OFFSET in *.
    rewrite (body_slice _ _ _ _ (body_stamp _ Hw2)) by plia. unfold plain_tail.
    rewrite !pslice_put by (lia || plia || eauto 12 with chisel). done.
  - assert (Z.to_nat 8 = length (named_roots sb)) as -> by (unfold zlen in Hn; lia).
    apply read_write_roots; [done | done |]. destruct Hw as [-> _]. rewrite Hn. done.
Qed.

Lemma deserialize_plain sb :
  sb_ok sb → sb_valid sb → encryption sb = None → deserialize (serialize sb) = Some sb.
Proof.
  intros Hok (Hm & Hc & Ht) He. pose proof (read_roots_plain sb Hok) as Hrr.
  destruct (plain_fields sb Hok) as (F1 & F2 & F3 & F4 & F5 & F6 & F7 & F8 & F9 & F10 & F11 & F12).
  rewrite serialize_eq in *.
  assert (Hw : wf_page (plain_tail sb (write_roots NAMED_ROOTS_OFFSET (named_roots sb) (plain_head sb)))).
  { destruct Hok as (_ & _ & _ & _ & _ & _ & _ & _ & (Hn & Hr) & _).
    apply plain_tail_wf, write_roots_wf; [done | done | apply plain_head_wf]. }
  set (b := plain_tail sb _) in *. pose proof (body_stamp _ Hw) as Hb. unfold deserialize.
  rewrite validate_stamped by (done || congruence || lia).
  unfold CryptoHeader.deserialize, CRYPTO_HEADER_OFFSET, SUPERBLOCK_COUNT_OFFSET,
    ROOT_MEMBERSHIP_INDEX_OFFSET, FREEMAP_DEPTH_OFFSET.
  rewrite (body_getb 324 _ _ Hb), F12 by plia. cbv zeta. simpl (0 =? 0). cbv iota.
  rewrite !(body_get_le _ _ _ _ Hb) by (done || plia).
  rewrite Hrr, F1, F2, F3, F4, F5, F6, F7, F8, F9, F10, F11. destruct sb. simpl in He. by subst.
Qed.
End images.
End SuperblockFacts.
