(* ===== verification/SuperblockProps.v ===== *)
(** * Superblocks: properties

    Both page images round trip, validation and diagnosis agree with each other,
    the counters cannot wrap, and a rewrite of the key slots of a stored
    superblock changes nothing else. *)

From S2P Require Export SuperblockFacts MemStore.

Module SuperblockBody.
Import CryptoHeader CryptoHeaderFacts Superblock SuperblockFacts.

(** ** The sealed body *)

Lemma slice_app_r off n (a b : list Z) : zlen a ≤ off → slice off n (a ++ b) = slice (off - zlen a) n b.
Proof.
  intros H. unfold slice, zlen in *. rewrite drop_app_ge by lia. do 2 f_equal. lia.
Qed.

Lemma slice_app_l n (a b : list Z) : zlen a = n → slice 0 n (a ++ b) = a.
Proof. intros H. unfold slice, zlen in *. rewrite drop_0. rewrite take_app_le by lia. apply take_ge. lia. Qed.

Lemma get_le_skip n off m v b :
  Z.of_nat m ≤ off → get_le n off (le_encode m v ++ b) = get_le n (off - Z.of_nat m) b.
Proof. intros. unfold get_le. rewrite slice_app_r; rewrite ?zlen_le_encode; done. Qed.

(** Skips the fields before the one that is read. *)
Ltac skip_fields :=
  repeat match goal with
    | |- context [get_le ?n ?o (le_encode ?m ?v ++ ?b)] =>
        let c := eval compute in (Z.of_nat m <=? o) in
        lazymatch c with
        | true =>
            rewrite (get_le_skip n o m v b) by done;
            let k := eval compute in (o - Z.of_nat m) in change (o - Z.of_nat m) with k
        end
    end.

Lemma get_le_head n v b : 0 ≤ v < 256 ^ Z.of_nat n → get_le n 0 (le_encode n v ++ b) = v.
Proof. intros. unfold get_le. rewrite slice_app_l by apply zlen_le_encode. by apply le_decode_encode. Qed.

Lemma read_roots_shift n base (a b : list Z) :
  0 ≤ base → read_roots (zlen a + base) n (a ++ b) = read_roots base n b.
Proof.
  revert base. induction n as [| n IH]; intros base Hb; [done |].
  unfold read_roots in *. cbn [read_array]. rewrite <- Z.add_assoc, IH by (unfold NAMED_ROOT_ENTRY_SIZE, NAMED_ROOT_NAME_LEN; lia).
  f_equal. unfold read_root, get_le, NAMED_ROOT_NAME_LEN. pose proof (zlen_nonneg a).
  rewrite !slice_app_r by lia. do 3 f_equal; lia.
Qed.

Definition encode_roots (rs : list NamedRoot) : list Z :=
  concat (map (λ entry, name entry ++ le_encode 8 (handle entry)) rs).

Lemma read_encoded_roots rs :
  Forall root_ok rs → read_roots 0 (length rs) (encode_roots rs) = rs.
Proof.
  induction 1 as [| r rs [[Hn Hb] Hu] _ IH]; [done |]. unfold read_roots. cbn [length read_array].
  unfold encode_roots. cbn [map concat]. fold (encode_roots rs). fold read_roots. f_equal.
  - unfold read_root, NAMED_ROOT_NAME_LEN in *. rewrite <- app_assoc, slice_app_l by done.
    unfold get_le. rewrite slice_app_r by lia. rewrite Hn, Z.sub_diag.
    rewrite slice_app_l by apply zlen_le_encode. rewrite le_decode_encode by exact Hu. by destruct r.
  - etrans; [| exact IH].
    rewrite <- (read_roots_shift _ 0 (name r ++ le_encode 8 (handle r)) (encode_roots rs)) by done.
    by rewrite zlen_app, zlen_le_encode, Hn.
Qed.

Lemma zlen_encode_roots rs : Forall root_ok rs → zlen (encode_roots rs) = zlen rs * NAMED_ROOT_ENTRY_SIZE.
Proof.
  induction 1 as [| r rs [[Hn Hb] Hu] _ IH]; [done |]. unfold encode_roots. cbn [map concat].
  fold (encode_roots rs). rewrite !zlen_app, zlen_le_encode, IH, Hn.
  unfold NAMED_ROOT_ENTRY_SIZE, NAMED_ROOT_NAME_LEN, zlen. cbn [length]. lia.
Qed.

Lemma body_plaintext_len sb : sb_ok sb → zlen (body_plaintext sb) = BODY_LEN.
Proof.
  intros (_ & _ & _ & _ & _ & _ & _ & _ & (Hn & Hr) & _). unfold body_plaintext.
  fold (encode_roots (named_roots sb)). rewrite !zlen_app, !zlen_le_encode, zlen_encode_roots, Hn by done.
  done.
Qed.

Lemma encode_roots_bytes rs : Forall root_ok rs → bytes_ok (encode_roots rs).
Proof.
  induction 1 as [| r rs [[_ Hb] _] _ IH]; [constructor |]. unfold encode_roots. cbn [map concat].
  repeat (apply Forall_app; split); [done | apply le_encode_bytes | done].
Qed.

Lemma body_plaintext_bytes sb : sb_ok sb → bytes_ok (body_plaintext sb).
Proof.
  intros (_ & _ & _ & _ & _ & _ & _ & _ & (Hn & Hr) & _). unfold body_plaintext.
  repeat (apply Forall_app; split; [apply le_encode_bytes |]). by apply encode_roots_bytes.
Qed.

(** The identity fields a load keeps. *)
Definition same_identity (sb sb' : Superblock) : Prop :=
  magic sb = magic sb' ∧ format_version sb = format_version sb' ∧ txn_counter sb = txn_counter sb' ∧
  page_size sb = page_size sb' ∧ superblock_count sb = superblock_count sb' ∧
  encryption sb = encryption sb' ∧ length (named_roots sb) = length (named_roots sb').

Lemma load_body_plaintext sb sb0 :
  sb_ok sb → same_identity sb0 sb → load_body sb0 (body_plaintext sb) = COk sb.
Proof.
  intros Hok (I1 & I2 & I3 & I4 & I5 & I6 & I7). unfold load_body.
  rewrite body_plaintext_len, Z.eqb_refl by done. cbn [negb].
  destruct Hok as (H1 & H2 & H3 & H4 & H5 & H6 & H7 & H8 & (Hn & Hr) & H9 & H10 & H11).
  unfold body_plaintext. fold (encode_roots (named_roots sb)).
  skip_fields.
  rewrite !get_le_head by done.
  assert (Hroots : read_roots 44 (length (named_roots sb0)) (le_encode 8 (root_handle_table_page sb) ++
    le_encode 8 (root_freemap_page sb) ++ le_encode 8 (root_membership_index_page sb) ++
    le_encode 8 (total_pages sb) ++ le_encode 8 (next_handle sb) ++ le_encode 4 (freemap_depth sb) ++
    encode_roots (named_roots sb)) = named_roots sb).
  { rewrite I7, !app_assoc. etrans; [| exact (read_encoded_roots _ Hr)].
    rewrite <- (read_roots_shift _ 0 (((((le_encode 8 (root_handle_table_page sb) ++
      le_encode 8 (root_freemap_page sb)) ++ le_encode 8 (root_membership_index_page sb)) ++
      le_encode 8 (total_pages sb)) ++ le_encode 8 (next_handle sb)) ++
      le_encode 4 (freemap_depth sb))) by done.
    rewrite !zlen_app, !zlen_le_encode. done. }
  rewrite Hroots, I1, I2, I3, I4, I5, I6. by destruct sb.
Qed.

(** ** The encrypted image *)

(** The header is read from its own byte range. *)
Lemma header_deserialize_slice b b' :
  zlen b = PAGE_SIZE → zlen b' = PAGE_SIZE →
  (∀ off k, 324 ≤ off → 0 ≤ k → off + k ≤ 1356 → slice off k b = slice off k b') →
  CryptoHeader.deserialize b = CryptoHeader.deserialize b'.
Proof.
  intros Hl Hl' Hs. unfold CryptoHeader.deserialize, CRYPTO_HEADER_OFFSET. cbv zeta.
  assert (Hg : getb 324 b = getb 324 b').
  { rewrite !getb_le1 by (rewrite ?Hl, ?Hl'; done). unfold get_le. rewrite Hs; [done | lia | lia |]. lia. }
  rewrite Hg. destruct (getb 324 b' =? 0); [done |].
  assert (Hst : get_u32 (324 + 1) b = get_u32 (324 + 1) b').
  { unfold get_le. rewrite Hs; [done | lia | lia |]. lia. }
  assert (Hsl : read_slots SLOT_TABLE_OFFSET (Z.to_nat KEY_SLOT_COUNT) b =
    read_slots SLOT_TABLE_OFFSET (Z.to_nat KEY_SLOT_COUNT) b').
  { apply (read_array_slice read_slot); auto using read_slot_slice; [done.. |].
    intros off k H1 H2 H3. apply Hs; [| done |].
    - change SLOT_TABLE_OFFSET with 332 in H1. lia.
    - change (SLOT_TABLE_OFFSET + Z.of_nat (Z.to_nat KEY_SLOT_COUNT) * KEY_SLOT_SIZE) with 1356 in H3. lia. }
  by rewrite Hst, Hsl.
Qed.

Section encrypted.
Context `{HX : Xxh3} `{HC : Primitives}.

Definition enc_head (sb : Superblock) : list Z :=
  put_u32 308 (superblock_count sb) (put_u32 48 (page_size sb) (put_u64 8 (txn_counter sb)
    (put_u32 4 (format_version sb) (put_u32 0 (magic sb) zero_page)))).

Definition enc_tail (nonce tag ct b : list Z) : list Z :=
  splice 1398 ct (put_u16 1396 (zlen ct) (splice 1380 tag (splice 1356 nonce b))).

Lemma enc_head_wf sb : wf_page (enc_head sb).
Proof. unfold enc_head. eauto 20 with chisel. Qed.

Section tail.
Variables (nonce tag ct b : list Z).
Hypothesis Hn : array NONCE_LEN nonce.
Hypothesis Ht : array TAG_LEN tag.
Hypothesis Hc : array BODY_LEN ct.
Hypothesis Hb : wf_page b.

Lemma enc_tail_wf : wf_page (enc_tail nonce tag ct b).
Proof.
  destruct Hn as [Ln Bn], Ht as [Lt Bt], Hc as [Lc Bc].
  unfold enc_tail, NONCE_LEN, TAG_LEN in *. change BODY_LEN with 300 in *.
  apply wf_splice; [| done | done | plia]. apply wf_put_le; [| done | done].
  apply wf_splice; [| done | done | plia]. apply wf_splice; [done | done | done | plia].
Qed.

(** Below the sealed body the image is what the header left. *)
Lemma enc_tail_slice off n :
  0 ≤ off → 0 ≤ n → off + n ≤ 1356 → slice off n (enc_tail nonce tag ct b) = slice off n b.
Proof.
  intros Ho Hn0 Hd. destruct Hn as [Ln Bn], Ht as [Lt Bt], Hc as [Lc Bc].
  unfold enc_tail, NONCE_LEN, TAG_LEN in *. change BODY_LEN with 300 in *.
  assert (W1 : wf_page (splice 1356 nonce b)) by (apply wf_splice; [done | done | done | plia]).
  assert (W2 : wf_page (splice 1380 tag (splice 1356 nonce b))) by (apply wf_splice; [done | done | done | plia]).
  assert (W3 : wf_page (put_u16 1396 (zlen ct) (splice 1380 tag (splice 1356 nonce b))))
    by (apply wf_put_le; done).
  rewrite pslice_splice, pslice_put, pslice_splice, pslice_splice by (done || plia). done.
Qed.

Lemma enc_tail_fields :
  slice 1356 24 (enc_tail nonce tag ct b) = nonce ∧ slice 1380 16 (enc_tail nonce tag ct b) = tag ∧
  get_u16 1396 (enc_tail nonce tag ct b) = 300 ∧ slice 1398 300 (enc_tail nonce tag ct b) = ct.
Proof.
  destruct Hn as [Ln Bn], Ht as [Lt Bt], Hc as [Lc Bc].
  unfold enc_tail, NONCE_LEN, TAG_LEN in *. change BODY_LEN with 300 in *.
  assert (W1 : wf_page (splice 1356 nonce b)) by (apply wf_splice; [done | done | done | plia]).
  assert (W2 : wf_page (splice 1380 tag (splice 1356 nonce b))) by (apply wf_splice; [done | done | done | plia]).
  assert (W3 : wf_page (put_u16 1396 (zlen ct) (splice 1380 tag (splice 1356 nonce b))))
    by (apply wf_put_le; done).
  assert (S : ∀ o bs p, wf_page p → 0 ≤ o → o + zlen bs ≤ PAGE_SIZE → slice o (zlen bs) (splice o bs p) = bs).
  { intros o bs p [Hl _] ??. apply slice_splice_same; rewrite ?Hl; done. }
  ands.
  - rewrite pslice_splice, pslice_put, pslice_splice by (done || plia). rewrite <- Ln at 1. apply S; [done | done | plia].
  - rewrite pslice_splice, pslice_put by (done || plia). rewrite <- Lt at 1. apply S; [done | done | plia].
  - rewrite pget_splice by (done || plia). rewrite Lc. by rewrite pget_same by (done || plia).
  - rewrite <- Lc at 1. apply S; [done | done | plia].
Qed.
End tail.

Definition enc_image (sb : Superblock) (h : CryptoHeader) (nonce tag ct : list Z) : list Z :=
  enc_tail nonce tag ct (serialize_into h (enc_head sb)).

Lemma enc_head_fields sb :
  sb_ok sb →
  get_u32 0 (enc_head sb) = magic sb ∧ get_u32 4 (enc_head sb) = format_version sb ∧
  get_u64 8 (enc_head sb) = txn_counter sb ∧ get_u32 48 (enc_head sb) = page_size sb ∧
  get_u32 308 (enc_head sb) = superblock_count sb.
Proof.
  intros (H1 & H2 & H3 & _ & _ & _ & _ & H8 & _ & H9 & _). unfold enc_head.
  ands; fields_by ltac:(solve [done | page_side]); done.
Qed.

Lemma enc_image_fields sb h nonce tag ct :
  sb_ok sb → header_ok h → algorithm h ≠ 0 → array NONCE_LEN nonce → array TAG_LEN tag → array BODY_LEN ct →
  let b := enc_image sb h nonce tag ct in
  wf_page b ∧ get_u32 0 b = magic sb ∧ get_u32 4 b = format_version sb ∧ get_u64 8 b = txn_counter sb ∧
  get_u32 48 b = page_size sb ∧ get_u32 308 b = superblock_count sb ∧
  CryptoHeader.deserialize b = Some h.
Proof.
  intros Hok Hh Ha Hn Ht Hc. cbv zeta. pose proof (enc_head_wf sb) as Hw.
  pose proof (serialize_into_wf h _ Hh Hw) as Hw1.
  pose proof (enc_tail_wf nonce tag ct _ Hn Ht Hc Hw1) as Hw2. unfold enc_image in *.
  destruct (enc_head_fields sb Hok) as (F1 & F2 & F3 & F4 & F5).
  assert (Hg : ∀ n off, 0 ≤ off → off + Z.of_nat n ≤ 324 →
    get_le n off (enc_tail nonce tag ct (serialize_into h (enc_head sb))) = get_le n off (enc_head sb)).
  { intros n off ??. unfold get_le. rewrite enc_tail_slice by (done || lia).
    rewrite serialize_into_out; [done | done | apply Hw | done | lia |].
    left. unfold CRYPTO_HEADER_OFFSET. lia. }
  rewrite !Hg by done. ands; try done. rewrite <- (deserialize_serialize h (enc_head sb)) by done.
  apply header_deserialize_slice; [apply Hw2 | apply Hw1 |]. intros off k ???.
  apply enc_tail_slice; done || lia.
Qed.

Lemma serialize_encrypted_eq sb h dek nonce :
  sb_ok sb → encryption sb = Some h → header_ok h → algorithm h ≠ 0 → array NONCE_LEN nonce →
  ∃ tag ct, array TAG_LEN tag ∧ array BODY_LEN ct ∧
    Crypto.open_body dek (sb_identity_aad sb) nonce tag ct = COk (body_plaintext sb) ∧
    serialize_encrypted sb dek nonce = Ok (stamp_checksum (enc_image sb h nonce tag ct)).
Proof.
  intros Hok He Hh Ha Hn. unfold serialize_encrypted. rewrite He. cbv zeta. unfold Crypto.seal_body.
  destruct (CryptoProps.seal_open_detached dek nonce (sb_identity_aad sb) (body_plaintext sb)
    (body_plaintext_bytes sb Hok)) as (ct & tag & -> & Hc & Ht & Ho).
  rewrite body_plaintext_len in Hc by done. exists tag, ct. ands; [done | done | exact Ho |].
  pose proof Hc as [Lc _]. rewrite cast_small by (rewrite Lc; done).
  change (SEALED_BODY_OFFSET + NONCE_LEN + TAG_LEN + 2) with 1398.
  rewrite Lc. change (PAGE_SIZE <? 1398 + BODY_LEN) with false. cbv iota.
  unfold enc_image, enc_tail. rewrite Lc. done.
Qed.

(** The superblock an encrypted page shows before it is unlocked. *)
Definition locked (sb : Superblock) : Superblock := {|
  magic := magic sb; format_version := format_version sb; txn_counter := txn_counter sb;
  root_handle_table_page := 0; root_freemap_page := 0; total_pages := 0; next_handle := 0;
  page_size := page_size sb; named_roots := replicate (Z.to_nat NAMED_ROOT_COUNT) EMPTY_ROOT;
  superblock_count := superblock_count sb; root_membership_index_page := 0; freemap_depth := 0;
  encryption := encryption sb |}.

Lemma deserialize_encrypted sb h nonce tag ct :
  sb_ok sb → sb_valid sb → encryption sb = Some h → header_ok h → algorithm h ≠ 0 →
  array NONCE_LEN nonce → array TAG_LEN tag → array BODY_LEN ct →
  deserialize (stamp_checksum (enc_image sb h nonce tag ct)) = Some (locked sb).
Proof.
  intros Hok (Hm & Hcr & Htx) He Hh Ha Hn Ht Hc.
  destruct (enc_image_fields sb h nonce tag ct Hok Hh Ha Hn Ht Hc) as (Hw & F1 & F2 & F3 & F4 & F5 & F6).
  set (b := enc_image sb h nonce tag ct) in *. pose proof (body_stamp _ Hw) as Hb. unfold deserialize.
  rewrite validate_stamped by (done || congruence || lia).
  assert (Hd : CryptoHeader.deserialize (stamp_checksum b) = Some h).
  { rewrite <- F6. apply header_deserialize_slice; [by apply wf_stamp | apply Hw |].
    intros off k ???. apply (body_slice _ _ _ _ Hb); plia. }
  rewrite Hd. unfold SUPERBLOCK_COUNT_OFFSET. rewrite !(body_get_le _ _ _ _ Hb) by (done || plia).
  rewrite F1, F2, F3, F4, F5. unfold locked. by rewrite He.
Qed.

Lemma decrypt_image sb sb0 h dek nonce tag ct :
  sb_ok sb → header_ok h → algorithm h ≠ 0 →
  array NONCE_LEN nonce → array TAG_LEN tag → array BODY_LEN ct →
  Crypto.open_body dek (sb_identity_aad sb) nonce tag ct = COk (body_plaintext sb) →
  same_identity sb0 sb →
  decrypt_body sb0 dek (stamp_checksum (enc_image sb h nonce tag ct)) = COk sb.
Proof.
  intros Hok Hh Ha Hn Ht Hc Ho Hid.
  destruct (enc_image_fields sb h nonce tag ct Hok Hh Ha Hn Ht Hc) as (Hw & _).
  pose proof (body_stamp _ Hw) as Hb. unfold decrypt_body. cbv zeta.
  change SEALED_BODY_OFFSET with 1356. change NONCE_LEN with 24. change TAG_LEN with 16.
  change (1356 + 24) with 1380. change (1380 + 16) with 1396. change (1396 + 2) with 1398.
  rewrite (body_get_le _ _ _ _ Hb), !(body_slice _ _ _ _ Hb) by (done || plia).
  destruct (enc_tail_fields nonce tag ct (serialize_into h (enc_head sb)) Hn Ht Hc) as (E1 & E2 & E3 & E4).
  { apply serialize_into_wf; [done | apply enc_head_wf]. }
  unfold enc_image in *. rewrite E1, E2, E3. simpl (CHECKSUM_OFFSET <? _). cbv iota.
  rewrite (body_slice 1398 300 _ _ Hb), E4 by (done || plia).
  assert (sb_identity_aad sb0 = sb_identity_aad sb) as ->.
  { destruct Hid as (I1 & I2 & I3 & _ & I5 & _). unfold sb_identity_aad. by rewrite I1, I2, I3, I5. }
  rewrite Ho. by apply load_body_plaintext.
Qed.
End encrypted.
End SuperblockBody.

Module SuperblockProps.
Import CryptoHeader CryptoHeaderFacts CryptoProps Superblock SuperblockFacts SuperblockBody.

Section props.
Context `{HX : Xxh3} `{HC : Primitives}.

(** The encrypted image is a page, opens without the key to the identity, and with it to
    the superblock. *)
Lemma encrypted_image sb h dek nonce :
  sb_ok sb → sb_valid sb → encryption sb = Some h → header_ok h → algorithm h ≠ 0 →
  array NONCE_LEN nonce →
  ∃ raw, serialize_encrypted sb dek nonce = Ok raw ∧ deserialize raw = Some (locked sb) ∧
    decrypt_body (locked sb) dek raw = COk sb ∧ wf_page raw.
Proof.
  intros Hok Hv He Hh Ha Hn.
  destruct (serialize_encrypted_eq sb h dek nonce Hok He Hh Ha Hn) as (tag & ct & Ht & Hc & Ho & E).
  eexists. split; [exact E |]. split; [by apply deserialize_encrypted |]. split.
  - apply decrypt_image; auto. repeat split. simpl.
    destruct Hok as (_ & _ & _ & _ & _ & _ & _ & _ & (Hl & _) & _). unfold zlen in Hl.
    unfold NAMED_ROOT_COUNT in *. lia.
  - apply wf_stamp. by apply enc_image_fields.
Qed.


(** C32 [next_txn_counter] and [next_handle_after] never wrap: for every stored
    counter they return its successor, which the superblock checks still accept,
    or refuse with their error exactly when the successor is in the reserve. *)
Theorem counters_do_not_wrap c :
  is_u64 c →
  (next_txn_counter c = if c <? MAX_TXN_COUNTER then Ok (c + 1) else Err (TxnCounterExhausted c)) ∧
  (next_handle_after c = if c <? MAX_NEXT_HANDLE then Ok (c + 1) else Err (HandleSpaceExhausted c)).
Proof.
  intros Hc. unfold next_txn_counter, next_handle_after. cbv zeta.
  change MAX_TXN_COUNTER with (2 ^ 64 - 1 - 2 ^ 32). change MAX_NEXT_HANDLE with (2 ^ 64 - 1 - 2 ^ 32).
  unfold sat_add, u64_max, is_u64 in *.
  split; case_tests; solve [lia | done | do 2 f_equal; lia].
Qed.

Lemma deserialize_none b : deserialize b = None ↔ ∃ d, validate b = Some d.
Proof.
  unfold deserialize. destruct (validate b) as [d |]; [split; eauto |].
  split; [by destruct (CryptoHeader.deserialize b) | by intros []].
Qed.

Lemma diagnose_bound_pos buffers : 0 ≤ diagnose_bound buffers.
Proof.
  unfold diagnose_bound. destruct (list_find _ _) as [[i n] |] eqn:E; [| done].
  apply list_find_Some in E as (_ & Hr & _). apply andb_true_iff in Hr as [Hr%Z.leb_le _]. simpl.
  unfold MIN_SUPERBLOCKS in Hr. lia.
Qed.


(** A superblock with the key slots of another header. *)
Definition with_slots (h : CryptoHeader) (sb : Superblock) : Superblock := {|
  magic := magic sb; format_version := format_version sb; txn_counter := txn_counter sb;
  root_handle_table_page := root_handle_table_page sb; root_freemap_page := root_freemap_page sb;
  total_pages := total_pages sb; next_handle := next_handle sb; page_size := page_size sb;
  named_roots := named_roots sb; superblock_count := superblock_count sb;
  root_membership_index_page := root_membership_index_page sb; freemap_depth := freemap_depth sb;
  encryption := (λ c, {| algorithm := algorithm c; stride := stride c; slots := slots h |}) <$> encryption sb |}.

(** Rewriting the slot table leaves every other byte range of the body alone. *)
Lemma rewritten_slice h u off n :
  wf_page u → zlen (slots h) = KEY_SLOT_COUNT → Forall slot_ok (slots h) →
  0 ≤ off → 0 ≤ n → off + n ≤ CHECKSUM_OFFSET → off + n ≤ 332 ∨ 1356 ≤ off →
  slice off n (stamp_checksum (write_slots SLOT_TABLE_OFFSET (slots h) u)) = slice off n u.
Proof.
  intros [Hl Hb] Hz Hs Ho Hn Hc Hd.
  assert (Hw : wf_page (write_slots SLOT_TABLE_OFFSET (slots h) u)).
  { split; [| by apply write_slots_bytes]. rewrite zlen_write_slots; [done | done | done |].
    rewrite Hl, Hz. done. }
  rewrite (body_slice _ _ _ _ (body_stamp _ Hw)) by done.
  apply write_slots_out; [done | done | | done | done |].
  - rewrite Hl, Hz. done.
  - rewrite Hz. exact Hd.
Qed.

(** The page [overwrite_slot_table] leaves. *)
Definition rewritten (h : CryptoHeader) (u : list Z) : list Z :=
  stamp_checksum (write_slots SLOT_TABLE_OFFSET (slots h) u).

Section overwrite.
Variables (h : CryptoHeader) (u : list Z).
Hypothesis Hu : wf_page u.
Hypothesis Hz : zlen (slots h) = KEY_SLOT_COUNT.
Hypothesis Hs : Forall slot_ok (slots h).

Lemma slots_written_wf : wf_page (write_slots SLOT_TABLE_OFFSET (slots h) u).
Proof.
  destruct Hu as [Hl Hb]. split; [| by apply write_slots_bytes].
  rewrite zlen_write_slots; [done | done | done |]. rewrite Hl, Hz. done.
Qed.

Lemma rewritten_get n off :
  0 ≤ off → off + Z.of_nat n ≤ CHECKSUM_OFFSET → off + Z.of_nat n ≤ 332 ∨ 1356 ≤ off →
  get_le n off (rewritten h u) = get_le n off u.
Proof. intros. unfold get_le. by rewrite (rewritten_slice h u) by (done || lia). Qed.

Lemma rewritten_validate : validate u = None → validate (rewritten h u) = None.
Proof.
  unfold validate at 1. cbv zeta. destruct (verify_checksum u); [| done]. cbn [negb].
  destruct (Z.eqb_spec (get_u32 0 u) MAGIC) as [Hm |]; [| done]. cbn [negb].
  unfold SUPERBLOCK_COUNT_OFFSET.
  destruct (count_in_range (get_u32 308 u)) eqn:Hc; [| done]. cbn [negb].
  destruct (Z.ltb_spec MAX_TXN_COUNTER (get_u64 8 u)); [done |]. intros _.
  pose proof slots_written_wf as Hw. pose proof (body_stamp _ Hw) as Hb. unfold rewritten.
  assert (Hg : ∀ n off, 0 ≤ off → off + Z.of_nat n ≤ 332 →
    get_le n off (write_slots SLOT_TABLE_OFFSET (slots h) u) = get_le n off u).
  { intros n off ??. rewrite <- (body_get_le _ _ _ _ Hb) by plia. apply rewritten_get; [done | plia | lia]. }
  apply validate_stamped; [done | | |]; rewrite Hg by done; done.
Qed.

Lemma rewritten_header :
  CryptoHeader.deserialize (rewritten h u) =
    (λ c, {| algorithm := algorithm c; stride := stride c; slots := slots h |}) <$> CryptoHeader.deserialize u.
Proof.
  pose proof slots_written_wf as Hw. pose proof (wf_stamp _ Hw) as Hw'.
  unfold CryptoHeader.deserialize, CRYPTO_HEADER_OFFSET. cbv zeta.
  assert (Hg : getb 324 (rewritten h u) = getb 324 u).
  { assert (Lr : zlen (rewritten h u) = PAGE_SIZE) by apply Hw'.
    rewrite !getb_le1 by (rewrite ?Lr, ?(wf_page_zlen _ Hu); done).
    apply rewritten_get; [done | done | by left]. }
  rewrite Hg. destruct (getb 324 u =? 0); [done |]. simpl fmap.
  rewrite rewritten_get by (done || by left). do 2 f_equal.
  transitivity (read_slots SLOT_TABLE_OFFSET (Z.to_nat KEY_SLOT_COUNT)
    (write_slots SLOT_TABLE_OFFSET (slots h) u)).
  - apply (read_array_slice read_slot); auto using read_slot_slice; [done.. |]. intros off k H1 H2 H3.
    change (SLOT_TABLE_OFFSET + Z.of_nat (Z.to_nat KEY_SLOT_COUNT) * KEY_SLOT_SIZE) with 1356 in H3.
    change SLOT_TABLE_OFFSET with 332 in H1. apply (body_slice _ _ _ _ (body_stamp _ Hw)); plia.
  - assert (Z.to_nat KEY_SLOT_COUNT = length (slots h)) as -> by (unfold zlen in Hz; lia).
    apply read_write_slots; [done | done |]. rewrite (wf_page_zlen _ Hu), Hz. done.
Qed.

Lemma rewritten_roots :
  read_roots NAMED_ROOTS_OFFSET (Z.to_nat NAMED_ROOT_COUNT) (rewritten h u) =
  read_roots NAMED_ROOTS_OFFSET (Z.to_nat NAMED_ROOT_COUNT) u.
Proof.
  apply read_roots_slice; [done |]. intros off k H1 H2 H3.
  change (NAMED_ROOTS_OFFSET + Z.of_nat (Z.to_nat NAMED_ROOT_COUNT) * NAMED_ROOT_ENTRY_SIZE) with 308 in H3.
  unfold NAMED_ROOTS_OFFSET in H1. apply rewritten_slice; try done; try plia.
Qed.

Lemma rewritten_deserialize sb :
  deserialize u = Some sb → deserialize (rewritten h u) = Some (with_slots h sb).
Proof.
  unfold deserialize. destruct (validate u) eqn:Ev; [done |]. rewrite rewritten_validate by done.
  rewrite rewritten_header. unfold SUPERBLOCK_COUNT_OFFSET, ROOT_MEMBERSHIP_INDEX_OFFSET, FREEMAP_DEPTH_OFFSET.
  rewrite !rewritten_get, rewritten_roots by (done || by left).
  destruct (CryptoHeader.deserialize u) as [c |]; intros [= <-]; done.
Qed.

Lemma rewritten_decrypt sb dek :
  decrypt_body (with_slots h sb) dek (rewritten h u) =
    match decrypt_body sb dek u with
    | COk x => COk (with_slots h x)
    | CErr e => CErr e
    | CPanic p => CPanic p
    end.
Proof.
  unfold decrypt_body. cbv zeta.
  change SEALED_BODY_OFFSET with 1356. change NONCE_LEN with 24. change TAG_LEN with 16.
  change (1356 + 24) with 1380. change (1380 + 16) with 1396. change (1396 + 2) with 1398.
  rewrite rewritten_get by (done || by right).
  assert (Hct : 0 ≤ get_u16 1396 u).
  { destruct Hu as [_ Hb]. assert (Hb' : bytes_ok (slice 1396 2 u)) by by apply Forall_take, Forall_drop.
    apply (le_decode_bound _ Hb'). }
  destruct (Z.ltb_spec CHECKSUM_OFFSET (1398 + get_u16 1396 u)); [done |].
  rewrite !(rewritten_slice h u) by (done || lia || plia || by right).
  change (sb_identity_aad (with_slots h sb)) with (sb_identity_aad sb).
  destruct (Crypto.open_body _ _ _ _ _) as [body | |]; [| done | done].
  unfold load_body. destruct (negb _); done.
Qed.
End overwrite.

(** C30 [overwrite_slot_table], the rewrite of a stored superblock on a key change:
    it refuses a page that is not a superblock, and on one that is it changes the
    key slots and nothing else; the image is still valid, every other field reads
    as before, and with any key the sealed body opens to what it opened to. *)
Theorem overwrite_slots_only h u :
  wf_page u → zlen (slots h) = KEY_SLOT_COUNT → Forall slot_ok (slots h) →
  match overwrite_slot_table h u with
  | None => deserialize u = None
  | Some u' => ∃ sb, deserialize u = Some sb ∧ deserialize u' = Some (with_slots h sb) ∧
      ∀ dek, decrypt_body (with_slots h sb) dek u' =
        match decrypt_body sb dek u with
        | COk x => COk (with_slots h x)
        | CErr e => CErr e
        | CPanic p => CPanic p
        end
  end.
Proof.
  intros Hu Hz Hs. unfold overwrite_slot_table. destruct (deserialize u) as [sb |] eqn:E; [| done].
  exists sb. ands; [done | by apply rewritten_deserialize |]. intros dek. by apply rewritten_decrypt.
Qed.
End props.

(** ** Examples *)

Definition demo_sb (e : option CryptoHeader) : Superblock := {|
  magic := MAGIC; format_version := FORMAT_VERSION; txn_counter := 7;
  root_handle_table_page := 3; root_freemap_page := 4; total_pages := 12; next_handle := 9;
  page_size := PAGE_SIZE;
  named_roots := {| name := 97 :: zeros 23; handle := 5 |} :: replicate 7 EMPTY_ROOT;
  superblock_count := 2; root_membership_index_page := 6; freemap_depth := 1; encryption := e |}.

Lemma empty_root_ok : root_ok EMPTY_ROOT.
Proof. split; [split; [done | apply bytes_ok_zeros] | done]. Qed.

Lemma demo_sb_ok e : sb_ok (demo_sb e) ∧ sb_valid (demo_sb e).
Proof.
  split; [| by repeat split]. unfold sb_ok. ands; try by split. simpl. constructor.
  - split; [split; [done | constructor; [by split | apply bytes_ok_zeros]] | done].
  - repeat (constructor; [apply empty_root_ok |]). constructor.
Qed.


Lemma counters_do_not_wrap_witness : next_txn_counter 41 = Ok 42.
Proof. assert (Hc : is_u64 41) by by split. destruct (counters_do_not_wrap 41 Hc) as [-> _]. done. Defined.

Lemma overwrite_slots_only_witness : overwrite_slot_table CryptoHeaderProps.demo_header zero_page = None.
Proof.
  pose proof (overwrite_slots_only CryptoHeaderProps.demo_header zero_page wf_zero_page) as H.
  assert (Hd : deserialize zero_page = None) by by vm_compute.
  destruct (overwrite_slot_table _ _); [| done].
  destruct H as (sb & E & _); [done | apply CryptoHeaderProps.demo_header_ok | congruence].
Defined.
End SuperblockProps.
