(* ===== verification/TxnAlloc.v ===== *)
(** * Page allocation in a transaction ([src/transaction/freemap.rs])

    Three supplies of page ids: the pages this transaction allocated and
    superseded ([TxnPageRecycle]), the committed freemap tree, and the end of the
    file; the tree's own copies come from the pages it superseded one commit ago
    ([FreemapRecycle]).  A function that runs on part of a larger state is run by
    [zoom], which puts the part back on every outcome. *)

From S2P Require Export Reuse FreeMapTree Superblock.

(** A store with further state beside it. *)
#[export] Instance lift_store {St X} `{PageStore St} : PageStore (St * X) := {|
  ps_get id := lift (ps_get id);
  ps_modify id f := lift (ps_modify id f);
  ps_new_page := lift ps_new_page;
  ps_next_page_id sx := ps_next_page_id sx.1
|}.

(** A function that borrows part of the state. *)
Definition zoom {S T A} (get : S → T) (put : T → S → S) (m : M T A) : M S A := λ s,
  let '(r, t) := m (get s) in (r, put t s).

Module TxnAlloc.
Import FreeMapTree.

Record Roots := {
  handle_table_page : Z;
  freemap_page : Z;
  freemap_depth : nat;
  next_handle : Z;
  total_pages : Z;
  named_roots : list Superblock.NamedRoot;
  membership_index_page : Z
}.

Definition set_freemap (page : Z) (d : nat) (r : Roots) : Roots :=
  {| handle_table_page := handle_table_page r; freemap_page := page; freemap_depth := d;
     next_handle := next_handle r; total_pages := total_pages r; named_roots := named_roots r;
     membership_index_page := membership_index_page r |}.

(** ** The within-transaction pool *)

Record TxnPageRecycle := { allocated : gset Z; recyclable : list Z }.

Definition pool_new : TxnPageRecycle := {| allocated := ∅; recyclable := [] |}.

Definition record (id : Z) (self : TxnPageRecycle) : TxnPageRecycle :=
  {| allocated := {[id]} ∪ allocated self; recyclable := recyclable self |}.

(** The loop of [retire] over the drained [freed] vector. *)
Fixpoint retire_loop (freed : list Z) : M (TxnPageRecycle * list Z) unit :=
  match freed with
  | [] => ret tt
  | id :: freed =>
      let* self := reads fst in
      (if decide (id ∈ allocated self) then
         assert_that PanicAssert (negb (bool_decide (id ∈ recyclable self))) ;;;
         writes (λ sx, ({| allocated := allocated sx.1; recyclable := recyclable sx.1 ++ [id] |}, sx.2))
       else writes (λ sx, (sx.1, sx.2 ++ [id]))) ;;;
      retire_loop freed
  end.

(** The state has [txn_freed_pages] beside the pool. *)
Definition retire (freed : list Z) (pool_enabled : bool) : M (TxnPageRecycle * list Z) unit :=
  if negb pool_enabled then writes (λ sx, (sx.1, sx.2 ++ freed)) else retire_loop freed.

Definition drain_into : M (TxnPageRecycle * list Z) unit :=
  writes (λ sx, ({| allocated := allocated sx.1; recyclable := [] |}, sx.2 ++ recyclable sx.1)).

Definition reset (self : TxnPageRecycle) : TxnPageRecycle := {| allocated := ∅; recyclable := [] |}.

(** ** The freemap's own pages *)

Record FreemapMark := { superseded_len : nat; mark_owned : gset Z }.

Record FreemapRecycle := {
  hint : Z;
  hint_at_begin : Z;
  structural_reuse : list Z;
  structural_superseded : list Z;
  pending_structural_frees : list Z;
  recycle_owned : gset Z
}.

Definition recycle_new : FreemapRecycle :=
  {| hint := 0; hint_at_begin := 0; structural_reuse := []; structural_superseded := [];
     pending_structural_frees := []; recycle_owned := ∅ |}.

Definition set_owned (o : gset Z) (self : FreemapRecycle) : FreemapRecycle :=
  {| hint := hint self; hint_at_begin := hint_at_begin self; structural_reuse := structural_reuse self;
     structural_superseded := structural_superseded self;
     pending_structural_frees := pending_structural_frees self; recycle_owned := o |}.

(** [hint] and [structural_reuse], which the allocator borrows. *)
Definition set_supply (h : Z) (reuse : list Z) (self : FreemapRecycle) : FreemapRecycle :=
  {| hint := h; hint_at_begin := hint_at_begin self; structural_reuse := reuse;
     structural_superseded := structural_superseded self;
     pending_structural_frees := pending_structural_frees self; recycle_owned := recycle_owned self |}.

(** The tree and what is left of the recycle while the tree is out. *)
Definition take_tree (roots : Roots) (self : FreemapRecycle) : FreeMapTree * FreemapRecycle :=
  let tree := from_roots (freemap_page roots) (freemap_depth roots) in
  ({| root := root tree; depth := depth tree; pending_superseded := pending_superseded tree;
      session_owned := recycle_owned self |}, set_owned ∅ self).

Definition put_tree (tree : FreeMapTree) (sx : FreemapRecycle * Roots) : FreemapRecycle * Roots :=
  ({| hint := hint sx.1; hint_at_begin := hint_at_begin sx.1; structural_reuse := structural_reuse sx.1;
      structural_superseded := structural_superseded sx.1 ++ pending_superseded tree;
      pending_structural_frees := pending_structural_frees sx.1; recycle_owned := session_owned tree |},
   set_freemap (root tree) (depth tree) sx.2).

Definition begin (self : FreemapRecycle) : FreemapRecycle :=
  {| hint := hint self; hint_at_begin := hint self; structural_reuse := pending_structural_frees self;
     structural_superseded := []; pending_structural_frees := pending_structural_frees self;
     recycle_owned := ∅ |}.

Definition commit (self : FreemapRecycle) : FreemapRecycle :=
  {| hint := hint self; hint_at_begin := hint_at_begin self; structural_reuse := [];
     structural_superseded := [];
     pending_structural_frees := structural_superseded self ++ structural_reuse self;
     recycle_owned := ∅ |}.

Definition rollback (self : FreemapRecycle) : FreemapRecycle :=
  {| hint := hint_at_begin self; hint_at_begin := hint_at_begin self; structural_reuse := [];
     structural_superseded := []; pending_structural_frees := pending_structural_frees self;
     recycle_owned := ∅ |}.

Definition savepoint_mark (self : FreemapRecycle) : FreemapMark :=
  {| superseded_len := length (structural_superseded self); mark_owned := recycle_owned self |}.

Definition rollback_to_mark (mark : FreemapMark) (self : FreemapRecycle) : FreemapRecycle :=
  {| hint := hint self; hint_at_begin := hint_at_begin self; structural_reuse := structural_reuse self;
     structural_superseded := take (superseded_len mark) (structural_superseded self);
     pending_structural_frees := pending_structural_frees self; recycle_owned := mark_owned mark |}.

(** What the allocation closure of a call captures. *)
Record AllocEnv := { freemap : FreemapRecycle; tree : FreeMapTree; txn_pages : TxnPageRecycle }.

Definition set_pool (p : TxnPageRecycle) (e : AllocEnv) : AllocEnv :=
  {| freemap := freemap e; tree := tree e; txn_pages := p |}.

Section ops.
Context {St : Type} `{HX : Xxh3} `{HP : !PageStore St} `{HR : !PageReuse St}.

(** [Vec::pop] takes the last element. *)
Definition structural_extend : M (St * list Z) Z :=
  let* reuse := reads snd in
  match last reuse with
  | Some id =>
      writes (λ sx, (sx.1, removelast sx.2)) ;;;
      lift (ps_claim id) ;;;
      ret id
  | None => lift ps_new_page
  end.

Definition draw : M (St * TxnPageRecycle) (option Z) :=
  let* self := reads snd in
  match last (recyclable self) with
  | None => ret None
  | Some id =>
      lift (ps_reclaim id) ;;;
      writes (λ sx, (sx.1, {| allocated := allocated sx.2; recyclable := removelast (recyclable sx.2) |})) ;;;
      ret (Some id)
  end.

Definition do_record (id : Z) : M (St * AllocEnv) unit :=
  writes (λ sx, (sx.1, set_pool (record id (txn_pages sx.2)) sx.2)).

(** The parts of the state [draw] and [allocate_first] borrow. *)
Definition pool_part (sx : St * AllocEnv) : St * TxnPageRecycle := (sx.1, txn_pages sx.2).
Definition put_pool_part (t : St * TxnPageRecycle) (sx : St * AllocEnv) : St * AllocEnv :=
  (t.1, set_pool t.2 sx.2).
Definition tree_part (sx : St * AllocEnv) : St * list Z * FreeMapTree * Z :=
  (sx.1, structural_reuse (freemap sx.2), tree sx.2, hint (freemap sx.2)).
Definition put_tree_part (t : St * list Z * FreeMapTree * Z) (sx : St * AllocEnv) : St * AllocEnv :=
  (t.1.1.1, {| freemap := set_supply t.2 t.1.1.2 (freemap sx.2); tree := t.1.2;
               txn_pages := txn_pages sx.2 |}).

Definition cow_alloc (reuse_enabled : bool) : M (St * AllocEnv) Z :=
  let* drawn := (if reuse_enabled then zoom pool_part put_pool_part draw else ret None) in
  match drawn with
  | Some id => do_record id ;;; ret id
  | None =>
      let* e := reads snd in
      let* found := (if reuse_enabled && negb (root (tree e) =? PAGE_ID_NONE)
                     then zoom tree_part put_tree_part (allocate_first structural_extend)
                     else ret None) in
      match found with
      | Some id =>
          lift (ps_claim id) ;;;
          do_record id ;;;
          ret id
      | None =>
          let* id := lift ps_new_page in
          do_record id ;;;
          ret id
      end
  end.

(** The closure of [mark_free_committed_path]: a database that never freed a page
    gets its first leaf, keeping the session set. *)
Definition mark_free_body (id : Z) : M (St * list Z * FreeMapTree) unit :=
  let* t := reads snd in
  (if root t =? PAGE_ID_NONE then
     writes (λ sx, (sx.1, {| root := root t; depth := depth t;
       pending_superseded := pending_superseded t; session_owned := ∅ |})) ;;;
     let* t' := lift (create structural_extend) in
     writes (λ sx, (sx.1, {| root := root t'; depth := depth t';
       pending_superseded := pending_superseded t'; session_owned := session_owned t' ∪ session_owned t |}))
   else ret tt) ;;;
  mark_free_growing structural_extend id.

(** The state has the recycle and the roots. *)
Definition mark_free_committed_path (id : Z) : M (St * FreemapRecycle * Roots) unit :=
  zoom (λ sx, (sx.1.1, structural_reuse sx.1.2, (take_tree sx.2 sx.1.2).1))
    (λ t sx,
      let fm := (take_tree sx.2 sx.1.2).2 in
      let '(fm, roots) := put_tree t.2 (set_supply (Z.min (hint fm) id) t.1.2 fm, sx.2) in
      (t.1.1, fm, roots))
    (mark_free_body id).

Fixpoint persist (txn_freed_pages : list Z) : M (St * FreemapRecycle * Roots) unit :=
  match txn_freed_pages with
  | [] => ret tt
  | id :: ids => mark_free_committed_path id ;;; persist ids
  end.

(** The loop of [reclaim_orphans] over the ids below the high-water mark; a page
    that cannot be read as a page is passed over. *)
Fixpoint orphan_loop (t : FreeMapTree) (skip : gset Z) (ids orphans : list Z) : M St (list Z) :=
  match ids with
  | [] => ret orphans
  | id :: ids =>
      if decide (id ∈ skip) then orphan_loop t skip ids orphans else
      let* page := (λ s, match ps_get id s with
        | (Err (CorruptPage _), s') | (Err (ChecksumMismatch _), s') => (Ok None, s')
        | (Ok buf, s') => (Ok (Some buf), s')
        | (Err e, s') => (Err e, s')
        | (Panic p, s') => (Panic p, s')
        end) in
      match page with
      | None => orphan_loop t skip ids orphans
      | Some buf =>
          let ty := getb 0 buf in
          let* orphan :=
            (if (ty =? type_tag FreeMapPage) || (ty =? type_tag FreeMapInterior) then
               let* f := is_free t id in ret (negb f)
             else ret false) in
          orphan_loop t skip ids (if orphan : bool then orphans ++ [id] else orphans)
      end
  end.

Definition reclaim_orphans (savepoint_active : bool) (superblock_count : Z)
    : M (St * FreemapRecycle * Roots) Z :=
  if savepoint_active then ret 0 else
  let* roots := reads snd in
  let* self := reads (λ sx, sx.1.2) in
  if freemap_page roots =? PAGE_ID_NONE then ret 0 else
  let excluded : gset Z := list_to_set
    (structural_reuse self ++ structural_superseded self ++ pending_structural_frees self) in
  let t := from_roots (freemap_page roots) (freemap_depth roots) in
  let* total := reads (λ sx, ps_next_page_id sx.1.1) in
  let* reachable := lift (lift (reachable_pages t)) in
  let* orphans := lift (lift (orphan_loop t (reachable ∪ excluded)
    (seqZ superblock_count (total - superblock_count)) [])) in
  persist orphans ;;;
  ret (zlen orphans).
End ops.
End TxnAlloc.
