(* ===== verification/StructuralStore.v ===== *)
(** * The store under the freemap tree

    While the freemap tree runs, the pages set aside for its own copies (the list that
    [structural_extend] pops) and the pages [P] that other pools hold or that the tree
    itself says are free are nobody's: [parked] is the page store without them.  Over
    it, [structural_extend] hands out fresh pages, which is all that the tree asks of
    its [extend] closure. *)

From S2P Require Export TxnAlloc.

Module StructuralStore.
Import TxnAlloc.

(** A frame and a property of the final state. *)
Lemma spec_and {S A} `{Fault} (F G : S → Prop) (m : M S A) s (Q : A → S → Prop) :
  spec F m s Q → G (m s).2 → spec (λ s', F s' ∧ G s') m s Q.
Proof. intros [HF HQ] HG. by split. Qed.

Section parked.
Context {St : Type} `{HX : Xxh3} `{HF : Fault} `{HP : !PageStore St} `{HS : !StoreOk St} `{HR : !PageReuse St} `{HO : !ReuseOk St}.
(** The pages that are nobody's, and those among them that must stay clean. *)
Variables (P C : Z → Prop).
Implicit Types (s : St) (r : list Z).

Record parked_inv (sx : St * list Z) : Prop := {
  pk_inv : st_inv sx.1;
  pk_nodup : NoDup sx.2;
  pk_reuse : ∀ j, j ∈ sx.2 → live sx.1 j ∧ 0 < j ∧ ps_dirty sx.1 j = false ∧ ¬ P j;
  pk_park : ∀ j, P j → live sx.1 j;
  pk_clean : ∀ j, C j → P j ∧ ps_dirty sx.1 j = false
}.

Definition parked_live (sx : St * list Z) (j : Z) : Prop := live sx.1 j ∧ (j ∉ sx.2) ∧ ¬ P j.

(** A step that touches at most page [id], which is not set aside. *)
Lemma parked_step s s' r id :
  parked_inv (s, r) → st_inv s' → (id ∈ r → False) → (C id → False) →
  (∀ j, live s j → live s' j) → (∀ j, j ≠ id → live s j → ps_dirty s j = false → ps_dirty s' j = false) →
  parked_inv (s', r).
Proof.
  intros [I N R K L] Hi Hr Hc Hl Hd. cbn [fst snd] in *. split; cbn [fst snd]; auto.
  - intros j Hj. destruct (R j Hj) as (? & ? & ? & ?). ands; auto. apply Hd; [by intros -> | done | done].
  - intros j Hj. destruct (L j Hj) as [? ?]. split; [done |]. apply Hd; [by intros -> | auto | done].
Qed.

Lemma parked_same s s' r : same view live s s' → same (λ sx, view sx.1) parked_live (s, r) (s', r).
Proof.
  intros Hs j. destruct (Hs j) as [H1 H2]. unfold parked_live. cbn [fst snd]. rewrite H1. split; [done |].
  intros (Hl & _). auto.
Qed.

#[local] Instance parked_store : StoreOk (St * list Z).
Proof.
  refine {| st_inv := parked_inv; view sx := view sx.1; live := parked_live |}.
  - intros [s r] id Hp (Hl & _). exact (live_next s id (pk_inv _ Hp) Hl).
  - intros [s r] id Hp (Hl & _). exact (live_none s id (pk_inv _ Hp) Hl).
  - intros [s r] id v Hp. exact (view_wf s id v (pk_inv _ Hp)).
  - intros [s r] id Hp. pose proof (pk_inv _ Hp) as Hi. cbn [ps_get lift_store]. apply spec_lift.
    eapply spec_conseq; [eapply (spec_and _ (λ s', ∀ j, ps_dirty s j = false → ps_dirty s' j = false)); [apply (get_ok s id Hi) |] | |].
    + exact (λ j Hj, get_clean s id j Hi Hj).
    + intros s' [[Hi' Hs] Hc]. split; [| by apply parked_same].
      eapply (parked_step s s' r (-1)); auto.
      * intros Hr. destruct (pk_reuse _ Hp (-1) Hr). lia.
      * intros Hc1. destruct (live_next s (-1) Hi); [by apply (pk_park _ Hp), (pk_clean _ Hp) | lia].
      * intros j Hj. by apply Hs.
    + auto.
  - intros [s r] id f Hp (Hl & Hr & Hn) Hf Hst. pose proof (pk_inv _ Hp) as Hi. cbn [ps_modify lift_store fst snd] in *. apply spec_lift.
    eapply spec_conseq; [eapply (spec_and _ (clean_but id s)); [apply (modify_ok s id f Hi Hl Hf Hst) |] | |].
    + exact (modify_clean s id f Hi Hl Hf Hst).
    + intros s' [[Hi' Ho] Hc]. split.
      * eapply (parked_step s s' r id); auto; [intros Hc1; by apply Hn, (pk_clean _ Hp) | intros j Hj; by apply Ho].
      * intros j. destruct (Ho j) as [H1 H2]. unfold parked_live. cbn [fst snd]. rewrite H1. split; [done |].
        intros (? & _) ?. auto.
    + intros p s' [[Hi' Ho] Hc] (Hw & Hb & v' & Hv & H). split; [done |]. split; [done |]. by exists v'.
  - intros [s r] id f Hp (Hl & _) Hk. pose proof (pk_inv _ Hp) as Hi. pose proof (modify_fail s id f Hi Hl) as Hm.
    cbn [ps_modify lift_store] in *. unfold lift in *. cbn [fst snd] in *. destruct (ps_modify id f s) as [x s'].
    cbn [fst snd] in *. by apply parked_same, Hm.
  - intros [s r] Hp. pose proof (pk_inv _ Hp) as Hi. cbn [ps_new_page lift_store]. apply spec_lift.
    eapply spec_conseq; [eapply (spec_and _ (λ s', ∀ j, live s j → ps_dirty s j = false → ps_dirty s' j = false)); [apply (new_page_ok s Hi) |] | |].
    + exact (λ j Hj, new_clean s j Hi Hj).
    + intros s' [[Hi' He] Hc]. split.
      * eapply (parked_step s s' r (-1)); auto.
        -- intros Hr. destruct (pk_reuse _ Hp (-1) Hr). lia.
        -- intros Hc1. destruct (live_next s (-1) Hi); [by apply (pk_park _ Hp), (pk_clean _ Hp) | lia].
        -- intros j Hj. by apply He.
      * intros j (Hl & ? & ?). destruct (He j Hl). by ands.
    + intros id s' [[Hi' He] Hc] (Hn & Hl & Hid). unfold parked_live. cbn [fst snd]. ands; try lia; try done.
      * by intros (? & _).
      * intros Hr. by apply Hn, (pk_reuse _ Hp).
      * intros Hpk. by apply Hn, (pk_park _ Hp).
Defined.

(** [structural_extend] is an allocator for the tree. *)
Lemma last_split (r : list Z) id : last r = Some id → r = removelast r ++ [id].
Proof.
  intros Hl. destruct (exists_last (l := r)) as (r' & x & ->); [by intros -> |].
  rewrite last_snoc in Hl. injection Hl as ->. by rewrite removelast_last.
Qed.

Lemma structural_extend_ok : alloc_ok structural_extend.
Proof.
  intros [s r] Hp. unfold structural_extend. apply bind_reads. cbn [snd]. destruct (last r) as [id |] eqn:El.
  2: { exact (new_page_ok (s, r) Hp). }
  pose proof (last_split r id El) as Er. set (r' := removelast r) in *. pose proof (pk_nodup _ Hp) as Hnd.
  cbn [snd] in Hnd. rewrite Er in Hnd. apply NoDup_app in Hnd as (Hnd & Hni & _).
  assert (Hid : id ∈ r) by (rewrite Er; apply elem_of_app; right; by apply list_elem_of_singleton).
  assert (Hsub : ∀ j, j ∈ r' → j ∈ r ∧ j ≠ id).
  { intros j Hj. split; [rewrite Er; apply elem_of_app; by left |]. intros ->. apply (Hni id Hj). by apply list_elem_of_singleton. }
  destruct (pk_reuse _ Hp id Hid) as (Hl & Hpos & Hd & HnP). pose proof (pk_inv _ Hp) as Hi. cbn [fst snd] in *.
  apply bind_writes. cbn [fst snd].
  eapply (bind_lift _ _ _ _ _ (λ _ s', live s' id)).
  - eapply spec_conseq; [apply (claim_ok s id Hi Hl Hd) | |].
    + intros s' (Hi' & Hl' & Hre & Hcl).
      assert (Hls : ∀ j, live s j → live s' j).
      { intros j Hj. destruct (decide (j = id)) as [-> | Hne]; [done |]. by apply (Hre j Hne). }
      split; [split; cbn [fst snd]; auto |].
      * intros j [Hj Hne]%Hsub. destruct (pk_reuse _ Hp j Hj) as (? & ? & ? & ?). ands; auto.
      * intros j Hj. by apply Hls, (pk_park _ Hp).
      * intros j Hj. destruct (pk_clean _ Hp j Hj) as [HPj ?]. split; [done |]. apply Hcl; [by intros -> | done].
      * intros j (Hj & Hjr & HjP). cbn [fst snd] in *. assert (j ≠ id) by (by intros ->).
        destruct (Hre j) as [Hlj Hvj]; [done |]. split; [split; cbn [fst snd]; ands | done].
        -- by apply Hlj.
        -- intros [? _]%Hsub. done.
        -- done.
    + by intros _ s' (_ & Hl' & _) _.
  - intros [] s' Hf Hl'. apply spec_ret; [done |]. unfold parked_live. ands; [| split; cbn [fst snd]; ands | done |].
    + intros (_ & Hn & _). by apply Hn.
    + done.
    + intros Hj. by destruct (Hsub id Hj).
    + done.
    + exact (live_none s id Hi Hl).
Qed.
End parked.
End StructuralStore.
