(* ===== verification/AllocStore.v ===== *)
(** * The store a transaction's data structures see

    The closure [cow_alloc] takes page ids from three supplies: the pages that the
    transaction allocated and superseded, the pages that the freemap tree says are
    free, and the end of the file.  A page is [taken] when it is in a supply or is part
    of the freemap tree; the others are the pages of the handle table, the membership
    index and the values.  With these as the live pages, the cache together with the
    allocator's state is again a page store, and [cow_alloc] is an allocator for it: it
    never hands out a page in use, and it does not write one. *)

From S2P Require Export StructuralStore FreeMapTreeSpec.

Module AllocStore.
Import TxnAlloc FreeMapTree FreeMapTreeRead FreeMapTreeWrite FreeMapTreeSpec StructuralStore.

Section alloc.
Context {St : Type} `{HX : Xxh3} `{HF : Fault} `{HP : !PageStore St} `{HS : !StoreOk St} `{HR : !PageReuse St} `{HO : !ReuseOk St}.
Implicit Types (s : St) (e : AllocEnv) (X : gset Z) (rec r : list Z).

Abbreviation reuse e := (structural_reuse (freemap e)).
Abbreviation pool e := (recyclable (txn_pages e)).

(** What the supplies beside [structural_reuse] hold. *)
Definition held rec X (j : Z) : Prop := j ∈ rec ∨ j ∈ X.
Definition unused X (j : Z) : Prop := j ∈ X.

Abbreviation layer rec X := (parked_store (held rec X) (unused X)).
Abbreviation tree_ok rec X := (ft_ok (HS := layer rec X) (HV := any_ver)).
Abbreviation pages rec X s r t := (reach (HS := layer rec X) (s, r) (depth t) (root t)).
Abbreviation avail rec X s r t := (free (HS := layer rec X) (s, r) t).

(** ** The invariant, for the set [X] of the ids that the tree says are free *)

Record env_ok X (sx : St * AllocEnv) : Prop := {
  ao_parked : parked_inv (held (pool sx.2) X) (unused X) (sx.1, reuse sx.2);
  ao_owned : ∀ x, x ∈ session_owned (tree sx.2) → parked_live (held (pool sx.2) X) (sx.1, reuse sx.2) x;
  ao_pool : NoDup (pool sx.2);
  ao_pos : ∀ j, held (pool sx.2) X j → 0 < j;
  ao_apart : ∀ j, j ∈ pool sx.2 → j ∉ X;
  ao_hint : is_u64 (hint (freemap sx.2));
  ao_none : root (tree sx.2) = PAGE_ID_NONE → X = ∅;
  ao_tree : root (tree sx.2) ≠ PAGE_ID_NONE → tree_ok (pool sx.2) X (sx.1, reuse sx.2) (tree sx.2);
  ao_free : root (tree sx.2) ≠ PAGE_ID_NONE →
    ∀ k, 0 ≤ k → avail (pool sx.2) X sx.1 (reuse sx.2) (tree sx.2) k = bool_decide (k ∈ X)
}.

Definition alloc_inv (sx : St * AllocEnv) : Prop := ∃ X, env_ok X sx.

(** ** The pages in use *)

Definition taken (sx : St * AllocEnv) (j : Z) : Prop :=
  j ∈ reuse sx.2 ∨ j ∈ pool sx.2 ∨ j ∈ session_owned (tree sx.2) ∨
  (root (tree sx.2) ≠ PAGE_ID_NONE ∧ (reach sx.1 (depth (tree sx.2)) (root (tree sx.2)) j ∨ free sx.1 (tree sx.2) j = true)).

Definition used (sx : St * AllocEnv) (j : Z) : Prop := live sx.1 j ∧ ¬ taken sx j.

(** The layer's pages are the store's. *)
Lemma layer_holds rec X s r x v : holds (H2 := layer rec X) (s, r) x v → holds s x v.
Proof. by intros [(? & _) ?]. Qed.

Lemma layer_pages rec X s r t x : tree_ok rec X (s, r) t → reach s (depth t) (root t) x ↔ pages rec X s r t x.
Proof.
  intros Ht. apply (across_reach (HV := any_ver) (HS1 := layer rec X) is_leaf is_int (s, r) s); [apply carried_all, layer_holds | apply Ht].
Qed.

Lemma layer_free rec X s r t k : tree_ok rec X (s, r) t → 0 ≤ k → free s t k = avail rec X s r t k.
Proof.
  intros Ht Hk. rewrite (free_key s t k Hk), (free_key (HS := layer rec X) (s, r) t k Hk). case_tests; [done |].
  apply (across_den (HV := any_ver) (HS1 := layer rec X) false LC is_leaf is_int leaf_val leaf_pos (s, r) s);
    [apply carried_all, layer_holds | apply Ht | lia].
Qed.

(** A page is in use when it is live under the tree and is not the tree's. *)
Lemma used_iff X s e j :
  env_ok X (s, e) →
  used (s, e) j ↔ parked_live (held (pool e) X) (s, reuse e) j ∧ (j ∉ session_owned (tree e)) ∧
    (root (tree e) ≠ PAGE_ID_NONE → ¬ pages (pool e) X s (reuse e) (tree e) j).
Proof.
  intros H. pose proof (ao_tree _ _ H) as Ht. pose proof (ao_free _ _ H) as Hf. pose proof (ao_none _ _ H) as Hn.
  cbn [fst snd] in *. unfold used, taken, parked_live, held. cbn [fst snd].
  destruct (decide (root (tree e) = PAGE_ID_NONE)) as [E | E].
  - rewrite (Hn E). split.
    + intros [Hl Ht']. ands; [done | tauto | intros [? | []%not_elem_of_empty]; tauto | tauto | done].
    + intros ((Hl & Hr & Hp) & Ho & _). split; [done |]. intros [? | [? | [? | [? _]]]]; [done | by apply Hp; left | done | done].
  - rewrite (layer_pages (pool e) X s (reuse e)) by auto.
    assert (Hfx : live s j → (free s (tree e) j = true ↔ j ∈ X)).
    { intros Hl. destruct (live_next s j (pk_inv _ _ _ (ao_parked _ _ H)) Hl) as [Hj _].
      rewrite (layer_free (pool e) X s (reuse e)), Hf by auto. apply bool_decide_eq_true. }
    split.
    + intros [Hl Ht']. specialize (Hfx Hl). split; [split; [done |]; split |]; [tauto | tauto |]. split; [tauto |].
      intros _ Hx. apply Ht'. do 3 right. split; [done |]. by left.
    + intros ((Hl & Hr & Hp) & Ho & Hpg). split; [done |]. specialize (Hfx Hl).
      intros [? | [? | [? | [_ [? | Hx]]]]]; [done | by apply Hp; left | done | by apply Hpg |].
      apply Hp. right. by apply Hfx.
Qed.

(** ** Steps of the store *)

(** [s'] differs from [s] at page [id] at most, which stays live. *)
Record touches (id : Z) s s' : Prop := {
  tc_inv : st_inv s';
  tc_live : ∀ j, live s j → live s' j;
  tc_view : ∀ j, j ≠ id → live s j → view s' !! j = view s !! j;
  tc_clean : ∀ j, j ≠ id → live s j → ps_dirty s j = false → ps_dirty s' j = false
}.

(** A step on a page that the supplies and the tree do not need. *)
Section step.
Variables (X : gset Z) (s s' : St) (e : AllocEnv) (id : Z).
Hypothesis He : env_ok X (s, e).
Hypothesis Ht : touches id s s'.
Hypothesis Hreuse : id ∉ reuse e.
Hypothesis Hfree : id ∉ X.
Hypothesis Hpages : root (tree e) ≠ PAGE_ID_NONE → ¬ pages (pool e) X s (reuse e) (tree e) id.

Abbreviation L := (layer (pool e) X).

Lemma step_parked : parked_inv (held (pool e) X) (unused X) (s', reuse e).
Proof.
  eapply (parked_step _ _ s s' _ id); [apply (ao_parked _ _ He) | apply Ht | done | done | apply Ht |].
  intros j Hj Hl Hd. by apply (tc_clean _ _ _ Ht).
Qed.

Lemma step_live j : parked_live (held (pool e) X) (s, reuse e) j → parked_live (held (pool e) X) (s', reuse e) j.
Proof. intros (Hl & ? & ?). split; [by apply (tc_live _ _ _ Ht) | done]. Qed.

Lemma step_agree :
  root (tree e) ≠ PAGE_ID_NONE →
  agree (HS := L) (s, reuse e) (s', reuse e) (pages (pool e) X s (reuse e) (tree e)).
Proof.
  intros Hr x v Hx [Hl Hv]. split; [by apply step_live |]. cbn [view parked_store fst] in *.
  rewrite (tc_view _ _ _ Ht); [done | intros ->; by apply Hpages | apply Hl].
Qed.

Lemma step_pages x :
  root (tree e) ≠ PAGE_ID_NONE → pages (pool e) X s' (reuse e) (tree e) x ↔ pages (pool e) X s (reuse e) (tree e) x.
Proof.
  intros Hr. apply (reach_agree (HS := L) (HV := any_ver) is_leaf is_int); [apply (ao_tree _ _ He Hr) | by apply step_agree].
Qed.

Lemma step_avail k :
  root (tree e) ≠ PAGE_ID_NONE → 0 ≤ k → avail (pool e) X s' (reuse e) (tree e) k = avail (pool e) X s (reuse e) (tree e) k.
Proof.
  intros Hr Hk. rewrite !(free_key (HS := L)) by done. case_tests; [done |].
  apply (den_agree (HS := L) (HV := any_ver) false LC is_leaf is_int leaf_val leaf_pos);
    [apply (ao_tree _ _ He Hr) | by apply step_agree | lia].
Qed.

Lemma env_step : env_ok X (s', e).
Proof.
  destruct He as [A B C D E F G H I]. cbn [fst snd] in *. split; cbn [fst snd]; auto; [apply step_parked | intros x Hx; by apply step_live, B | |].
  - intros Hr. destruct (H Hr) as [T1 T2 T3 T4 T5 T6]. split; auto.
    + exact step_parked.
    + eapply (wf_agree (HS := L) (HV := any_ver)); [exact T2 | by apply step_agree].
    + intros k Hk. change (avail (pool e) X s' (reuse e) (tree e) k = false).
      rewrite step_avail by (done || unfold u64_max in *; lia). by apply T5.
    + intros x Hx. by apply step_live, T6.
  - intros Hr k Hk. rewrite step_avail by done. auto.
Qed.

(** The pages in use stay in use, and no other page of [s] comes into use. *)
Lemma step_used j : used (s, e) j → used (s', e) j.
Proof.
  rewrite (used_iff X s e j He), (used_iff X s' e j env_step). intros (Hl & Ho & Hp).
  split; [by apply step_live |]. split; [done |]. intros Hr. rewrite step_pages by done. auto.
Qed.

Lemma step_used_back j : live s j → used (s', e) j → used (s, e) j.
Proof.
  intros Hj. rewrite (used_iff X s e j He), (used_iff X s' e j env_step). intros ((_ & Hl) & Ho & Hp).
  split; [by split |]. split; [done |]. intros Hr. rewrite <- step_pages by done. auto.
Qed.

Lemma step_view j : used (s, e) j → j ≠ id → view s' !! j = view s !! j.
Proof. intros [Hl _] Hj. by apply (tc_view _ _ _ Ht). Qed.
End step.

(** A page in use, and one that the store did not have, meet the conditions. *)
Lemma used_apart X s e j :
  env_ok X (s, e) → used (s, e) j →
  (j ∉ reuse e) ∧ (j ∉ X) ∧ (j ∉ pool e) ∧ (root (tree e) ≠ PAGE_ID_NONE → ¬ pages (pool e) X s (reuse e) (tree e) j).
Proof.
  intros He Hu. rewrite (used_iff X s e j He) in Hu. destruct Hu as ((_ & Hr & Hh) & Ho & Hp). unfold held in Hh. tauto.
Qed.

Lemma dead_apart X s e j :
  env_ok X (s, e) → ¬ live s j →
  (j ∉ reuse e) ∧ (j ∉ X) ∧ (j ∉ pool e) ∧ (j ∉ session_owned (tree e)) ∧
  (root (tree e) ≠ PAGE_ID_NONE → ¬ pages (pool e) X s (reuse e) (tree e) j).
Proof.
  intros He Hn. pose proof (ao_parked _ _ He) as Hp. pose proof (pk_park _ _ _ Hp) as Hpk. unfold held in Hpk. cbn [fst snd] in *.
  ands.
  - intros Hj. by apply Hn, (pk_reuse _ _ _ Hp).
  - auto.
  - auto.
  - intros Hj. by apply Hn, (ao_owned _ _ He).
  - intros Hr Hx. apply Hn. eapply (ok_pages_live (HS := layer (pool e) X) (HV := any_ver)) in Hx; [apply Hx | by apply (ao_tree _ _ He)].
Qed.

Lemma no_page s : st_inv s → ¬ live s (-1).
Proof. intros Hi Hl. pose proof (live_next s (-1) Hi Hl). lia. Qed.

(** A step that changes no page, and one that adds pages. *)
Lemma env_quiet X s s' e :
  env_ok X (s, e) → st_inv s' → same view live s s' → (∀ j, live s j → ps_dirty s j = false → ps_dirty s' j = false) →
  env_ok X (s', e) ∧ same (λ sx, view sx.1) used (s, e) (s', e).
Proof.
  intros He Hi Hs Hd. assert (Ht : touches (-1) s s').
  { split; [done | intros j; by apply Hs | intros j _ Hj; by apply Hs | auto]. }
  destruct (dead_apart X s e (-1) He) as (A1 & A2 & A3 & _ & A5); [by apply no_page, (pk_inv _ _ _ (ao_parked _ _ He)) |].
  split; [by eapply env_step |]. intros j. split; [split |].
  - intros Hu. eapply (step_used_back X s s' e (-1)); [done | done | done | done | done | apply Hs, Hu | done].
  - by eapply (step_used X s s' e (-1)).
  - intros Hu. apply (step_view s s' e (-1) Ht); [done |]. intros ->. eapply no_page; [apply (pk_inv _ _ _ (ao_parked _ _ He)) | apply Hu].
Qed.

Lemma env_extends X s s' e :
  env_ok X (s, e) → st_inv s' → ext s s' → (∀ j, live s j → ps_dirty s j = false → ps_dirty s' j = false) →
  env_ok X (s', e) ∧ extends (λ sx, view sx.1) used (s, e) (s', e).
Proof.
  intros He Hi Hs Hd. assert (Ht : touches (-1) s s').
  { split; [done | intros j; by apply Hs | intros j _ Hj; by apply Hs | auto]. }
  destruct (dead_apart X s e (-1) He) as (A1 & A2 & A3 & _ & A5); [by apply no_page, (pk_inv _ _ _ (ao_parked _ _ He)) |].
  split; [by eapply env_step |]. intros j Hu. split; [by eapply (step_used X s s' e (-1)) |].
  apply (step_view s s' e (-1) Ht); [done |]. intros ->. eapply no_page; [apply (pk_inv _ _ _ (ao_parked _ _ He)) | apply Hu].
Qed.

(** Which pages are in use depends on the pages only. *)
Lemma used_same X s s' e : env_ok X (s, e) → same view live s s' → same (λ sx, view sx.1) used (s, e) (s', e).
Proof.
  intros He Hs. pose proof (same_ext _ _ Hs) as Hex.
  assert (Htk : root (tree e) ≠ PAGE_ID_NONE → ∀ j, 0 ≤ j →
    (reach s' (depth (tree e)) (root (tree e)) j ↔ reach s (depth (tree e)) (root (tree e)) j) ∧
    free s' (tree e) j = free s (tree e) j).
  { intros Hr j Hj.
    assert (Hb : Radix.tree (HV := any_ver) is_leaf is_int s (depth (tree e)) (root (tree e))).
    { eapply (across_tree (HV := any_ver) (HS1 := layer (pool e) X) is_leaf is_int (s, reuse e) s); [apply carried_all, layer_holds | apply (ao_tree _ _ He Hr)]. }
    split; [by apply (reach_ext (HV := any_ver) is_leaf is_int) |]. rewrite !free_key by done. case_tests; [done |].
    apply (den_ext (HV := any_ver) false LC is_leaf is_int leaf_val leaf_pos); [done | done | lia]. }
  intros j. destruct (Hs j) as [Hl Hv]. split; [| intros [? _]; auto]. unfold used. cbn [fst]. rewrite Hl.
  destruct (decide (0 ≤ j)) as [Hj |].
  - unfold taken. cbn [fst snd]. split; (intros [H1 H2]; split; [done |]; contradict H2);
      (destruct H2 as [? | [? | [? | [Hr H2]]]]; [tauto.. |]); destruct (Htk Hr j Hj) as [E1 E2]; do 3 right; (split; [done |]);
      [rewrite E1, E2; done | rewrite <- E1, <- E2; done].
  - split; intros [H1 _]; destruct (live_next s j (pk_inv _ _ _ (ao_parked _ _ He)) H1); lia.
Qed.

(** A page that the store did not have comes into use. *)
Lemma env_fresh X s s' e id :
  env_ok X (s, e) → env_ok X (s', e) → ext s s' → ¬ live s id → live s' id → used (s', e) id.
Proof.
  intros He He' Hs Hn Hl. rewrite (used_iff X s' e id He').
  destruct (dead_apart X s e id He Hn) as (A1 & A2 & A3 & A4 & A5). unfold held. split; [split; [done |]; split; [done | tauto] |].
  split; [done |]. intros Hr Hx. apply (A5 Hr).
  assert (Hex : ext (H2 := layer (pool e) X) (s, reuse e) (s', reuse e)).
  { intros j (Hj & ? & ?). destruct (Hs j Hj). by split. }
  by apply (reach_ext (HS := layer (pool e) X) (HV := any_ver) is_leaf is_int _ _ _ _ _ Hex (proj1 (fo_wf _ _ (ao_tree _ _ He Hr)))).
Qed.

#[local] Instance alloc_store : StoreOk (St * AllocEnv).
Proof.
  refine {| st_inv := alloc_inv; view sx := view sx.1; live := used |}.
  - intros [s e] id [X He] [Hl _]. exact (live_next s id (pk_inv _ _ _ (ao_parked _ _ He)) Hl).
  - intros [s e] id [X He] [Hl _]. exact (live_none s id (pk_inv _ _ _ (ao_parked _ _ He)) Hl).
  - intros [s e] id v [X He]. exact (view_wf s id v (pk_inv _ _ _ (ao_parked _ _ He))).
  - intros [s e] id [X He]. pose proof (pk_inv _ _ _ (ao_parked _ _ He)) as Hi. cbn [ps_get lift_store fst] in *. apply spec_lift.
    eapply spec_conseq; [eapply (spec_and _ (λ s', ∀ j, ps_dirty s j = false → ps_dirty s' j = false)); [apply (get_ok s id Hi) |] | |].
    + exact (λ j Hj, get_clean s id j Hi Hj).
    + intros s' [[Hi' Hs] Hc]. destruct (env_quiet X s s' e He Hi' Hs) as [He' Hu]; [auto |]. split; [by exists X | done].
    + auto.
  - intros [s e] id f [X He] Hu Hf Hst. pose proof (pk_inv _ _ _ (ao_parked _ _ He)) as Hi. pose proof Hu as [Hl _].
    cbn [ps_modify lift_store fst] in *. apply spec_lift. destruct (used_apart X s e id He Hu) as (A1 & A2 & A3 & A4).
    eapply spec_conseq; [eapply (spec_and _ (clean_but id s)); [apply (modify_ok s id f Hi Hl Hf Hst) |] | |].
    + exact (modify_clean s id f Hi Hl Hf Hst).
    + intros s' [[Hi' Ho] Hc]. assert (Ht : touches id s s').
      { split; [done | intros j; by apply Ho | intros j Hj Hlj; by apply Ho | intros j Hj _; by apply Hc]. }
      split; [exists X; by eapply env_step |]. intros j. split; [split |].
      * intros Hj. eapply (step_used_back X s s' e id); [done | done | done | done | done | apply Ho, Hj | done].
      * by eapply (step_used X s s' e id).
      * intros Hj Hne. by apply (step_view s s' e id Ht).
    + intros p s' [[Hi' Ho] Hc] (Hw & Hb & v' & Hv & H). split; [done |]. split; [done |]. by exists v'.
  - intros [s e] id f [X He] [Hl _] Hk. pose proof (pk_inv _ _ _ (ao_parked _ _ He)) as Hi.
    pose proof (modify_fail s id f Hi Hl) as Hm. cbn [ps_modify lift_store] in *. unfold lift in *. cbn [fst snd] in *.
    destruct (ps_modify id f s) as [x s'] eqn:E. cbn [fst snd] in *. by apply (used_same X), Hm.
  - intros [s e] [X He]. pose proof (pk_inv _ _ _ (ao_parked _ _ He)) as Hi. cbn [ps_new_page lift_store fst] in *. apply spec_lift.
    eapply spec_conseq; [eapply (spec_and _ (λ s', ∀ j, live s j → ps_dirty s j = false → ps_dirty s' j = false)); [apply (new_page_ok s Hi) |] | |].
    + exact (λ j Hj, new_clean s j Hi Hj).
    + intros s' [[Hi' Hs] Hc]. destruct (env_extends X s s' e He Hi' Hs Hc) as [He' Hu]. split; [by exists X | done].
    + intros id s' [[Hi' Hs] Hc] (Hn & Hl & Hid). destruct (env_extends X s s' e He Hi' Hs Hc) as [He' Hu].
      split; [by intros [? _] |]. split; [by apply (env_fresh X s) | done].
Defined.

(** ** Changing what is set aside *)

(** Other pages are held, none of the tree's: the tree is the same tree. *)
Section repark.
Variables (rec rec' : list Z) (X X' : gset Z) (s : St) (r : list Z) (t : FreeMapTree).
Hypothesis Hsub : ∀ j, held rec' X' j → held rec X j ∨ ((j ∉ session_owned t) ∧ ¬ pages rec X s r t j).
Hypothesis Hpk : parked_inv (held rec' X') (unused X') (s, r).
Hypothesis Ht : tree_ok rec X (s, r) t.

Lemma repark_carried :
  carried (HS1 := layer rec X) (HS2 := layer rec' X') (s, r) (s, r) (depth t) (root t).
Proof.
  intros x v Hx [(? & ? & Hn) ?]. split; [split; [done |]; split; [done |] | done].
  intros [? | [_ ?]]%Hsub; auto.
Qed.

Lemma repark_pages x : pages rec' X' s r t x ↔ pages rec X s r t x.
Proof.
  apply (across_reach (HV := any_ver) (HS1 := layer rec X) (HS2 := layer rec' X') is_leaf is_int); [apply repark_carried | apply Ht].
Qed.

Lemma repark_avail k : 0 ≤ k → avail rec' X' s r t k = avail rec X s r t k.
Proof.
  intros Hk. rewrite (free_key (HS := layer rec X)), (free_key (HS := layer rec' X')) by done. case_tests; [done |].
  apply (across_den (HV := any_ver) (HS1 := layer rec X) (HS2 := layer rec' X') false LC is_leaf is_int leaf_val leaf_pos);
    [apply repark_carried | apply Ht | lia].
Qed.

Lemma repark_ok : tree_ok rec' X' (s, r) t.
Proof.
  destruct Ht as [T1 T2 T3 T4 T5 T6]. split; [exact Hpk | | done | done | |].
  - apply (across_wf (HV := any_ver) (HS1 := layer rec X) (HS2 := layer rec' X') is_leaf is_int (s, r) (s, r)); [apply repark_carried | done].
  - intros k Hk. rewrite repark_avail by (unfold u64_max in *; lia). by apply T5.
  - intros x Hx. destruct (T6 x Hx) as (? & ? & Hn). split; [done |]. split; [done |]. intros [? | [? _]]%Hsub; auto.
Qed.
End repark.

Lemma parked_sub (P P' C C' : Z → Prop) (sx : St * list Z) :
  (∀ j, P' j → P j) → (∀ j, C' j → C j ∧ P' j) → parked_inv P C sx → parked_inv P' C' sx.
Proof.
  intros HPs HCs [I N R K L]. split; auto.
  - intros j Hj. destruct (R j Hj) as (? & ? & ? & Hn). ands; auto.
  - intros j Hj. destruct (HCs j Hj) as [HC' HP']. split; [done |]. by apply (L j).
Qed.

(** ** The three supplies *)

Lemma spec_zoom {S T A} (F : S → Prop) (get : S → T) (put : T → S → S) (m : M T A) (x : S) (Q : A → S → Prop) :
  spec (λ t, F (put t x)) m (get x) (λ a t, Q a (put t x)) → spec F (zoom get put m) x Q.
Proof. unfold spec, zoom. destruct (m (get x)) as [a t]. done. Qed.

Definition after (sx sx' : St * AllocEnv) : Prop := alloc_inv sx' ∧ extends (λ sx, view sx.1) used sx sx'.

(** Page [id] was not in use and now is. *)
Definition gained (sx : St * AllocEnv) (id : Z) (sx' : St * AllocEnv) : Prop :=
  ¬ used sx id ∧ used sx' id ∧ 0 < id < PAGE_ID_NONE.

(** Reissuing a page that is out of the supplies or in the pool. *)
Lemma reissue_step X s s' e id :
  env_ok X (s, e) → st_inv s' ∧ live s' id ∧ reissued view live id s s' ∧ clean_but id s s' → live s id →
  id ∉ reuse e → id ∉ X → (root (tree e) ≠ PAGE_ID_NONE → ¬ pages (pool e) X s (reuse e) (tree e) id) →
  env_ok X (s', e) ∧ (∀ j, used (s, e) j → used (s', e) j ∧ (j ≠ id → view s' !! j = view s !! j)) ∧
  (∀ j, live s j → used (s', e) j → used (s, e) j).
Proof.
  intros He (Hi & Hl' & Hre & Hc) Hl Hr HX' Hp. assert (Ht : touches id s s').
  { split; [done | | intros j Hj _; by apply Hre | intros j Hj _; by apply Hc].
    intros j Hj. destruct (decide (j = id)) as [-> | Hne]; [done |]. by apply (Hre j Hne). }
  split; [by eapply (env_step X s s' e id) |]. split.
  - intros j Hj. split; [by eapply (step_used X s s' e id) |]. intros Hne. by apply (step_view s s' e id Ht).
  - intros j Hj Hu. by eapply (step_used_back X s s' e id).
Qed.

(** The last page of the pool leaves it. *)
Definition popped (e : AllocEnv) : AllocEnv :=
  set_pool {| allocated := allocated (txn_pages e); recyclable := removelast (pool e) |} e.

Lemma pop_ok X s e id :
  env_ok X (s, e) → last (pool e) = Some id →
  env_ok X (s, popped e) ∧ (∀ j, used (s, e) j → used (s, popped e) j) ∧ used (s, popped e) id.
Proof.
  intros He El. pose proof (last_split _ _ El) as Er. pose proof (ao_pool _ _ He) as Hnd. cbn [snd] in Hnd.
  assert (Hid : id ∈ pool e) by (rewrite Er; apply elem_of_app; right; by apply list_elem_of_singleton).
  rewrite Er in Hnd. apply NoDup_app in Hnd as (Hnd & Hni & _).
  assert (Hsub : ∀ j, j ∈ removelast (pool e) → j ∈ pool e) by (intros j Hj; rewrite Er; apply elem_of_app; by left).
  assert (Hh : ∀ j, held (removelast (pool e)) X j → held (pool e) X j) by (unfold held; intros j [|]; auto).
  pose proof He as [A B C D E F G H I]. cbn [fst snd] in *.
  assert (Hpk : parked_inv (held (removelast (pool e)) X) (unused X) (s, reuse e)).
  { eapply parked_sub; [exact Hh | | exact A]. intros j Hj. split; [done | by right]. }
  assert (He' : env_ok X (s, popped e)).
  { split; cbn [popped set_pool fst snd freemap tree txn_pages recyclable]; [exact Hpk | | exact Hnd | auto | auto | done | done | |].
    - intros x Hx. destruct (B x Hx) as (? & ? & Hn). split; [done |]. split; [done |]. contradict Hn. auto.
    - intros Hr. by apply (repark_ok (pool e) _ X X); auto.
    - intros Hr k Hk. rewrite (repark_avail (pool e) _ X X) by auto. auto. }
  assert (Hpg : root (tree e) ≠ PAGE_ID_NONE → ∀ j,
    pages (removelast (pool e)) X s (reuse e) (tree e) j ↔ pages (pool e) X s (reuse e) (tree e) j).
  { intros Hr j. by apply repark_pages; auto. }
  split; [done |]. split.
  - intros j. rewrite (used_iff X s e j He), (used_iff X s _ j He').
    cbn [popped set_pool freemap tree txn_pages recyclable]. intros ((? & ? & Hn) & ? & Hp).
    split; [split; [done |]; split; [done |]; contradict Hn; auto |]. split; [done |]. intros Hr. rewrite Hpg by done. auto.
  - rewrite (used_iff X s _ id He'). cbn [popped set_pool freemap tree txn_pages recyclable].
    assert (Hhid : held (pool e) X id) by by left.
    split; [split; [by apply (pk_park _ _ _ A) |]; split |]; cbn [fst snd].
    + intros Hj. by apply (pk_reuse _ _ _ A id Hj).
    + intros [Hj | Hj]; [apply (Hni id Hj); by apply list_elem_of_singleton | by apply (E id)].
    + split; [intros Hj; by apply (B id Hj) |]. intros Hr. rewrite Hpg by done. intros Hx.
      eapply (ok_pages_live (HS := layer (pool e) X) (HV := any_ver)) in Hx; [by apply Hx | by apply H].
Qed.

Lemma after_refl sx : alloc_inv sx → after sx sx.
Proof. intros Hi. split; [done | by intros j]. Qed.

Lemma after_trans sx1 sx2 sx3 : after sx1 sx2 → after sx2 sx3 → after sx1 sx3.
Proof.
  intros [_ E1] [I2 E2]. split; [done |]. intros j Hj. destruct (E1 j Hj) as [H1 V1]. destruct (E2 j H1) as [H2 V2].
  split; [done | by rewrite V2].
Qed.

Lemma draw_ok X s e :
  env_ok X (s, e) →
  spec (after (s, e)) (zoom pool_part put_pool_part draw) (s, e)
    (λ o sx, match o with Some id => gained (s, e) id sx | None => sx = (s, e) end).
Proof.
  intros He. apply spec_zoom. unfold pool_part, draw. cbn [fst snd]. apply bind_reads. cbn [snd].
  destruct (last (pool e)) as [id |] eqn:El.
  2: { apply spec_ret; [| by destruct e]. unfold put_pool_part. cbn [fst snd]. replace (set_pool (txn_pages e) e) with e by (by destruct e).
       apply after_refl. by exists X. }
  destruct (pop_ok X s e id He El) as (He1 & Hup & Hid). pose proof (last_split _ _ El) as Er.
  assert (Hin : held (pool e) X id) by (left; rewrite Er; apply elem_of_app; right; by apply list_elem_of_singleton).
  assert (Hn : ¬ used (s, e) id) by (rewrite (used_iff X s e id He); intros ((_ & _ & Hn) & _); by apply Hn).
  pose proof (pk_inv _ _ _ (ao_parked _ _ He)) as Hi. cbn [fst] in Hi. pose proof Hid as [Hl _]. cbn [fst] in Hl.
  destruct (used_apart X s _ id He1 Hid) as (A1 & A2 & A3 & A4).
  assert (Hpid : root (tree e) ≠ PAGE_ID_NONE → ¬ pages (pool e) X s (reuse e) (tree e) id).
  { intros Hr Hx. eapply (ok_pages_live (HS := layer (pool e) X) (HV := any_ver)) in Hx; [by apply Hx | by apply (ao_tree _ _ He)]. }
  eapply (bind_lift _ _ _ _ _ (λ _ s', after (s, e) (s', popped e) ∧ used (s', popped e) id)).
  - eapply spec_conseq; [apply (reclaim_ok s id Hi Hl) | |].
    + intros s' Hs'. unfold put_pool_part. cbn [fst snd]. replace (set_pool (txn_pages e) e) with e by (by destruct e).
      destruct (reissue_step X s s' e id He Hs' Hl A1 A2 Hpid) as (He' & Hu & _).
      split; [by exists X |]. intros j Hj. destruct (Hu j Hj) as [Hj' Hv]. split; [done |]. apply Hv. by intros ->.
    + intros [] s' Hs' _. destruct (reissue_step X s s' (popped e) id He1 Hs' Hl A1 A2 A4) as (He' & Hu & _).
      split; [| by apply Hu]. split; [by exists X |]. intros j Hj. destruct (Hu j (Hup j Hj)) as [Hj' Hv]. split; [done |].
      apply Hv. by intros ->.
  - intros [] s' _ [Ha Hu]. apply bind_writes, spec_ret; unfold put_pool_part; cbn [fst snd]; [exact Ha |].
    split; [done |]. split; [exact Hu |]. split; [by apply (ao_pos _ _ He) | exact (live_none s id Hi Hl)].
Qed.

(** *** The freemap tree *)

Lemma filter_free X (f : Z → bool) k : k ∈ filter (λ j, f j = true) X ↔ f k = true ∧ k ∈ X.
Proof. by rewrite elem_of_filter. Qed.

(** What the tree's run leaves, on every outcome. *)
Section settle.
Variables (X : gset Z) (s s' : St) (e : AllocEnv) (r' : list Z) (t' : FreeMapTree) (h' : Z).
Hypothesis He : env_ok X (s, e).
Hypothesis Hroot : root (tree e) ≠ PAGE_ID_NONE.
Abbreviation L := (layer (pool e) X).
Abbreviation s1 := (s, reuse e).
Hypothesis Hsess : sess (HS := L) s1 (tree e) ((s', r'), t').
Hypothesis Hint : intact (HS := L) s1 (tree e) (λ k, free (HS := L) s1 (tree e) k = true) ((s', r'), t').
Hypothesis Hh : is_u64 h'.

Definition settled : AllocEnv :=
  {| freemap := set_supply h' r' (freemap e); tree := t'; txn_pages := txn_pages e |}.
Definition leftover : gset Z := filter (λ k, free (HS := L) (s', r') t' k = true) X.

Lemma settled_root : root t' ≠ PAGE_ID_NONE.
Proof.
  intros E. pose proof (it_wf _ _ _ _ Hint) as [Ht _]. cbn [fst snd] in Ht.
  eapply (reach_live (HS := L) (HV := any_ver) is_leaf is_int) in Ht; [| apply reach_root].
  destruct Ht as (Hl & _). cbn [fst] in Hl. rewrite E in Hl.
  pose proof (live_none s' _ (pk_inv _ _ _ (se_inv _ _ _ Hsess)) Hl). lia.
Qed.

Lemma avail_old k : 0 ≤ k → k ∉ X → free (HS := L) (s', r') t' k = false.
Proof.
  intros Hk Hn. pose proof (ao_free _ _ He Hroot k Hk) as Hf. cbn [fst snd] in Hf.
  pose proof (it_free _ _ _ _ Hint k Hk) as Hi. cbn [fst snd] in Hi. rewrite Hf in Hi.
  rewrite Hi; [by apply bool_decide_eq_false | by rewrite bool_decide_eq_true].
Qed.

Lemma settled_tree : tree_ok (pool e) X (s', r') t'.
Proof.
  destruct Hint as [I1 I2 I3 I4 I5]. cbn [fst snd] in *. split; [apply Hsess | done | done | done | |].
  - intros k Hk. apply avail_old; [unfold u64_max in *; lia |]. intros Hx.
    assert (Hk0 : 0 ≤ k) by (unfold u64_max in *; lia).
    pose proof (ao_free _ _ He Hroot k Hk0) as Hf. rewrite bool_decide_eq_true_2 in Hf by done.
    pose proof (fo_ids _ _ (ao_tree _ _ He Hroot) k Hk). cbn [fst snd] in *. congruence.
  - intros x Hx. by apply (se_mine _ _ _ Hsess).
Qed.

Lemma leftover_sub j : held (pool e) leftover j → held (pool e) X j.
Proof. unfold held, leftover. rewrite filter_free. tauto. Qed.

Lemma leftover_kept j :
  held (pool e) leftover j → held (pool e) X j ∨ ((j ∉ session_owned t') ∧ ¬ pages (pool e) X s' r' t' j).
Proof. intros Hj. left. by apply leftover_sub. Qed.

Lemma settled_ok : env_ok leftover (s', settled).
Proof.
  pose proof He as [A B C D E F G H I]. cbn [fst snd] in *.
  assert (Hpk : parked_inv (held (pool e) leftover) (unused leftover) (s', r')).
  { eapply parked_sub; [apply leftover_sub | | apply (se_inv _ _ _ Hsess)].
    intros j Hj. split; [by apply (proj1 (filter_free X _ j)) in Hj as [_ ?] | by right]. }
  split; cbn [settled fst snd freemap tree txn_pages structural_reuse hint set_supply].
  - exact Hpk.
  - intros x Hx. destruct (fo_owned _ _ settled_tree x Hx) as (? & ? & Hn). split; [done |]. split; [done |]. contradict Hn. by apply leftover_sub.
  - done.
  - intros j Hj. by apply D, leftover_sub.
  - intros j Hj Hx. apply (E j Hj). by apply (proj1 (filter_free X _ j)) in Hx as [_ ?].
  - done.
  - intros Hr. by destruct (settled_root Hr).
  - intros _. eapply repark_ok; [apply leftover_kept | exact Hpk | apply settled_tree].
  - intros _ k Hk. rewrite (repark_avail (pool e) _ X _ s' r' t' leftover_kept settled_tree k Hk).
    destruct (decide (k ∈ X)) as [Hx | Hx].
    + destruct (free (HS := L) (s', r') t' k) eqn:Ef; symmetry; [apply bool_decide_eq_true | apply bool_decide_eq_false];
        unfold leftover; rewrite filter_free; [done | intros [? _]; congruence].
    + rewrite avail_old by done. symmetry. apply bool_decide_eq_false. unfold leftover. rewrite filter_free. tauto.
Qed.

Lemma settled_after : after (s, e) (s', settled).
Proof.
  split; [exists leftover; apply settled_ok |]. intros j Hj. pose proof Hj as Hu. rewrite (used_iff X s e j He) in Hu.
  destruct Hu as (Hl & Ho & Hp). specialize (Hp Hroot).
  pose proof (se_live _ _ _ Hsess j Hl) as Hl'. split; [| apply (se_keep _ _ _ Hsess j Hl Ho)].
  rewrite (used_iff leftover s' settled j settled_ok). cbn [settled freemap tree txn_pages structural_reuse set_supply].
  destruct Hl' as (? & ? & Hn). split; [split; [done |]; split; [done |]; contradict Hn; by apply leftover_sub |]. split.
  - intros Hx. by destruct (se_mine _ _ _ Hsess j Hx) as [_ [? | []]].
  - intros _. rewrite (repark_pages (pool e) _ X _ s' r' t' leftover_kept settled_tree). intros Hx.
    by destruct (it_new _ _ _ _ Hint j Hx).
Qed.

(** An id that the tree no longer says is free. *)
Lemma settled_gained id :
  id ∈ X → free (HS := L) (s', r') t' id = false →
  gained (s, e) id (s', settled) ∧ ps_dirty s' id = false.
Proof.
  intros Hx Hf. pose proof (se_inv _ _ _ Hsess) as Hpk. cbn [fst snd] in Hpk.
  assert (Hhd : held (pool e) X id) by by right. pose proof (pk_park _ _ _ Hpk id Hhd) as Hl. cbn [fst] in Hl.
  split; [| by apply (pk_clean _ _ _ Hpk id)]. split; [| split; [| split]].
  - rewrite (used_iff X s e id He). intros ((_ & _ & Hn) & _). by apply Hn.
  - rewrite (used_iff leftover s' settled id settled_ok). cbn [settled freemap tree txn_pages structural_reuse set_supply].
    split; [split; [done |]; split; cbn [fst snd] |].
    + intros Hr. by apply (pk_reuse _ _ _ Hpk id Hr).
    + intros [Hp | Hp]; [by apply (ao_apart _ _ He id Hp) |]. unfold leftover in Hp. rewrite filter_free in Hp. destruct Hp. congruence.
    + split; [intros Ho; by apply (fo_owned _ _ settled_tree id Ho) |]. intros _.
      rewrite (repark_pages (pool e) _ X _ s' r' t' leftover_kept settled_tree). intros Hp.
      eapply (ok_pages_live (HS := L) (HV := any_ver)) in Hp; [by apply Hp | apply settled_tree].
  - apply (ao_pos _ _ He id Hhd).
  - exact (live_none s' id (pk_inv _ _ _ Hpk) Hl).
Qed.
End settle.

Lemma any_stored (v : list Z) : verify_checksum v = true → ver (Ver := any_ver) v.
Proof. done. Qed.

Lemma find_ok X s e :
  env_ok X (s, e) → root (tree e) ≠ PAGE_ID_NONE →
  spec (after (s, e)) (zoom tree_part put_tree_part (allocate_first structural_extend)) (s, e)
    (λ o sx, match o with Some id => gained (s, e) id sx ∧ ps_dirty sx.1 id = false | None => True end).
Proof.
  intros He Hr. apply spec_zoom. unfold tree_part. cbn [fst snd].
  eapply spec_conseq.
  - apply (allocate_first_run (HS := layer (pool e) X) (HV := any_ver) any_stored structural_extend (structural_extend_ok _ _)
      (s, reuse e) (tree e) (hint (freemap e)) (ao_tree _ _ He Hr) (ao_hint _ _ He)).
  - intros [[[s' r'] t'] h'] (Hs & Hi & Hh). cbn [fst snd] in *. by apply (settled_after X s s' e r' t' h').
  - intros o [[[s' r'] t'] h'] (Hs & Hi & Hh) (Hl & _ & Ho). cbn [fst snd] in *. destruct o as [id |]; [| done].
    destruct Hl as (Hid & Hf & _), Ho as (_ & _ & Hk). destruct (ao_hint _ _ He) as [Hh0 _]. cbn [snd] in Hh0.
    pose proof (ao_free _ _ He Hr id) as Hx. cbn [fst snd] in Hx. rewrite Hf in Hx.
    apply (settled_gained X s s' e r' t' h'); try done.
    + apply (bool_decide_eq_true (id ∈ X)). symmetry. apply Hx. lia.
    + rewrite Hk by lia. by rewrite decide_True.
Qed.

Lemma record_after s e id :
  alloc_inv (s, e) → after (s, e) (s, set_pool (record id (txn_pages e)) e) ∧
  (∀ j, used (s, set_pool (record id (txn_pages e)) e) j ↔ used (s, e) j).
Proof.
  intros [X He]. split; [| done]. split; [| by intros j]. exists X. destruct He. by split.
Qed.

(** The page of a supply is recorded as this transaction's. *)
Lemma record_ok s0 e0 s e id :
  after (s0, e0) (s, e) → gained (s0, e0) id (s, e) →
  spec (after (s0, e0)) (do_record id ;;; ret id) (s, e) (λ id' sx, gained (s0, e0) id' sx).
Proof.
  intros Ha (H1 & H2 & H3). destruct (record_after s e id) as [Hr Hu]; [apply Ha |].
  apply bind_writes, spec_ret; cbn [fst snd]; [by eapply after_trans |]. split; [done |]. split; [by apply Hu | done].
Qed.

(** [cow_alloc] is an allocator for the store. *)
Lemma cow_alloc_ok (reuse_enabled : bool) : alloc_ok (H2 := alloc_store) (cow_alloc reuse_enabled).
Proof.
  intros [s e] [X He]. change (spec (after (s, e)) (cow_alloc reuse_enabled) (s, e) (λ id sx, gained (s, e) id sx)).
  pose proof (after_refl (s, e) (ex_intro _ X He)) as Ha0. unfold cow_alloc.
  eapply (spec_bind _ _ _ _ (λ o sx, match o with Some id => gained (s, e) id sx | None => sx = (s, e) end)).
  { destruct reuse_enabled; [by apply (draw_ok X) | by apply spec_ret]. }
  intros [id |] [s1 e1] Ha1 Hg1; [by apply record_ok |]. injection Hg1 as -> ->. apply bind_reads. cbn [snd].
  eapply (spec_bind _ _ _ _ (λ o sx, match o with Some id => gained (s, e) id sx ∧ ps_dirty sx.1 id = false | None => True end)).
  { destruct (reuse_enabled && negb (root (tree e) =? PAGE_ID_NONE)) eqn:E; [| by apply spec_ret].
    apply andb_true_iff in E as [_ E%negb_true_iff%Z.eqb_neq]. by apply (find_ok X). }
  intros [id |] [s2 e2] Ha2 Hg2.
  - destruct Hg2 as [(G1 & G2 & G3) Hd]. cbn [fst] in Hd. destruct Ha2 as [[X2 He2] Hex2].
    destruct (used_apart X2 s2 e2 id He2 G2) as (A1 & A2 & A3 & A4). pose proof G2 as [Hl _]. cbn [fst] in Hl.
    pose proof (pk_inv _ _ _ (ao_parked _ _ He2)) as Hi2. cbn [fst] in Hi2.
    eapply (bind_lift _ _ _ _ _ (λ _ s', after (s, e) (s', e2) ∧ gained (s, e) id (s', e2))).
    + assert (Hst : ∀ s', st_inv s' ∧ live s' id ∧ reissued view live id s2 s' ∧ clean_but id s2 s' →
        after (s, e) (s', e2) ∧ gained (s, e) id (s', e2)).
      { intros s' Hs'. destruct (reissue_step X2 s2 s' e2 id He2 Hs' Hl A1 A2 A4) as (He' & Hu & _).
        split; [| split; [done | split; [by apply Hu | done]]]. split; [by exists X2 |]. intros j Hj.
        destruct (Hex2 j Hj) as [Hj2 Hv2]. destruct (Hu j Hj2) as [Hj' Hv']. cbn [fst] in *. split; [done |].
        rewrite Hv'; [done |]. by intros ->. }
      eapply spec_conseq; [apply (claim_ok s2 id Hi2 Hl Hd) | |]; [intros s' Hs'; by apply Hst | intros [] s' Hs' _; by apply Hst].
    + intros [] s' _ [Ha Hg]. by apply record_ok.
  - pose proof Ha2 as [[X2 He2] Hex2].
    eapply (spec_bind _ _ _ _ (λ id sx, after (s, e) sx ∧ gained (s, e) id sx)).
    + eapply spec_conseq; [exact (new_page_ok (StoreOk := alloc_store) (s2, e2) (ex_intro _ X2 He2)) | |].
      * intros sx [Hi Hex]. eapply after_trans; [exact Ha2 | by split].
      * intros id sx [Hi Hex] (Hn & Hu & Hid). split; [eapply after_trans; [exact Ha2 | by split] |].
        split; [| done]. contradict Hn. by apply Hex2.
    + intros id [s3 e3] Ha3 [_ Hg]. by apply record_ok.
Qed.
End alloc.
End AllocStore.
