(* ===== verification/AllocProps.v ===== *)
(** * Properties of page allocation in a transaction

    What [cow_alloc] and [retire] ([src/transaction/freemap.rs]) guarantee to the
    rest of a transaction, over any page store. *)

From S2P Require Export AllocStore.

Module AllocProps.
Import TxnAlloc FreeMapTree FreeMapTreeRead FreeMapTreeWrite FreeMapTreeSpec StructuralStore AllocStore.

(** ** Retiring pages *)

(** The pool after [freed] went through [retire], and what did not go to it. *)
Definition retired (freed : list Z) (self : TxnPageRecycle) : TxnPageRecycle :=
  {| allocated := allocated self; recyclable := recyclable self ++ filter (.∈ allocated self) freed |}.

Definition deferred (freed : list Z) (self : TxnPageRecycle) : list Z := filter (.∉ allocated self) freed.

Lemma retire_loop_run freed self out :
  NoDup freed → (∀ j, j ∈ freed → j ∉ recyclable self) →
  retire_loop freed (self, out) = (Ok tt, (retired freed self, out ++ deferred freed self)).
Proof.
  revert self out. induction freed as [| id freed IH]; intros self out Hnd Hfr.
  { unfold retired, deferred. cbn. rewrite !app_nil_r. by destruct self. }
  apply NoDup_cons in Hnd as [Hid Hnd]. cbn [retire_loop]. unfold bind at 1, reads at 1. cbn [fst].
  unfold retired, deferred. rewrite !filter_cons. destruct (decide (id ∈ allocated self)) as [Ha | Ha].
  - rewrite decide_False by (by intros []). rewrite bool_decide_false by (apply Hfr; by left).
    unfold bind at 1, bind at 1. cbn [negb assert_that ret writes fst snd].
    rewrite IH; cbn [allocated recyclable]; [unfold retired, deferred; cbn; by rewrite <- app_assoc | done |].
    intros j Hj. rewrite elem_of_app, list_elem_of_singleton. intros [Hr | ->]; [| done]. eapply Hfr; [by right | done].
  - rewrite decide_True by done. unfold bind at 1. cbn [writes fst snd].
    rewrite IH; [unfold retired, deferred; by rewrite <- app_assoc | done |]. intros j Hj. apply Hfr. by right.
Qed.

Section alloc.
Context {St : Type} `{HX : Xxh3} `{HF : Fault} `{HP : !PageStore St} `{HS : !StoreOk St} `{HR : !PageReuse St} `{HO : !ReuseOk St}.
Implicit Types (s : St) (e : AllocEnv).

Abbreviation retire_in freed e := (set_pool (retired freed (txn_pages e)) e).

Lemma retire_held X freed e j :
  held (recyclable (retired freed (txn_pages e))) X j ↔
  held (recyclable (txn_pages e)) X j ∨ (j ∈ freed ∧ j ∈ allocated (txn_pages e)).
Proof. unfold held, retired. cbn [recyclable]. rewrite elem_of_app, list_elem_of_filter. tauto. Qed.

Lemma retire_env X s e freed :
  env_ok X (s, e) → NoDup freed → (∀ j, j ∈ freed → used (s, e) j ∧ 0 < j) → env_ok X (s, retire_in freed e).
Proof.
  intros He Hnd Hu. pose proof He as [A B C D E F G H I]. cbn [fst snd] in *.
  assert (Hap : ∀ j, j ∈ freed → _) by (intros j Hj; exact (proj1 (used_iff X s e j He) (proj1 (Hu j Hj)))).
  assert (Hsub : ∀ j, held (recyclable (retired freed (txn_pages e))) X j →
    held (recyclable (txn_pages e)) X j ∨ ((j ∉ session_owned (tree e)) ∧ (root (tree e) ≠ PAGE_ID_NONE →
      ¬ reach (HS := parked_store (held (recyclable (txn_pages e)) X) (unused X)) (s, structural_reuse (freemap e)) (depth (tree e)) (root (tree e)) j))).
  { intros j [? | [Hj _]]%retire_held; [by left | right]. destruct (Hap j Hj) as (_ & ? & ?). done. }
  assert (Hpk : parked_inv (held (recyclable (retired freed (txn_pages e))) X) (unused X) (s, structural_reuse (freemap e))).
  { destruct A as [A1 A2 A3 A4 A5]. split; cbn [fst snd] in *; [done | done | | |].
    - intros j Hj. destruct (A3 j Hj) as (? & ? & ? & Hn). do 3 (split; [done |]).
      intros [? | [Hf _]]%retire_held; [done |]. by destruct (Hap j Hf) as ((_ & ? & _) & _).
    - intros j [? | [Hf _]]%retire_held; [auto |]. apply (Hu j Hf).
    - intros j Hj. destruct (A5 j Hj) as [? ?]. split; [apply retire_held; by left | done]. }
  split; cbn [set_pool fst snd freemap tree txn_pages]; [exact Hpk | | | | | done | done | |].
  - intros x Hx. destruct (B x Hx) as (? & ? & Hn). do 2 (split; [done |]).
    intros [? | [Hf _]]%retire_held; [done |]. by destruct (Hap x Hf) as (_ & ? & _).
  - apply NoDup_app. split; [done |]. split; [| by apply NoDup_filter]. intros j Hj [_ Hf]%list_elem_of_filter.
    destruct (Hap j Hf) as ((_ & _ & Hn) & _). apply Hn. by left.
  - intros j [? | [Hf _]]%retire_held; [auto | apply (Hu j Hf)].
  - intros j [? | [_ Hf]%list_elem_of_filter]%elem_of_app; [auto |]. destruct (Hap j Hf) as ((_ & _ & Hn) & _).
    contradict Hn. by right.
  - intros Hr. apply (repark_ok (recyclable (txn_pages e)) _ X X); [| done | auto].
    intros j Hj. destruct (Hsub j Hj) as [? | [? ?]]; auto.
  - intros Hr k Hk. rewrite (repark_avail (recyclable (txn_pages e)) _ X X); [auto | | auto | done].
    intros j Hj. destruct (Hsub j Hj) as [? | [? ?]]; auto.
Qed.

Lemma retire_used s e freed j :
  used (s, retire_in freed e) j ↔ used (s, e) j ∧ ¬ (j ∈ freed ∧ j ∈ allocated (txn_pages e)).
Proof.
  unfold used, taken. cbn [set_pool fst snd freemap tree txn_pages retired recyclable].
  rewrite elem_of_app, list_elem_of_filter. tauto.
Qed.

(** Every page that [cow_alloc] returns is recorded as the transaction's own. *)
Lemma cow_alloc_records (b : bool) (sx : St * AllocEnv) id sx' :
  cow_alloc b sx = (Ok id, sx') → id ∈ allocated (txn_pages sx'.2).
Proof.
  assert (Hrec : ∀ i (sy : St * AllocEnv), (do_record i ;;; ret i) sy = (Ok id, sx') → id ∈ allocated (txn_pages sx'.2)).
  { intros i [s e]. unfold bind, do_record, writes, ret. intros [= <- <-]. cbn. set_solver. }
  assert (Hthen : ∀ {A} (m : M (St * AllocEnv) A) k sy,
    (∀ a sz, k a sz = (Ok id, sx') → id ∈ allocated (txn_pages sx'.2)) → bind m k sy = (Ok id, sx') → id ∈ allocated (txn_pages sx'.2)).
  { intros A m k sy Hk. unfold bind. destruct (m sy) as [[a | |] sz]; [apply Hk | done | done]. }
  unfold cow_alloc. apply Hthen. intros [i |] sy; [apply Hrec |]. apply Hthen. intros e sz. apply Hthen.
  intros [i |] su; (apply Hthen; intros; by eapply Hrec).
Qed.

(** C8 The allocator of a transaction ([cow_alloc]: the transaction's own superseded
    pages first, then the freemap tree, then the end of the file).  From a state in
    which the three supplies are disjoint and consistent with the tree, and on every
    outcome, the supplies stay so, and each page in use stays in use with its
    contents; a page it returns was not in use, is now, is a page id, and is recorded
    as allocated by the transaction; an error or panic is one of the page store. *)
Theorem cow_alloc_fresh (reuse_enabled : bool) s e r s' e' :
  alloc_inv (s, e) → cow_alloc reuse_enabled (s, e) = (r, (s', e')) →
  alloc_inv (s', e') ∧
  (∀ j, used (s, e) j → used (s', e') j ∧ view s' !! j = view s !! j) ∧
  match r with
  | Ok id => ¬ used (s, e) id ∧ used (s', e') id ∧ 0 < id < PAGE_ID_NONE ∧ id ∈ allocated (txn_pages e')
  | Err x => may_err x
  | Panic p => may_panic p
  end.
Proof.
  intros Hi E. pose proof (cow_alloc_ok reuse_enabled (s, e) Hi) as [[Hi' He] Hp]. rewrite E in *. cbn [fst snd] in *.
  split; [done |]. split; [exact He |]. destruct r; [| done | done]. destruct Hp as (? & ? & ? & ?). ands; try done.
  exact (cow_alloc_records _ _ _ _ E).
Qed.

(** C9 Superseded pages are put in exactly one place.  Where the pages listed are in
    use and distinct, [retire] does not panic (its assertion holds); the supplies stay
    consistent; a page the transaction allocated goes to the pool and is no longer in
    use, any other is appended to the list of pages to free at commit and stays in use
    until then; nothing else changes. *)
Theorem retire_sound s e freed out :
  alloc_inv (s, e) → NoDup freed → (∀ j, j ∈ freed → used (s, e) j ∧ 0 < j) →
  ∃ pool' late, retire freed true (txn_pages e, out) = (Ok tt, (pool', out ++ late)) ∧
    alloc_inv (s, set_pool pool' e) ∧ allocated pool' = allocated (txn_pages e) ∧
    (∀ j, j ∈ late ↔ j ∈ freed ∧ j ∉ allocated (txn_pages e)) ∧
    (∀ j, j ∈ recyclable pool' ↔ j ∈ recyclable (txn_pages e) ∨ j ∈ freed ∧ j ∈ allocated (txn_pages e)) ∧
    ∀ j, used (s, set_pool pool' e) j ↔ used (s, e) j ∧ ¬ (j ∈ freed ∧ j ∈ allocated (txn_pages e)).
Proof.
  intros [X He] Hnd Hu. exists (retired freed (txn_pages e)), (deferred freed (txn_pages e)). ands.
  - cbn [retire negb]. apply retire_loop_run; [done |]. intros j Hj.
    destruct (used_apart X s e j He (proj1 (Hu j Hj))) as (_ & _ & Hn & _). exact Hn.
  - exists X. by apply retire_env.
  - done.
  - intros j. unfold deferred. rewrite list_elem_of_filter. tauto.
  - intros j. cbn [retired recyclable]. rewrite elem_of_app, list_elem_of_filter. tauto.
  - intros j. apply retire_used.
Qed.
End alloc.

(** ** Examples *)

(** Pages 1 to 5 of a file, of which the transaction allocated 3, 4 and 5; 3 was
    superseded, 2 was superseded in the tree one commit ago. *)
Definition demo_pages : MemStore :=
  {| mem_pages := list_to_map ((λ id, (id, zero_page)) <$> [1; 2; 3; 4; 5]); mem_next := 6 |}.

Definition demo_env : AllocEnv :=
  {| freemap := set_supply 0 [2] recycle_new; tree := from_roots PAGE_ID_NONE 0;
     txn_pages := {| allocated := {[3; 4; 5]}; recyclable := [3] |} |}.

Lemma demo_lookup j v : mem_pages demo_pages !! j = Some v → v = zero_page ∧ j ∈ [1; 2; 3; 4; 5].
Proof.
  intros Hv%elem_of_list_to_map_2. apply list_elem_of_fmap in Hv as (i & [= -> ->] & Hi). done.
Qed.

Lemma demo_inv : alloc_inv (demo_pages, demo_env).
Proof.
  exists ∅. split; cbn [fst snd demo_env freemap tree txn_pages recyclable from_roots root session_owned].
  - split; cbn [fst snd].
    + split; [done |]. intros id v [-> Hid]%demo_lookup. split; [apply wf_zero_page |]. cbn.
      repeat (apply elem_of_cons in Hid as [-> | Hid]; [lia |]). by apply elem_of_nil in Hid.
    + apply NoDup_singleton.
    + intros j ->%list_elem_of_singleton. ands; [by eexists | done | done |].
      intros [Hj%list_elem_of_singleton | Hj%elem_of_empty]; done.
    + intros j [->%list_elem_of_singleton | Hj%elem_of_empty]; [| done]. by eexists.
    + unfold unused. intros j Hj. by apply elem_of_empty in Hj.
  - intros x Hj. by apply elem_of_empty in Hj.
  - apply NoDup_singleton.
  - intros j [->%list_elem_of_singleton | Hj%elem_of_empty]; [| done]. done.
  - intros j _. apply not_elem_of_empty.
  - by split.
  - done.
  - done.
  - done.
Qed.

Lemma demo_used j : j ∈ [1; 4; 5] → used (demo_pages, demo_env) j.
Proof.
  intros Hj. split.
  - cbn [fst]. repeat (apply elem_of_cons in Hj as [-> | Hj]; [by eexists |]). by apply elem_of_nil in Hj.
  - unfold taken. cbn [fst snd demo_env freemap tree txn_pages recyclable from_roots root session_owned].
    cbn [set_supply structural_reuse]. rewrite !list_elem_of_singleton.
    rewrite elem_of_empty. rewrite !elem_of_cons, elem_of_nil in Hj. intros [-> | [-> | [[] | [[] _]]]]; [lia | lia | done].
Qed.

Lemma cow_alloc_fresh_witness :
  match cow_alloc true (demo_pages, demo_env) with
  | (Ok id, (s', e')) => id = 3 ∧ used (s', e') 3 ∧ used (s', e') 4 ∧ ¬ used (demo_pages, demo_env) 3
  | _ => False
  end.
Proof.
  assert (Hok : (cow_alloc true (demo_pages, demo_env)).1 = Ok 3) by by vm_compute.
  destruct (cow_alloc _ _) as [r [s' e']] eqn:E. cbn [fst] in Hok. subst r.
  destruct (cow_alloc_fresh true demo_pages demo_env (Ok 3) s' e' demo_inv E) as (_ & Hk & Hn & Hu & _).
  split; [done |]. split; [exact Hu |]. split; [apply Hk, demo_used; by right; left | exact Hn].
Defined.

Lemma retire_sound_witness :
  ∃ pool' late, retire [1; 4] true (txn_pages demo_env, []) = (Ok tt, (pool', late)) ∧ 4 ∈ recyclable pool' ∧ 1 ∈ late ∧
    alloc_inv (demo_pages, set_pool pool' demo_env).
Proof.
  assert (Hnd : NoDup [1; 4]).
  { apply NoDup_cons. split; [by intros ?%list_elem_of_singleton | apply NoDup_singleton]. }
  assert (Hu : ∀ j, j ∈ [1; 4] → used (demo_pages, demo_env) j ∧ 0 < j).
  { intros j [-> | ->%list_elem_of_singleton]%elem_of_cons; (split; [apply demo_used | done]);
      rewrite !elem_of_cons; tauto. }
  destruct (retire_sound demo_pages demo_env [1; 4] [] demo_inv Hnd Hu) as (pool' & late & E & Hi & _ & Hl & Hr & _).
  exists pool', late. split; [exact E |]. split; [| split; [| done]].
  - apply Hr. right. split; [by right; left | by vm_compute].
  - apply Hl. split; [by left |]. by vm_compute.
Defined.
End AllocProps.
