(* ===== verification/SlotPacker.v ===== *)
(** * Packing values into data pages ([src/transaction/packing.rs])

    A value that fits a page goes to the page under the cursor, or to a fresh page that
    becomes the cursor's.  The packer counts the live slots of each data page; a page
    whose last slot is released is given back.  The counts of the last commit are kept
    beside those of the transaction under way. *)

From S2P Require Export DataPage TxnAlloc.

(** [cache.get_mut_deferred_stamp(id)?] followed by in-place writes; the buffer is
    returned as it was found. *)
Class DeferStore (St : Type) := {
  ps_modify_deferred : Z → (list Z → list Z) → M St (list Z)
}.

#[export] Instance cache_defer `{Xxh3} `{HashOrder} `{Primitives} : DeferStore PageCache.PageCache := {|
  ps_modify_deferred id f := PageCache.modify_deferred (cast 64 id) f
|}.

(** The reference store stamps nothing on its own. *)
#[export] Instance mem_defer : DeferStore MemStore := {| ps_modify_deferred := ps_modify |}.

#[export] Instance lift_defer {St X} `{DeferStore St} : DeferStore (St * X) := {|
  ps_modify_deferred id f := lift (ps_modify_deferred id f)
|}.

Module SlotPacker.

Record SlotPacker := {
  committed_live_slots : gmap Z Z;
  current_live_slots : gmap Z Z;
  insert_cursor : option Z
}.

Definition new : SlotPacker := {| committed_live_slots := ∅; current_live_slots := ∅; insert_cursor := None |}.

Definition from_committed (committed : gmap Z Z) : SlotPacker :=
  {| committed_live_slots := committed; current_live_slots := committed; insert_cursor := None |}.

Definition set_cursor (c : option Z) (self : SlotPacker) : SlotPacker :=
  {| committed_live_slots := committed_live_slots self; current_live_slots := current_live_slots self; insert_cursor := c |}.

Definition set_current (m : gmap Z Z) (self : SlotPacker) : SlotPacker :=
  {| committed_live_slots := committed_live_slots self; current_live_slots := m; insert_cursor := insert_cursor self |}.

(** A data page with the value added, and the page as it was where it does not fit. *)
Definition inserted (value buf : list Z) : list Z :=
  match DataPage.insert buf value with Some (_, buf') => buf' | None => buf end.

(** The writes to a fresh page: [init_page], [insert], [stamp_checksum]; the stamp is
    not reached when [expect] panics. *)
Definition first_insert `{Xxh3} (value buf : list Z) : list Z :=
  match DataPage.insert (DataPage.init_page buf) value with
  | Some (_, buf') => stamp_checksum buf'
  | None => DataPage.init_page buf
  end.

Section ops.
Context {St : Type} `{HX : Xxh3} `{HP : !PageStore St} `{HD : !DeferStore St}.

(** [*self.current_live_slots.entry(page_id).or_insert(0) += 1], checked. *)
Definition count_slot (page_id : Z) : M (St * SlotPacker) unit :=
  let* self := reads snd in
  let n := default 0 (current_live_slots self !! page_id) in
  writes (λ sx, (sx.1, set_current (<[page_id := n]> (current_live_slots self)) self)) ;;;
  assert_that PanicOverflow (n + 1 <=? u32_max) ;;;
  writes (λ sx, (sx.1, set_current (<[page_id := n + 1]> (current_live_slots self)) self)).

Definition insert (alloc : M St Z) (packing_enabled : bool) (value : list Z) : M (St * SlotPacker) (Z * Z) :=
  let* self := reads snd in
  let* packed :=
    match insert_cursor self with
    | Some cursor_page_id =>
        let* buf := lift (ps_modify_deferred cursor_page_id (inserted value)) in
        match DataPage.insert buf value with
        | Some (slot, _) =>
            count_slot cursor_page_id ;;;
            ret (Some (cursor_page_id, slot))
        | None => ret None
        end
    | None => ret None
    end in
  match packed with
  | Some r => ret r
  | None =>
      let* page_id := lift alloc in
      let* buf := lift (ps_modify page_id (first_insert value)) in
      match DataPage.insert (DataPage.init_page buf) value with
      | None => crash PanicExpect
      | Some (slot, _) =>
          (if packing_enabled then writes (λ sx, (sx.1, set_cursor (Some page_id) sx.2)) else ret tt) ;;;
          count_slot page_id ;;;
          ret (page_id, slot)
      end
  end.
End ops.

Definition release (page_id : Z) (self : SlotPacker) : option Z * SlotPacker :=
  match current_live_slots self !! page_id with
  | None => (None, self)
  | Some count =>
      let count := if 0 <? count then count - 1 else count in
      if count =? 0 then
        (Some page_id,
         {| committed_live_slots := committed_live_slots self;
            current_live_slots := delete page_id (current_live_slots self);
            insert_cursor := if decide (insert_cursor self = Some page_id) then None else insert_cursor self |})
      else (None, set_current (<[page_id := count]> (current_live_slots self)) self)
  end.

Definition begin (self : SlotPacker) : SlotPacker :=
  {| committed_live_slots := committed_live_slots self; current_live_slots := committed_live_slots self; insert_cursor := None |}.

Definition commit (self : SlotPacker) : SlotPacker :=
  {| committed_live_slots := current_live_slots self; current_live_slots := current_live_slots self; insert_cursor := None |}.

Definition rollback (self : SlotPacker) : SlotPacker :=
  {| committed_live_slots := committed_live_slots self; current_live_slots := committed_live_slots self; insert_cursor := None |}.

Definition snapshot (self : SlotPacker) : gmap Z Z := current_live_slots self.

Definition restore (live_slots : gmap Z Z) (self : SlotPacker) : SlotPacker :=
  {| committed_live_slots := committed_live_slots self; current_live_slots := live_slots; insert_cursor := None |}.

Definition clear_cursor (self : SlotPacker) : SlotPacker := set_cursor None self.
End SlotPacker.
