(* ===== verification/Defer.v ===== *)
(** * Writes with the stamp deferred

    What [get_mut_deferred_stamp] of the page cache promises to the slot packer: the one
    page changes, whether its checksum is right yet or not, and a call that
    fails has no effect.  The interface [DeferOk] has the page cache, the reference store
    and the store with the allocator's state as its instances. *)

From S2P Require Export SlotPacker AllocStore.

Class DeferOk (St : Type) `{HX : Xxh3} `{HF : Fault} `{HP : !PageStore St} `{HS : !StoreOk St} `{HR : !PageReuse St} `{HD : !DeferStore St} := {
  defer_ok : ∀ s id f, st_inv s → live s id → (∀ p, wf_page p → wf_page (f p)) →
    spec (λ s', st_inv s' ∧ only_at view live id s s' ∧ clean_but id s s') (ps_modify_deferred id f) s
      (λ p s', wf_page p ∧ (∀ v, view s !! id = Some v → body p = body v) ∧ ∃ v', view s' !! id = Some v' ∧ body v' = body (f p));
  defer_fail : ∀ s id f, st_inv s → live s id → is_ok (ps_modify_deferred id f s).1 = false →
    same view live s (ps_modify_deferred id f s).2
}.

(** ** The page cache *)

Module CacheDefer.
Import PageCache CacheInv CacheEvict CacheOps CacheStore CacheReuse.

Section cache.
Context `{HX : Xxh3} `{HO : HashOrder} `{HC : Primitives}.
Implicit Types (c : PageCache).
#[local] Instance store_fault : Fault := cache_fault True True.

Lemma deferred_fails c id f :
  cache_inv c → 0 ≤ id → is_ok (modify_deferred id f c).1 = false → steady c (modify_deferred id f c).2.
Proof.
  intros Hi Hid. destruct (fetch_spec True c id Hi Hid (λ _, I)) as [Hs Hq]. revert Hs Hq.
  unfold modify_deferred, get_mut_deferred_stamp, get_mut, bind, reads, writes, ret. destruct (fetch id c) as [[[] | x | x] c1]; cbn; [| done | done].
  intros Hs [[e He] _]. rewrite He. destruct (dirty e); cbn; done.
Qed.

#[export] Instance cache_defer_ok : DeferOk PageCache.
Proof.
  split.
  - intros c id f Hi [v Hv] Hf. cbn [ps_modify_deferred cache_defer]. rewrite (cast_live c id v) by done.
    eapply spec_conseq; [apply (modify_deferred_spec True c id f); [done | by eapply page_at_range | done | done] | |].
    + intros c' Hc. split; [apply Hc |]. split; [| exact (cg_clean _ _ _ Hc)]. intros j. pose proof (cg_inv _ _ _ Hc). cbn [live view cache_store_ok]. unfold cache_live.
      destruct (decide (j = id)) as [-> |]; [split; [apply Hc | done] |].
      rewrite (cg_other _ _ _ Hc) by done. split; [done |]. intros _ _. by rewrite !view_page, (cg_other _ _ _ Hc).
    + intros p c' Hc (Hw & w & Hw' & Hb & Hv' & _). pose proof (cg_inv _ _ _ Hc). cbn [view cache_store_ok].
      split; [done |]. split; [intros x; rewrite view_page by done; congruence |].
      exists (stamp_checksum (f p)). rewrite view_page by done. split; [done |]. apply body_stamp. auto.
  - intros c id f Hi [v Hv]. cbn [ps_modify_deferred cache_defer]. rewrite (cast_live c id v) by done. intros Hr.
    apply steady_same; [done |]. apply deferred_fails; [done | by eapply page_at_range | done].
Defined.
End cache.
End CacheDefer.

(** ** The reference store *)

#[export] Instance mem_defer_ok : DeferOk MemStore.
Proof.
  split; [| done]. intros s id f Hi [w Hw] Hf. assert (Hp : wf_page (mem_page s id)) by by apply mem_page_wf.
  assert (Hm : mem_page s id = w) by (unfold mem_page; by rewrite Hw). split; cbn.
  - ands; [split; [apply Hi |] | intros j; split | done].
    + intros j v. cbn. rewrite lookup_insert_Some. intros [[<- <-] | [_ Hv]]; [| by apply Hi]. split; [by apply Hf |]. by apply (proj2 Hi id w).
    + unfold mem_live. cbn. destruct (decide (j = id)) as [-> | Hne]; [rewrite lookup_insert_eq, Hw; split; by eexists | by rewrite lookup_insert_ne].
    + intros _ Hj. cbn. by rewrite lookup_insert_ne.
  - ands; [done | intros v Hv; congruence |]. exists (f (mem_page s id)). by rewrite lookup_insert_eq.
Qed.

(** ** The store with the allocator's state *)

Module AllocDefer.
Import TxnAlloc StructuralStore AllocStore.

Section alloc.
Context {St : Type} `{HX : Xxh3} `{HF : Fault} `{HP : !PageStore St} `{HS : !StoreOk St} `{HR : !PageReuse St} `{HO : !ReuseOk St}
  `{HD : !DeferStore St} `{HDO : !DeferOk St}.
#[local] Existing Instance alloc_store.
Implicit Types (s : St) (e : AllocEnv).

(** A page in use is written. *)
Lemma alloc_defer s e id f :
  alloc_inv (s, e) → used (s, e) id → (∀ p, wf_page p → wf_page (f p)) →
  spec (λ sx, alloc_inv sx ∧ only_at (λ sx, view sx.1) used id (s, e) sx) (ps_modify_deferred id f) (s, e)
    (λ p sx, wf_page p ∧ (∀ v, view s !! id = Some v → body p = body v) ∧ ∃ v', view sx.1 !! id = Some v' ∧ body v' = body (f p)).
Proof.
  intros [X He] Hu Hf. pose proof (pk_inv _ _ _ (ao_parked _ _ He)) as Hi. pose proof Hu as [Hl _].
  cbn [ps_modify_deferred lift_defer fst] in *. apply spec_lift. destruct (used_apart X s e id He Hu) as (A1 & A2 & A3 & A4).
  eapply spec_conseq; [apply (defer_ok s id f Hi Hl Hf) | |].
  - intros s' (Hi' & Ho & Hc). assert (Ht : touches id s s').
    { split; [done | intros j; by apply Ho | intros j Hj Hlj; by apply Ho | intros j Hj _; by apply Hc]. }
    split; [exists X; by eapply env_step |]. intros j. split; [split |].
    + intros Hj. eapply (step_used_back X s s' e id); [done | done | done | done | done | apply Ho, Hj | done].
    + by eapply (step_used X s s' e id).
    + intros Hj Hne. by apply (step_view s s' e id Ht).
  - intros p s' _ H. exact H.
Qed.

Lemma alloc_defer_fail s e id f :
  alloc_inv (s, e) → used (s, e) id → is_ok (ps_modify_deferred id f (s, e)).1 = false →
  same (λ sx, view sx.1) used (s, e) (ps_modify_deferred id f (s, e)).2.
Proof.
  intros [X He] [Hl _]. pose proof (pk_inv _ _ _ (ao_parked _ _ He)) as Hi. pose proof (defer_fail s id f Hi Hl) as Hm.
  cbn [ps_modify_deferred lift_defer]. unfold lift in *. cbn [fst snd] in *.
  destruct (ps_modify_deferred id f s) as [x s'] eqn:E. cbn [fst snd] in *. intros Hk. by apply (used_same X), Hm.
Qed.
End alloc.
End AllocDefer.
