(* ===== verification/TxnState.v ===== *)
(** * The transaction manager's state ([src/transaction/mod.rs])

    One writer and its page cache: the roots of the last commit and of the transaction
    under way, the savepoints, the pages to free at commit, and the state of the
    allocator and of the slot packer.  The manager is generic in the page cache;
    [TxnCache] lists the calls beside those of [PageStore] and [PageReuse] that it
    makes, and the cache of [src/page_cache.rs] provides them. *)

From S2P Require Export SlotPacker HandleTable MembershipIndex Overflow.

(** ** The calls on the cache and its file *)

Class TxnCache (St : Type) := {
  (** [cache.io().is_read_only()] *)
  tc_read_only : St → bool;
  (** [cache.flush()?] *)
  tc_flush : M St unit;
  (** [cache.discard_all_dirty()] *)
  tc_discard_all_dirty : St → St;
  (** [cache.truncate(n)?] *)
  tc_truncate : Z → M St unit;
  (** [cache.file_page_count()] *)
  tc_file_page_count : St → Z;
  (** [cache.io_mut().write_page(id, &buf)?] *)
  tc_write_page : Z → list Z → M St unit;
  (** [cache.io_mut().write_page_unit(id, &unit)?] *)
  tc_write_page_unit : Z → list Z → M St unit;
  (** [cache.io_mut().fsync()?] *)
  tc_fsync : M St unit;
  (** A nonce of the operating system's generator. *)
  tc_nonce : M St (list Z);
  tc_set_cache_max_bytes : Z → M St unit;
  tc_set_spillway_max_bytes : Z → St → St;
  tc_set_drain_insertion : PageCache.DrainInsertion → St → St
}.

#[export] Instance page_cache_txn `{Xxh3} `{HashOrder} `{Primitives} : TxnCache PageCache.PageCache := {|
  tc_read_only c := PageIo.is_read_only (PageCache.io c);
  tc_flush := PageCache.flush;
  tc_discard_all_dirty := PageCache.discard_all_dirty;
  tc_truncate := PageCache.truncate;
  tc_file_page_count := PageCache.file_page_count;
  tc_write_page id buf := PageCache.on_io (PageIo.write_page id buf);
  tc_write_page_unit id unit := PageCache.on_io (PageIo.write_page_unit id unit);
  tc_fsync := PageCache.on_io PageIo.fsync;
  tc_nonce :=
    let* self := reads id in
    writes (PageCache.set_drawn (S (PageCache.drawn self))) ;;;
    ret (PageCache.nonces self (PageCache.drawn self));
  tc_set_cache_max_bytes := PageCache.set_cache_max_bytes;
  tc_set_spillway_max_bytes := PageCache.set_spillway_limit;
  tc_set_drain_insertion := PageCache.set_drain_insertion
|}.

(** A [Result] computed without the state. *)
Definition of_outcome {S A} (r : outcome A) : M S A := λ s, (r, s).

Module Txn.
Import TxnAlloc.

(** ** The roots *)

Definition set_handle_table_page (x : Z) (r : Roots) : Roots :=
  {| handle_table_page := x; freemap_page := freemap_page r; freemap_depth := freemap_depth r; next_handle := next_handle r;
     total_pages := total_pages r; named_roots := named_roots r; membership_index_page := membership_index_page r |}.

Definition set_next_handle (x : Z) (r : Roots) : Roots :=
  {| handle_table_page := handle_table_page r; freemap_page := freemap_page r; freemap_depth := freemap_depth r; next_handle := x;
     total_pages := total_pages r; named_roots := named_roots r; membership_index_page := membership_index_page r |}.

Definition set_total_pages (x : Z) (r : Roots) : Roots :=
  {| handle_table_page := handle_table_page r; freemap_page := freemap_page r; freemap_depth := freemap_depth r; next_handle := next_handle r;
     total_pages := x; named_roots := named_roots r; membership_index_page := membership_index_page r |}.

Definition set_named_roots (x : list Superblock.NamedRoot) (r : Roots) : Roots :=
  {| handle_table_page := handle_table_page r; freemap_page := freemap_page r; freemap_depth := freemap_depth r; next_handle := next_handle r;
     total_pages := total_pages r; named_roots := x; membership_index_page := membership_index_page r |}.

Definition set_membership_index_page (x : Z) (r : Roots) : Roots :=
  {| handle_table_page := handle_table_page r; freemap_page := freemap_page r; freemap_depth := freemap_depth r; next_handle := next_handle r;
     total_pages := total_pages r; named_roots := named_roots r; membership_index_page := x |}.

(** ** Savepoints *)

Record Savepoint := {
  sp_name : string;
  sp_roots : Roots;
  sp_watermark : Z;
  sp_freed_pages : list Z;
  sp_live_slots : gmap Z Z;
  sp_freemap : FreemapMark
}.

(** [sp.freed_pages] after [append] took its contents. *)
Definition sp_emptied (sp : Savepoint) : Savepoint :=
  {| sp_name := sp_name sp; sp_roots := sp_roots sp; sp_watermark := sp_watermark sp;
     sp_freed_pages := []; sp_live_slots := sp_live_slots sp; sp_freemap := sp_freemap sp |}.

(** ** The manager *)

Record TransactionManager (St : Type) := {
  cache : St;
  committed_roots : Roots;
  current_roots : Roots;
  handle_table : HandleTable.HandleTable;
  membership_index : MembershipIndex.MembershipIndex;
  txn_counter : Z;
  superblock_count : Z;
  active_txn : bool;
  savepoints : list Savepoint;
  txn_freed_pages : list Z;
  txn_pages : TxnPageRecycle;
  freemap : FreemapRecycle;
  packer : SlotPacker.SlotPacker;
  poisoned : bool;
  cipher : option (list Z);
  crypto_header : option CryptoHeader.CryptoHeader
}.
Arguments cache {St} _.
Arguments committed_roots {St} _.
Arguments current_roots {St} _.
Arguments handle_table {St} _.
Arguments membership_index {St} _.
Arguments txn_counter {St} _.
Arguments superblock_count {St} _.
Arguments active_txn {St} _.
Arguments savepoints {St} _.
Arguments txn_freed_pages {St} _.
Arguments txn_pages {St} _.
Arguments freemap {St} _.
Arguments packer {St} _.
Arguments poisoned {St} _.
Arguments cipher {St} _.
Arguments crypto_header {St} _.

Section setters.
Context {St : Type}.
Implicit Types (self : TransactionManager St).

Definition set_cache (x : St) (self : TransactionManager St) : TransactionManager St :=
  {| cache := x; committed_roots := committed_roots self; current_roots := current_roots self; handle_table := handle_table self;
     membership_index := membership_index self; txn_counter := txn_counter self; superblock_count := superblock_count self; active_txn := active_txn self;
     savepoints := savepoints self; txn_freed_pages := txn_freed_pages self; txn_pages := txn_pages self; freemap := freemap self;
     packer := packer self; poisoned := poisoned self; cipher := cipher self; crypto_header := crypto_header self |}.

Definition set_committed_roots (x : Roots) (self : TransactionManager St) : TransactionManager St :=
  {| cache := cache self; committed_roots := x; current_roots := current_roots self; handle_table := handle_table self;
     membership_index := membership_index self; txn_counter := txn_counter self; superblock_count := superblock_count self; active_txn := active_txn self;
     savepoints := savepoints self; txn_freed_pages := txn_freed_pages self; txn_pages := txn_pages self; freemap := freemap self;
     packer := packer self; poisoned := poisoned self; cipher := cipher self; crypto_header := crypto_header self |}.

Definition set_current_roots (x : Roots) (self : TransactionManager St) : TransactionManager St :=
  {| cache := cache self; committed_roots := committed_roots self; current_roots := x; handle_table := handle_table self;
     membership_index := membership_index self; txn_counter := txn_counter self; superblock_count := superblock_count self; active_txn := active_txn self;
     savepoints := savepoints self; txn_freed_pages := txn_freed_pages self; txn_pages := txn_pages self; freemap := freemap self;
     packer := packer self; poisoned := poisoned self; cipher := cipher self; crypto_header := crypto_header self |}.

Definition set_handle_table (x : HandleTable.HandleTable) (self : TransactionManager St) : TransactionManager St :=
  {| cache := cache self; committed_roots := committed_roots self; current_roots := current_roots self; handle_table := x;
     membership_index := membership_index self; txn_counter := txn_counter self; superblock_count := superblock_count self; active_txn := active_txn self;
     savepoints := savepoints self; txn_freed_pages := txn_freed_pages self; txn_pages := txn_pages self; freemap := freemap self;
     packer := packer self; poisoned := poisoned self; cipher := cipher self; crypto_header := crypto_header self |}.

Definition set_membership_index (x : MembershipIndex.MembershipIndex) (self : TransactionManager St) : TransactionManager St :=
  {| cache := cache self; committed_roots := committed_roots self; current_roots := current_roots self; handle_table := handle_table self;
     membership_index := x; txn_counter := txn_counter self; superblock_count := superblock_count self; active_txn := active_txn self;
     savepoints := savepoints self; txn_freed_pages := txn_freed_pages self; txn_pages := txn_pages self; freemap := freemap self;
     packer := packer self; poisoned := poisoned self; cipher := cipher self; crypto_header := crypto_header self |}.

Definition set_txn_counter (x : Z) (self : TransactionManager St) : TransactionManager St :=
  {| cache := cache self; committed_roots := committed_roots self; current_roots := current_roots self; handle_table := handle_table self;
     membership_index := membership_index self; txn_counter := x; superblock_count := superblock_count self; active_txn := active_txn self;
     savepoints := savepoints self; txn_freed_pages := txn_freed_pages self; txn_pages := txn_pages self; freemap := freemap self;
     packer := packer self; poisoned := poisoned self; cipher := cipher self; crypto_header := crypto_header self |}.

Definition set_active_txn (x : bool) (self : TransactionManager St) : TransactionManager St :=
  {| cache := cache self; committed_roots := committed_roots self; current_roots := current_roots self; handle_table := handle_table self;
     membership_index := membership_index self; txn_counter := txn_counter self; superblock_count := superblock_count self; active_txn := x;
     savepoints := savepoints self; txn_freed_pages := txn_freed_pages self; txn_pages := txn_pages self; freemap := freemap self;
     packer := packer self; poisoned := poisoned self; cipher := cipher self; crypto_header := crypto_header self |}.

Definition set_savepoints (x : list Savepoint) (self : TransactionManager St) : TransactionManager St :=
  {| cache := cache self; committed_roots := committed_roots self; current_roots := current_roots self; handle_table := handle_table self;
     membership_index := membership_index self; txn_counter := txn_counter self; superblock_count := superblock_count self; active_txn := active_txn self;
     savepoints := x; txn_freed_pages := txn_freed_pages self; txn_pages := txn_pages self; freemap := freemap self;
     packer := packer self; poisoned := poisoned self; cipher := cipher self; crypto_header := crypto_header self |}.

Definition set_txn_freed_pages (x : list Z) (self : TransactionManager St) : TransactionManager St :=
  {| cache := cache self; committed_roots := committed_roots self; current_roots := current_roots self; handle_table := handle_table self;
     membership_index := membership_index self; txn_counter := txn_counter self; superblock_count := superblock_count self; active_txn := active_txn self;
     savepoints := savepoints self; txn_freed_pages := x; txn_pages := txn_pages self; freemap := freemap self;
     packer := packer self; poisoned := poisoned self; cipher := cipher self; crypto_header := crypto_header self |}.

Definition set_txn_pages (x : TxnPageRecycle) (self : TransactionManager St) : TransactionManager St :=
  {| cache := cache self; committed_roots := committed_roots self; current_roots := current_roots self; handle_table := handle_table self;
     membership_index := membership_index self; txn_counter := txn_counter self; superblock_count := superblock_count self; active_txn := active_txn self;
     savepoints := savepoints self; txn_freed_pages := txn_freed_pages self; txn_pages := x; freemap := freemap self;
     packer := packer self; poisoned := poisoned self; cipher := cipher self; crypto_header := crypto_header self |}.

Definition set_freemap (x : FreemapRecycle) (self : TransactionManager St) : TransactionManager St :=
  {| cache := cache self; committed_roots := committed_roots self; current_roots := current_roots self; handle_table := handle_table self;
     membership_index := membership_index self; txn_counter := txn_counter self; superblock_count := superblock_count self; active_txn := active_txn self;
     savepoints := savepoints self; txn_freed_pages := txn_freed_pages self; txn_pages := txn_pages self; freemap := x;
     packer := packer self; poisoned := poisoned self; cipher := cipher self; crypto_header := crypto_header self |}.

Definition set_packer (x : SlotPacker.SlotPacker) (self : TransactionManager St) : TransactionManager St :=
  {| cache := cache self; committed_roots := committed_roots self; current_roots := current_roots self; handle_table := handle_table self;
     membership_index := membership_index self; txn_counter := txn_counter self; superblock_count := superblock_count self; active_txn := active_txn self;
     savepoints := savepoints self; txn_freed_pages := txn_freed_pages self; txn_pages := txn_pages self; freemap := freemap self;
     packer := x; poisoned := poisoned self; cipher := cipher self; crypto_header := crypto_header self |}.

Definition set_poisoned (x : bool) (self : TransactionManager St) : TransactionManager St :=
  {| cache := cache self; committed_roots := committed_roots self; current_roots := current_roots self; handle_table := handle_table self;
     membership_index := membership_index self; txn_counter := txn_counter self; superblock_count := superblock_count self; active_txn := active_txn self;
     savepoints := savepoints self; txn_freed_pages := txn_freed_pages self; txn_pages := txn_pages self; freemap := freemap self;
     packer := packer self; poisoned := x; cipher := cipher self; crypto_header := crypto_header self |}.

Definition set_crypto_header (x : option CryptoHeader.CryptoHeader) (self : TransactionManager St) : TransactionManager St :=
  {| cache := cache self; committed_roots := committed_roots self; current_roots := current_roots self; handle_table := handle_table self;
     membership_index := membership_index self; txn_counter := txn_counter self; superblock_count := superblock_count self; active_txn := active_txn self;
     savepoints := savepoints self; txn_freed_pages := txn_freed_pages self; txn_pages := txn_pages self; freemap := freemap self;
     packer := packer self; poisoned := poisoned self; cipher := cipher self; crypto_header := x |}.

End setters.

Section state.
Context {St : Type}.
Implicit Types (self : TransactionManager St).

Abbreviation TM := (TransactionManager St).

(** ** Parts of the manager that a call borrows *)

Definition on_cache {A} (m : M St A) : M TM A := zoom cache set_cache m.

Definition on_roots (f : Roots → Roots) : M TM unit :=
  writes (λ self, set_current_roots (f (current_roots self)) self).

(** What [take_tree] and the allocation closure borrow, and [put_tree] after the call. *)
Definition alloc_part self : St * AllocEnv :=
  let '(tree, fm) := take_tree (current_roots self) (freemap self) in
  (cache self, {| TxnAlloc.freemap := fm; tree := tree; TxnAlloc.txn_pages := txn_pages self |}).

Definition put_alloc_part (t : St * AllocEnv) self : TM :=
  let '(fm, roots) := put_tree (tree t.2) (TxnAlloc.freemap t.2, current_roots self) in
  set_cache t.1 (set_txn_pages (TxnAlloc.txn_pages t.2) (set_freemap fm (set_current_roots roots self))).

(** [self.savepoints.is_empty()] *)
Definition no_savepoints self : bool := bool_decide (savepoints self = []).

(** ** [lifecycle.rs]: the guard of every call and the poisoning by fatal errors *)

Definition check_alive : M TM unit :=
  let* dead := reads poisoned in
  if dead then fail Poisoned else ret tt.

Definition poison_on_fatal {A} (m : M TM A) : M TM A := λ self,
  match m self with
  | (Err e, self') => (Err e, if is_fatal e then set_poisoned true self' else self')
  | r => r
  end.

(** [check_alive()?; let result = inner; poison_on_fatal(result)] *)
Definition guarded {A} (inner : M TM A) : M TM A := check_alive ;;; poison_on_fatal inner.

(** [if !self.active_txn { return Err(NoActiveTransaction) }] *)
Definition need_txn : M TM unit :=
  let* active := reads active_txn in
  if active : bool then ret tt else fail NoActiveTransaction.

Definition is_poisoned self : bool := poisoned self.
Definition is_active self : bool := active_txn self.

(** ** [freemap.rs]: retiring superseded pages *)

(** [cache_watermark] *)
Definition cache_watermark `{PageStore St} self : Z := ps_next_page_id (cache self).

Definition retire_superseded (freed : list Z) : M TM unit :=
  let* enabled := reads no_savepoints in
  zoom (λ self, (txn_pages self, txn_freed_pages self))
    (λ t self, set_txn_freed_pages t.2 (set_txn_pages t.1 self)) (retire freed enabled).

(** ** [packing.rs]: giving a slot back *)

Definition release_data_slot (page_id : Z) self : TM :=
  let '(freed, packer') := SlotPacker.release page_id (packer self) in
  let self := set_packer packer' self in
  match freed with
  | Some id => set_txn_freed_pages (txn_freed_pages self ++ [id]) self
  | None => self
  end.
End state.
End Txn.
