(* ===== verification/TxnOps.v ===== *)
(** * Reading and writing values in a transaction

    [src/transaction/read.rs], [staging.rs], [mutate.rs], and the parts of
    [freemap.rs] and [packing.rs] that are methods of the manager.  A write prepares
    every candidate root first and then sets the roots and retires the superseded
    pages; the error paths in between undo what the preparation changed. *)

From S2P Require Export TxnState.

Module TxnOps.
Import TxnAlloc Txn HandleTable.

Section ops.
Context {St : Type} `{HX : Xxh3} `{HP : !PageStore St} `{HR : !PageReuse St} `{HD : !DeferStore St}.
Abbreviation TM := (TransactionManager St).

(** ** [read.rs] *)

Definition live_handle_table_root (self : TM) : Z :=
  if active_txn self then handle_table_page (current_roots self) else handle_table_page (committed_roots self).

Definition lookup_live (handle : Z) : M TM HandleEntry :=
  let* self := reads id in
  let* found := on_cache (lookup (handle_table self) (live_handle_table_root self) handle) in
  match found with Some e => ret e | None => fail (InvalidHandle handle) end.

Definition tag_of (handle : Z) : M TM Z :=
  guarded (let* e := lookup_live handle in ret (tag e)).

Definition client_byte_of (handle : Z) : M TM Z :=
  guarded (let* e := lookup_live handle in ret (client_byte e)).

Definition handles_with_tag (tag : Z) : M TM (list Z) :=
  guarded (
    let* self := reads id in
    let root := if active_txn self then membership_index_page (current_roots self)
                else membership_index_page (committed_roots self) in
    on_cache (MembershipIndex.handles_for_tag (membership_index self) root tag)).

Definition read_inner (handle : Z) : M TM (list Z) :=
  let* entry := lookup_live handle in
  match flags entry with
  | Live =>
      let* buf := on_cache (ps_get (page_id entry)) in
      match DataPage.read buf (slot_index entry) with
      | Some data => ret data
      | None => fail (CorruptPage (page_id entry))
      end
  | HandleTable.Overflow => on_cache (Overflow.read (page_id entry))
  | Deleted => fail (InvalidHandle handle)
  end.

Definition read (handle : Z) : M TM (list Z) := guarded (read_inner handle).

Definition handles : M TM (list Z) :=
  guarded (
    let* self := reads id in
    let root := live_handle_table_root self in
    if root =? PAGE_ID_NONE then ret [] else
    let* entries := on_cache (iter_live (handle_table self) root) in
    ret (entries.*1)).

(** ** Data pages and the handle table ([packing.rs], [freemap.rs]) *)

Definition insert_into_data_page (value : list Z) : M TM (Z * Z) :=
  let* reuse := reads no_savepoints in
  let* packing_enabled := reads no_savepoints in
  zoom (λ self, (alloc_part self, packer self)) (λ t self, set_packer t.2 (put_alloc_part t.1 self))
    (SlotPacker.insert (cow_alloc reuse) packing_enabled value).

Definition ensure_handle_table : M TM unit :=
  let* self := reads id in
  if handle_table_page (current_roots self) =? PAGE_ID_NONE then
    let* root := zoom (λ self, (cache self, handle_table self))
      (λ t self, set_handle_table t.2 (set_cache t.1 self)) create_root in
    on_roots (set_handle_table_page root)
  else ret tt.

(** ** [staging.rs]: candidate roots, with the caller's [freed] vector beside *)

Definition handle_table_insert_candidate (handle : Z) (entry : HandleEntry) : M (TM * list Z) Z :=
  let* self := reads fst in
  zoom (λ sx, (alloc_part sx.1, sx.2, handle_table sx.1))
    (λ t sx, (set_handle_table t.2 (put_alloc_part t.1.1 sx.1), t.1.2))
    (insert (cow_alloc (no_savepoints self)) (handle_table_page (current_roots self)) handle entry).

Definition membership_insert_candidate (tag handle : Z) : M (TM * list Z) Z :=
  let* self := reads fst in
  zoom (λ sx, (alloc_part sx.1, sx.2, membership_index sx.1))
    (λ t sx, (set_membership_index t.2 (put_alloc_part t.1.1 sx.1), t.1.2))
    (MembershipIndex.insert (cow_alloc (no_savepoints self)) (membership_index_page (current_roots self)) tag handle).

Definition membership_remove_candidate (tag handle : Z) : M (TM * list Z) (Z * bool) :=
  let* self := reads fst in
  zoom (λ sx, (alloc_part sx.1, sx.2, membership_index sx.1))
    (λ t sx, (set_membership_index t.2 (put_alloc_part t.1.1 sx.1), t.1.2))
    (MembershipIndex.remove (cow_alloc (no_savepoints self)) (membership_index_page (current_roots self)) tag handle).

Definition ht_insert (handle : Z) (entry : HandleEntry) : M TM unit :=
  let* '(new_root, freed) := MembershipIndex.with_local [] (handle_table_insert_candidate handle entry) in
  on_roots (set_handle_table_page new_root) ;;;
  retire_superseded freed.

Definition set_client_byte (handle byte : Z) : M TM unit :=
  guarded (
    need_txn ;;;
    let* entry := lookup_live handle in
    ht_insert handle {| page_id := page_id entry; slot_index := slot_index entry; flags := flags entry;
                        tag := tag entry; client_byte := byte |}).

Definition abort_allocate_prepare (saved_root : Z) (saved_depth : nat) (inline_page : option Z) (self : TM) : TM :=
  let self := set_current_roots (set_handle_table_page saved_root (current_roots self)) self in
  let self := set_handle_table {| depth := saved_depth |} self in
  match inline_page with
  | Some page_id => release_data_slot page_id self
  | None => self
  end.

(** The value is written: its handle entry, and the page the packer counts it on. *)
Definition place_value (value : list Z) (tag client_byte : Z) : M TM (HandleEntry * option Z) :=
  if DataPage.MAX_INLINE_VALUE <? zlen value then
    let* first_page := on_cache (Overflow.write value) in
    ret ({| page_id := first_page; slot_index := 0; flags := HandleTable.Overflow; tag := tag; client_byte := client_byte |}, None)
  else
    let* '(data_page_id, slot) := insert_into_data_page value in
    ret ({| page_id := data_page_id; slot_index := slot; flags := Live; tag := tag; client_byte := client_byte |}, Some data_page_id).

Definition allocate_inner (value : list Z) (tag : Z) : M TM Z :=
  need_txn ;;;
  let* self := reads id in
  let handle := next_handle (current_roots self) in
  let* next_handle := of_outcome (Superblock.next_handle_after handle) in
  let* '(entry, inline_page) := place_value value tag 0 in
  let* self := reads id in
  let saved_ht_root := handle_table_page (current_roots self) in
  let saved_ht_depth := depth (handle_table self) in
  ensure_handle_table ;;;
  let abort := abort_allocate_prepare saved_ht_root saved_ht_depth inline_page in
  let* '(ht_new_root, ht_freed) :=
    on_err (MembershipIndex.with_local [] (handle_table_insert_candidate handle entry)) abort in
  let* mi :=
    (if tag =? 0 then ret None else
     let* r := on_err (MembershipIndex.with_local [] (membership_insert_candidate tag handle)) abort in
     ret (Some r)) in
  on_roots (set_next_handle next_handle) ;;;
  on_roots (set_handle_table_page ht_new_root) ;;;
  retire_superseded ht_freed ;;;
  match mi with
  | Some (root, mi_freed) =>
      on_roots (set_membership_index_page root) ;;;
      retire_superseded mi_freed
  | None => ret tt
  end ;;;
  ret handle.

Definition allocate (value : list Z) : M TM Z := guarded (allocate_inner value 0).
Definition allocate_tagged (value : list Z) (tag : Z) : M TM Z := guarded (allocate_inner value tag).

(** ** [mutate.rs] *)

(** [OldRelease] and [PendingRelease] *)
Inductive Release := Inline (page_id : Z) | Chain (freed : list Z).

Definition do_release (r : Release) : M TM unit :=
  match r with
  | Inline page_id => writes (release_data_slot page_id)
  | Chain freed => writes (λ self, set_txn_freed_pages (txn_freed_pages self ++ freed) self)
  end.

Definition update_inner (handle : Z) (value : list Z) : M TM unit :=
  need_txn ;;;
  let* entry := lookup_live handle in
  let* '(new_entry, new_inline_page) := place_value value (tag entry) (client_byte entry) in
  let undo (self : TM) :=
    match new_inline_page with Some page_id => release_data_slot page_id self | None => self end in
  let* self := reads id in
  let saved_ht_depth := depth (handle_table self) in
  let* '(ht_new_root, ht_freed) :=
    on_err (MembershipIndex.with_local [] (handle_table_insert_candidate handle new_entry)) undo in
  let* old_release :=
    match flags entry with
    | Live => ret (Inline (page_id entry))
    | HandleTable.Overflow =>
        let* freed := on_err (on_cache (Overflow.collect_chain_pages (page_id entry)))
          (λ self, set_handle_table {| depth := saved_ht_depth |} (undo self)) in
        ret (Chain freed)
    | Deleted => fail (CorruptPage (page_id entry))
    end in
  on_roots (set_handle_table_page ht_new_root) ;;;
  retire_superseded ht_freed ;;;
  do_release old_release.

Definition update (handle : Z) (value : list Z) : M TM unit := guarded (update_inner handle value).

(** The [freed] vector of [delete_inner], with the tree taken and put back. *)
Definition handle_table_delete_candidate (handle : Z) : M (TM * list Z) (Z * option HandleEntry) :=
  let* self := reads fst in
  zoom (λ sx, (alloc_part sx.1, sx.2)) (λ t sx, (put_alloc_part t.1 sx.1, t.2))
    (delete (cow_alloc (no_savepoints self)) (handle_table self) (handle_table_page (current_roots self)) handle).

Definition delete_inner (handle : Z) : M TM unit :=
  need_txn ;;;
  let* '((ht_new_root, prev_entry), ht_freed) :=
    MembershipIndex.with_local [] (handle_table_delete_candidate handle) in
  match prev_entry with
  | None => fail (InvalidHandle handle)
  | Some entry =>
      let* release :=
        match flags entry with
        | Live => ret (Inline (page_id entry))
        | HandleTable.Overflow =>
            let* freed := on_cache (Overflow.collect_chain_pages (page_id entry)) in
            ret (Chain freed)
        | Deleted => fail (CorruptPage (page_id entry))
        end in
      let* mi :=
        (if tag entry =? 0 then ret None else
         let* '((new_index_root, removed), idx_freed) :=
           MembershipIndex.with_local [] (membership_remove_candidate (tag entry) handle) in
         assert_that PanicAssert removed ;;;
         ret (Some (new_index_root, idx_freed))) in
      on_roots (set_handle_table_page ht_new_root) ;;;
      retire_superseded ht_freed ;;;
      do_release release ;;;
      match mi with
      | Some (root, idx_freed) =>
          on_roots (set_membership_index_page root) ;;;
          retire_superseded idx_freed
      | None => ret tt
      end
  end.

Definition delete (handle : Z) : M TM unit := guarded (delete_inner handle).

Definition delete_tagged (handle expected : Z) : M TM unit :=
  guarded (
    need_txn ;;;
    let* e := lookup_live handle in
    if negb (tag e =? expected) then fail (TagMismatch handle expected (tag e)) else
    delete_inner handle).

(** The loop of [delete_many_inner], which stops at the first error. *)
Fixpoint delete_each (handles : list Z) : M TM unit :=
  match handles with
  | [] => ret tt
  | h :: handles => delete_inner h ;;; delete_each handles
  end.

Definition delete_with_tag (tag max : Z) : M TM (list Z * bool) :=
  guarded (
    need_txn ;;;
    if max =? 0 then ret ([], false) else
    let* self := reads id in
    let* members := on_cache (MembershipIndex.handles_for_tag_bounded (membership_index self)
      (membership_index_page (current_roots self)) tag (Z.min (max + 1) u64_max)) in
    let complete := zlen members <=? max in
    let chosen := take (Z.to_nat max) members in
    delete_each chosen ;;;
    ret (chosen, complete)).

Definition delete_many (handles : list Z) : M TM unit :=
  guarded (need_txn ;;; delete_each handles).
End ops.
End TxnOps.
