(* ===== verification/TxnCommit.v ===== *)
(** * Transactions: begin, commit, rollback, savepoints, named roots

    [src/transaction/lifecycle.rs], [commit.rs], [savepoints.rs], [named_roots.rs] and
    [config.rs], and [reclaim_freemap_orphans] of [freemap.rs]. *)

From S2P Require Export TxnOps.

Module TxnCommit.
Import TxnAlloc Txn.

(** ** [named_roots.rs] *)

(** [str::as_bytes] *)
Definition as_bytes (name : string) : list Z :=
  (λ c, Z.of_N (Ascii.N_of_ascii c)) <$> String.list_ascii_of_string name.

Definition encode_root_name (name : string) : outcome (list Z) :=
  let bytes := as_bytes name in
  if (zlen bytes =? 0) || (Superblock.NAMED_ROOT_NAME_LEN <? zlen bytes) then Err InvalidRootName else
  if bool_decide (0 ∈ bytes) then Err InvalidRootName else
  Ok (splice 0 bytes (zeros Superblock.NAMED_ROOT_NAME_LEN)).

(** [!entry.is_empty() && entry.name == encoded] *)
Definition named (encoded : list Z) (entry : Superblock.NamedRoot) : bool :=
  negb (Superblock.is_empty entry) && bool_decide (Superblock.name entry = encoded).

(** The loops that rewrite the first entry satisfying a test and return. *)
Fixpoint alter_first (p : Superblock.NamedRoot → bool) (f : Superblock.NamedRoot → Superblock.NamedRoot)
    (table : list Superblock.NamedRoot) : option (list Superblock.NamedRoot) :=
  match table with
  | [] => None
  | entry :: table => if p entry then Some (f entry :: table) else (entry ::.) <$> alter_first p f table
  end.

Definition set_entry (encoded : list Z) (handle : Z) (table : list Superblock.NamedRoot)
    : option (list Superblock.NamedRoot) :=
  match alter_first (named encoded) (λ e, {| Superblock.name := Superblock.name e; Superblock.handle := handle |}) table with
  | Some t => Some t
  | None => alter_first Superblock.is_empty (λ _, {| Superblock.name := encoded; Superblock.handle := handle |}) table
  end.

Definition get_entry (encoded : list Z) (table : list Superblock.NamedRoot) : option Z :=
  Superblock.handle <$> List.find (named encoded) table.

Definition clear_entry (encoded : list Z) (table : list Superblock.NamedRoot) : list Superblock.NamedRoot :=
  default table (alter_first (named encoded) (λ _, Superblock.EMPTY_ROOT) table).

Section ops.
Context {St : Type} `{HX : Xxh3} `{HO : HashOrder} `{HC : Primitives}
  `{HP : !PageStore St} `{HR : !PageReuse St} `{HD : !DeferStore St} `{HT : !TxnCache St}.
Abbreviation TM := (TransactionManager St).

Definition set_root_name_inner (name : string) (handle : Z) : M TM unit :=
  need_txn ;;;
  let* encoded := of_outcome (encode_root_name name) in
  let* roots := reads current_roots in
  match set_entry encoded handle (named_roots roots) with
  | Some t => on_roots (set_named_roots t)
  | None => fail RootNameTableFull
  end.

Definition set_root_name (name : string) (handle : Z) : M TM unit := guarded (set_root_name_inner name handle).

Definition get_root_name_inner (name : string) : M TM (option Z) :=
  let* encoded := of_outcome (encode_root_name name) in
  let* self := reads id in
  let table := if active_txn self then named_roots (current_roots self) else named_roots (committed_roots self) in
  ret (get_entry encoded table).

Definition get_root_name (name : string) : M TM (option Z) := guarded (get_root_name_inner name).

Definition clear_root_name_inner (name : string) : M TM unit :=
  need_txn ;;;
  let* encoded := of_outcome (encode_root_name name) in
  on_roots (λ r, set_named_roots (clear_entry encoded (named_roots r)) r).

Definition clear_root_name (name : string) : M TM unit := guarded (clear_root_name_inner name).

(** ** [savepoints.rs] *)

(** [self.txn_pages.drain_into(&mut self.txn_freed_pages)] *)
Definition drain_pool : M TM unit :=
  zoom (λ self, (txn_pages self, txn_freed_pages self))
    (λ t self, set_txn_freed_pages t.2 (set_txn_pages t.1 self)) drain_into.

Definition savepoint_inner (name : string) : M TM unit :=
  need_txn ;;;
  let* self := reads id in
  if existsb (λ sp, bool_decide (sp_name sp = name)) (savepoints self) then fail (DuplicateSavepoint name) else
  let watermark := cache_watermark self in
  let live_slots := SlotPacker.snapshot (packer self) in
  writes (λ self, set_packer (SlotPacker.clear_cursor (packer self)) self) ;;;
  drain_pool ;;;
  writes (λ self, set_txn_freed_pages [] (set_savepoints (savepoints self ++
    [{| sp_name := name; sp_roots := current_roots self; sp_watermark := watermark;
        sp_freed_pages := txn_freed_pages self; sp_live_slots := live_slots;
        sp_freemap := savepoint_mark (freemap self) |}]) self)).

Definition savepoint (name : string) : M TM unit := guarded (savepoint_inner name).

(** [.iter().position(|sp| sp.name == name)] *)
Definition position (name : string) (sps : list Savepoint) : option nat :=
  fst <$> list_find (λ sp, sp_name sp = name) sps.

(** The depths of the two trees from the pages under the current roots. *)
Definition recover_depths : M TM unit :=
  let* self := reads id in
  let* d := on_cache (RadixU64.recover_depth (membership_index_page (current_roots self))) in
  writes (set_membership_index {| MembershipIndex.outer_depth := d |}) ;;;
  let* self := reads id in
  let* d := on_cache (HandleTable.recover_depth (handle_table_page (current_roots self))) in
  writes (set_handle_table {| HandleTable.depth := d |}).

(** [rollback_to_inner] once the savepoint is found. *)
Definition restore_savepoint (idx : nat) (sp : Savepoint) : M TM unit :=
  on_cache (tc_truncate (sp_watermark sp)) ;;;
  writes (set_current_roots (sp_roots sp)) ;;;
  recover_depths ;;;
  writes (λ self, set_packer (SlotPacker.restore (sp_live_slots sp) (packer self)) self) ;;;
  writes (λ self, set_freemap (rollback_to_mark (sp_freemap sp) (freemap self)) self) ;;;
  writes (λ self, set_savepoints (take (idx + 1) (savepoints self)) self) ;;;
  writes (set_txn_freed_pages []) ;;;
  let* self := reads id in
  assert_that PanicAssert (bool_decide (recyclable (txn_pages self) = [])).

Definition rollback_to_inner (name : string) : M TM unit :=
  need_txn ;;;
  let* self := reads id in
  match position name (savepoints self) with
  | None => fail (SavepointNotFound name)
  | Some idx =>
      match savepoints self !! idx with
      | None => crash PanicSlice
      | Some sp => restore_savepoint idx sp
      end
  end.

Definition rollback_to (name : string) : M TM unit := guarded (rollback_to_inner name).

Definition release_inner (name : string) : M TM unit :=
  need_txn ;;;
  let* self := reads id in
  match position name (savepoints self) with
  | None => fail (SavepointNotFound name)
  | Some idx =>
      let merged_freed := concat (sp_freed_pages <$> drop idx (savepoints self)) ++ txn_freed_pages self in
      writes (λ self, set_savepoints (take idx (savepoints self)) self) ;;;
      writes (set_txn_freed_pages merged_freed)
  end.

Definition release (name : string) : M TM unit := guarded (release_inner name).

(** ** [lifecycle.rs] *)

Definition begin_inner : M TM unit :=
  let* self := reads id in
  if tc_read_only (cache self) then fail ReadOnlyMode else
  if active_txn self then fail TransactionAlreadyActive else
  writes (set_current_roots (committed_roots self)) ;;;
  writes (λ self, set_freemap (begin (freemap self)) self) ;;;
  writes (λ self, set_txn_pages (reset (txn_pages self)) self) ;;;
  writes (λ self, set_packer (SlotPacker.begin (packer self)) self) ;;;
  writes (set_active_txn true) ;;;
  writes (set_savepoints []) ;;;
  writes (set_txn_freed_pages []).

Definition begin_txn : M TM unit := guarded begin_inner.

Definition rollback_inner : M TM unit :=
  need_txn ;;;
  let* self := reads id in
  writes (λ self, set_cache (tc_discard_all_dirty (cache self)) self) ;;;
  on_cache (tc_truncate (total_pages (committed_roots self))) ;;;
  writes (set_current_roots (committed_roots self)) ;;;
  recover_depths ;;;
  writes (λ self, set_freemap (TxnAlloc.rollback (freemap self)) self) ;;;
  writes (λ self, set_txn_pages (reset (txn_pages self)) self) ;;;
  writes (λ self, set_packer (SlotPacker.rollback (packer self)) self) ;;;
  writes (set_active_txn false) ;;;
  writes (set_savepoints []) ;;;
  writes (set_txn_freed_pages []).

Definition rollback : M TM unit := guarded rollback_inner.

(** ** [commit.rs] *)

(** The superblock that a commit writes. *)
Definition commit_superblock (self : TM) (total : Z) : Superblock.Superblock :=
  let roots := current_roots self in
  {| Superblock.magic := MAGIC;
     Superblock.format_version := match crypto_header self with Some _ => format_version_encrypted | None => FORMAT_VERSION end;
     Superblock.txn_counter := txn_counter self;
     Superblock.root_handle_table_page := handle_table_page roots;
     Superblock.root_freemap_page := freemap_page roots;
     Superblock.total_pages := total;
     Superblock.next_handle := next_handle roots;
     Superblock.page_size := PAGE_SIZE;
     Superblock.named_roots := named_roots roots;
     Superblock.superblock_count := superblock_count self;
     Superblock.root_membership_index_page := membership_index_page roots;
     Superblock.freemap_depth := Z.of_nat (freemap_depth roots);
     Superblock.encryption := crypto_header self |}.

(** [serialize_encrypted] draws a nonce. *)
Definition superblock_image (self : TM) (sb : Superblock.Superblock) : M TM (list Z) :=
  match cipher self, crypto_header self with
  | Some dek, Some _ =>
      let* nonce := on_cache tc_nonce in
      of_outcome (Superblock.serialize_encrypted sb dek nonce)
  | _, _ => ret (Superblock.serialize sb)
  end.

(** The write of the slot: a whole unit in an encrypted file. *)
Definition write_slot (self : TM) (slot : Z) (buf : list Z) : M TM unit :=
  match cipher self with
  | Some _ => on_cache (tc_write_page_unit slot (splice 0 buf (zeros Crypto.ENC_PAGE_SIZE)))
  | None => on_cache (tc_write_page slot buf)
  end.

(** [persist] on the parts of the manager it borrows. *)
Definition persist_freed : M TM unit :=
  let* freed := reads txn_freed_pages in
  zoom (λ self, (cache self, freemap self, current_roots self))
    (λ t self, set_current_roots t.2 (set_freemap t.1.2 (set_cache t.1.1 self))) (persist freed).

(** The end of [run_commit], after the superblock is durable. *)
Definition publish (total : Z) (self : TM) : TM :=
  let self := set_committed_roots (set_total_pages total (current_roots self)) self in
  let self := set_packer (SlotPacker.commit (packer self)) self in
  let self := set_active_txn false self in
  let self := set_savepoints [] self in
  let self := set_txn_freed_pages [] self in
  let self := set_txn_pages (reset (txn_pages self)) self in
  set_freemap (TxnAlloc.commit (freemap self)) self.

Definition run_commit : M TM unit :=
  let* self := reads id in
  let* next_counter := of_outcome (Superblock.next_txn_counter (txn_counter self)) in
  writes (λ self, set_savepoints (sp_emptied <$> savepoints self)
    (set_txn_freed_pages (txn_freed_pages self ++ concat (sp_freed_pages <$> savepoints self)) self)) ;;;
  drain_pool ;;;
  on_cache tc_flush ;;;
  persist_freed ;;;
  on_cache tc_flush ;;;
  writes (set_txn_counter next_counter) ;;;
  let* self := reads id in
  let total := tc_file_page_count (cache self) in
  let* buf := superblock_image self (commit_superblock self total) in
  assert_that PanicOverflow (negb (superblock_count self =? 0)) ;;;
  write_slot self (txn_counter self mod superblock_count self) buf ;;;
  on_cache tc_fsync ;;;
  writes (publish total).

(** Any error of a commit poisons the manager. *)
Definition commit_txn : M TM unit :=
  check_alive ;;;
  need_txn ;;;
  on_err run_commit (set_poisoned true).

(** ** [config.rs] *)

Definition need_idle : M TM unit :=
  check_alive ;;;
  let* active := reads active_txn in
  if active : bool then fail TransactionInProgress else ret tt.

Definition set_cache_max_bytes (bytes : Z) : M TM unit :=
  need_idle ;;; on_cache (tc_set_cache_max_bytes bytes).

Definition set_spillway_max_bytes (bytes : Z) : M TM unit :=
  need_idle ;;; writes (λ self, set_cache (tc_set_spillway_max_bytes bytes (cache self)) self).

Definition set_drain_insertion (policy : PageCache.DrainInsertion) : M TM unit :=
  need_idle ;;; writes (λ self, set_cache (tc_set_drain_insertion policy (cache self)) self).

(** ** [freemap.rs] *)

Definition reclaim_freemap_orphans : M TM Z :=
  check_alive ;;;
  need_txn ;;;
  let* self := reads id in
  poison_on_fatal (zoom (λ self, (cache self, freemap self, current_roots self))
    (λ t self, set_current_roots t.2 (set_freemap t.1.2 (set_cache t.1.1 self)))
    (reclaim_orphans (negb (no_savepoints self)) (superblock_count self))).
End ops.
End TxnCommit.
