(* ===== verification/NamedRoots.v ===== *)
(** * Named roots are a finite map

    The table of [src/transaction/named_roots.rs]: eight entries of the superblock, an
    entry empty when its first byte is zero.  Over any history of [set_root_name],
    [get_root_name] and [clear_root_name] in a transaction the table behaves as a map
    from names to handles with at most eight names. *)

From S2P Require Export TxnCommit.

Module NamedRoots.
Import TxnAlloc Txn TxnCommit Superblock.

(** ** Names *)

Definition name_ok (n : string) : bool :=
  (0 <? zlen (as_bytes n)) && (zlen (as_bytes n) <=? NAMED_ROOT_NAME_LEN) && negb (bool_decide (0 ∈ as_bytes n)).

(** The encoding of an accepted name. *)
Definition padded (n : string) : list Z := splice 0 (as_bytes n) (zeros NAMED_ROOT_NAME_LEN).

Lemma encode_ok n : encode_root_name n = if name_ok n then Ok (padded n) else Err InvalidRootName.
Proof.
  unfold encode_root_name, name_ok, padded. pose proof (zlen_nonneg (as_bytes n)).
  destruct (Z.eqb_spec (zlen (as_bytes n)) 0), (Z.ltb_spec 0 (zlen (as_bytes n))),
    (Z.ltb_spec NAMED_ROOT_NAME_LEN (zlen (as_bytes n))), (Z.leb_spec (zlen (as_bytes n)) NAMED_ROOT_NAME_LEN),
    (bool_decide (0 ∈ as_bytes n)); cbn; done || lia.
Qed.

#[local] Instance byte_inj : Inj eq eq (λ c, Z.of_N (Ascii.N_of_ascii c)).
Proof. intros a b E%N2Z.inj. by rewrite <- (Ascii.ascii_N_embedding a), E, Ascii.ascii_N_embedding. Qed.

Lemma as_bytes_inj n n' : as_bytes n = as_bytes n' → n = n'.
Proof.
  intros E%(inj (fmap _)). rewrite <- (String.string_of_list_ascii_of_string n), <- (String.string_of_list_ascii_of_string n').
  by rewrite E.
Qed.

(** Padding with zeros is injective on names without a zero byte. *)
Lemma pad_inj (l l' : list Z) a b :
  0 ∉ l → 0 ∉ l' → l ++ replicate a 0 = l' ++ replicate b 0 → l = l'.
Proof.
  revert l'. induction l as [| x l IH]; intros [| y l'] Hl Hl'; cbn; [done | | |].
  - destruct a; cbn; [done |]. intros [= <- _]. exfalso. apply Hl'. by left.
  - destruct b; cbn; [done |]. intros [= -> _]. exfalso. apply Hl. by left.
  - intros [= -> E]. f_equal. rewrite elem_of_cons in Hl, Hl'. apply IH; [tauto.. | done].
Qed.

Lemma padded_app n : name_ok n = true → padded n = as_bytes n ++ zeros (NAMED_ROOT_NAME_LEN - zlen (as_bytes n)).
Proof.
  intros [[H1%Z.ltb_lt H2%Z.leb_le]%andb_true_iff _]%andb_true_iff. unfold padded, splice, zeros. rewrite drop_replicate. change (Z.to_nat 0) with 0%nat. rewrite take_0. cbn [app].
  f_equal. replace (Z.to_nat (NAMED_ROOT_NAME_LEN - zlen (as_bytes n)))
    with (Z.to_nat NAMED_ROOT_NAME_LEN - Z.to_nat (0 + zlen (as_bytes n)))%nat by lia. done.
Qed.

Lemma padded_inj n n' : name_ok n = true → name_ok n' = true → padded n = padded n' → n = n'.
Proof.
  intros Hn Hn'. rewrite !padded_app by done. unfold name_ok in *. rewrite !andb_true_iff, !negb_true_iff, !bool_decide_eq_false in *.
  intros E%pad_inj; [by apply as_bytes_inj | apply Hn | apply Hn'].
Qed.

Lemma padded_head n : name_ok n = true → getb 0 (padded n) ≠ 0.
Proof.
  intros Hn. rewrite padded_app by done. unfold name_ok in Hn.
  rewrite !andb_true_iff, negb_true_iff, bool_decide_eq_false, Z.ltb_lt in Hn. destruct Hn as [[H1 _] H2].
  destruct (as_bytes n) as [| x l]; [done |]. change (x ≠ 0). intros ->. apply H2. by left.
Qed.

(** ** Tables *)

(** What an entry stands for: nothing, or a name with its handle. *)
Definition entry_rep (o : option (string * Z)) (e : NamedRoot) : Prop :=
  match o with
  | None => is_empty e = true
  | Some (n, h) => name_ok n = true ∧ name e = padded n ∧ handle e = h
  end.

Definition pairs (l : list (option (string * Z))) : list (string * Z) := omap id l.

(** The table represents the map. *)
Definition table_rep (m : gmap string Z) (t : list NamedRoot) : Prop :=
  ∃ l, Forall2 entry_rep l t ∧ NoDup (pairs l).*1 ∧ m = list_to_map (pairs l) ∧ zlen t = NAMED_ROOT_COUNT.

Lemma named_rep n o e : name_ok n = true → entry_rep o e → named (padded n) e = true ↔ fst <$> o = Some n.
Proof.
  intros Hn. unfold named, is_empty. destruct o as [[n' h] |]; cbn.
  - intros (Hn' & E & _). rewrite E. pose proof (padded_head n' Hn'). destruct (Z.eqb_spec (getb 0 (padded n')) 0); [done |].
    cbn. rewrite bool_decide_eq_true. split; [intros H'; f_equal; by apply padded_inj | by intros [= ->]].
  - unfold is_empty. intros ->. done.
Qed.

Lemma empty_rep o e : entry_rep o e → is_empty e = true ↔ o = None.
Proof.
  destruct o as [[n h] |]; cbn; [| by intros ->]. intros (Hn & E & _). unfold is_empty. rewrite E, Z.eqb_eq.
  split; [| done]. intros H. by apply padded_head in H.
Qed.

Lemma alter_first_spec p f t :
  match alter_first p f t with
  | Some t' => ∃ t1 e t2, t = t1 ++ e :: t2 ∧ p e = true ∧ t' = t1 ++ f e :: t2
  | None => Forall (λ e, p e = false) t
  end.
Proof.
  induction t as [| e t IH]; cbn; [constructor |]. destruct (p e) eqn:E; [by exists [], e, t |].
  destruct (alter_first p f t) as [t' |]; cbn; [| by constructor].
  destruct IH as (t1 & e' & t2 & -> & He & ->). by exists (e :: t1), e', t2.
Qed.

(** ** The three operations on a table *)

Lemma pairs_app l l' : pairs (l ++ l') = pairs l ++ pairs l'.
Proof. apply omap_app. Qed.

Lemma pairs_cons o l : pairs (o :: l) = match o with Some p => p :: pairs l | None => pairs l end.
Proof. by destruct o. Qed.

Lemma pairs_keys l n : n ∈ (pairs l).*1 ↔ ∃ o, o ∈ l ∧ fst <$> o = Some n.
Proof.
  rewrite list_elem_of_fmap. split.
  - intros ([n' h] & -> & (o & Ho & E)%list_elem_of_omap). cbn in E. subst o. eauto.
  - intros ([[n' h] |] & Ho & [= ->]). exists (n, h). split; [done |]. apply list_elem_of_omap. eauto.
Qed.

(** No entry passes the test: the name is not in the table. *)
Lemma unnamed_rep n l t :
  name_ok n = true → Forall2 entry_rep l t → Forall (λ e, named (padded n) e = false) t → n ∉ (pairs l).*1.
Proof.
  intros Hn Hl Ht. rewrite pairs_keys. intros (o & Ho & E). apply list_elem_of_lookup in Ho as [i Hi].
  destruct (Forall2_lookup_l _ _ _ _ _ Hl Hi) as (e & He & Hr). eapply Forall_lookup_1 in Ht; [| exact He]. cbn in Ht.
  apply (named_rep n o e Hn Hr) in E. congruence.
Qed.

Lemma list_to_map_swap (l l' : list (string * Z)) n h :
  NoDup (l ++ (n, h) :: l').*1 → list_to_map (l ++ (n, h) :: l') =@{gmap string Z} <[n := h]> (list_to_map (l ++ l')).
Proof.
  intros Hnd. rewrite <- list_to_map_cons. apply list_to_map_proper; [done |]. symmetry. apply Permutation_middle.
Qed.

(** A name's entry is rewritten. *)
Lemma replace_rep m t1 e t2 n h e' :
  table_rep m (t1 ++ e :: t2) → name_ok n = true → named (padded n) e = true → name e' = name e → handle e' = h →
  table_rep (<[n := h]> m) (t1 ++ e' :: t2).
Proof.
  intros (l & Hl & Hnd & -> & Hlen) Hn He En Eh. apply Forall2_app_inv_r in Hl as (l1 & l2 & Hl1 & Hl2 & ->).
  apply Forall2_cons_inv_r in Hl2 as (o & l2' & Ho & Hl2 & ->). pose proof (proj1 (named_rep n o e Hn Ho) He) as Eo.
  destruct o as [[n' h'] |]; [| done]. injection Eo as ->. exists (l1 ++ Some (n, h) :: l2').
  rewrite !pairs_app, !pairs_cons in *.
  assert (Hk : (pairs l1 ++ (n, h) :: pairs l2').*1 = (pairs l1 ++ (n, h') :: pairs l2').*1) by by rewrite !fmap_app.
  ands.
  - apply Forall2_app; [done |]. constructor; [| done]. cbn. destruct Ho as (? & ? & _). by rewrite En.
  - by rewrite Hk.
  - rewrite !list_to_map_swap by congruence. by rewrite insert_insert_eq.
  - unfold zlen in *. rewrite !length_app in *. done.
Qed.

(** An empty entry is filled. *)
Lemma fill_rep m t1 e t2 n h :
  table_rep m (t1 ++ e :: t2) → name_ok n = true → is_empty e = true → m !! n = None →
  table_rep (<[n := h]> m) (t1 ++ {| name := padded n; handle := h |} :: t2).
Proof.
  intros (l & Hl & Hnd & -> & Hlen) Hn He Hm. apply Forall2_app_inv_r in Hl as (l1 & l2 & Hl1 & Hl2 & ->).
  apply Forall2_cons_inv_r in Hl2 as (o & l2' & Ho & Hl2 & ->). apply (empty_rep o e Ho) in He as ->.
  exists (l1 ++ Some (n, h) :: l2'). apply not_elem_of_list_to_map in Hm.
  rewrite !pairs_app, !pairs_cons in *.
  assert (Hnd' : NoDup (pairs l1 ++ (n, h) :: pairs l2').*1).
  { rewrite fmap_app. cbn [fmap list_fmap fst]. rewrite <- Permutation_middle. apply NoDup_cons. rewrite fmap_app in *. done. }
  ands.
  - apply Forall2_app; [done |]. by constructor.
  - done.
  - by rewrite list_to_map_swap.
  - unfold zlen in *. rewrite !length_app in *. done.
Qed.

Lemma erase_rep m t1 e t2 n :
  table_rep m (t1 ++ e :: t2) → name_ok n = true → named (padded n) e = true →
  table_rep (delete n m) (t1 ++ EMPTY_ROOT :: t2).
Proof.
  intros (l & Hl & Hnd & -> & Hlen) Hn He. apply Forall2_app_inv_r in Hl as (l1 & l2 & Hl1 & Hl2 & ->).
  apply Forall2_cons_inv_r in Hl2 as (o & l2' & Ho & Hl2 & ->). pose proof (proj1 (named_rep n o e Hn Ho) He) as Eo.
  destruct o as [[n' h'] |]; [| done]. injection Eo as ->. exists (l1 ++ None :: l2').
  rewrite !pairs_app, !pairs_cons in *.
  assert (Hnd' : NoDup (n :: (pairs l1 ++ pairs l2').*1)).
  { rewrite fmap_app in *. cbn [fmap list_fmap fst] in Hnd. by rewrite <- Permutation_middle in Hnd. }
  apply NoDup_cons in Hnd' as [Hni Hnd']. ands.
  - apply Forall2_app; [done |]. by constructor.
  - done.
  - rewrite list_to_map_swap by done. rewrite delete_insert_eq, delete_id; [done |]. by apply not_elem_of_list_to_map.
  - unfold zlen in *. rewrite !length_app in *. done.
Qed.

(** A full table has eight names. *)
Lemma full_size m t : table_rep m t → Forall (λ e, is_empty e = false) t → Z.of_nat (size m) = NAMED_ROOT_COUNT.
Proof.
  intros (l & Hl & Hnd & -> & <-) Ht. rewrite map_size_list_to_map by done. unfold zlen. f_equal.
  rewrite <- (Forall2_length _ _ _ Hl). clear Hnd. induction Hl as [| o e l t Ho Hl IH]; [done |].
  apply Forall_cons in Ht as [He Ht]. destruct o as [[n h] |]; [cbn; f_equal; by apply IH |].
  cbn in Ho. congruence.
Qed.

Lemma room_size m t1 e t2 : table_rep m (t1 ++ e :: t2) → is_empty e = true → Z.of_nat (size m) < NAMED_ROOT_COUNT.
Proof.
  intros (l & Hl & Hnd & -> & <-) He. rewrite map_size_list_to_map by done. unfold zlen.
  apply Forall2_app_inv_r in Hl as (l1 & l2 & Hl1 & Hl2 & ->).
  apply Forall2_cons_inv_r in Hl2 as (o & l2' & Ho & Hl2 & ->). apply (empty_rep o e Ho) in He as ->.
  rewrite pairs_app, pairs_cons, !length_app. cbn [length].
  assert (Hle : ∀ k, (length (pairs k) ≤ length k)%nat).
  { induction k as [| [] k IH]; cbn; [done | by apply le_n_S | by apply le_S]. }
  pose proof (Hle l1). pose proof (Hle l2').
  rewrite (Forall2_length _ _ _ Hl1), (Forall2_length _ _ _ Hl2) in *. lia.
Qed.

Lemma get_entry_rep m t n : table_rep m t → name_ok n = true → get_entry (padded n) t = m !! n.
Proof.
  intros (l & Hl & Hnd & -> & _) Hn. unfold get_entry. destruct (List.find _ t) as [e |] eqn:E; cbn.
  - apply List.find_some in E as [He%list_elem_of_In Hp]. apply list_elem_of_lookup in He as [i Hi].
    destruct (Forall2_lookup_r _ _ _ _ _ Hl Hi) as (o & Ho & Hr). apply (named_rep n o e Hn Hr) in Hp.
    destruct o as [[n' h] |]; [| done]. injection Hp as ->. symmetry. destruct Hr as (_ & _ & ->).
    apply elem_of_list_to_map_1; [done |]. apply list_elem_of_omap. exists (Some (n, h)). split; [| done].
    by eapply list_elem_of_lookup_2.
  - symmetry. apply not_elem_of_list_to_map. eapply unnamed_rep; [done | done |].
    apply Forall_forall. intros e He. by apply (List.find_none _ _ E), list_elem_of_In.
Qed.

Lemma set_entry_rep m t n h :
  table_rep m t → name_ok n = true →
  match set_entry (padded n) h t with
  | Some t' => table_rep (<[n := h]> m) t' ∧ (is_Some (m !! n) ∨ Z.of_nat (size m) < NAMED_ROOT_COUNT)
  | None => m !! n = None ∧ Z.of_nat (size m) = NAMED_ROOT_COUNT
  end.
Proof.
  intros Hm Hn. unfold set_entry. pose proof (alter_first_spec (named (padded n)) (λ e, {| name := name e; handle := h |}) t) as H1.
  destruct (alter_first _ _ t) as [t' |].
  { destruct H1 as (t1 & e & t2 & -> & He & ->). split; [by eapply replace_rep | left].
    rewrite <- (get_entry_rep m _ n Hm Hn). unfold get_entry. destruct (List.find _ _) eqn:E; [by eexists |].
    exfalso. eapply List.find_none in E; [| apply list_elem_of_In, elem_of_app; right; left]. congruence. }
  assert (Hno : m !! n = None).
  { destruct Hm as (l & Hl & Hnd & -> & _). apply not_elem_of_list_to_map. by eapply unnamed_rep. }
  pose proof (alter_first_spec is_empty (λ _, {| name := padded n; handle := h |}) t) as H2.
  destruct (alter_first _ _ t) as [t' |].
  - destruct H2 as (t1 & e & t2 & -> & He & ->). split; [by eapply fill_rep | right]. by eapply room_size.
  - split; [done |]. by eapply full_size.
Qed.

Lemma clear_entry_rep m t n : table_rep m t → name_ok n = true → table_rep (delete n m) (clear_entry (padded n) t).
Proof.
  intros Hm Hn. unfold clear_entry. pose proof (alter_first_spec (named (padded n)) (λ _, EMPTY_ROOT) t) as H1.
  destruct (alter_first _ _ t) as [t' |]; cbn.
  - destruct H1 as (t1 & e & t2 & -> & He & ->). by eapply erase_rep.
  - rewrite delete_id; [done |]. destruct Hm as (l & Hl & Hnd & -> & _). apply not_elem_of_list_to_map. by eapply unnamed_rep.
Qed.

(** ** Histories *)

Inductive root_call :=
  | SetRoot (n : string) (h : Z)
  | GetRoot (n : string)
  | ClearRoot (n : string).

Section history.
Context {St : Type}.
Implicit Types (self : TransactionManager St).

Definition call_root (c : root_call) : M (TransactionManager St) (option Z) :=
  match c with
  | SetRoot n h => set_root_name n h ;;; ret None
  | GetRoot n => get_root_name n
  | ClearRoot n => clear_root_name n ;;; ret None
  end.

(** The calls one after the other; a failed call does not end the history. *)
Fixpoint call_roots (cs : list root_call) self : list (outcome (option Z)) * TransactionManager St :=
  match cs with
  | [] => ([], self)
  | c :: cs =>
      let '(r, self) := call_root c self in
      let '(rs, self) := call_roots cs self in (r :: rs, self)
  end.

(** The same on a map. *)
Definition abs_root (c : root_call) (m : gmap string Z) : outcome (option Z) * gmap string Z :=
  match c with
  | SetRoot n h =>
      if negb (name_ok n) then (Err InvalidRootName, m) else
      if bool_decide (is_Some (m !! n)) || (Z.of_nat (size m) <? NAMED_ROOT_COUNT)
      then (Ok None, <[n := h]> m) else (Err RootNameTableFull, m)
  | GetRoot n => (if name_ok n then Ok (m !! n) else Err InvalidRootName, m)
  | ClearRoot n => if name_ok n then (Ok None, delete n m) else (Err InvalidRootName, m)
  end.

Fixpoint abs_roots (cs : list root_call) (m : gmap string Z) : list (outcome (option Z)) * gmap string Z :=
  match cs with
  | [] => ([], m)
  | c :: cs =>
      let '(r, m) := abs_root c m in
      let '(rs, m) := abs_roots cs m in (r :: rs, m)
  end.

(** In a transaction, with the map in the table of the current roots. *)
Definition roots_rep (m : gmap string Z) self : Prop :=
  poisoned self = false ∧ active_txn self = true ∧ table_rep m (TxnAlloc.named_roots (current_roots self)).

(** [self'] differs from [self] in the table of the current roots at most. *)
Definition table_only self self' : Prop :=
  self' = set_current_roots (set_named_roots (TxnAlloc.named_roots (current_roots self')) (current_roots self)) self.

Lemma table_only_set self t :
  table_only self (set_current_roots (set_named_roots t (current_roots self)) self).
Proof. done. Qed.

Lemma table_only_refl self : table_only self self.
Proof. unfold table_only. destruct self as [? ? [] ? ? ? ? ? ? ? ? ? ? ? ? ?]. done. Qed.

Lemma table_only_trans a b c : table_only a b → table_only b c → table_only a c.
Proof. unfold table_only. intros -> ->. done. Qed.

Lemma guarded_run {A} (m : M (TransactionManager St) A) self :
  poisoned self = false → guarded m self = poison_on_fatal m self.
Proof. intros Hp. unfold guarded, bind, check_alive, bind, reads. by rewrite Hp. Qed.

Lemma set_root_run n h self :
  poisoned self = false → active_txn self = true →
  set_root_name n h self =
    if name_ok n then
      match set_entry (padded n) h (TxnAlloc.named_roots (current_roots self)) with
      | Some t => (Ok tt, set_current_roots (set_named_roots t (current_roots self)) self)
      | None => (Err RootNameTableFull, self)
      end
    else (Err InvalidRootName, self).
Proof.
  intros Hp Ha. unfold set_root_name. rewrite guarded_run by done.
  unfold poison_on_fatal, set_root_name_inner, need_txn, of_outcome, on_roots, fail, ret, reads, writes, bind.
  rewrite Ha, encode_ok. destruct (name_ok n); [| done]. by destruct (set_entry _ _ _).
Qed.

Lemma get_root_run n self :
  poisoned self = false → active_txn self = true →
  get_root_name n self =
    (if name_ok n then Ok (get_entry (padded n) (TxnAlloc.named_roots (current_roots self))) else Err InvalidRootName, self).
Proof.
  intros Hp Ha. unfold get_root_name. rewrite guarded_run by done.
  unfold poison_on_fatal, get_root_name_inner, of_outcome, ret, reads, bind. rewrite encode_ok.
  destruct (name_ok n); [| done]. cbn [id]. by rewrite Ha.
Qed.

Lemma clear_root_run n self :
  poisoned self = false → active_txn self = true →
  clear_root_name n self =
    if name_ok n then
      (Ok tt, set_current_roots (set_named_roots (clear_entry (padded n) (TxnAlloc.named_roots (current_roots self))) (current_roots self)) self)
    else (Err InvalidRootName, self).
Proof.
  intros Hp Ha. unfold clear_root_name. rewrite guarded_run by done.
  unfold poison_on_fatal, clear_root_name_inner, need_txn, of_outcome, on_roots, ret, reads, writes, bind.
  rewrite Ha, encode_ok. by destruct (name_ok n).
Qed.

Lemma call_root_rep c m self :
  roots_rep m self →
  (call_root c self).1 = (abs_root c m).1 ∧ roots_rep (abs_root c m).2 (call_root c self).2 ∧ table_only self (call_root c self).2.
Proof.
  intros Hr. pose proof Hr as (Hp & Ha & Ht). pose proof (table_only_refl self) as Hrefl.
  destruct c as [n h | n | n]; cbn [call_root abs_root]; unfold bind, ret.
  - rewrite set_root_run by done. destruct (name_ok n) eqn:Hn; [| done]. cbn [negb].
    pose proof (set_entry_rep m _ n h Ht Hn) as Hs. destruct (set_entry _ _ _) as [t' |].
    + destruct Hs as [Hs Hok]. replace (bool_decide _ || _) with true; [done | symmetry; apply orb_true_iff].
      destruct Hok; [left; by apply bool_decide_eq_true | right; by apply Z.ltb_lt].
    + destruct Hs as [Hno Hsz]. by rewrite Hno, Hsz.
  - rewrite get_root_run by done. destruct (name_ok n) eqn:Hn; [| done]. by rewrite (get_entry_rep m _ n).
  - rewrite clear_root_run by done. destruct (name_ok n) eqn:Hn; [| done].
    pose proof (clear_entry_rep m _ n Ht Hn). done.
Qed.

(** C12 Named roots are a finite map from names to handles.  Over any history of
    [set_root_name], [get_root_name] and [clear_root_name] in a transaction, the replies
    are those of a map with at most eight names: a name is accepted when it has 1 to 24
    bytes and no zero byte, two names are never confused, and [RootNameTableFull] is
    returned exactly for a new name when eight are set.  No call fails otherwise, and
    nothing but the table of the current roots changes. *)
Theorem named_roots_refine_map cs m self :
  roots_rep m self →
  (call_roots cs self).1 = (abs_roots cs m).1 ∧ roots_rep (abs_roots cs m).2 (call_roots cs self).2 ∧
  table_only self (call_roots cs self).2.
Proof.
  revert m self. induction cs as [| c cs IH]; intros m self Hr; cbn [call_roots abs_roots].
  { ands; [done | done | apply table_only_refl]. }
  destruct (call_root_rep c m self Hr) as (H1 & H2 & H3).
  destruct (call_root c self) as [r self1], (abs_root c m) as [r' m1]. cbn [fst snd] in *. subst r'.
  destruct (IH m1 self1 H2) as (H4 & H5 & H6). destruct (call_roots cs self1) as [rs self2], (abs_roots cs m1) as [rs' m2].
  cbn [fst snd] in *. subst rs'. ands; [done | done | by eapply table_only_trans].
Qed.
End history.

(** ** An example: an empty table in a transaction *)

Definition empty_roots : Roots :=
  {| handle_table_page := PAGE_ID_NONE; freemap_page := PAGE_ID_NONE; TxnAlloc.freemap_depth := 0;
     TxnAlloc.next_handle := 1; TxnAlloc.total_pages := 2;
     TxnAlloc.named_roots := replicate (Z.to_nat NAMED_ROOT_COUNT) EMPTY_ROOT; membership_index_page := PAGE_ID_NONE |}.

Definition demo_txn : TransactionManager unit :=
  {| cache := tt; committed_roots := empty_roots; current_roots := empty_roots; handle_table := HandleTable.new;
     membership_index := MembershipIndex.new; Txn.txn_counter := 1; Txn.superblock_count := 2; active_txn := true;
     savepoints := []; txn_freed_pages := []; txn_pages := pool_new; freemap := recycle_new;
     packer := SlotPacker.new; poisoned := false; cipher := None; crypto_header := None |}.

Lemma demo_roots_rep : roots_rep ∅ demo_txn.
Proof.
  do 2 (split; [done |]). exists (replicate 8 None). ands; [| constructor | done | done].
  cbn. repeat constructor.
Qed.

Lemma named_roots_refine_map_witness :
  (call_roots [SetRoot "users" 7; SetRoot "users" 9; GetRoot "users"; GetRoot "user"; ClearRoot "users"; SetRoot "" 1] demo_txn).1 =
    [Ok None; Ok None; Ok (Some 9); Ok None; Ok None; Err InvalidRootName].
Proof.
  rewrite (proj1 (named_roots_refine_map _ ∅ demo_txn demo_roots_rep)). by vm_compute.
Defined.
End NamedRoots.
