(* ===== verification/Recovery.v ===== *)
(** * Creating and opening a database ([src/transaction/recovery.rs])

    [create_new] writes the superblock slots of an empty database.  [open_existing] reads
    the slots, finds the stride, takes the slot with the highest transaction counter,
    unlocks it where it is encrypted, checks it, and rebuilds the manager: the depths of
    the two trees from their pages and the slot counts from the handle table.  Random
    arrays are arguments. *)

From S2P Require Export TxnCommit.

Module Recovery.
Import TxnAlloc Txn PageCache CacheStore CryptoHeader.

(** [impl From<CryptoError> for ChiselError] *)
Definition of_crypto {S A} (r : cresult A) : M S A :=
  match r with
  | COk a => ret a
  | CErr _ => fail InvalidEncryptionKey
  | CPanic p => crash p
  end.

Section recovery.
Context `{HX : Xxh3} `{HO : HashOrder} `{HC : Primitives}.
Abbreviation TM := (TransactionManager PageCache).

(** ** Creation *)

Record CreateCrypto := { page_cipher : list Z; header : CryptoHeader }.

(** The random arrays of [random_dek] and of [wrap_into]. *)
Record Random := { rnd_dek : list Z; rnd_salt : list Z; rnd_nonce : list Z }.

Definition build_create_cipher {S} (rnd : Random) (key : Key) (argon2_override : option Argon2Params) : M S CreateCrypto :=
  let h := {| algorithm := ALGO_XCHACHA20POLY1305; stride := ENC_PAGE_SIZE;
              slots := replicate (Z.to_nat KEY_SLOT_COUNT) EMPTY |} in
  let* h := of_crypto (wrap_into h 0 key (rnd_dek rnd) argon2_override (rnd_salt rnd) (rnd_nonce rnd)) in
  ret {| page_cipher := rnd_dek rnd; header := h |}.

Definition with_counter (n : Z) (sb : Superblock.Superblock) : Superblock.Superblock :=
  {| Superblock.magic := Superblock.magic sb; Superblock.format_version := Superblock.format_version sb;
     Superblock.txn_counter := n; Superblock.root_handle_table_page := Superblock.root_handle_table_page sb;
     Superblock.root_freemap_page := Superblock.root_freemap_page sb; Superblock.total_pages := Superblock.total_pages sb;
     Superblock.next_handle := Superblock.next_handle sb; Superblock.page_size := Superblock.page_size sb;
     Superblock.named_roots := Superblock.named_roots sb; Superblock.superblock_count := Superblock.superblock_count sb;
     Superblock.root_membership_index_page := Superblock.root_membership_index_page sb;
     Superblock.freemap_depth := Superblock.freemap_depth sb; Superblock.encryption := Superblock.encryption sb |}.

(** The loop over the slots. *)
Fixpoint write_slots (crypto : option CreateCrypto) (count : Z) (sb : Superblock.Superblock) (idx : list Z) : M PageCache unit :=
  match idx with
  | [] => ret tt
  | i :: idx =>
      let sb := with_counter (count - 1 - i) sb in
      match crypto with
      | None => on_io (PageIo.write_page i (Superblock.serialize sb))
      | Some cc =>
          let* nonce := tc_nonce in
          let* buf := of_outcome (Superblock.serialize_encrypted sb (page_cipher cc) nonce) in
          on_io (PageIo.write_page_unit i (splice 0 buf (zeros ENC_PAGE_SIZE)))
      end ;;;
      write_slots crypto count sb idx
  end.

Definition create_new (superblock_count : Z) (key : option Key) (argon2_params : option Argon2Params) (rnd : Random)
    : M PageCache TM :=
  assert_that PanicAssert ((2 <=? superblock_count) && (superblock_count <=? Superblock.MAX_SUPERBLOCKS)) ;;;
  let* crypto :=
    match key with
    | None => ret None
    | Some k => let* cc := build_create_cipher rnd k argon2_params in ret (Some cc)
    end in
  match crypto with Some _ => on_io (PageIo.set_stride ENC_PAGE_SIZE) | None => ret tt end ;;;
  let* sb := of_outcome
    match crypto with
    | None => Superblock.new_empty superblock_count
    | Some cc => Superblock.new_empty_encrypted superblock_count (header cc)
    end in
  write_slots crypto superblock_count sb (seqZ 0 superblock_count) ;;;
  on_io PageIo.fsync ;;;
  writes (set_next_page_id superblock_count) ;;;
  let roots := {| handle_table_page := PAGE_ID_NONE; freemap_page := PAGE_ID_NONE; freemap_depth := 0; next_handle := 1;
                  total_pages := superblock_count;
                  named_roots := replicate (Z.to_nat Superblock.NAMED_ROOT_COUNT) Superblock.EMPTY_ROOT;
                  membership_index_page := PAGE_ID_NONE |} in
  match crypto with
  | None => ret tt
  | Some cc => writes (set_cipher (Some (page_cipher cc)))
  end ;;;
  let* c := reads id in
  ret {| cache := c; committed_roots := roots; current_roots := roots; handle_table := HandleTable.new;
         membership_index := MembershipIndex.new; txn_counter := superblock_count - 1;
         Txn.superblock_count := superblock_count; active_txn := false; savepoints := []; txn_freed_pages := [];
         txn_pages := pool_new; freemap := recycle_new; packer := SlotPacker.new; poisoned := false;
         Txn.cipher := page_cipher <$> crypto; crypto_header := header <$> crypto |}.

(** ** Opening *)

(** [read_candidates]: the slots up to the end of the file. *)
Fixpoint read_slots (idx : list Z) : M PageCache (list (list Z)) :=
  match idx with
  | [] => ret []
  | i :: idx => λ c,
      match on_io (PageIo.read_page_unit i) c with
      | (Ok unit, c) =>
          if zlen unit <? PAGE_SIZE then (Panic PanicSlice, c) else
          match read_slots idx c with
          | (Ok out, c) => (Ok (slice 0 PAGE_SIZE unit :: out), c)
          | r => r
          end
      | (Err (InvalidPageId _), c) => (Ok [], c)
      | (Err e, c) => (Err e, c)
      | (Panic p, c) => (Panic p, c)
      end
  end.

Definition read_candidates : M PageCache (list (list Z)) := read_slots (seqZ 0 Superblock.MAX_SUPERBLOCKS).

(** [sb.encryption.map(|h| h.stride as usize)] *)
Definition stride_of (sb : Superblock.Superblock) : option Z := stride <$> Superblock.encryption sb.

Definition encrypted_stride (cands : list (list Z)) : option Z :=
  head (omap stride_of (omap Superblock.deserialize cands)).

(** The slot with the highest counter, the last of the maxima. *)
Definition winner (candidates : list (list Z)) : option (Z * Superblock.Superblock * list Z) :=
  foldl (λ best x,
    match best with
    | None => Some x
    | Some b => if Superblock.txn_counter b.1.2 <=? Superblock.txn_counter x.1.2 then Some x else best
    end) None
    (omap (λ ib : nat * list Z, (λ sb, (Z.of_nat ib.1, sb, ib.2)) <$> Superblock.deserialize ib.2) (imap pair candidates)).

(** The stride of the file: from slot 0 where it can be read, by trying the other
    stride where it cannot. *)
Definition find_candidates : M PageCache (list (list Z)) :=
  let* page0 := on_io (PageIo.read_page 0) in
  match Superblock.deserialize page0 ≫= stride_of with
  | Some s =>
      if negb (s =? ENC_PAGE_SIZE) then fail (CorruptSuperblock []) else on_io (PageIo.set_stride s)
  | None => ret tt
  end ;;;
  let* candidates := read_candidates in
  match encrypted_stride candidates, Superblock.deserialize page0 with
  | None, None =>
      on_io (PageIo.set_stride ENC_PAGE_SIZE) ;;;
      let* enc_candidates := read_candidates in
      match encrypted_stride enc_candidates with
      | Some _ => ret enc_candidates
      | None => on_io (PageIo.set_stride PAGE_SIZE) ;;; ret candidates
      end
  | _, _ => ret candidates
  end.

(** The checks on the header, and the key. *)
Definition check_header (sb : Superblock.Superblock) : M PageCache unit :=
  match Superblock.encryption sb with
  | Some h =>
      if negb (algorithm h =? ALGO_XCHACHA20POLY1305) then fail EncryptionNotSupported else
      if negb (stride h =? ENC_PAGE_SIZE) then fail (CorruptSuperblock []) else ret tt
  | None => ret tt
  end.

Definition unlock_body (slot : Z) (sb : Superblock.Superblock) (raw : list Z) (key : option Key)
    : M PageCache (Superblock.Superblock * option (list Z)) :=
  match Superblock.encryption sb, key with
  | None, None => ret (sb, None)
  | Some _, None => fail NoEncryptionKey
  | None, Some _ => fail EncryptionNotSupported
  | Some h, Some k =>
      let* '(_, dek) := of_outcome (unlock h k) in
      let* sb :=
        match Superblock.decrypt_body sb dek raw with
        | COk sb => ret sb
        | CErr _ => fail (DecryptionFailed slot)
        | CPanic p => crash p
        end in
      writes (set_cipher (Some dek)) ;;;
      ret (sb, Some dek)
  end.

(** The checks on the fields, in the order of the code. *)
Definition check_fields (sb : Superblock.Superblock) : M PageCache unit :=
  let enc := match Superblock.encryption sb with Some _ => true | None => false end in
  let expected_major := if enc then FORMAT_MAJOR_VERSION_ENCRYPTED else FORMAT_MAJOR_VERSION in
  let expected_minor := if enc then FORMAT_MINOR_VERSION_ENCRYPTED else FORMAT_MINOR_VERSION in
  let expected_version := if enc then format_version_encrypted else FORMAT_VERSION in
  if negb (format_major (Superblock.format_version sb) =? expected_major)
  then fail (UnsupportedFormatVersion (Superblock.format_version sb) expected_version) else
  if negb (Superblock.page_size sb =? PAGE_SIZE) then fail (UnsupportedPageSize (Superblock.page_size sb) PAGE_SIZE) else
  if Z.of_nat FreeMapTree.MAX_DEPTH <? Superblock.freemap_depth sb
  then fail (InvalidFreemapDepth (Superblock.freemap_depth sb) (Z.of_nat FreeMapTree.MAX_DEPTH)) else
  if Superblock.MAX_NEXT_HANDLE <? Superblock.next_handle sb
  then fail (InvalidNextHandle (Superblock.next_handle sb) Superblock.MAX_NEXT_HANDLE) else
  (if expected_minor <? format_minor (Superblock.format_version sb)
   then writes (λ c, set_io (PageIo.force_read_only (io c)) c) else ret tt) ;;;
  let* c := reads id in
  let page_count := PageIo.page_count (io c) in
  if page_count <? Superblock.total_pages sb then
    fail (FileSizeMismatch (sat_mul (Superblock.total_pages sb) (PageIo.stride (io c))) (sat_mul page_count (PageIo.stride (io c))))
  else ret tt.

Definition roots_of (sb : Superblock.Superblock) : Roots :=
  {| handle_table_page := Superblock.root_handle_table_page sb; freemap_page := Superblock.root_freemap_page sb;
     freemap_depth := Z.to_nat (Superblock.freemap_depth sb); next_handle := Superblock.next_handle sb;
     total_pages := Superblock.total_pages sb; named_roots := Superblock.named_roots sb;
     membership_index_page := if Superblock.root_membership_index_page sb =? 0 then PAGE_ID_NONE
                              else Superblock.root_membership_index_page sb |}.

(** [*committed_live_slots.entry(page_id).or_insert(0) += 1], checked. *)
Fixpoint count_slots {S} (entries : list (Z * HandleTable.HandleEntry)) (slots : gmap Z Z) : M S (gmap Z Z) :=
  match entries with
  | [] => ret slots
  | (_, e) :: entries =>
      match HandleTable.flags e with
      | HandleTable.Live =>
          let n := default 0 (slots !! HandleTable.page_id e) in
          assert_that PanicOverflow (n + 1 <=? u32_max) ;;;
          count_slots entries (<[HandleTable.page_id e := n + 1]> slots)
      | _ => count_slots entries slots
      end
  end.

(** The manager over the roots of [sb]: the depths of the trees and the slot counts are
    found again. *)
Definition rebuild (sb : Superblock.Superblock) (dek : option (list Z)) : M PageCache TM :=
  writes (set_next_page_id (Superblock.total_pages sb)) ;;;
  let roots := roots_of sb in
  let* ht_depth := HandleTable.recover_depth (Superblock.root_handle_table_page sb) in
  let ht := {| HandleTable.depth := ht_depth |} in
  let* mi_depth :=
    (if membership_index_page roots =? PAGE_ID_NONE then ret 0%nat
     else RadixU64.recover_depth (membership_index_page roots)) in
  let* slots :=
    (if Superblock.root_handle_table_page sb =? PAGE_ID_NONE then ret ∅ else
     let* entries := HandleTable.iter_live ht (Superblock.root_handle_table_page sb) in
     count_slots entries ∅) in
  let* c := reads id in
  ret {| cache := c; committed_roots := roots; current_roots := roots; handle_table := ht;
         membership_index := {| MembershipIndex.outer_depth := mi_depth |};
         txn_counter := Superblock.txn_counter sb; Txn.superblock_count := Superblock.superblock_count sb;
         active_txn := false; savepoints := []; txn_freed_pages := []; txn_pages := pool_new;
         freemap := recycle_new; packer := SlotPacker.from_committed slots; poisoned := false;
         Txn.cipher := dek; crypto_header := Superblock.encryption sb |}.

Definition open_existing (key : option Key) : M PageCache TM :=
  let* candidates := find_candidates in
  match winner candidates with
  | None => fail (CorruptSuperblock (Superblock.diagnose candidates))
  | Some (slot, sb, raw) =>
      check_header sb ;;;
      let* '(sb, dek) := unlock_body slot sb raw key in
      check_fields sb ;;;
      rebuild sb dek
  end.

(** ** [stats.rs]: what the manager reports of itself *)

Definition counters : M TM (Z * Z * Z * Z) :=
  check_alive ;;;
  reads (λ self, let c := cache self in (cache_hits c, cache_misses c, pages_allocated c, PageIo.fsync_count (io c))).

Definition spillway_capacity : M TM (option (Z * Z)) := check_alive ;;; reads (λ self, PageCache.spillway_capacity (cache self)).
Definition file_page_count : M TM Z := check_alive ;;; reads (λ self, PageCache.file_page_count (cache self)).
Definition file_stride (self : TM) : Z := PageIo.stride (io (cache self)).
Definition data_page_ids_snapshot (self : TM) : gset Z := dom (SlotPacker.current_live_slots (packer self)).

Definition handle_live_page_id (handle : Z) : M TM (option Z) :=
  guarded (
    let* self := reads id in
    let root := TxnOps.live_handle_table_root self in
    if root =? PAGE_ID_NONE then ret None else
    let* found := on_cache (HandleTable.lookup (handle_table self) root handle) in
    match found with
    | None => ret None
    | Some e =>
        match HandleTable.flags e with
        | HandleTable.Live => ret (Some (HandleTable.page_id e))
        | _ => ret None
        end
    end).
End recovery.
End Recovery.
