(* ===== verification/Keys.v ===== *)
(** * Key-slot management ([src/transaction/keys.rs])

    Adding, replacing and removing a credential rewrites the key-slot table in the
    superblocks and nothing else: the new table goes to the inactive slot with the next
    transaction counter, and once that slot is durable the table of every other slot is
    overwritten too.  The random arrays of [wrap_into] are arguments. *)

From S2P Require Export Recovery.

Module Keys.
Import TxnAlloc Txn TxnCommit PageCache CacheStore CryptoHeader Recovery.

Section keys.
Context `{HX : Xxh3} `{HO : HashOrder} `{HC : Primitives}.
Abbreviation TM := (TransactionManager PageCache).

(** The superblock of the committed roots with another key-slot table. *)
Definition key_superblock (self : TM) (total : Z) (new_header : CryptoHeader) : Superblock.Superblock :=
  let r := committed_roots self in
  {| Superblock.magic := MAGIC;
     Superblock.format_version := format_version_encrypted;
     Superblock.txn_counter := txn_counter self;
     Superblock.root_handle_table_page := handle_table_page r;
     Superblock.root_freemap_page := freemap_page r;
     Superblock.total_pages := total;
     Superblock.next_handle := next_handle r;
     Superblock.page_size := PAGE_SIZE;
     Superblock.named_roots := named_roots r;
     Superblock.superblock_count := superblock_count self;
     Superblock.root_membership_index_page := membership_index_page r;
     Superblock.freemap_depth := Z.of_nat (freemap_depth r);
     Superblock.encryption := Some new_header |}.

(** The unit of a slot: its image and what follows it in the unit. *)
Definition scrub_slot (new_header : CryptoHeader) (slot : Z) : M PageIo.PageIo unit :=
  let* unit := PageIo.read_page_unit_into slot ENC_PAGE_SIZE in
  match Superblock.overwrite_slot_table new_header (slice 0 PAGE_SIZE unit) with
  | Some image => PageIo.write_page_unit slot (splice 0 image unit)
  | None => ret tt
  end.

(** The loop over the slots other than the one written. *)
Fixpoint scrub_slots (new_header : CryptoHeader) (inactive : Z) (idx : list Z) : M PageIo.PageIo unit :=
  match idx with
  | [] => ret tt
  | slot :: idx =>
      (if slot =? inactive then ret tt else scrub_slot new_header slot) ;;;
      scrub_slots new_header inactive idx
  end.

Definition rewrite_crypto_header_inner (new_header : CryptoHeader) : M TM unit :=
  on_cache flush ;;;
  let* self := reads id in
  let* next_counter := of_outcome (Superblock.next_txn_counter (txn_counter self)) in
  writes (set_txn_counter next_counter) ;;;
  let* self := reads id in
  let total := PageCache.file_page_count (cache self) in
  match Txn.cipher self with
  | None => crash PanicExpect
  | Some dek =>
      let* nonce := on_cache tc_nonce in
      let* buf := of_outcome (Superblock.serialize_encrypted (key_superblock self total new_header) dek nonce) in
      assert_that PanicOverflow (negb (superblock_count self =? 0)) ;;;
      let inactive := txn_counter self mod superblock_count self in
      on_cache (on_io (PageIo.write_page_unit inactive (splice 0 buf (zeros ENC_PAGE_SIZE)))) ;;;
      on_cache (on_io PageIo.fsync) ;;;
      on_cache (on_io (scrub_slots new_header inactive (seqZ 0 (superblock_count self)))) ;;;
      on_cache (on_io PageIo.fsync) ;;;
      writes (λ self, set_crypto_header (Some new_header)
        (set_committed_roots (set_total_pages total (committed_roots self)) self))
  end.

Definition rewrite_crypto_header (new_header : CryptoHeader) : M TM unit :=
  check_alive ;;;
  let* self := reads id in
  if active_txn self then fail TransactionInProgress else
  match Txn.cipher self with
  | None => fail EncryptionNotSupported
  | Some _ =>
      if PageIo.is_read_only (io (cache self)) then fail ReadOnlyMode else
      on_err (rewrite_crypto_header_inner new_header) (set_poisoned true)
  end.

(** [self.crypto_header.as_ref().ok_or(EncryptionNotSupported)?], after the check of the
    poison. *)
Definition need_header : M TM CryptoHeader :=
  check_alive ;;;
  let* h := reads crypto_header in
  match h with
  | None => fail EncryptionNotSupported
  | Some h => ret h
  end.

(** [.map_err(|_| InvalidEncryptionKey)], and the free slot before it. *)
Definition stage_key (header : CryptoHeader) (new : Key) (dek rnd_salt rnd_nonce : list Z) : M TM CryptoHeader :=
  match free_slot header with
  | None => fail NoFreeKeySlot
  | Some free => of_crypto (wrap_into header free new dek None rnd_salt rnd_nonce)
  end.

Definition add_key (existing new : Key) (rnd_salt rnd_nonce : list Z) : M TM unit :=
  let* header := need_header in
  let* '(_, dek) := of_outcome (unlock header existing) in
  let* new_header := stage_key header new dek rnd_salt rnd_nonce in
  rewrite_crypto_header new_header.

(** [new_header.slots[idx] = KeySlot::EMPTY] *)
Definition clear_slot (idx : nat) (h : CryptoHeader) : CryptoHeader :=
  {| algorithm := algorithm h; stride := stride h; slots := <[idx := EMPTY]> (slots h) |}.

Definition rotate_key (old new : Key) (rnd_salt rnd_nonce : list Z) : M TM unit :=
  let* header := need_header in
  let* '(old_idx, dek) := of_outcome (unlock header old) in
  let* new_header := stage_key header new dek rnd_salt rnd_nonce in
  rewrite_crypto_header (clear_slot old_idx new_header).

Definition remove_key (key : Key) : M TM unit :=
  let* header := need_header in
  let* '(idx, _) := of_outcome (unlock header key) in
  if active_count header <=? 1 then fail LastKeySlot else
  rewrite_crypto_header (clear_slot idx header).
End keys.
End Keys.
