(* ===== verification/Defrag.v ===== *)
(** * Defragmentation ([src/defrag.rs], [sparse_data_pages] of [stats.rs])

    One pass moves every value that lies on a sparse data page to the page that the
    transaction is filling, by reading it and writing it back under its handle, and then
    returns the freemap pages that a crash stranded.  Densities are binary64 numbers, in
    the specification of the Standard Library ([SpecFloat]). *)

From Stdlib Require Import Floats.SpecFloat.
From S2P Require Export Recovery.

Module Defrag.
Import TxnAlloc Txn TxnOps TxnCommit PageCache CacheStore CacheReuse Recovery.

(** ** [f64] *)

Abbreviation f64 := spec_float.
Definition f64_of_int (n : Z) : f64 := binary_normalize 53 1024 n 0 false.
Definition f64_div : f64 → f64 → f64 := SFdiv 53 1024.
Definition f64_zero : f64 := S754_zero false.

Record DefragOptions := { sparse_threshold : f64; max_values : Z }.

(** 0.25 is a quotient of two integers and exact. *)
Definition DefragOptions_default : DefragOptions :=
  {| sparse_threshold := f64_div (f64_of_int 1) (f64_of_int 4); max_values := 0 |}.

Record DefragStats := {
  pages_examined : Z;
  pages_freed : Z;
  values_moved : Z;
  freemap_orphans_reclaimed : Z
}.

Section defrag.
Context `{HX : Xxh3} `{HO : HashOrder} `{HC : Primitives}.
Abbreviation TM := (TransactionManager PageCache).

(** ** The sparse pages *)

Fixpoint sparse_loop (threshold_ratio : f64) (page_ids : list Z) (sparse : gset Z) : M TM (gset Z) :=
  match page_ids with
  | [] => ret sparse
  | page_id :: page_ids =>
      let* self := reads id in
      let live := default 0 (SlotPacker.current_live_slots (packer self) !! page_id) in
      if live <=? 0 then sparse_loop threshold_ratio page_ids sparse else
      let* buf := on_cache (get page_id) in
      let stored := DataPage.slot_count buf in
      if stored =? 0 then sparse_loop threshold_ratio page_ids sparse else
      let density := f64_div (f64_of_int live) (f64_of_int stored) in
      sparse_loop threshold_ratio page_ids (if SFltb density threshold_ratio then {[page_id]} ∪ sparse else sparse)
  end.

Definition sparse_data_pages (threshold_ratio : f64) : M TM (gset Z) :=
  guarded (
    if SFleb threshold_ratio f64_zero then ret ∅ else
    let* self := reads id in
    sparse_loop threshold_ratio (key_order (SlotPacker.current_live_slots (packer self))) ∅).

(** ** The sweep *)

(** The loop over the handles; the state is [stats.values_moved] and [examined_pages]. *)
Fixpoint sweep (options : DefragOptions) (sparse_pages : gset Z) (handles : list Z) (moved : Z) (examined : gset Z)
    : M TM (Z * gset Z) :=
  match handles with
  | [] => ret (moved, examined)
  | handle :: handles =>
      if (0 <? max_values options) && (max_values options <=? moved) then ret (moved, examined) else
      let* found := handle_live_page_id handle in
      match found with
      | None => sweep options sparse_pages handles moved examined
      | Some page_id =>
          if bool_decide (page_id ∉ sparse_pages) then sweep options sparse_pages handles moved examined else
          let* value := read handle in
          update handle value ;;;
          assert_that PanicOverflow (moved + 1 <=? u64_max) ;;;
          sweep options sparse_pages handles (moved + 1) ({[page_id]} ∪ examined)
      end
  end.

Definition compact (options : DefragOptions) (sparse_pages : gset Z) : M TM DefragStats :=
  let* before := reads data_page_ids_snapshot in
  let* hs := handles in
  let* '(moved, examined) := sweep options sparse_pages hs 0 ∅ in
  let* after := reads data_page_ids_snapshot in
  ret {| pages_examined := Z.of_nat (size examined); pages_freed := Z.of_nat (size (before ∖ after));
         values_moved := moved; freemap_orphans_reclaimed := 0 |}.

Definition no_stats : DefragStats :=
  {| pages_examined := 0; pages_freed := 0; values_moved := 0; freemap_orphans_reclaimed := 0 |}.

Definition defrag (options : DefragOptions) : M TM DefragStats :=
  let* self := reads id in
  if is_poisoned self then fail Poisoned else
  if negb (is_active self) then fail NoActiveTransaction else
  if (handle_table_page (current_roots self) =? PAGE_ID_NONE) && (freemap_page (current_roots self) =? PAGE_ID_NONE)
  then ret no_stats else
  let* sparse_pages := sparse_data_pages (sparse_threshold options) in
  let* stats := (if bool_decide (sparse_pages = ∅) then ret no_stats else compact options sparse_pages) in
  let* n := reclaim_freemap_orphans in
  ret {| pages_examined := pages_examined stats; pages_freed := pages_freed stats;
         values_moved := values_moved stats; freemap_orphans_reclaimed := n |}.
End defrag.
End Defrag.
