(* ===== verification/Api.v ===== *)
(** * The public interface ([src/lib.rs], [src/handle.rs], [src/stats.rs])

    Opening a path or a store in memory, and the methods of [Chisel], which call the
    manager with the bare numbers of [Handle] and [Tag].  A path is what the file system
    has there: the bytes of the file, whether another process holds its lock, and the
    answers of the operating system to the coming calls.  The random arrays that opening
    and the key operations draw are arguments. *)

From S2P Require Export Keys Defrag.

Module Api.
Import TxnAlloc Txn PageCache CacheStore CacheReuse Recovery.

(** ** [handle.rs] *)

Record Handle := { get_handle : Z }.

(** [NonZeroU32]; the proof is a boolean equation and unique. *)
Record Tag := { get_tag : Z; tag_nonzero : (get_tag =? 0) = false }.

Definition Tag_new (v : Z) : option Tag :=
  match Sumbool.sumbool_of_bool (v =? 0) with
  | left _ => None
  | right H => Some {| get_tag := v; tag_nonzero := H |}
  end.

Record TagDropProgress := { deleted : list Handle; complete : bool }.

(** ** [stats.rs] *)

Record Stats := {
  handle_count : Z;
  st_total_pages : Z;
  st_file_size_bytes : Z;
  st_spillway_logical_bytes : option Z;
  st_spillway_max_bytes : option Z
}.

(** ** [Options] *)

Record Options := {
  opt_cache_max_bytes : Z;
  opt_spillway_max_bytes : Z;
  opt_drain_insertion : DrainInsertion;
  create_if_missing : bool;
  opt_read_only : bool;
  opt_superblock_count : Z;
  encryption_key : option Key;
  argon2_params : option Argon2Params
}.

Definition Options_default : Options :=
  {| opt_cache_max_bytes := 8 * 1024 * 1024; opt_spillway_max_bytes := sat_mul (8 * 1024 * 1024) 1024;
     opt_drain_insertion := LruTail; create_if_missing := true; opt_read_only := false;
     opt_superblock_count := Superblock.DEFAULT_SUPERBLOCK_COUNT; encryption_key := None; argon2_params := None |}.

Definition validate_argon2_params {S} (params : option Argon2Params) : M S unit :=
  match params with
  | Some p =>
      if Crypto.argon2_params_out_of_range p then fail (InvalidArgon2Params (m_cost p) (t_cost p) (p_cost p)) else ret tt
  | None => ret tt
  end.

Definition validate_superblock_count {S} (n : Z) : M S unit :=
  if (n <? Superblock.MIN_SUPERBLOCKS) || (Superblock.MAX_SUPERBLOCKS <? n) then fail (InvalidSuperblockCount n) else ret tt.

(** ** Paths *)

Record Path := {
  contents : option (list Z);
  locked : bool;
  os_answers : list (option (ErrorKind * nat));
  spill_creation : option ErrorKind;
  spill_answers : list (option (ErrorKind * nat))
}.

Definition set_contents (b : option (list Z)) (p : Path) : Path :=
  {| contents := b; locked := locked p; os_answers := os_answers p; spill_creation := spill_creation p;
     spill_answers := spill_answers p |}.

Definition set_os_answers (a : list (option (ErrorKind * nat))) (p : Path) : Path :=
  {| contents := contents p; locked := locked p; os_answers := a; spill_creation := spill_creation p;
     spill_answers := spill_answers p |}.

(** The next answer: an error ends the call. *)
Definition os_call : M Path unit :=
  let* p := reads id in
  match os_answers p with
  | [] => ret tt
  | a :: rest =>
      writes (set_os_answers rest) ;;;
      match a with Some (k, _) => fail (from_io_error k) | None => ret tt end
  end.

(** [PageIo::open]: open or create the file, set the permissions of an empty one, lock it,
    and seek to its end. *)
Definition open_file (read_only : bool) : M Path PageIo.PageIo :=
  os_call ;;;
  let* p := reads id in
  match contents p with
  | None => if read_only then fail (from_io_error NotFound) else writes (set_contents (Some []))
  | Some _ => ret tt
  end ;;;
  (if read_only then ret tt else
   os_call ;;;
   let* p := reads id in
   if zlen (default [] (contents p)) =? 0 then os_call else ret tt) ;;;
  let* p := reads id in
  if locked p then fail LockFailed else
  os_call ;;;
  let* p := reads id in
  ret (PageIo.open (default [] (contents p)) (os_answers p) read_only).

(** A call on the opened file: the path has its bytes afterwards, whatever the outcome. *)
Definition on_file {S A} (file : S → PageIo.PageIo) (m : M S A) (s : S) : M Path (A * S) := λ p,
  let '(r, s') := m s in
  let b := PageIo.backing (file s') in
  let p' := set_os_answers (Backing.answers b) (set_contents (Some (Backing.bytes b)) p) in
  (match r with Ok a => Ok (a, s') | Err e => Err e | Panic q => Panic q end, p').

Record Chisel := { txm : TransactionManager PageCache }.

Section api.
Context `{HX : Xxh3} `{HO : HashOrder} `{HC : Primitives}.

(** ** Opening *)

Definition open (options : Options) (rnd : Random) (nonces : nat → list Z) : M Path Chisel :=
  validate_superblock_count (opt_superblock_count options) ;;;
  validate_argon2_params (argon2_params options) ;;;
  let* p := reads id in
  let file_exists := match contents p with Some b => 0 <? zlen b | None => false end in
  if negb file_exists && negb (create_if_missing options) then fail FileNotFound else
  let* io := open_file (opt_read_only options) in
  let existed := 0 <? PageIo.page_count io in
  let* io :=
    (if existed then ret io else
     let* '(len, io) := on_file id PageIo.byte_len io in
     if 0 <? len then fail (CorruptSuperblock [{| slot := 0; defect := TooShort |}]) else
     if negb (create_if_missing options) then fail FileNotFound else ret io) in
  let* p := reads id in
  let cache := PageCache.new io (opt_cache_max_bytes options) (opt_spillway_max_bytes options)
    (opt_drain_insertion options) (PageCache.Path (spill_creation p) (spill_answers p)) nonces in
  let* '(t, _) := on_file PageCache.io
    (if existed then open_existing (encryption_key options)
     else create_new (opt_superblock_count options) (encryption_key options) (argon2_params options) rnd) cache in
  ret {| txm := t |}.

Definition open_in_memory_with_options (options : Options) (rnd : Random) (nonces : nat → list Z) : outcome Chisel :=
  let cache := PageCache.new PageIo.open_in_memory (opt_cache_max_bytes options) (opt_spillway_max_bytes options)
    (opt_drain_insertion options) InMemory nonces in
  fst (((if opt_read_only options then fail ReadOnlyMode else ret tt) ;;;
   validate_superblock_count (opt_superblock_count options) ;;;
   validate_argon2_params (argon2_params options) ;;;
   let* t := create_new (opt_superblock_count options) (encryption_key options) (argon2_params options) rnd in
   ret {| txm := t |}) cache).

Definition open_in_memory (rnd : Random) (nonces : nat → list Z) : outcome Chisel :=
  open_in_memory_with_options Options_default rnd nonces.

(** ** Methods *)

Definition on_txm {A} (m : M (TransactionManager PageCache) A) : M Chisel A :=
  zoom txm (λ t _, {| txm := t |}) m.

Definition begin : M Chisel unit := on_txm TxnCommit.begin_txn.
Definition commit : M Chisel unit := on_txm TxnCommit.commit_txn.
Definition rollback : M Chisel unit := on_txm TxnCommit.rollback.
Definition savepoint (name : string) : M Chisel unit := on_txm (TxnCommit.savepoint name).
Definition rollback_to (name : string) : M Chisel unit := on_txm (TxnCommit.rollback_to name).
Definition release (name : string) : M Chisel unit := on_txm (TxnCommit.release name).

Definition allocate (value : list Z) : M Chisel Handle :=
  let* h := on_txm (TxnOps.allocate value) in ret {| get_handle := h |}.

Definition allocate_tagged (value : list Z) (tag : Tag) : M Chisel Handle :=
  let* h := on_txm (TxnOps.allocate_tagged value (get_tag tag)) in ret {| get_handle := h |}.

Definition tag (handle : Handle) : M Chisel (option Tag) :=
  let* t := on_txm (TxnOps.tag_of (get_handle handle)) in ret (Tag_new t).

Definition client_byte (handle : Handle) : M Chisel Z := on_txm (TxnOps.client_byte_of (get_handle handle)).
Definition set_client_byte (handle : Handle) (byte : Z) : M Chisel unit :=
  on_txm (TxnOps.set_client_byte (get_handle handle) byte).

Definition handles_with_tag (tag : Tag) : M Chisel (list Handle) :=
  let* hs := on_txm (TxnOps.handles_with_tag (get_tag tag)) in ret (Build_Handle <$> hs).

Definition read (handle : Handle) : M Chisel (list Z) := on_txm (TxnOps.read (get_handle handle)).
Definition update (handle : Handle) (value : list Z) : M Chisel unit := on_txm (TxnOps.update (get_handle handle) value).
Definition delete (handle : Handle) : M Chisel unit := on_txm (TxnOps.delete (get_handle handle)).
Definition delete_tagged (handle : Handle) (tag : Tag) : M Chisel unit :=
  on_txm (TxnOps.delete_tagged (get_handle handle) (get_tag tag)).

Definition delete_with_tag (tag : Tag) (max : Z) : M Chisel TagDropProgress :=
  let* '(ids, complete) := on_txm (TxnOps.delete_with_tag (get_tag tag) max) in
  ret {| deleted := Build_Handle <$> ids; complete := complete |}.

Definition delete_many (handles : list Handle) : M Chisel unit := on_txm (TxnOps.delete_many (get_handle <$> handles)).

Definition set_root_name (name : string) (handle : Handle) : M Chisel unit :=
  on_txm (TxnCommit.set_root_name name (get_handle handle)).

Definition get_root_name (name : string) : M Chisel (option Handle) :=
  let* h := on_txm (TxnCommit.get_root_name name) in ret (Build_Handle <$> h).

Definition clear_root_name (name : string) : M Chisel unit := on_txm (TxnCommit.clear_root_name name).

Definition handles : M Chisel (list Handle) := let* hs := on_txm TxnOps.handles in ret (Build_Handle <$> hs).

Definition file_size_bytes : M Chisel Z :=
  let* page_count := on_txm file_page_count in
  let* self := reads txm in
  ret (sat_mul page_count (file_stride self)).

Definition stats : M Chisel Stats :=
  let* hs := on_txm TxnOps.handles in
  let* page_count := on_txm file_page_count in
  let* spillway_cap := on_txm spillway_capacity in
  let* self := reads txm in
  ret {| handle_count := zlen hs; st_total_pages := page_count; st_file_size_bytes := sat_mul page_count (file_stride self);
         st_spillway_logical_bytes := fst <$> spillway_cap; st_spillway_max_bytes := snd <$> spillway_cap |}.

Definition counters : M Chisel (Z * Z * Z * Z) := on_txm counters.
Definition is_poisoned (self : Chisel) : bool := Txn.is_poisoned (txm self).
Definition defrag (options : Defrag.DefragOptions) : M Chisel Defrag.DefragStats := on_txm (Defrag.defrag options).
Definition set_cache_max_bytes (bytes : Z) : M Chisel unit := on_txm (TxnCommit.set_cache_max_bytes bytes).
Definition set_spillway_max_bytes (bytes : Z) : M Chisel unit := on_txm (TxnCommit.set_spillway_max_bytes bytes).
Definition set_drain_insertion (policy : DrainInsertion) : M Chisel unit := on_txm (TxnCommit.set_drain_insertion policy).

Definition add_key (existing new : Key) (rnd_salt rnd_nonce : list Z) : M Chisel unit :=
  on_txm (Keys.add_key existing new rnd_salt rnd_nonce).
Definition rotate_key (old new : Key) (rnd_salt rnd_nonce : list Z) : M Chisel unit :=
  on_txm (Keys.rotate_key old new rnd_salt rnd_nonce).
Definition remove_key (key : Key) : M Chisel unit := on_txm (Keys.remove_key key).
End api.
End Api.
