(* ===== verification/Rekey.v ===== *)
(** * Bulk rotation of the data key ([src/rekey.rs])

    The whole file is sealed anew under a fresh key into a scratch file beside it, which
    then replaces it by a rename.  The database is opened for the length of the call; the
    scratch entry and the answers of the operating system to calls on it are part of the
    state. *)

From S2P Require Export Api.

Module Rekey.
Import Backing Txn TxnCommit PageCache CacheStore CryptoHeader Recovery Api.

(** What is at the scratch path: nothing, or an entry with what [symlink_metadata] says of
    it (a regular file, one link, our own) and its bytes. *)
Record Entry := { is_file : bool; sole_link : bool; own : bool; data : list Z }.

Record Scratch := { entry : option Entry; scratch_answers : list (option (ErrorKind * nat)) }.

Definition set_entry (e : option Entry) (s : Scratch) : Scratch :=
  {| entry := e; scratch_answers := scratch_answers s |}.

(** The next answer, with the bytes that a failing write had written. *)
Definition answer : M Scratch (option (ErrorKind * nat)) :=
  let* s := reads id in
  match scratch_answers s with
  | [] => ret None
  | a :: rest => writes (λ s, {| entry := entry s; scratch_answers := rest |}) ;;; ret a
  end.

(** [.map_err(ChiselError::IoError)] *)
Definition scratch_call : M Scratch unit :=
  let* a := answer in
  match a with Some (k, _) => fail (IoError k) | None => ret tt end.

Definition new_entry : Entry := {| is_file := true; sole_link := true; own := true; data := [] |}.

Definition reclaim_scratch : M Scratch unit :=
  scratch_call ;;;
  let* s := reads id in
  match entry s with
  | None => fail (IoError NotFound)
  | Some e =>
      if negb (is_file e && sole_link e && own e) then fail (IoError PermissionDenied) else
      scratch_call ;;; writes (set_entry None)
  end.

Definition create_scratch : M Scratch unit :=
  scratch_call ;;;
  let* s := reads id in
  match entry s with
  | None => writes (set_entry (Some new_entry))
  | Some _ => reclaim_scratch ;;; scratch_call ;;; writes (set_entry (Some new_entry))
  end.

(** [seek_write_unit]; [page_id * ENC_PAGE_SIZE] is checked. *)
Definition seek_write_unit (page_id : Z) (blob : list Z) : M Scratch unit :=
  if u64_max <? page_id * ENC_PAGE_SIZE then crash PanicOverflow else
  scratch_call ;;;
  let* a := answer in
  let put bytes := writes (λ s, set_entry ((λ e, {| is_file := is_file e; sole_link := sole_link e; own := own e;
    data := overwrite (page_id * ENC_PAGE_SIZE) bytes (data e) |}) <$> entry s) s) in
  match a with
  | Some (k, written) => put (take written blob) ;;; fail (IoError k)
  | None => put blob
  end.

Section rekey.
Context `{HX : Xxh3} `{HO : HashOrder} `{HC : Primitives}.
Abbreviation TM := (TransactionManager PageCache).

(** ** What is read of the open database *)

Definition inherited_argon2 (self : TM) (key : Key) : outcome (option Argon2Params) :=
  match crypto_header self with
  | None => Ok None
  | Some header =>
      match unlock header key with
      | Ok (idx, _) =>
          match slots header !! idx with
          | Some slot => Ok (if kdf_id slot =? kdf_tag Argon2id then Some (argon2 slot) else None)
          | None => Panic PanicSlice
          end
      | Err _ => Ok None
      | Panic p => Panic p
      end
  end.

(** The slots in the order in which they are tried. *)
Fixpoint find_superblock (txn_counter : Z) (dek : list Z) (order : list Z) : M PageIo.PageIo Superblock.Superblock :=
  match order with
  | [] => fail (CorruptSuperblock [])
  | slot :: order =>
      let* unit := PageIo.read_page_unit_into slot ENC_PAGE_SIZE in
      let image := slice 0 PAGE_SIZE unit in
      match Superblock.deserialize image with
      | Some sb =>
          if Superblock.txn_counter sb =? txn_counter then
            match Superblock.decrypt_body sb dek image with
            | COk sb => ret sb
            | CErr _ => find_superblock txn_counter dek order
            | CPanic p => crash p
            end
          else find_superblock txn_counter dek order
      | None => find_superblock txn_counter dek order
      end
  end.

Definition current_superblock (dek : list Z) : M TM Superblock.Superblock :=
  let* self := reads id in
  let n := superblock_count self in
  assert_that PanicOverflow (negb (n =? 0)) ;;;
  let expected := txn_counter self mod n in
  on_cache (on_io (find_superblock (txn_counter self) dek
    (expected :: filter (λ s, s ≠ expected) (seqZ 0 n)))).

(** ** The new file *)

Definition with_header (n : Z) (h : CryptoHeader) (sb : Superblock.Superblock) : Superblock.Superblock :=
  {| Superblock.magic := Superblock.magic sb; Superblock.format_version := Superblock.format_version sb;
     Superblock.txn_counter := n; Superblock.root_handle_table_page := Superblock.root_handle_table_page sb;
     Superblock.root_freemap_page := Superblock.root_freemap_page sb; Superblock.total_pages := Superblock.total_pages sb;
     Superblock.next_handle := Superblock.next_handle sb; Superblock.page_size := Superblock.page_size sb;
     Superblock.named_roots := Superblock.named_roots sb; Superblock.superblock_count := Superblock.superblock_count sb;
     Superblock.root_membership_index_page := Superblock.root_membership_index_page sb;
     Superblock.freemap_depth := Superblock.freemap_depth sb; Superblock.encryption := Some h |}.

(** The loops run on the open database and the scratch file. *)
Abbreviation Both := (TM * Scratch)%type.
Definition on_db {A} (m : M TM A) : M Both A := zoom fst (λ x s, (x, s.2)) m.
Definition on_scratch {A} (m : M Scratch A) : M Both A := zoom snd (λ x s, (s.1, x)) m.

(** [top + n] is checked. *)
Fixpoint write_superblocks (winner : Superblock.Superblock) (new_header : CryptoHeader) (new_dek : list Z) (n : Z)
    (ks : list Z) : M Both unit :=
  match ks with
  | [] => ret tt
  | k :: ks =>
      let top := Superblock.txn_counter winner in
      assert_that PanicOverflow (top + n <=? u64_max) ;;;
      let slot := (top + n - k) mod n in
      let sb := with_header (Z.max (top - k) 0) new_header winner in
      let* nonce := on_db (on_cache tc_nonce) in
      let* image := of_outcome (Superblock.serialize_encrypted sb new_dek nonce) in
      on_scratch (seek_write_unit slot (splice 0 image (zeros ENC_PAGE_SIZE))) ;;;
      write_superblocks winner new_header new_dek n ks
  end.

Fixpoint reseal_pages (old_dek new_dek : list Z) (ids : list Z) : M Both unit :=
  match ids with
  | [] => ret tt
  | page_id :: ids =>
      let* unit := on_db (on_cache (on_io (PageIo.read_page_unit_into page_id ENC_PAGE_SIZE))) in
      match Crypto.open old_dek page_id unit with
      | COk plaintext =>
          let* nonce := on_db (on_cache tc_nonce) in
          on_scratch (seek_write_unit page_id (Crypto.seal new_dek nonce page_id plaintext))
      | CErr _ => on_scratch (seek_write_unit page_id unit)
      | CPanic p => crash p
      end ;;;
      reseal_pages old_dek new_dek ids
  end.

Definition build_rotated_file (page_count n : Z) (winner : Superblock.Superblock) (new_header : CryptoHeader)
    (old_dek new_dek : list Z) : M Both unit :=
  on_scratch create_scratch ;;;
  write_superblocks winner new_header new_dek n (seqZ 0 n) ;;;
  reseal_pages old_dek new_dek (seqZ n (page_count - n)) ;;;
  on_scratch scratch_call ;;;
  on_scratch scratch_call.

(** ** The whole call *)

Definition rekey_options (key : Key) : Options :=
  {| opt_cache_max_bytes := opt_cache_max_bytes Options_default;
     opt_spillway_max_bytes := opt_spillway_max_bytes Options_default;
     opt_drain_insertion := opt_drain_insertion Options_default; create_if_missing := false; opt_read_only := false;
     opt_superblock_count := opt_superblock_count Options_default; encryption_key := Some key;
     argon2_params := argon2_params Options_default |}.

(** [std::fs::rename(&tmp_path, path)], and the scratch removed after a failure. *)
Definition rename : M (Path * Scratch) unit :=
  zoom snd (λ x s, (s.1, x)) scratch_call ;;;
  let* s := reads snd in
  match entry s with
  | None => fail (IoError NotFound)
  | Some e => writes (λ s, (set_contents (Some (data e)) s.1, set_entry None s.2))
  end.

(** [let _ = remove_file(tmp)] *)
Definition remove_scratch (s : Scratch) : Scratch :=
  match answer s with
  | (Ok (Some _), s') => s'
  | (_, s') => set_entry None s'
  end.

(** On the database opened at the path: the scratch file is built, or removed again. *)
Definition rotate (self : TM) (key : Key) (params : option Argon2Params) (rnd : Random) : M Scratch unit := λ s,
  let build : M Both unit :=
    let* self := on_db (reads id) in
    match Txn.cipher self with
    | None => fail EncryptionNotSupported
    | Some old_dek =>
        let page_count := PageIo.page_count (io (cache self)) in
        assert_that PanicAssert (PageIo.stride (io (cache self)) =? ENC_PAGE_SIZE) ;;;
        let* winner := on_db (current_superblock old_dek) in
        let* effective := match params with Some p => ret (Some p) | None => of_outcome (inherited_argon2 self key) end in
        let* h := of_crypto (wrap_into {| algorithm := ALGO_XCHACHA20POLY1305; stride := ENC_PAGE_SIZE;
          slots := replicate (Z.to_nat KEY_SLOT_COUNT) EMPTY |} 0 key (rnd_dek rnd) effective (rnd_salt rnd) (rnd_nonce rnd)) in
        on_err (build_rotated_file page_count (superblock_count self) winner h old_dek (rnd_dek rnd))
          (λ s, (s.1, remove_scratch s.2))
    end in
  let '(r, s') := build (self, s) in (r, s'.2).

Definition rekey (key : Key) (params : option Argon2Params) (rnd : Random) (nonces : nat → list Z)
    : M (Path * Scratch) unit :=
  validate_argon2_params params ;;;
  let* db := zoom fst (λ x s, (x, s.2)) (open (rekey_options key) rnd nonces) in
  zoom snd (λ x s, (s.1, x)) (rotate (txm db) key params rnd) ;;;
  rename.
End rekey.
End Rekey.
