(* ===== verification/Slots.v ===== *)
(** * The superblock slots of a file

    Which slot an opening takes ([winner] of [src/transaction/recovery.rs]), what it reads
    of the file to find it, and what a rewritten slot does to the choice: a slot that was
    torn leaves the choice as it was, and a complete one with a higher counter becomes the
    choice.  The commits and the key operations rest on it. *)

From S2P Require Export Recovery SuperblockProps CacheFlush.

Module Slots.
Import PageCache Recovery PageIoFacts.

Section slots.
Context `{HX : Xxh3} `{HO : HashOrder} `{HC : Primitives}.

Abbreviation counter := Superblock.txn_counter.
Abbreviation TM := (Txn.TransactionManager PageCache).

(** Any error and panic: the frames below say what is left. *)
#[local] Instance any_fault : Fault := {| may_err _ := True; may_panic _ := True |}.

Lemma any_spec {S A} (HF : Fault) F (m : M S A) s (Q : A → S → Prop) :
  spec (H := HF) F m s Q → spec (H := any_fault) F m s Q.
Proof. by apply spec_weaken. Qed.

Lemma spec_assoc {S A B C} `{HF : Fault} F (m : M S A) (k : A → M S B) (k' : B → M S C) s Q :
  spec F (bind m (λ a, bind (k a) k')) s Q → spec F (bind (bind m k) k') s Q.
Proof. unfold spec, bind. by destruct (m s) as [[a | |] s']. Qed.

Lemma zlen_length {A} (a b : list A) : zlen a = zlen b → length a = length b.
Proof. unfold zlen. lia. Qed.

Lemma deserialize_counter u sb : Superblock.deserialize u = Some sb → Superblock.txn_counter sb = get_u64 8 u.
Proof.
  unfold Superblock.deserialize. destruct (Superblock.validate u); [done |].
  destruct (CryptoHeader.deserialize u); intros [= <-]; done.
Qed.

Lemma next_counter_run c : 0 ≤ c → ∀ n, Superblock.next_txn_counter c = Ok n → n = c + 1 ∧ n ≤ Superblock.MAX_TXN_COUNTER.
Proof.
  intros Hc n. unfold Superblock.next_txn_counter, sat_add. cbv zeta. destruct (Z.ltb_spec Superblock.MAX_TXN_COUNTER (Z.min (c + 1) u64_max)); [done |].
  intros [= <-]. assert (Superblock.MAX_TXN_COUNTER < u64_max) by done. lia.
Qed.

(** The steps on the file, as one. *)
Lemma on_file_bind {A B} (a : M PageIo.PageIo unit) (b : M PageIo.PageIo A) (k : A → M TM B) self :
  bind (Txn.on_cache (on_io a)) (λ _, bind (Txn.on_cache (on_io b)) k) self = bind (Txn.on_cache (on_io (a ;;; b))) k self.
Proof.
  unfold bind at 1 2 3, Txn.on_cache, zoom, on_io. unfold bind at 1. destruct (a (io (Txn.cache self))) as [[[] | e | p] io1]; [| done | done].
  cbn [Txn.cache Txn.set_cache io set_io]. by destruct (b io1) as [[x | e | p] io2].
Qed.

Lemma on_file_spec {A} (F : TM → Prop) (m : M PageIo.PageIo A) self Q :
  spec (λ io', F (Txn.set_cache (set_io io' (Txn.cache self)) self)) m (io (Txn.cache self)) (λ a io', Q a (Txn.set_cache (set_io io' (Txn.cache self)) self)) →
  spec F (Txn.on_cache (on_io m)) self Q.
Proof. unfold spec, Txn.on_cache, zoom, on_io. by destruct (m (io (Txn.cache self))). Qed.

Lemma reads_step {S A B} (f : S → A) (k : A → M S B) s : bind (reads f) k s = k (f s) s.
Proof. done. Qed.

(** Overwriting with a prefix. *)
Lemma overwrite_prefix off n k data l :
  0 ≤ off → 0 ≤ n → off + n ≤ zlen l → zlen data = n →
  slice off n (overwrite off (take k data) l) = take k data ++ drop k (slice off n l).
Proof.
  intros Ho Hn Hl Hd. destruct (decide (take k data = [])) as [E | E].
  - rewrite E. cbn. destruct k as [| k]; [done |]. destruct data; [| done]. unfold zlen in Hd. cbn in Hd. subst n. unfold slice. done.
  - assert (Hk : zlen (take k data) = Z.min (Z.of_nat k) n) by (unfold zlen in *; rewrite length_take; lia).
    rewrite overwrite_cons, Hk by done. unfold extend_to. replace (zeros _) with (@nil Z); [rewrite app_nil_r |].
    2:{ unfold zeros. replace (Z.to_nat _) with 0%nat by lia. done. }
    unfold splice. rewrite Hk. unfold slice. rewrite drop_app_ge by (rewrite length_take; unfold zlen in Hl; lia).
    rewrite length_take. replace (_ - _)%nat with 0%nat by (unfold zlen in Hl; lia). rewrite drop_0.
    rewrite take_app_ge by (rewrite length_take; unfold zlen in *; lia). f_equal.
    rewrite length_take, skipn_firstn_comm, drop_drop. unfold zlen in *.
    destruct (decide (k ≤ length data)%nat).
    + f_equal; [lia |]. f_equal. lia.
    + replace (Z.to_nat n - _)%nat with 0%nat by lia. replace (Z.to_nat n - k)%nat with 0%nat by lia. done.
Qed.

(** ** The choice *)

Lemma winner_snoc cs c :
  winner (cs ++ [c]) =
    match Superblock.deserialize c with
    | None => winner cs
    | Some sb =>
        match winner cs with
        | Some b => if counter b.1.2 <=? counter sb then Some (zlen cs, sb, c) else Some b
        | None => Some (zlen cs, sb, c)
        end
    end.
Proof.
  unfold winner. rewrite imap_app. cbn [imap]. rewrite omap_app, foldl_app. cbn [omap list_omap].
  unfold compose, Nat.add. cbn. rewrite Nat.add_0_r.
  destruct (Superblock.deserialize c) as [sb |]; cbn; [| done].
  match goal with |- context [foldl ?f None ?l] => destruct (foldl f None l) as [[[i b] raw] |] end; cbn; [| done]. by destruct (_ <=? _).
Qed.

Lemma select_snoc cs c :
  Superblock.select (cs ++ [c]) =
    match Superblock.deserialize c with
    | None => Superblock.select cs
    | Some sb =>
        match Superblock.select cs with
        | Some b => if counter b <=? counter sb then Some sb else Some b
        | None => Some sb
        end
    end.
Proof.
  unfold Superblock.select. rewrite omap_app, foldl_app. cbn [omap list_omap]. destruct (Superblock.deserialize c) as [sb |]; [| done]. cbn [foldl].
  match goal with |- context [foldl ?f None ?l] => by destruct (foldl f None l) end.
Qed.


(** Slot [i] has the highest counter of the slots that can be read, and no later one has
    the same. *)
Record chosen (cs : list (list Z)) (i : Z) (sb : Superblock.Superblock) (raw : list Z) : Prop := {
  ch_slot : 0 ≤ i ∧ cs !! Z.to_nat i = Some raw;
  ch_reads : Superblock.deserialize raw = Some sb;
  ch_most : ∀ j raw' sb', 0 ≤ j → cs !! Z.to_nat j = Some raw' → Superblock.deserialize raw' = Some sb' →
    counter sb' ≤ counter sb ∧ (i < j → counter sb' < counter sb)
}.
Lemma chosen_bound cs i sb raw : chosen cs i sb raw → 0 ≤ i < zlen cs.
Proof. intros [[Hi Hl%lookup_lt_Some] _ _]. unfold zlen. lia. Qed.

Lemma snoc_inv (cs : list (list Z)) c j x :
  0 ≤ j → (cs ++ [c]) !! Z.to_nat j = Some x ↔ cs !! Z.to_nat j = Some x ∨ (j = zlen cs ∧ x = c).
Proof.
  intros Hj. rewrite lookup_app_Some, list_lookup_singleton_Some. unfold zlen. split.
  - intros [? | (? & ? & ->)]; [by left |]. right. split; [lia | done].
  - intros [? | [-> ->]]; [by left |]. right. split; [lia |]. split; [lia | done].
Qed.

Lemma snoc_lt (cs : list (list Z)) j x : 0 ≤ j → cs !! Z.to_nat j = Some x → j < zlen cs.
Proof. intros Hj Hl%lookup_lt_Some. unfold zlen. lia. Qed.

Lemma winner_cases cs :
  match winner cs with
  | Some (i, sb, raw) => chosen cs i sb raw
  | None => ∀ j raw, cs !! j = Some raw → Superblock.deserialize raw = None
  end.
Proof.
  induction cs as [| c cs IH] using rev_ind; [done |]. rewrite winner_snoc.
  destruct (Superblock.deserialize c) as [sb |] eqn:Ec.
  - assert (Hnew : (∀ j raw' sb', 0 ≤ j → cs !! Z.to_nat j = Some raw' → Superblock.deserialize raw' = Some sb' → counter sb' ≤ counter sb) →
      chosen (cs ++ [c]) (zlen cs) sb c).
    { intros Hm. split; [split; [unfold zlen; lia | apply snoc_inv; [unfold zlen; lia | by right]] | done |].
      intros j raw' sb' Hj [Hl | [-> ->]]%snoc_inv Hd; [| split; [congruence || (rewrite Ec in Hd; injection Hd as ->; lia) | lia] | done].
      pose proof (snoc_lt cs j raw' Hj Hl). split; [eauto | lia]. }
    destruct (winner cs) as [[[i b] raw] |]; cbn [fst snd].
    + destruct IH as [Hs Hr Hm]. destruct (Z.leb_spec (counter b) (counter sb)).
      * apply Hnew. intros j raw' sb' Hj Hl Hd. destruct (Hm j raw' sb' Hj Hl Hd). lia.
      * split; [split; [apply Hs | apply snoc_inv; [apply Hs | by left; apply Hs]] | done |].
        intros j raw' sb' Hj [Hl | [-> ->]]%snoc_inv Hd; [by eapply Hm | | done]. rewrite Ec in Hd. injection Hd as ->. lia.
    + apply Hnew. intros j raw' sb' _ Hl Hd. rewrite (IH _ _ Hl) in Hd. done.
  - destruct (winner cs) as [[[i b] raw] |].
    + destruct IH as [Hs Hr Hm]. split; [split; [apply Hs | apply snoc_inv; [apply Hs | by left; apply Hs]] | done |].
      intros j raw' sb' Hj [Hl | [-> ->]]%snoc_inv Hd; [by eapply Hm | congruence | done].
    + intros j raw [? | (_ & Hl)]%lookup_app_Some; [eauto |]. apply list_lookup_singleton_Some in Hl as [_ <-]. done.
Qed.

Lemma chosen_fun cs i sb raw i' sb' raw' :
  chosen cs i sb raw → chosen cs i' sb' raw' → (i, sb, raw) = (i', sb', raw').
Proof.
  intros [[Hi Hs] Hr Hm] [[Hi' Hs'] Hr' Hm'].
  destruct (Hm i' raw' sb' Hi' Hs' Hr') as [H1 H2]. destruct (Hm' i raw sb Hi Hs Hr) as [H3 H4].
  assert (i = i') as -> by (destruct (Z.lt_trichotomy i i') as [? | [? | ?]]; [lia | done | lia]).
  rewrite Hs in Hs'. injection Hs' as ->. congruence.
Qed.

Lemma winner_chosen cs i sb raw : winner cs = Some (i, sb, raw) ↔ chosen cs i sb raw.
Proof.
  pose proof (winner_cases cs) as Hw. split; [intros E; by rewrite E in Hw |]. intros Hc.
  destruct (winner cs) as [[[i' sb'] raw'] |]; [f_equal; by eapply chosen_fun |].
  destruct Hc as [[_ Hs] Hr _]. by rewrite (Hw _ _ Hs) in Hr.
Qed.

(** ** A slot is rewritten *)

(** Slot [t] alone differs between [cs] and [cs']. *)
Definition rewritten_at (t : Z) (cs cs' : list (list Z)) : Prop :=
  zlen cs' = zlen cs ∧ ∀ j, 0 ≤ j → j ≠ t → cs' !! Z.to_nat j = cs !! Z.to_nat j.

(** A slot that cannot be read, or has a lower counter, does not change the choice. *)
Lemma winner_old cs cs' t i sb raw :
  winner cs = Some (i, sb, raw) → rewritten_at t cs cs' → i ≠ t →
  (∀ raw' sb', cs' !! Z.to_nat t = Some raw' → Superblock.deserialize raw' = Some sb' → counter sb' < counter sb) →
  winner cs' = Some (i, sb, raw).
Proof.
  rewrite !winner_chosen. intros [[Hi Hs] Hr Hm] [_ Hrw] Hit Ht. split; [by rewrite Hrw | done |].
  intros j raw' sb' Hj Hl Hd. destruct (decide (j = t)) as [-> | Hne].
  - pose proof (Ht _ _ Hl Hd). lia.
  - rewrite Hrw in Hl by done. eauto.
Qed.

(** A slot with a counter above all becomes the choice, whatever the others hold that had
    counters no higher than before. *)
Lemma winner_new cs' t sb raw :
  0 ≤ t → cs' !! Z.to_nat t = Some raw → Superblock.deserialize raw = Some sb →
  (∀ j raw' sb', 0 ≤ j → j ≠ t → cs' !! Z.to_nat j = Some raw' → Superblock.deserialize raw' = Some sb' → counter sb' < counter sb) →
  winner cs' = Some (t, sb, raw).
Proof.
  intros Ht Hs Hr Hm. rewrite winner_chosen. split; [done | done |]. intros j raw' sb' Hj Hl Hd.
  destruct (decide (j = t)) as [-> | Hne].
  - rewrite Hl in Hs. injection Hs as ->. rewrite Hd in Hr. injection Hr as ->. lia.
  - pose proof (Hm j raw' sb' Hj Hne Hl Hd). lia.
Qed.
(** ** Writes to some of the units *)

(** The units outside [P] are as they were. *)
Record within (P : Z → Prop) (io io' : PageIo.PageIo) : Prop := {
  wn_inv : io_inv io';
  wn_mode : PageIo.read_only io' = PageIo.read_only io ∧ PageIo.stride io' = PageIo.stride io;
  wn_count : PageIo.cached_page_count io' = PageIo.cached_page_count io;
  wn_other : ∀ j, 0 ≤ j < PageIo.cached_page_count io → ¬ P j → unit_at io' j = unit_at io j
}.

Lemma within_refl P io : io_inv io → within P io io.
Proof. by split. Qed.

Lemma within_trans P io1 io2 io3 : within P io1 io2 → within P io2 io3 → within P io1 io3.
Proof.
  intros [A1 [A2 A3] A4 A5] [B1 [B2 B3] B4 B5]. split; [done | split; congruence | congruence |].
  intros j Hj Hn. rewrite B5, A5; [done | done | done | by rewrite A4 | done].
Qed.

Lemma within_weaken (P P' : Z → Prop) io io' : within P io io' → (∀ j, P j → P' j) → within P' io io'.
Proof. intros [A1 A2 A3 A4] Hp. split; auto. Qed.

Lemma within_same P io io' : io_inv io → io_same io io' → within P io io'.
Proof.
  intros Hi Hs. split; [by eapply io_same_inv | by split; apply Hs | apply Hs |]. intros j _ _. by apply io_same_unit.
Qed.

Lemma within_wrote id io io' : io_wrote id io io' → 0 ≤ id < PageIo.cached_page_count io → within (.= id) io io'.
Proof. intros [A1 A2 A3 A4] Hid. split; [done | done | lia |]. intros j Hj Hn. by apply A4. Qed.

Lemma sync_within P io : io_inv io → spec (within P io) PageIo.fsync io (λ _ io', io_same io io').
Proof.
  intros Hi. assert (Hf := any_spec CacheFlush.flush_fault _ _ _ _ (CacheFlush.fsync_spec io)).
  destruct Hf as [Hsm Hp]. split; [by apply within_same |]. unfold post. by destruct (PageIo.fsync io).1.
Qed.

(** A unit after a write that may have failed: a prefix of the new bytes. *)
Definition torn (new old u : list Z) : Prop := ∃ k, u = take k new ++ drop k old.

Lemma torn_old new old : torn new old old.
Proof. by exists 0%nat. Qed.

Lemma torn_full new old : length old = length new → torn new old new.
Proof. intros Hl. exists (length new). rewrite firstn_all, drop_ge, app_nil_r by lia. done. Qed.

Lemma write_torn io id blob :
  io_inv io → 0 ≤ id < PageIo.cached_page_count io → zlen blob = PageIo.stride io →
  torn blob (unit_at io id) (unit_at (PageIo.write_page_unit id blob io).2 id).
Proof.
  intros Hi Hid Hl. unfold PageIo.write_page_unit, bind, reads. cbn [Datatypes.id].
  destruct (PageIo.read_only io); [apply torn_old |].
  destruct (Z.eqb_spec (zlen blob) (PageIo.stride io)); cbn [negb]; [| apply torn_old].
  destruct (u64_max <? _); [apply torn_old |]. unfold PageIo.on_backing, Backing.write_at, bind.
  pose proof (unit_range io id Hi Hid) as Hr. pose proof (io_stride _ Hi).
  assert (Hw : ∀ k b, Backing.bytes b = Backing.bytes (PageIo.backing io) →
    slice (id * PageIo.stride io) (PageIo.stride io) (overwrite (id * PageIo.stride io) (take k blob) (Backing.bytes b)) =
      take k blob ++ drop k (unit_at io id)).
  { intros k b Hb. rewrite Hb. apply overwrite_prefix; [lia | lia | lia |]. done. }
  assert (Hlt : (PageIo.cached_page_count io <? id + 1) = false) by lia.
  assert (Hall : ∀ b, Backing.bytes b = Backing.bytes (PageIo.backing io) →
    torn blob (unit_at io id) (slice (id * PageIo.stride io) (PageIo.stride io) (overwrite (id * PageIo.stride io) blob (Backing.bytes b)))).
  { intros b Hb. exists (length blob). rewrite <- Hw with (b := b) by done. by rewrite firstn_all. }
  unfold Backing.ask. destruct (Backing.file_backed (PageIo.backing io)) eqn:Ef; [destruct (Backing.answers _) as [| [[err w] |] rest] |];
    cbn; destruct (u64_max <? id + 1); cbn; rewrite ?Hlt; cbn; unfold unit_at at 2; cbn;
    first [by apply Hall | exists w; by apply Hw].
Qed.

(** ** The slots that are read *)

Definition image_at (io : PageIo.PageIo) (i : Z) : list Z := slice 0 PAGE_SIZE (unit_at io i).

(** The first units of the file, at most [MAX_SUPERBLOCKS]. *)
Definition candidates (io : PageIo.PageIo) : list (list Z) :=
  image_at io <$> seqZ 0 (Z.min Superblock.MAX_SUPERBLOCKS (PageIo.page_count io)).

Lemma candidates_lookup io j x :
  0 ≤ j → candidates io !! Z.to_nat j = Some x ↔
    j < Z.min Superblock.MAX_SUPERBLOCKS (PageIo.page_count io) ∧ x = image_at io j.
Proof.
  intros Hj. unfold candidates. rewrite list_lookup_fmap_Some. split.
  - intros (i & -> & [-> Hi]%lookup_seqZ). rewrite Z.add_0_l, Z2Nat.id by done. split; [lia | done].
  - intros [Hl ->]. exists j. split; [done |]. apply lookup_seqZ. lia.
Qed.

(** Opening reads them, and changes nothing but the pending answers. *)
Lemma read_slots_run k n c :
  io_inv (io c) → PAGE_SIZE ≤ PageIo.stride (io c) → 0 ≤ k →
  match read_slots (seqZ k (Z.of_nat n)) c with
  | (Ok cs, c') => io_same (io c) (io c') ∧ cs = image_at (io c) <$> seqZ k (Z.min (Z.of_nat n) (Z.max 0 (PageIo.page_count (io c) - k)))
  | (_, c') => io_same (io c) (io c')
  end.
Proof.
  revert k c. induction n as [| n IH]; intros k c Hi Hs Hk; [by rewrite (Z.min_l 0) by lia |].
  rewrite seqZ_cons by lia. cbn [read_slots].
  assert (Hr : match on_io (PageIo.read_page_unit k) c with
    | (Ok u, c') => k < PageIo.page_count (io c) ∧ u = unit_at (io c) k ∧ io_same (io c) (io c')
    | (Err (InvalidPageId _), c') => PageIo.page_count (io c) ≤ k ∧ io_same (io c) (io c')
    | (_, c') => io_same (io c) (io c')
    end).
  { unfold on_io, PageIo.read_page_unit, bind, reads. cbn [id]. unfold PageIo.page_count.
    destruct (Z.leb_spec (PageIo.cached_page_count (io c)) k); [done |].
    destruct (u64_max <? _); [done |]. unfold PageIo.on_backing.
    pose proof (read_at_spec True True (PageIo.backing (io c)) (k * PageIo.stride (io c)) (PageIo.stride (io c)) (crash PanicSlice)) as Hsp.
    destruct Hsp as [Hb Hp]; [apply unit_range; [done | lia] |].
    destruct (Backing.read_at _ _ _ _) as [[u | e | p] b] eqn:E; cbn [fst snd post] in *.
    - split; [lia |]. split; [exact Hp | done].
    - destruct e; try done. exfalso. revert E. unfold Backing.read_at, bind, fail, reads.
      unfold Backing.ask. destruct (Backing.file_backed _); [destruct (Backing.answers _) as [| [[[] ?] |] ?] |]; cbn; repeat case_match; done.
    - done. }
  destruct (on_io (PageIo.read_page_unit k) c) as [[u | e | p] c1]; [| by destruct e; try done; destruct Hr as [Hr Hsm]; rewrite (Z.min_r _ (Z.max 0 _)), Z.max_l by lia |done].
  destruct Hr as (Hkc & -> & Hsm).
  assert (Hlen : zlen (unit_at (io c) k) = PageIo.stride (io c)) by (apply unit_ok; [done | unfold PageIo.page_count in *; lia]).
  destruct (Z.ltb_spec (zlen (unit_at (io c) k)) PAGE_SIZE); [lia |].
  pose proof Hsm as (_ & _ & Hst & Hcnt).
  replace (Z.pred (Z.of_nat (S n))) with (Z.of_nat n) by lia.
  assert (Hi1 : io_inv (io c1)) by by eapply io_same_inv.
  specialize (IH (Z.succ k) c1 Hi1 ltac:(by rewrite Hst) ltac:(lia)).
  assert (Htr : ∀ c', io_same (io c1) (io c') → io_same (io c) (io c')).
  { intros c' ([A1 A2] & A3 & A4 & A5). destruct Hsm as ([B1 B2] & B3 & B4 & B5). repeat split; congruence. }
  destruct (read_slots (seqZ (Z.succ k) (Z.of_nat n)) c1) as [[out | e | p] c2]; [| auto..].
  destruct IH as [Hs2 ->]. split; [auto |]. unfold PageIo.page_count in *. rewrite Hcnt.
  replace (Z.min (Z.of_nat (S n)) (Z.max 0 (PageIo.cached_page_count (io c) - k)))
    with (Z.succ (Z.min (Z.of_nat n) (Z.max 0 (PageIo.cached_page_count (io c) - Z.succ k)))) by lia.
  rewrite (seqZ_cons k) by lia. rewrite Z.pred_succ. cbn [fmap list_fmap]. f_equal.
  apply list_fmap_ext. intros i x _. unfold image_at. by rewrite (io_same_unit (io c) (io c1)).
Qed.

Lemma read_candidates_run c :
  io_inv (io c) → PAGE_SIZE ≤ PageIo.stride (io c) →
  match read_candidates c with
  | (Ok cs, c') => io_same (io c) (io c') ∧ cs = candidates (io c)
  | (_, c') => io_same (io c) (io c')
  end.
Proof.
  intros Hi Hs. pose proof (read_slots_run 0 16 c Hi Hs ltac:(lia)) as H. unfold read_candidates.
  change Superblock.MAX_SUPERBLOCKS with (Z.of_nat 16). destruct (read_slots _ c) as [[cs | |] c']; [| done | done].
  destruct H as [H ->]. split; [done |]. unfold candidates. change Superblock.MAX_SUPERBLOCKS with (Z.of_nat 16).
  pose proof (io_count _ Hi). unfold PageIo.page_count in *. by rewrite Z.sub_0_r, Z.max_r by lia.
Qed.
(** ** The choice after a write to one of the first [n] units *)

Section found.
Variables (io0 io1 : PageIo.PageIo) (n t w : Z) (sbw : Superblock.Superblock) (raww : list Z).
Hypothesis Hn : n ≤ Superblock.MAX_SUPERBLOCKS ∧ n ≤ PageIo.page_count io0 ∧ n ≤ PageIo.page_count io1.
Hypothesis Ht : 0 ≤ t < n.
Hypothesis Hw : winner (candidates io0) = Some (w, sbw, raww).
Hypothesis Hsame : ∀ j, 0 ≤ j < n → j ≠ t → unit_at io1 j = unit_at io0 j.
(** The pages behind the slots do not pass for superblocks. *)
Hypothesis Hpages : ∀ j, n ≤ j < Superblock.MAX_SUPERBLOCKS → Superblock.deserialize (image_at io1 j) = None.

Lemma slot_before j sb :
  0 ≤ j < n → Superblock.deserialize (image_at io0 j) = Some sb → counter sb ≤ counter sbw ∧ (w < j → counter sb < counter sbw).
Proof.
  intros Hj Hd. pose proof Hw as Hc. apply winner_chosen in Hc. destruct Hc as [_ _ Hm]. apply (Hm j (image_at io0 j)); [lia | | done].
  apply candidates_lookup; [lia |]. split; [lia | done].
Qed.

Lemma found_same :
  0 ≤ w < n → w ≠ t → image_at io1 t = image_at io0 t ∨ Superblock.deserialize (image_at io1 t) = None →
  winner (candidates io1) = Some (w, sbw, raww).
Proof.
  intros Hwn Hwt Hi. pose proof Hw as Hc. apply winner_chosen in Hc. destruct Hc as [[Hw0 Hs] Hr _].
  apply candidates_lookup in Hs as [_ Er]; [| done]. apply winner_chosen. split.
  - split; [done |]. apply candidates_lookup; [done |]. split; [lia |]. rewrite Er. unfold image_at. rewrite Hsame; [reflexivity | exact Hwn | exact Hwt].
  - done.
  - intros j raw' sb' Hj [Hlt ->]%candidates_lookup Hd; [| done]. destruct (Z.lt_ge_cases j n) as [Hjn | Hjn]; [| rewrite Hpages in Hd by lia; discriminate Hd].
    apply slot_before; [done |]. destruct (decide (j = t)) as [-> | Hne]; [| unfold image_at in *; rewrite Hsame in Hd; [exact Hd | lia | exact Hne]].
    destruct Hi as [E | E]; rewrite E in Hd; [exact Hd | discriminate Hd].
Qed.

Lemma found_fresh raw sb :
  image_at io1 t = raw → Superblock.deserialize raw = Some sb → counter sbw < counter sb →
  winner (candidates io1) = Some (t, sb, raw).
Proof.
  intros Hi Hd Hc. apply winner_new; [lia | apply candidates_lookup; [lia | split; [lia | done]] | done |].
  intros j raw' sb' Hj Hne [Hlt ->]%candidates_lookup Hdj; [| done]. destruct (Z.lt_ge_cases j n) as [Hjn | Hjn]; [| rewrite Hpages in Hdj by lia; discriminate Hdj].
  unfold image_at in Hdj. rewrite Hsame in Hdj; [| lia | exact Hne]. pose proof (slot_before j sb' ltac:(lia) Hdj) as [Hle _]. lia.
Qed.
End found.
End slots.
End Slots.
