(* ===== verification/Keeps.v ===== *)
(** * What every call keeps

    A relation between the state before and after that holds of each call on the page
    cache holds of every program made of such calls, on every outcome.  [keeps R m] says
    so of one program; [Kept] names the relations that the calls keep.  The lemmas
    walk over the page structures and the allocator once and for all. *)

From S2P Require Export TxnCommit.

Definition keeps {S A} (R : relation S) (m : M S A) : Prop := ∀ s, R s (m s).2.

(** The relation on the store, with other state beside. *)
Definition fstR {S X} (R : relation S) : relation (S * X) := λ a b, R a.1 b.1.

#[export] Instance fstR_pre {S X} (R : relation S) `{!PreOrder R} : PreOrder (@fstR S X R).
Proof. split; [intros x; unfold fstR; reflexivity | intros x y z; unfold fstR; apply transitivity]. Qed.

Create HintDb keeps.

Section rules.
Context {S : Type} (R : relation S) `{HRp : !PreOrder R}.

Lemma keeps_ret {A} (a : A) : keeps R (ret a).
Proof. intros s. reflexivity. Qed.

Lemma keeps_fail {A} e : keeps R (fail (A := A) e).
Proof. intros s. reflexivity. Qed.

Lemma keeps_crash {A} p : keeps R (crash (A := A) p).
Proof. intros s. reflexivity. Qed.

Lemma keeps_reads {A} (f : S → A) : keeps R (reads f).
Proof. intros s. reflexivity. Qed.

Lemma keeps_of {A} (r : outcome A) : keeps R (of_outcome r).
Proof. intros s. reflexivity. Qed.

Lemma keeps_assert p b : keeps R (assert_that p b).
Proof. intros s. unfold assert_that. by destruct b; reflexivity. Qed.

Lemma keeps_writes (f : S → S) : (∀ s, R s (f s)) → keeps R (writes f).
Proof. done. Qed.

Lemma keeps_bind {A B} (m : M S A) (k : A → M S B) : keeps R m → (∀ a, keeps R (k a)) → keeps R (bind m k).
Proof.
  intros Hm Hk s. specialize (Hm s). unfold bind. destruct (m s) as [[a | |] s']; cbn [snd] in *; [| done | done].
  etransitivity; [exact Hm | apply Hk].
Qed.

Lemma keeps_on_err {A} (m : M S A) h : keeps R m → (∀ s, R s (h s)) → keeps R (on_err m h).
Proof.
  intros Hm Hh s. specialize (Hm s). unfold on_err. destruct (m s) as [[a | |] s']; cbn [snd] in *; [done | | done].
  etransitivity; [exact Hm | apply Hh].
Qed.
End rules.

Lemma keeps_lift {S X A} (R : relation S) (m : M S A) : keeps R m → keeps (fstR R) (lift (X := X) m).
Proof. intros Hm [s x]. specialize (Hm s). unfold lift, fstR. cbn [fst]. by destruct (m s). Qed.

Lemma keeps_zoom {S T A} (R : relation S) (RT : relation T) (get : S → T) (put : T → S → S) (m : M T A) :
  keeps RT m → (∀ s t, RT (get s) t → R s (put t s)) → keeps R (zoom get put m).
Proof. intros Hm Hp s. specialize (Hm (get s)). unfold zoom. destruct (m (get s)). by apply Hp. Qed.

Lemma keeps_local {S X A} (R : relation S) (loc : X) (m : M (S * X) A) :
  keeps (fstR R) m → keeps R (MembershipIndex.with_local loc m).
Proof.
  intros Hm s. specialize (Hm (s, loc)). unfold MembershipIndex.with_local, fstR in *.
  by destruct (m (s, loc)) as [[a | |] [s' x']].
Qed.

#[export] Hint Resolve keeps_ret keeps_fail keeps_crash keeps_reads keeps_of keeps_assert keeps_lift keeps_local : keeps.
#[export] Hint Extern 5 (PreOrder _) => apply _ : keeps.

(** Walks over a program; a call with a lemma is closed by it. *)
Ltac keeps_step :=
  first
    [ solve [eauto 4 with keeps nocore]
    | lazymatch goal with
      | |- keeps _ (bind _ _) => apply keeps_bind; [apply _ | | intros ?]
      | |- keeps _ (writes _) => apply keeps_writes; intros ?; unfold fstR; cbn [fst]; reflexivity
      | |- keeps _ (on_err _ _) => apply keeps_on_err; [apply _ | | intros ?; unfold fstR; cbn [fst]; reflexivity]
      | |- keeps _ (lift _) => apply keeps_lift
      | |- keeps _ (MembershipIndex.with_local _ _) => apply keeps_local
      | |- keeps _ (if decide ?P then _ else _) => destruct (decide P)
      | |- keeps _ (match ?x with _ => _ end) => destruct x
      | |- keeps _ (let x := _ in _) => cbv zeta
      end ].
Ltac keeps := repeat keeps_step.

(** ** The calls on the cache *)

Class Kept (St : Type) `{HP : !PageStore St} (R : relation St) := {
  kept_pre :: PreOrder R;
  kept_get : ∀ id, keeps R (ps_get id);
  kept_modify : ∀ id f, keeps R (ps_modify id f);
  kept_new : keeps R ps_new_page
}.

#[export] Hint Resolve kept_get kept_modify kept_new : keeps.
#[export] Hint Extern 5 (Kept _ _) => apply _ : keeps.

#[export] Instance kept_lift {St X} `{PageStore St} (R : relation St) `{!Kept St R} : Kept (St * X) (fstR R).
Proof. split; [apply _ | intros id; apply keeps_lift, kept_get | intros id f; apply keeps_lift, kept_modify | apply keeps_lift, kept_new]. Qed.

Section programs.
Context {St : Type} `{HX : Xxh3} `{HP : !PageStore St} (R : relation St) `{HK : !Kept St R}.

Lemma kept_copy src dst : keeps R (copy_page src dst).
Proof. unfold copy_page. keeps. Qed.

Lemma kept_push {X} (R' : relation X) `{!PreOrder R'} id : keeps (fstR R') (push_freed id).
Proof. unfold push_freed. keeps. Qed.

Lemma kept_check_at {S} (R' : relation S) `{!PreOrder R'} buf id l : keeps R' (RadixU64.check_type_at buf id l).
Proof. unfold RadixU64.check_type_at. keeps. Qed.

Lemma kept_fold_m {A B} (f : A → B → M St B) xs out : (∀ x y, keeps R (f x y)) → keeps R (RadixU64.fold_m f xs out).
Proof. intros Hf. revert out. induction xs as [| x xs IH]; intros out; cbn; keeps. Qed.

Lemma kept_fold_until {A B} limit (f : A → list B → M St (list B)) xs out :
  (∀ x y, keeps R (f x y)) → keeps R (RadixU64.fold_until limit f xs out).
Proof. intros Hf. revert out. induction xs as [| x xs IH]; intros out; cbn; keeps. Qed.

Lemma kept_any_m {A} (f : A → M St bool) xs : (∀ x, keeps R (f x)) → keeps R (RadixU64.any_m f xs).
Proof. intros Hf. induction xs as [| x xs IH]; cbn; keeps. Qed.

Lemma kept_concat {A B} (f : A → M St (list B)) xs : (∀ x, keeps R (f x)) → keeps R (HandleTable.concat_map_m f xs).
Proof. intros Hf. induction xs as [| x xs IH]; cbn; keeps. Qed.
End programs.
#[export] Hint Resolve kept_copy kept_push kept_check_at : keeps.

Lemma kept_guard {S} (R : relation S) `{!PreOrder R} i : keeps R (slice_guard i).
Proof. unfold slice_guard. keeps. Qed.
#[export] Hint Resolve kept_guard : keeps.

(** ** The handle table *)

Section handle_table.
Import HandleTable.
Context {St : Type} `{HX : Xxh3} `{HP : !PageStore St} (R : relation St) `{HK : !Kept St R}.

Lemma ht_find_loop_keeps l p r : keeps R (find_loop l p r).
Proof. revert p r. induction l as [| l IH]; intros p r; cbn [find_loop]; keeps. Qed.

Lemma ht_lookup_keeps self root h : keeps R (lookup self root h).
Proof. pose proof ht_find_loop_keeps. unfold lookup, find_leaf. keeps. Qed.

Lemma ht_create_keeps : keeps (fstR R) create_root.
Proof. unfold create_root. keeps. Qed.

Lemma ht_iter_keeps self root : keeps R (iter_live self root).
Proof.
  unfold iter_live. destruct (root =? PAGE_ID_NONE); [keeps |]. generalize 0. generalize root.
  induction (depth self) as [| l IH]; intros p b; cbn [iter_recursive]; keeps.
  apply kept_concat; [done |]. intros [i c]. auto.
Qed.

Lemma ht_recover_keeps root : keeps R (recover_depth root).
Proof.
  assert (Hr : ∀ fuel d p, keeps R (recover_loop fuel d p)).
  { induction fuel as [| fuel IH]; intros d p; cbn [recover_loop]; keeps. }
  unfold recover_depth. keeps.
Qed.

Variable alloc : M St Z.
Hypothesis Ha : keeps R alloc.

Lemma ht_insert_rec_keeps l p h e : keeps (fstR R) (insert_recursive alloc l p h e).
Proof. revert p h. induction l as [| l IH]; intros p h; cbn [insert_recursive]; keeps. Qed.

Lemma ht_grow_keeps r : keeps (fstR (fstR R)) (grow alloc r).
Proof. unfold grow. keeps. Qed.

Lemma ht_grow_loop_keeps fuel r h : keeps (fstR (fstR R)) (grow_loop alloc fuel r h).
Proof. pose proof ht_grow_keeps. revert r. induction fuel as [| fuel IH]; intros r; cbn [grow_loop]; keeps. Qed.

Lemma ht_insert_keeps root h e : keeps (fstR (fstR R)) (insert alloc root h e).
Proof. pose proof ht_grow_loop_keeps. pose proof ht_insert_rec_keeps. unfold insert. keeps. Qed.

Lemma ht_delete_keeps self root h : keeps (fstR R) (delete alloc self root h).
Proof.
  unfold delete. keeps. generalize h. generalize root.
  induction (depth self) as [| l IH]; intros p k; cbn [delete_recursive]; keeps.
Qed.
End handle_table.
#[export] Hint Resolve ht_lookup_keeps ht_create_keeps ht_iter_keeps ht_recover_keeps ht_insert_keeps ht_delete_keeps : keeps.

(** ** The membership index *)

Section membership.
Import RadixU64.
Context {St : Type} `{HX : Xxh3} `{HP : !PageStore St} (R : relation St) `{HK : !Kept St R}.

Lemma rx_lookup_keeps self root k : keeps R (lookup self root k).
Proof.
  assert (Hf : ∀ l p r, keeps R (find_loop l p r)) by (induction l as [| l IH]; intros p r; cbn [find_loop]; keeps).
  unfold lookup, find_leaf. keeps.
Qed.

Lemma rx_iter_keeps self root : keeps R (iter self root).
Proof.
  unfold iter. destruct (root =? PAGE_ID_NONE); [keeps |]. generalize (@nil (Z * Z)). generalize 0. generalize root.
  induction (depth self) as [| l IH]; intros p b out; cbn [iter_recursive]; keeps.
  apply kept_fold_m; [done |]. intros [i c]. auto.
Qed.

Lemma rx_bounded_keeps self root limit : keeps R (iter_bounded self root limit).
Proof.
  unfold iter_bounded. destruct (_ || _); [keeps |]. generalize (@nil (Z * Z)). generalize 0. generalize root.
  induction (depth self) as [| l IH]; intros p b out; cbn [iter_bounded_recursive]; keeps.
  apply kept_fold_until; [done |]. intros [i c]. auto.
Qed.

Lemma rx_any_keeps self root : keeps R (any_present self root).
Proof.
  unfold any_present. destruct (root =? PAGE_ID_NONE); [keeps |]. generalize root.
  induction (depth self) as [| l IH]; intros p; cbn [any_recursive]; keeps. by apply kept_any_m.
Qed.

Lemma rx_recover_keeps root : keeps R (recover_depth root).
Proof.
  assert (Hr : ∀ fuel d p, keeps R (recover_loop fuel d p)).
  { induction fuel as [| fuel IH]; intros d p; cbn [recover_loop]; keeps. }
  unfold recover_depth. keeps.
Qed.

Lemma rx_free_keeps d root : keeps (fstR R) (free_subtree d root).
Proof.
  revert root. induction d as [| d IH]; intros root; cbn [free_subtree]; keeps.
  apply kept_fold_m; [apply _ |]. auto.
Qed.

Variable alloc : M St Z.
Hypothesis Ha : keeps R alloc.

Lemma rx_init_keeps t : keeps R (init_page alloc t).
Proof. unfold init_page. keeps. Qed.

Lemma rx_create_keeps : keeps (fstR R) (create_root alloc).
Proof. pose proof rx_init_keeps. unfold create_root. keeps. Qed.

Lemma rx_insert_keeps root k v : keeps (fstR (fstR R)) (insert alloc root k v).
Proof.
  assert (Hg : ∀ fuel r, keeps (fstR (fstR R)) (grow_loop alloc fuel r k)).
  { induction fuel as [| fuel IH]; intros r; cbn [grow_loop]; unfold grow; keeps. }
  assert (Hi : ∀ l p k, keeps (fstR R) (insert_recursive alloc l p k v)).
  { induction l as [| l IH]; intros p k'; cbn [insert_recursive]; keeps. }
  unfold insert. keeps.
Qed.

Lemma rx_delete_keeps self root k : keeps (fstR R) (delete alloc self root k).
Proof.
  unfold delete. destruct (_ || _); [keeps |]. generalize k. generalize root.
  induction (depth self) as [| l IH]; intros p k'; cbn [delete_recursive]; keeps.
Qed.
End membership.
#[export] Hint Resolve rx_lookup_keeps rx_iter_keeps rx_bounded_keeps rx_any_keeps rx_recover_keeps rx_free_keeps
  rx_create_keeps rx_insert_keeps rx_delete_keeps : keeps.

Section index.
Import MembershipIndex.
Context {St : Type} `{HX : Xxh3} `{HP : !PageStore St} (R : relation St) `{HK : !Kept St R}.

Lemma mi_find_keeps o root tag : keeps R (find_inner o root tag).
Proof. unfold find_inner. keeps. Qed.
#[local] Hint Resolve mi_find_keeps : keeps.

Lemma mi_handles_keeps self root tag : keeps R (handles_for_tag self root tag).
Proof. unfold handles_for_tag. keeps. Qed.

Lemma mi_bounded_keeps self root tag limit : keeps R (handles_for_tag_bounded self root tag limit).
Proof. unfold handles_for_tag_bounded. keeps. Qed.

Lemma mi_pack_keeps {S} (R' : relation S) `{!PreOrder R'} root d : keeps R' (pack_inner root d).
Proof. unfold pack_inner. keeps. Qed.
#[local] Hint Resolve mi_pack_keeps : keeps.

Variable alloc : M St Z.
Hypothesis Ha : keeps R alloc.

Lemma mi_insert_keeps root tag h : keeps (fstR (fstR R)) (insert alloc root tag h).
Proof. unfold insert, insert_body. keeps. Qed.

Lemma mi_remove_keeps root tag h : keeps (fstR (fstR R)) (remove alloc root tag h).
Proof. unfold remove, remove_body. keeps. Qed.
End index.
#[export] Hint Resolve mi_handles_keeps mi_bounded_keeps mi_insert_keeps mi_remove_keeps : keeps.

(** ** The freemap tree *)

Section freemap.
Import FreeMapTree.
Context {St : Type} `{HX : Xxh3} `{HP : !PageStore St} (R : relation St) `{HK : !Kept St R}.

Lemma ft_check_keeps {S} (R' : relation S) `{!PreOrder R'} buf t id : keeps R' (check_type buf t id).
Proof. unfold check_type. keeps. Qed.

Lemma ft_depth_keeps {S} (R' : relation S) `{!PreOrder R'} self : keeps R' (check_depth self).
Proof. unfold check_depth. keeps. Qed.
#[local] Hint Resolve ft_check_keeps ft_depth_keeps : keeps.

Lemma ft_is_free_keeps self id : keeps R (is_free self id).
Proof.
  assert (Hf : ∀ l p r, keeps R (find_loop l p r)) by (induction l as [| l IH]; intros p r; cbn [find_loop]; keeps).
  unfold is_free, find_leaf. keeps.
Qed.

Lemma ft_scan_keeps self lo : keeps R (scan_from self lo).
Proof.
  assert (Hc : ∀ scan span base cs, (∀ c b, keeps R (scan c b)) → keeps R (scan_children scan span base lo cs)).
  { intros scan span base cs Hs. induction cs as [| [i c] cs IH]; cbn [scan_children]; keeps. }
  assert (Hn : ∀ l p b, keeps R (scan_node l p b lo)).
  { induction l as [| l IH]; intros p b; cbn [scan_node]; keeps. }
  unfold scan_from. keeps.
Qed.

Lemma ft_reachable_keeps self : keeps R (reachable_pages self).
Proof.
  assert (He : ∀ f cs set, (∀ c s, keeps R (f c s)) → keeps R (each f cs set)).
  { intros f cs set Hf. revert set. induction cs as [| c cs IH]; intros set; cbn [each]; keeps. }
  assert (Hc : ∀ l p set, keeps R (collect_reachable l p set)).
  { induction l as [| l IH]; intros p set; cbn [collect_reachable]; keeps. }
  unfold reachable_pages. keeps.
Qed.

Variable extend : M St Z.
Hypothesis He : keeps R extend.

Lemma ft_create_keeps : keeps R (create extend).
Proof. unfold create. keeps. Qed.

Lemma ft_cow_keeps p t : keeps (fstR R) (cow_node extend p t).
Proof. unfold cow_node. keeps. Qed.

Lemma ft_descend_keeps id op : keeps (fstR R) (cow_descend extend id op).
Proof.
  pose proof ft_cow_keeps.
  assert (Hd : ∀ l p r, keeps (fstR R) (descend_loop extend l p r op)).
  { induction l as [| l IH]; intros p r; cbn [descend_loop]; keeps. }
  unfold cow_descend. keeps.
Qed.

Lemma ft_mark_keeps id : keeps (fstR R) (mark_free_growing extend id).
Proof.
  pose proof (ft_descend_keeps id FreeMap.mark_free) as Hm.
  assert (Hg : ∀ fuel, keeps (fstR R) (grow_loop extend fuel id)).
  { induction fuel as [| fuel IH]; cbn [grow_loop]; unfold grow; keeps. }
  unfold mark_free_growing, mark_free. keeps.
Qed.

Lemma ft_allocate_keeps : keeps (fstR (fstR R)) (allocate_first extend).
Proof. pose proof ft_scan_keeps. pose proof ft_descend_keeps. unfold allocate_first, clear_bit. keeps. Qed.
End freemap.
#[export] Hint Resolve ft_is_free_keeps ft_reachable_keeps ft_create_keeps ft_mark_keeps ft_allocate_keeps : keeps.

(** ** Overflow chains *)

Section overflow.
Import Overflow.
Context {St : Type} `{HX : Xxh3} `{HP : !PageStore St} (R : relation St) `{HK : !Kept St R}.

Lemma ov_write_keeps value : keeps R (write value).
Proof.
  assert (Ha : ∀ n, keeps R (alloc_pages n)) by (induction n as [| n IH]; cbn [alloc_pages]; keeps).
  assert (Hw : ∀ ids i, keeps R (write_pages value i ids)) by (induction ids as [| id ids IH]; intros i; cbn [write_pages]; keeps).
  unfold write. keeps.
Qed.

Lemma ov_first_keeps id : keeps R (check_first id).
Proof. unfold check_first. keeps. Qed.
#[local] Hint Resolve ov_first_keeps : keeps.

Lemma ov_read_keeps id : keeps R (read id).
Proof.
  assert (Hl : ∀ n total p acc, keeps R (read_loop id total n p acc)).
  { induction n as [| n IH]; intros total p acc; cbn [read_loop]; keeps. }
  unfold read. keeps.
Qed.

Lemma ov_collect_keeps id : keeps R (collect_chain_pages id).
Proof.
  assert (Hl : ∀ n p acc, keeps R (collect_loop id n p acc)).
  { induction n as [| n IH]; intros p acc; cbn [collect_loop]; keeps. }
  unfold collect_chain_pages. keeps.
Qed.
End overflow.
#[export] Hint Resolve ov_write_keeps ov_read_keeps ov_collect_keeps : keeps.

(** ** The allocator and the packer *)

Class KeptReuse (St : Type) `{HP : !PageStore St} `{HR : !PageReuse St} `{HD : !DeferStore St} (R : relation St) := {
  reuse_kept :: Kept St R;
  kept_claim : ∀ id, keeps R (ps_claim id);
  kept_reclaim : ∀ id, keeps R (ps_reclaim id);
  kept_deferred : ∀ id f, keeps R (ps_modify_deferred id f)
}.
#[export] Hint Resolve kept_claim kept_reclaim kept_deferred : keeps.
#[export] Hint Extern 5 (KeptReuse _ _) => apply _ : keeps.

Section alloc.
Import TxnAlloc FreeMapTree.
Context {St : Type} `{HX : Xxh3} `{HP : !PageStore St} `{HR : !PageReuse St} `{HD : !DeferStore St}
  (R : relation St) `{HK : !KeptReuse St R}.

Lemma al_extend_keeps : keeps (fstR R) structural_extend.
Proof. unfold structural_extend. keeps. Qed.
#[local] Hint Resolve al_extend_keeps : keeps.

Lemma al_draw_keeps : keeps (fstR R) draw.
Proof. unfold draw. keeps. Qed.

Lemma al_cow_keeps b : keeps (fstR R) (cow_alloc b).
Proof.
  assert (Hd : keeps (fstR R) (zoom pool_part put_pool_part draw)).
  { eapply keeps_zoom; [apply al_draw_keeps |]. by intros [s e] [s' p']. }
  assert (Hf : keeps (fstR R) (zoom tree_part put_tree_part (allocate_first structural_extend))).
  { eapply keeps_zoom; [apply ft_allocate_keeps; eauto with keeps; apply _ |]. by intros [s e] [[[s' r'] t'] h']. }
  unfold cow_alloc, do_record. keeps.
Qed.

Lemma al_mark_keeps id : keeps (fstR (fstR R)) (mark_free_committed_path id).
Proof.
  eapply (keeps_zoom _ (fstR (fstR R))).
  - unfold mark_free_body. keeps.
  - intros [[s fm] roots] [[s' r'] t']. unfold fstR. by cbn.
Qed.

Lemma al_persist_keeps ids : keeps (fstR (fstR R)) (persist ids).
Proof. pose proof al_mark_keeps. induction ids as [| id ids IH]; cbn [persist]; keeps. Qed.

Lemma al_orphan_loop_keeps t skip ids acc : keeps R (orphan_loop t skip ids acc).
Proof.
  revert acc. induction ids as [| id ids IH]; intros acc; cbn [orphan_loop]; keeps.
  - intros s. pose proof (kept_get id s) as Hg. by destruct (ps_get id s) as [[a | [] | p] s'].
Qed.

Lemma al_orphans_keeps b n : keeps (fstR (fstR R)) (reclaim_orphans b n).
Proof. pose proof al_orphan_loop_keeps. pose proof al_persist_keeps. unfold reclaim_orphans. keeps. Qed.

End alloc.

(** The packer, which keeps its committed counts. *)
Section packer.
Import SlotPacker.
Context {St : Type} `{HX : Xxh3} `{HP : !PageStore St} `{HD : !DeferStore St} (R : relation St) `{HK : !Kept St R}.
Hypothesis Hdefer : ∀ id f, keeps R (ps_modify_deferred id f).

Definition packerR : relation (St * SlotPacker) := λ a b,
  R a.1 b.1 ∧ committed_live_slots b.2 = committed_live_slots a.2.

#[export] Instance packerR_pre : PreOrder packerR.
Proof.
  split; [by intros a; split; [reflexivity |] |]. intros a b c [H1 E1] [H2 E2]. split; [by etransitivity | congruence].
Qed.

Lemma pk_lift {A} (m : M St A) : keeps R m → keeps packerR (lift m).
Proof. intros Hm [s x]. specialize (Hm s). unfold lift. cbn [fst snd]. by destruct (m s). Qed.
#[local] Hint Resolve pk_lift : keeps.

Lemma pk_count_keeps id : keeps packerR (count_slot id).
Proof.
  intros [s x]. unfold count_slot, bind, reads, writes, assert_that. cbn [fst snd].
  destruct (_ <=? _); by split; [cbn; reflexivity |].
Qed.
#[local] Hint Resolve pk_count_keeps : keeps.

Lemma pk_insert_keeps alloc b value : keeps R alloc → keeps packerR (insert alloc b value).
Proof.
  intros Ha. pose proof kept_modify as Hm. unfold insert. apply keeps_bind; [apply _ | keeps | intros self].
  apply keeps_bind; [apply _ | |].
  - destruct (insert_cursor self) as [c |]; [| keeps]. apply keeps_bind; [apply _ | apply pk_lift, Hdefer | intros buf]. keeps.
  - intros [r |]; [keeps |]. apply keeps_bind; [apply _ | by apply pk_lift | intros id].
    apply keeps_bind; [apply _ | apply pk_lift, kept_modify | intros buf].
    destruct (DataPage.insert _ _) as [[slot buf'] |]; [| keeps]. apply keeps_bind; [apply _ | | intros []; keeps].
    destruct b; [| keeps]. apply keeps_writes. intros [s x]. by split; [cbn; reflexivity |].
Qed.
End packer.
#[export] Hint Resolve al_cow_keeps al_persist_keeps al_orphans_keeps : keeps.

#[export] Instance reuse_lift {St X} `{KeptReuse St R} : Kept (St * X) (fstR R) := kept_lift R.
