(* ===== verification/TxnKeeps.v ===== *)
(** * What a call of the manager keeps

    The state that only [begin], [commit] and [rollback] change, and any relation that
    the calls on the page cache keep, through every other operation of
    [src/transaction]. *)

From S2P Require Export Keeps.

Module TxnKeeps.
Import TxnAlloc Txn TxnOps TxnCommit.

(** What a transaction leaves alone of the freemap's recycling, of the packer and of
    the manager. *)
Definition fixed_recycle (fm : FreemapRecycle) : Z * list Z := (hint_at_begin fm, pending_structural_frees fm).

Record held_fields {St} (K : Z → Prop) (a b : TransactionManager St) : Prop := {
  hf_committed : committed_roots b = committed_roots a;
  hf_counter : txn_counter b = txn_counter a;
  hf_count : superblock_count b = superblock_count a;
  hf_active : active_txn b = active_txn a;
  hf_poisoned : poisoned b = poisoned a;
  hf_cipher : cipher b = cipher a;
  hf_header : crypto_header b = crypto_header a;
  hf_slots : SlotPacker.committed_live_slots (packer b) = SlotPacker.committed_live_slots (packer a);
  hf_recycle : fixed_recycle (freemap b) = fixed_recycle (freemap a);
  (** A new savepoint has a mark that satisfies [K]. *)
  hf_marks : ∀ sp, sp ∈ savepoints b → sp ∈ savepoints a ∨ K (sp_watermark sp)
}.

#[export] Instance held_pre {St} (K : Z → Prop) : PreOrder (@held_fields St K).
Proof.
  split; [intros a; split; first [reflexivity | by left] |]. intros a b c [] [? ? ? ? ? ? ? ? ? Hm]. split; [congruence.. |].
  intros sp [? | ?]%Hm; auto.
Qed.

(** Closes a goal on an assignment to another part of the manager. *)
Ltac held :=
  split; [cbn; first [assumption | reflexivity] | split; cbn; first [reflexivity | assumption | intros ? ?; left; assumption]].

Section keeps.
Context {St : Type} `{HX : Xxh3} `{HP : !PageStore St} `{HR : !PageReuse St} `{HD : !DeferStore St}
  (R : relation St) `{HK : !KeptReuse St R} (K : Z → Prop).
Abbreviation TM := (TransactionManager St).

(** ** The allocator's part *)

Definition envR : relation (St * AllocEnv) := λ a b,
  R a.1 b.1 ∧ fixed_recycle (TxnAlloc.freemap b.2) = fixed_recycle (TxnAlloc.freemap a.2).

#[export] Instance envR_pre : PreOrder envR.
Proof.
  split; [by intros [s e]; split; [reflexivity |] |]. intros a b c [H1 E1] [H2 E2]. split; [by etransitivity | congruence].
Qed.

Lemma env_lift {A} (m : M St A) : keeps R m → keeps envR (lift m).
Proof. intros Hm [s e]. specialize (Hm s). unfold lift. cbn [fst snd]. by destruct (m s). Qed.

#[export] Instance envR_kept : Kept (St * AllocEnv) envR.
Proof.
  split; [apply _ | intros id; apply env_lift, kept_get | intros id f; apply env_lift, kept_modify | apply env_lift, kept_new].
Qed.

Lemma env_deferred id f : keeps envR (ps_modify_deferred id f).
Proof. apply env_lift, kept_deferred. Qed.

Lemma env_cow b : keeps envR (cow_alloc b).
Proof.
  assert (Hd : keeps envR (zoom pool_part put_pool_part draw)).
  { eapply keeps_zoom; [apply (al_draw_keeps R) |]. by intros [s e] [s' p'] H. }
  assert (Hf : keeps envR (zoom tree_part put_tree_part (FreeMapTree.allocate_first structural_extend))).
  { eapply (keeps_zoom _ (fstR (fstR (fstR R)))); [apply ft_allocate_keeps; [apply _ | apply (al_extend_keeps R)] |].
    by intros [s e] [[[s' r'] t'] h'] H. }
  assert (Hc : ∀ id, keeps envR (lift (ps_claim id))) by (intros id; apply env_lift, kept_claim).
  assert (Hn : keeps envR (lift ps_new_page)) by apply env_lift, kept_new.
  assert (Hw : ∀ id, keeps envR (do_record id)) by (intros id [s e]; split; [cbn; reflexivity | done]).
  unfold cow_alloc. keeps.
Qed.

(** ** The manager *)

Definition txnR : relation TM := λ a b, R (cache a) (cache b) ∧ held_fields K a b.

#[export] Instance txnR_pre : PreOrder txnR.
Proof.
  split; [by intros a; split; reflexivity |]. intros a b c [H1 E1] [H2 E2]. split; by etransitivity.
Qed.

Lemma txn_cache {A} (m : M St A) : keeps R m → keeps txnR (on_cache m).
Proof. intros Hm. eapply keeps_zoom; [exact Hm |]. intros s t Ht. held. Qed.

Lemma txn_roots f : keeps txnR (on_roots f).
Proof. intros s. held. Qed.

(** What the allocation closure borrowed is put back. *)
Lemma txn_put (self : TM) t : envR (alloc_part self) t → txnR self (put_alloc_part t self).
Proof. intros [H E]. held. Qed.

Lemma txn_alloc {X A} (get : TM → X) (put : X → TM → TM) (m : M (St * AllocEnv * X) A) :
  keeps (fstR envR) m → (∀ x self, txnR self (put x self)) →
  keeps txnR (zoom (λ self, (alloc_part self, get self)) (λ t self, put t.2 (put_alloc_part t.1 self)) m).
Proof.
  intros Hm Hp. eapply keeps_zoom; [exact Hm |]. intros s t Ht. etransitivity; [by apply txn_put | apply Hp].
Qed.

Lemma txn_retire freed : keeps txnR (retire_superseded freed).
Proof.
  unfold retire_superseded. apply keeps_bind; [apply _ | apply keeps_reads; apply _ | intros b].
  eapply (keeps_zoom _ (λ _ _, True)); [by intros s |]. intros s t _. held.
Qed.

Lemma txn_release id (self : TM) : txnR self (release_data_slot id self).
Proof.
  unfold release_data_slot, SlotPacker.release. destruct (_ !! _) as [n |]; [destruct (_ =? 0) |]; held.
Qed.

#[local] Hint Resolve txn_cache txn_roots txn_retire txn_release env_cow : keeps.

(** ** Reading *)

Lemma txn_need : keeps txnR need_txn.
Proof. unfold need_txn. keeps. Qed.
#[local] Hint Resolve txn_need : keeps.

Lemma txn_lookup h : keeps txnR (lookup_live h).
Proof. unfold lookup_live. keeps. Qed.
#[local] Hint Resolve txn_lookup : keeps.

Lemma txn_read h : keeps txnR (read_inner h).
Proof. unfold read_inner. keeps. Qed.

(** ** Writing *)

Lemma txn_insert_page value : keeps txnR (insert_into_data_page value).
Proof.
  unfold insert_into_data_page. apply keeps_bind; [apply _ | keeps | intros b]. apply keeps_bind; [apply _ | keeps | intros b'].
  eapply (keeps_zoom _ (packerR envR)).
  - apply pk_insert_keeps; [apply _ | apply env_deferred | apply env_cow].
  - intros self [t x] [Ht Hx]. etransitivity; [by apply txn_put |]. held.
Qed.

Lemma txn_ensure : keeps txnR ensure_handle_table.
Proof.
  unfold ensure_handle_table. keeps. eapply (keeps_zoom _ (fstR R)); [apply ht_create_keeps; apply _ |].
  intros self [s x] H. held.
Qed.

(** A candidate root: the tree of the freemap is taken and put back around the call. *)
Lemma txn_candidate {X A} (get : TM → X) (put : X → TM → TM) (m : M (St * AllocEnv * list Z * X) A) :
  keeps (fstR (fstR envR)) m → (∀ x self, txnR self (put x self)) →
  keeps (fstR txnR) (zoom (λ sx, (alloc_part sx.1, sx.2, get sx.1))
    (λ t sx, (put t.2 (put_alloc_part t.1.1 sx.1), t.1.2)) m).
Proof.
  intros Hm Hp. eapply keeps_zoom; [exact Hm |]. intros [self fr] [[t fr'] x] Ht. unfold fstR in *. cbn [fst snd] in *.
  etransitivity; [by apply txn_put | apply Hp].
Qed.

Lemma txn_ht_candidate h e : keeps (fstR txnR) (handle_table_insert_candidate h e).
Proof.
  unfold handle_table_insert_candidate. apply keeps_bind; [apply _ | keeps | intros self].
  apply (txn_candidate handle_table set_handle_table); [apply ht_insert_keeps; [apply _ | apply env_cow] |].
  intros x s. held.
Qed.

Lemma txn_mi_candidate tag h : keeps (fstR txnR) (membership_insert_candidate tag h).
Proof.
  unfold membership_insert_candidate. apply keeps_bind; [apply _ | keeps | intros self].
  apply (txn_candidate membership_index set_membership_index); [apply mi_insert_keeps; [apply _ | apply env_cow] |].
  intros x s. held.
Qed.

Lemma txn_mi_remove tag h : keeps (fstR txnR) (membership_remove_candidate tag h).
Proof.
  unfold membership_remove_candidate. apply keeps_bind; [apply _ | keeps | intros self].
  apply (txn_candidate membership_index set_membership_index); [apply mi_remove_keeps; [apply _ | apply env_cow] |].
  intros x s. held.
Qed.

Lemma txn_ht_delete h : keeps (fstR txnR) (handle_table_delete_candidate h).
Proof.
  unfold handle_table_delete_candidate. apply keeps_bind; [apply _ | keeps | intros self].
  eapply (keeps_zoom _ (fstR envR)); [apply ht_delete_keeps; [apply _ | apply env_cow] |].
  intros [s fr] [t fr'] Ht. by apply txn_put.
Qed.
#[local] Hint Resolve txn_insert_page txn_ensure txn_ht_candidate txn_mi_candidate txn_mi_remove txn_ht_delete : keeps.

Lemma txn_place value tag cb : keeps txnR (place_value value tag cb).
Proof. unfold place_value. keeps. Qed.

Lemma txn_abort root d p (self : TM) : txnR self (abort_allocate_prepare root d p self).
Proof.
  unfold abort_allocate_prepare. destruct p as [p |].
  - etransitivity; [| apply txn_release]. held.
  - held.
Qed.
#[local] Hint Resolve txn_place txn_abort : keeps.

Lemma txn_on_err {A} (m : M TM A) h : keeps txnR m → (∀ s, txnR s (h s)) → keeps txnR (on_err m h).
Proof. apply keeps_on_err, _. Qed.
#[local] Hint Resolve txn_on_err : keeps.

Lemma txn_allocate value tag : keeps txnR (allocate_inner value tag).
Proof. unfold allocate_inner. keeps. Qed.

Lemma txn_writes_release id : keeps txnR (writes (release_data_slot id)).
Proof. intros s. apply txn_release. Qed.
#[local] Hint Resolve txn_writes_release txn_allocate : keeps.

Lemma txn_do_release r : keeps txnR (do_release r).
Proof.
  unfold do_release. destruct r; [keeps |]. intros s. held.
Qed.
#[local] Hint Resolve txn_do_release : keeps.

Lemma txn_update h value : keeps txnR (update_inner h value).
Proof.
  unfold update_inner. apply keeps_bind; [apply _ | keeps | intros []]. apply keeps_bind; [apply _ | keeps | intros e].
  apply keeps_bind; [apply _ | keeps | intros [e' p]].
  assert (Hu : ∀ s : TM, txnR s (match p with Some id => release_data_slot id s | None => s end)).
  { intros s. destruct p; [apply txn_release | reflexivity]. }
  apply keeps_bind; [apply _ | keeps | intros self]. apply keeps_bind; [apply _ | apply txn_on_err; [keeps | exact Hu] | intros [r fr]].
  apply keeps_bind; [apply _ | | intros old; keeps]. destruct (HandleTable.flags e); [keeps | keeps |].
  apply keeps_bind; [apply _ | | intros fr'; keeps]. apply txn_on_err; [keeps |].
  intros s. etransitivity; [apply Hu |]. held.
Qed.

Lemma txn_delete h : keeps txnR (delete_inner h).
Proof. unfold delete_inner. keeps. Qed.
#[local] Hint Resolve txn_update txn_delete : keeps.

Lemma txn_delete_each hs : keeps txnR (delete_each hs).
Proof. induction hs as [| h hs IH]; cbn [delete_each]; keeps. Qed.

Lemma txn_ht_insert h e : keeps txnR (ht_insert h e).
Proof. unfold ht_insert. keeps. Qed.

Lemma txn_drain : keeps txnR drain_pool.
Proof. intros s. held. Qed.

(** The writes to the savepoint stack and to the lists of pages. *)
Lemma txn_set_savepoints n : keeps txnR (writes (λ self : TM, set_savepoints (take n (savepoints self)) self)).
Proof.
  intros s. split; [cbn; reflexivity | split; cbn; try reflexivity]. intros sp Hsp. left. by eapply elem_of_take in Hsp as (? & ? & _); eapply list_elem_of_lookup_2.
Qed.
Lemma txn_set_freed x : keeps txnR (writes (set_txn_freed_pages x)).
Proof. intros s. held. Qed.
Lemma txn_set_roots x : keeps txnR (writes (set_current_roots x)).
Proof. intros s. held. Qed.
Lemma txn_set_index x : keeps txnR (writes (set_membership_index x)).
Proof. intros s. held. Qed.
Lemma txn_set_table x : keeps txnR (writes (set_handle_table x)).
Proof. intros s. held. Qed.
#[local] Hint Resolve txn_delete_each txn_ht_insert txn_drain txn_set_savepoints txn_set_freed txn_set_roots txn_set_index txn_set_table : keeps.

Lemma txn_recover : keeps txnR recover_depths.
Proof. unfold recover_depths. keeps. Qed.
#[local] Hint Resolve txn_recover : keeps.

Lemma txn_savepoint name (self : TM) : K (cache_watermark self) → txnR self (savepoint_inner name self).2.
Proof.
  intros Hk. unfold savepoint_inner, need_txn, bind, reads. cbn [id]. destruct (active_txn self); [| reflexivity]. cbn [ret].
  destruct (existsb _ _); [reflexivity |]. cbn. split; [cbn; reflexivity | split; cbn; try reflexivity].
  intros sp [Hsp | ->%list_elem_of_singleton]%elem_of_app; [by left | by right].
Qed.

Lemma txn_release_savepoint name : keeps txnR (release_inner name).
Proof. unfold release_inner. keeps. Qed.

Lemma txn_restore `{!TxnCache St} idx sp : keeps R (tc_truncate (sp_watermark sp)) → keeps txnR (restore_savepoint idx sp).
Proof.
  intros Ht. unfold restore_savepoint.
  apply keeps_bind; [apply _ | by apply txn_cache | intros []]. do 2 (apply keeps_bind; [apply _ | keeps | intros []]).
  apply keeps_bind; [apply _ | | intros []]; [intros s; held |].
  apply keeps_bind; [apply _ | | intros []]; [intros s; held |].
  keeps.
Qed.

(** Given that the relation is kept by [truncate] at the savepoint's mark. *)
Lemma txn_rollback_to `{!TxnCache St} name (self : TM) :
  (∀ sp, sp ∈ savepoints self → keeps R (tc_truncate (sp_watermark sp))) → txnR self (rollback_to_inner name self).2.
Proof.
  intros Ht. unfold rollback_to_inner, need_txn, bind, reads. cbn [id]. destruct (active_txn self); [| reflexivity]. cbn [ret].
  destruct (position _ _) as [idx |]; [| reflexivity]. destruct (savepoints self !! idx) as [sp |] eqn:E; [| reflexivity].
  apply txn_restore, Ht. by eapply list_elem_of_lookup_2.
Qed.

Lemma txn_set_name n h : keeps txnR (set_root_name_inner n h).
Proof. unfold set_root_name_inner. keeps. Qed.

Lemma txn_clear_name n : keeps txnR (clear_root_name_inner n).
Proof. unfold clear_root_name_inner. keeps. Qed.

Lemma txn_get_name n : keeps txnR (get_root_name_inner n).
Proof. unfold get_root_name_inner. keeps. Qed.
End keeps.
#[export] Hint Resolve txn_cache txn_roots txn_retire txn_need txn_lookup txn_read txn_allocate txn_update txn_delete txn_delete_each
  txn_ht_insert txn_release_savepoint txn_set_name txn_clear_name txn_get_name : keeps.
End TxnKeeps.
