(* ===== verification/TxnGuards.v ===== *)
(** * The guards of the manager's interface

    Every public call of the transaction manager as one step ([run_call]), and what
    holds of each of them: a poisoned manager refuses every call and never recovers, a
    fatal error poisons it and no other error does, except that any failure of a commit
    does; calls that need a transaction are refused outside one, without effect. *)

From S2P Require Export TxnKeeps.

Module TxnGuards.
Import TxnAlloc Txn TxnOps TxnCommit TxnKeeps.

Inductive Call :=
  | CBegin | CCommit | CRollback
  | CSavepoint (name : string) | CRollbackTo (name : string) | CRelease (name : string)
  | CAllocate (value : list Z) | CAllocateTagged (value : list Z) (tag : Z)
  | CUpdate (handle : Z) (value : list Z)
  | CDelete (handle : Z) | CDeleteTagged (handle tag : Z) | CDeleteWithTag (tag max : Z) | CDeleteMany (handles : list Z)
  | CRead (handle : Z) | CTag (handle : Z) | CClientByte (handle : Z) | CSetClientByte (handle byte : Z)
  | CHandles | CHandlesWithTag (tag : Z)
  | CSetRoot (name : string) (handle : Z) | CGetRoot (name : string) | CClearRoot (name : string)
  | CReclaimOrphans
  | CCacheMax (bytes : Z) | CSpillwayMax (bytes : Z) | CDrain (policy : PageCache.DrainInsertion).

Inductive Reply :=
  | RUnit | RNum (n : Z) | RBytes (l : list Z) | RHandles (l : list Z) | RDeleted (l : list Z) (complete : bool)
  | RRoot (h : option Z).

Section calls.
Context {St : Type} `{HX : Xxh3} `{HO : HashOrder} `{HC : Primitives}
  `{HP : !PageStore St} `{HR : !PageReuse St} `{HD : !DeferStore St} `{HT : !TxnCache St}.
Abbreviation TM := (TransactionManager St).

Definition reply {A} (f : A → Reply) (m : M TM A) : M TM Reply := let* a := m in ret (f a).
Abbreviation done_ m := (reply (λ _ : unit, RUnit) m).

Definition run_call (c : Call) : M TM Reply :=
  match c with
  | CBegin => done_ begin_txn
  | CCommit => done_ commit_txn
  | CRollback => done_ rollback
  | CSavepoint n => done_ (savepoint n)
  | CRollbackTo n => done_ (rollback_to n)
  | CRelease n => done_ (release n)
  | CAllocate v => reply RNum (allocate v)
  | CAllocateTagged v t => reply RNum (allocate_tagged v t)
  | CUpdate h v => done_ (update h v)
  | CDelete h => done_ (delete h)
  | CDeleteTagged h t => done_ (delete_tagged h t)
  | CDeleteWithTag t n => reply (λ '(l, b), RDeleted l b) (delete_with_tag t n)
  | CDeleteMany hs => done_ (delete_many hs)
  | CRead h => reply RBytes (read h)
  | CTag h => reply RNum (tag_of h)
  | CClientByte h => reply RNum (client_byte_of h)
  | CSetClientByte h b => done_ (set_client_byte h b)
  | CHandles => reply RHandles handles
  | CHandlesWithTag t => reply RHandles (handles_with_tag t)
  | CSetRoot n h => done_ (set_root_name n h)
  | CGetRoot n => reply RRoot (get_root_name n)
  | CClearRoot n => done_ (clear_root_name n)
  | CReclaimOrphans => reply RNum reclaim_freemap_orphans
  | CCacheMax n => done_ (set_cache_max_bytes n)
  | CSpillwayMax n => done_ (set_spillway_max_bytes n)
  | CDrain p => done_ (set_drain_insertion p)
  end.

(** The calls that write to the transaction under way. *)
Definition needs_txn (c : Call) : bool :=
  match c with
  | CCommit | CRollback | CSavepoint _ | CRollbackTo _ | CRelease _ | CAllocate _ | CAllocateTagged _ _ | CUpdate _ _
  | CDelete _ | CDeleteTagged _ _ | CDeleteWithTag _ _ | CDeleteMany _ | CSetClientByte _ _ | CSetRoot _ _
  | CClearRoot _ | CReclaimOrphans => true
  | _ => false
  end.

Definition needs_idle (c : Call) : bool :=
  match c with CCacheMax _ | CSpillwayMax _ | CDrain _ => true | _ => false end.

(** Which errors of a call poison the manager. *)
Definition poisons (c : Call) (active : bool) (e : ChiselError) : bool :=
  match c with
  | CCommit => active
  | CCacheMax _ | CSpillwayMax _ | CDrain _ => false
  | _ => is_fatal e
  end.

Lemma reply_run {A} (f : A → Reply) (m : M TM A) self :
  reply f m self = match m self with (Ok a, s) => (Ok (f a), s) | (Err e, s) => (Err e, s) | (Panic p, s) => (Panic p, s) end.
Proof. done. Qed.

Lemma reads_run {A B} (f : TM → A) (k : A → M TM B) self : bind (reads f) k self = k (f self) self.
Proof. done. Qed.

Lemma guarded_dead {A} (m : M TM A) self : poisoned self = true → guarded m self = (Err Poisoned, self).
Proof. intros H. unfold guarded, bind, check_alive, bind, reads. by rewrite H. Qed.

Lemma alive_dead {A} (k : unit → M TM A) self : poisoned self = true → bind check_alive k self = (Err Poisoned, self).
Proof. intros H. unfold bind, check_alive, bind, reads. by rewrite H. Qed.

Lemma alive_run {A} (k : unit → M TM A) self : poisoned self = false → bind check_alive k self = k tt self.
Proof. intros H. unfold bind, check_alive, bind, reads. by rewrite H. Qed.

Lemma need_run {A} (k : unit → M TM A) self :
  bind need_txn k self = if active_txn self then k tt self else (Err NoActiveTransaction, self).
Proof. unfold bind, need_txn, bind, reads. by destruct (active_txn self). Qed.

Lemma idle_run {A} (k : unit → M TM A) self :
  bind need_idle k self =
    if poisoned self then (Err Poisoned, self) else if active_txn self then (Err TransactionInProgress, self) else k tt self.
Proof. unfold need_idle, bind, check_alive, bind, reads. destruct (poisoned self); [done |]. cbn. by destruct (active_txn self). Qed.

(** Down to the guard of the call. *)
Ltac expose :=
  cbn [run_call]; rewrite ?reply_run;
  unfold begin_txn, commit_txn, rollback, savepoint, rollback_to, release, allocate, allocate_tagged, update, delete,
    delete_tagged, delete_with_tag, delete_many, read, tag_of, client_byte_of, set_client_byte, handles, handles_with_tag,
    set_root_name, get_root_name, clear_root_name, reclaim_freemap_orphans, set_cache_max_bytes, set_spillway_max_bytes,
    set_drain_insertion.

Lemma call_dead c self : poisoned self = true → run_call c self = (Err Poisoned, self).
Proof.
  intros H. destruct c; expose; first [by rewrite guarded_dead | by rewrite alive_dead | by rewrite idle_run, H].
Qed.

(** Outside a transaction. *)
Lemma call_idle c self :
  poisoned self = false → active_txn self = false → needs_txn c = true → run_call c self = (Err NoActiveTransaction, self).
Proof.
  intros H Ha Hc. destruct c; try done; expose; unfold guarded; rewrite alive_run by done;
    unfold poison_on_fatal, rollback_inner, savepoint_inner, rollback_to_inner, release_inner, allocate_inner, update_inner,
      delete_inner, set_root_name_inner, clear_root_name_inner;
    rewrite need_run, Ha; done.
Qed.

(** ** Poisoning *)

Definition poisonR : relation TM := λ a b, poisoned b = poisoned a.

#[export] Instance poisonR_pre : PreOrder poisonR.
Proof. split; [by intros a |]. unfold poisonR. intros a b c -> ->. done. Qed.

(** Nothing is asked of the cache. *)
#[local] Instance any_kept : KeptReuse St (λ _ _, True).
Proof. by repeat split. Qed.

Abbreviation anyR := (txnR (St := St) (λ _ _, True) (λ _, True)).

Lemma txn_poison {A} (m : M TM A) : keeps anyR m → keeps poisonR m.
Proof. intros Hm s. apply (Hm s). Qed.

Lemma poison_cache {A} (m : M St A) : keeps poisonR (on_cache m).
Proof. intros s. unfold on_cache, zoom. by destruct (m (cache s)). Qed.

Lemma poison_zoom {T A} (get : TM → T) (put : T → TM → TM) (m : M T A) :
  (∀ t s, poisoned (put t s) = poisoned s) → keeps poisonR (zoom get put m).
Proof. intros Hp s. unfold zoom. destruct (m (get s)). apply Hp. Qed.

(** A step that is an assignment, or one of the calls above. *)
Ltac poison_step :=
  first [apply poison_cache | by apply poison_zoom | by apply keeps_writes | keeps_step].

Lemma poison_begin : keeps poisonR begin_inner.
Proof. unfold begin_inner. repeat poison_step. Qed.

Lemma poison_rollback : keeps poisonR rollback_inner.
Proof.
  pose proof (txn_poison _ (txn_recover (λ _ _, True) (λ _, True))). unfold rollback_inner, need_txn. repeat poison_step.
Qed.

Lemma poison_commit : keeps poisonR run_commit.
Proof.
  unfold run_commit, drain_pool, persist_freed, superblock_image, write_slot. repeat poison_step.
Qed.

(** ** One call *)

(** How the poison flag of a live manager changes. *)
Definition flags_ok (c : Call) (self : TM) (r : outcome Reply) (self' : TM) : Prop :=
  poisoned self' = match r with Err e => poisons c (active_txn self) e | _ => false end.

Lemma guarded_flags {A} (m : M TM A) self :
  poisoned self = false → keeps poisonR m →
  poisoned (guarded m self).2 = match (guarded m self).1 with Err e => is_fatal e | _ => false end.
Proof.
  intros H Hm. unfold guarded. rewrite alive_run by done. specialize (Hm self). unfold poison_on_fatal, poisonR in *.
  destruct (m self) as [[a | e | p] s]; cbn [fst snd] in *; [congruence | | congruence]. destruct (is_fatal e); [done | cbn; congruence].
Qed.

(** The same of the reply. *)
Lemma reply_flags {A} (f : A → Reply) (m : M TM A) self :
  poisoned self = false → keeps poisonR m →
  poisoned (reply f (guarded m) self).2 = match (reply f (guarded m) self).1 with Err e => is_fatal e | _ => false end.
Proof.
  intros H Hm. pose proof (guarded_flags m self H Hm) as Hf. rewrite reply_run. by destruct (guarded m self) as [[] s].
Qed.

Lemma txn_flags {A} (f : A → Reply) (m : M TM A) self :
  poisoned self = false → keeps anyR m →
  poisoned (reply f (guarded m) self).2 = match (reply f (guarded m) self).1 with Err e => is_fatal e | _ => false end.
Proof. intros H Hm. by apply reply_flags, txn_poison. Qed.

Lemma commit_flags self :
  poisoned self = false →
  poisoned (commit_txn self).2 = match (commit_txn self).1 with Err _ => active_txn self | _ => false end.
Proof.
  intros H. unfold commit_txn. rewrite alive_run, need_run by done. destruct (active_txn self); [| done].
  pose proof (poison_commit self) as Hc. unfold poisonR, on_err in *. destruct (run_commit self) as [[] s]; cbn in *; congruence.
Qed.

Lemma reclaim_flags self :
  poisoned self = false →
  poisoned (reclaim_freemap_orphans self).2 = match (reclaim_freemap_orphans self).1 with Err e => is_fatal e | _ => false end.
Proof.
  intros H. unfold reclaim_freemap_orphans. rewrite alive_run, need_run by done. destruct (active_txn self); [| done].
  unfold bind, reads, poison_on_fatal, zoom. destruct (reclaim_orphans _ _ _) as [[a | e | p] t]; cbn [fst snd]; [done | | done].
  by destruct (is_fatal e).
Qed.

Lemma config_flags {A} (m : M TM A) self : keeps poisonR m → poisoned self = false →
  poisoned (bind need_idle (λ _, m) self).2 = false.
Proof.
  intros Hm H. rewrite idle_run, H. destruct (active_txn self); [done |]. specialize (Hm self). unfold poisonR in Hm. congruence.
Qed.

Lemma call_flags c self : poisoned self = false → flags_ok c self (run_call c self).1 (run_call c self).2.
Proof.
  intros H. unfold flags_ok. destruct c; cbn [run_call poisons];
    try (apply txn_flags; [done |]; keeps; fail); try (apply reply_flags; [done |]; auto using poison_begin, poison_rollback; fail).
  - pose proof (commit_flags self H) as Hc. rewrite reply_run. by destruct (commit_txn self) as [[] s].
  - apply txn_flags; [done |]. intros s. by apply txn_savepoint.
  - apply txn_flags; [done |]. intros s. by apply txn_rollback_to.
  - pose proof (reclaim_flags self H) as Hc. rewrite reply_run. by destruct (reclaim_freemap_orphans self) as [[] s].
  - pose proof (config_flags (on_cache (tc_set_cache_max_bytes bytes)) self (poison_cache _) H) as Hc.
    rewrite reply_run. unfold set_cache_max_bytes in *. by destruct (bind need_idle _ self) as [[] s].
  - rewrite reply_run. unfold set_spillway_max_bytes. rewrite idle_run, H. by destruct (active_txn self).
  - rewrite reply_run. unfold set_drain_insertion. rewrite idle_run, H. by destruct (active_txn self).
Qed.

(** C10 Poisoning.  A poisoned manager answers every call with [Poisoned] and is not
    changed by it.  A live one is poisoned by a call exactly when the call returns a
    fatal error, or is a commit that was begun and failed with any error; calls that
    change a setting never poison it.  So a manager is poisoned from its first fatal
    error on, for good. *)
Theorem poison_exact c self r self' :
  run_call c self = (r, self') →
  (poisoned self = true → r = Err Poisoned ∧ self' = self) ∧
  (poisoned self = false → poisoned self' = match r with Err e => poisons c (active_txn self) e | _ => false end).
Proof.
  intros E. split; intros H.
  - rewrite call_dead in E by done. by injection E as <- <-.
  - pose proof (call_flags c self H) as Hf. unfold flags_ok in Hf. by rewrite E in Hf.
Qed.

(** C11 The transaction guards.  On a live manager outside a transaction, every call that
    writes is refused with [NoActiveTransaction]; inside one, [begin] is refused with
    [TransactionAlreadyActive] and a change of settings with [TransactionInProgress]; on
    a file opened for reading [begin] is refused with [ReadOnlyMode].  A refused call
    changes nothing. *)
Theorem calls_guarded c self :
  poisoned self = false →
  (active_txn self = false → needs_txn c = true → run_call c self = (Err NoActiveTransaction, self)) ∧
  (active_txn self = true → needs_idle c = true → run_call c self = (Err TransactionInProgress, self)) ∧
  (tc_read_only (cache self) = true → run_call CBegin self = (Err ReadOnlyMode, self)) ∧
  (tc_read_only (cache self) = false → active_txn self = true → run_call CBegin self = (Err TransactionAlreadyActive, self)).
Proof.
  intros H. ands.
  - by apply call_idle.
  - intros Ha Hc. destruct c; try done; expose; by rewrite idle_run, H, Ha.
  - intros Hr. expose. unfold guarded. rewrite alive_run by done. unfold poison_on_fatal, begin_inner. by rewrite reads_run; cbn [id]; rewrite Hr.
  - intros Hr Ha. expose. unfold guarded. rewrite alive_run by done. unfold poison_on_fatal, begin_inner.
    by rewrite reads_run; cbn [id]; rewrite Hr, Ha.
Qed.
End calls.
End TxnGuards.
