(* ===== verification/TxnFile.v ===== *)
(** * A transaction does not write the committed pages

    Between two commits the manager changes nothing of the page file below the committed
    page count, whatever it is asked to do and however the calls end: dirty pages are
    spilled to the side file, and a truncation stops at the committed end. *)

From S2P Require Export CacheProps NamedRoots TxnGuards.

Module TxnFile.
Import TxnAlloc Txn TxnOps TxnCommit TxnKeeps TxnGuards.

(** ** The calls on the cache do not write the page file *)

Section cache.
Import PageCache CacheStore CacheReuse.
Context `{HX : Xxh3} `{HO : HashOrder} `{HC : Primitives}.

Definition file_bytes (c : PageCache) : list Z := Backing.bytes (PageIo.backing (io c)).

(** The file is the same, and page ids only grow. *)
Record fileR (c c' : PageCache) : Prop := {
  fl_bytes : file_bytes c' = file_bytes c;
  fl_stride : PageIo.stride (io c') = PageIo.stride (io c);
  fl_count : PageIo.cached_page_count (io c') = PageIo.cached_page_count (io c);
  fl_cipher : PageCache.cipher c' = PageCache.cipher c;
  fl_next : next_page_id c ≤ next_page_id c'
}.

#[export] Instance fileR_pre : PreOrder fileR.
Proof. split; [by intros c |]. intros a b c [] []. split; [congruence | congruence | congruence | congruence | lia]. Qed.

Lemma file_spillway {A} (m : M Spillway.Spillway A) : keeps fileR (on_spillway m).
Proof. intros c. unfold on_spillway. destruct (spillway c) as [spw |]; [| reflexivity]. by destruct (m spw). Qed.

(** Reading asks the operating system and changes nothing. *)
Lemma file_read off n short :
  (∀ b, Backing.bytes (short b).2 = Backing.bytes b) → ∀ b, Backing.bytes (Backing.read_at off n short b).2 = Backing.bytes b.
Proof.
  intros Hs b. unfold Backing.read_at, Backing.ask, bind, reads, fail, ret. destruct (Backing.file_backed b) eqn:E.
  - destruct (Backing.answers b) as [| [[k w] |] rest]; cbn; [| done |]; destruct (_ <? _); rewrite ?E; done.
  - cbn. destruct (_ <? _); [| done]. rewrite E. apply Hs.
Qed.

Lemma file_read_unit id len : keeps fileR (on_io (PageIo.read_page_unit_into id len)).
Proof.
  intros c. unfold on_io, PageIo.read_page_unit_into, bind, reads, assert_that, PageIo.on_backing. cbn [Datatypes.id].
  destruct (_ <=? _); [by destruct c |]. destruct (_ =? _); [| by destruct c]. cbn [ret]. destruct (_ <? _); [by destruct c |].
  pose proof (file_read (id * PageIo.stride (io c)) (PageIo.stride (io c)) (crash PanicSlice) (λ b, eq_refl) (PageIo.backing (io c))) as Hr.
  destruct (Backing.read_at _ _ _ _) as [r b]. by split.
Qed.

Lemma file_writes (f : PageCache → PageCache) :
  (∀ c, io (f c) = io c) → (∀ c, next_page_id (f c) = next_page_id c) → (∀ c, PageCache.cipher (f c) = PageCache.cipher c) → keeps fileR (writes f).
Proof. intros Hf Hn Hc c. cbn. split; unfold file_bytes; rewrite ?Hf, ?Hn, ?Hc; done. Qed.

#[local] Hint Resolve file_spillway file_read_unit : keeps.

(** A step, or an assignment to another field. *)
Ltac file_step :=
  first [ lazymatch goal with |- keeps _ (writes _) => apply file_writes; intros []; cbn; repeat case_match; done end | keeps_step ].
Ltac file_keeps := repeat file_step.

Lemma file_evict_clean : keeps fileR evict_clean_to_cap.
Proof.
  assert (Hl : ∀ n, keeps fileR (evict_clean_loop n)) by (induction n as [| n IH]; cbn [evict_clean_loop]; file_keeps).
  unfold evict_clean_to_cap. file_keeps.
Qed.

Lemma file_blob id p : keeps fileR (page_blob id p).
Proof. unfold page_blob, seal_page. file_keeps. Qed.

Lemma file_open_blob id b : keeps fileR (open_blob id b).
Proof. unfold open_blob, open_page. file_keeps. Qed.

Lemma file_ensure : keeps fileR ensure_spillway.
Proof. unfold ensure_spillway. file_keeps. Qed.
#[local] Hint Resolve file_evict_clean file_blob file_open_blob file_ensure : keeps.

Lemma file_spill id : keeps fileR (spill_victim id).
Proof.
  unfold spill_victim, debug_assert_data_page_stamped, untrack_dirty. file_keeps.
  match goal with |- keeps _ (on_err _ ?h) => assert (Hh : ∀ c, io (h c) = io c ∧ next_page_id (h c) = next_page_id c ∧ PageCache.cipher (h c) = PageCache.cipher c) end.
  { intros []. cbn. by case_match. }
  apply keeps_on_err; [apply _ | file_keeps |]. intros c0. destruct (Hh c0) as (E1 & E2 & E3). split; unfold file_bytes; rewrite ?E1, ?E2, ?E3; done.
Qed.

Lemma file_maybe_evict : keeps fileR maybe_evict.
Proof.
  pose proof file_spill. assert (Hl : ∀ n, keeps fileR (spill_loop n)) by (induction n as [| n IH]; cbn [spill_loop]; file_keeps).
  unfold maybe_evict. file_keeps.
Qed.
#[local] Hint Resolve file_maybe_evict : keeps.

Lemma file_fetch id : keeps fileR (fetch id).
Proof. unfold fetch, load_page, load_spilled, load_disk, open_page, touch_lru. file_keeps. Qed.
#[local] Hint Resolve file_fetch : keeps.

Lemma file_get id : keeps fileR (get id).
Proof. unfold get. file_keeps. Qed.

Lemma file_get_mut id : keeps fileR (get_mut id).
Proof. unfold get_mut. file_keeps. Qed.
#[local] Hint Resolve file_get_mut : keeps.

Lemma file_write_buf id f : keeps fileR (writes (write_buf id f)).
Proof. apply file_writes; intros c; unfold write_buf; by case_match. Qed.
#[local] Hint Resolve file_write_buf : keeps.

Lemma file_modify id f : keeps fileR (modify id f).
Proof. unfold modify. file_keeps. Qed.

Lemma file_modify_deferred id f : keeps fileR (modify_deferred id f).
Proof. unfold modify_deferred, get_mut_deferred_stamp. file_keeps. Qed.

Lemma file_reissue id : keeps fileR (reissue_page id).
Proof. unfold reissue_page, untrack_dirty. file_keeps. Qed.

Lemma file_new : keeps fileR new_page.
Proof.
  intros c. unfold new_page, bind at 1, reads. cbn [Datatypes.id]. destruct (_ <? _); [reflexivity |].
  unfold bind at 1, writes. match goal with |- fileR c ((bind maybe_evict ?k) ?c1).2 => set (c1' := c1); assert (H1 : fileR c c1') end.
  { split; cbn; [done | done | done | done | lia]. }
  etransitivity; [exact H1 |]. assert (Hk : keeps fileR (bind maybe_evict (λ _, ret (next_page_id c)))) by file_keeps. apply Hk.
Qed.

Lemma file_cache_max n : keeps fileR (set_cache_max_bytes n).
Proof. unfold set_cache_max_bytes. file_keeps. Qed.

#[export] Instance fileR_kept : KeptReuse PageCache fileR.
Proof.
  split; [split | | |]; intros; cbn.
  - apply _.
  - apply file_get.
  - apply file_modify.
  - apply file_new.
  - unfold claim_page. pose proof file_reissue. file_keeps.
  - apply file_reissue.
  - apply file_modify_deferred.
Qed.

(** ** Truncation *)

Definition in_file (n : Z) (c : PageCache) : Prop :=
  0 ≤ n ∧ 0 ≤ PageIo.stride (io c) ∧ n * PageIo.stride (io c) ≤ zlen (file_bytes c).

(** The bytes of the units below [n]. *)
Definition prefix (n : Z) (c : PageCache) : list Z := slice 0 (n * PageIo.stride (io c)) (file_bytes c).

Record prefixR (n : Z) (c c' : PageCache) : Prop := {
  px_stride : PageIo.stride (io c') = PageIo.stride (io c);
  px_bytes : in_file n c → in_file n c' ∧ prefix n c' = prefix n c;
  px_next : n ≤ next_page_id c → n ≤ next_page_id c'
}.

#[export] Instance prefixR_pre n : PreOrder (prefixR n).
Proof.
  split; [by intros c |]. intros a b c [S1 B1 N1] [S2 B2 N2]. split; [congruence | | auto].
  intros [H E]%B1. destruct (B2 H) as [H2 E2]. split; [done | congruence].
Qed.

Lemma file_prefix n c c' : fileR c c' → prefixR n c c'.
Proof. intros [B S _ _ N]. split; [done | unfold in_file, prefix; by rewrite B, S | lia]. Qed.

Lemma keeps_prefix {A} n (m : M PageCache A) : keeps fileR m → keeps (prefixR n) m.
Proof. intros Hm c. apply file_prefix, Hm. Qed.

#[export] Instance prefixR_kept n : KeptReuse PageCache (prefixR n).
Proof.
  split; [split | | |]; [apply _ | ..]; intros; apply keeps_prefix;
    first [apply kept_get | apply kept_modify | apply kept_new | apply kept_claim | apply kept_reclaim | apply kept_deferred]; apply fileR_kept.
Qed.

(** An assignment that leaves the file alone, and lowers [next_page_id] to [n] at most. *)
Lemma prefix_writes n (f : PageCache → PageCache) :
  (∀ c, io (f c) = io c) → (∀ c, n ≤ next_page_id c → n ≤ next_page_id (f c)) → keeps (prefixR n) (writes f).
Proof. intros Hf Hn c. cbn. split; unfold in_file, prefix, file_bytes; rewrite ?Hf; auto. Qed.

Lemma foldl_io {A} (f : PageCache → A → PageCache) l c :
  (∀ c a, io (f c a) = io c ∧ next_page_id (f c a) = next_page_id c) →
  io (foldl f c l) = io c ∧ next_page_id (foldl f c l) = next_page_id c.
Proof.
  intros Hf. revert c. induction l as [| a l IH]; intros c; cbn [foldl]; [done |].
  destruct (IH (f c a)) as [-> ->]. apply Hf.
Qed.

Lemma discard_io id c : io (discard id c) = io c ∧ next_page_id (discard id c) = next_page_id c.
Proof. unfold discard, untrack_dirty. repeat case_match; done. Qed.

Lemma prefix_set_len n m : n ≤ m → keeps (prefixR n) (on_io (PageIo.set_page_count m)).
Proof.
  intros Hn c. unfold on_io, PageIo.set_page_count, bind, reads. cbn [Datatypes.id].
  destruct (PageIo.read_only (io c)); [by destruct c |]. destruct (_ <? _); [by destruct c |].
  unfold PageIo.on_backing, Backing.set_len, bind, Backing.ask.
  destruct (Backing.file_backed (PageIo.backing (io c))); [destruct (Backing.answers _) as [| [[k w] |] rest] |]; cbn [fst snd fail writes];
    first [by split | split; [done | | done]]; intros (H1 & H2 & H3); unfold prefix; cbn in *;
    (split; [do 2 (split; [done |]) | rewrite CacheReset.slice_resize; [done | done | nia | unfold file_bytes in *; cbn; nia | nia]]).
  all: cbn; unfold file_bytes; cbn; rewrite CacheReset.zlen_resize; nia.
Qed.

Lemma prefix_truncate n m : n ≤ m → keeps (prefixR n) (truncate m).
Proof.
  intros Hn. unfold truncate. apply keeps_bind; [apply _ | | intros []].
  { apply prefix_writes; intros c; destruct (foldl_io (λ self id, discard id self) (filter (λ id, m ≤ id) (key_order (entries c))) c) as [E1 E2];
      auto using discard_io; rewrite ?E2; done. }
  apply keeps_bind; [apply _ | | intros []]; [apply prefix_writes; intros c; by case_match |].
  apply keeps_bind; [apply _ | by apply prefix_set_len | intros []].
  apply prefix_writes; intros c; case_match; [done | done | cbn; lia | done].
Qed.

Lemma prefix_discard n c : prefixR n c (discard_all_dirty c).
Proof.
  apply (prefix_writes n discard_all_dirty); intros c0; unfold discard_all_dirty;
    destruct (foldl_io (λ self id, on_lru (λ l, (Lru.remove id l).2) (drop_entry id self)) (dirty_ids c0) c0 ltac:(done)) as [E1 E2];
    case_match; cbn; rewrite ?E1, ?E2; done.
Qed.
End cache.

(** ** Histories of calls *)

Section history.
Import CacheStore CacheReuse.
Context `{HX : Xxh3} `{HO : HashOrder} `{HC : Primitives}.
Abbreviation TM := (TransactionManager PageCache.PageCache).

(** The calls one after the other, with their replies; a failed call does not end the
    history. *)
Fixpoint run_calls (cs : list Call) (self : TM) : list (outcome Reply) * TM :=
  match cs with
  | [] => ([], self)
  | c :: cs =>
      let '(r, self) := run_call c self in
      let '(rs, self) := run_calls cs self in (r :: rs, self)
  end.

(** The committed end [n] of the file: no id below it is handed out by growing the
    file, and no savepoint's mark is below it. *)
Record bounded (n : Z) (self : TM) : Prop := {
  bd_next : n ≤ PageCache.next_page_id (cache self);
  bd_marks : ∀ sp, sp ∈ savepoints self → n ≤ sp_watermark sp;
  bd_total : n ≤ total_pages (committed_roots self)
}.

Record coreR (n : Z) (a b : TM) : Prop := {
  cr_file : prefixR n (cache a) (cache b);
  cr_roots : committed_roots b = committed_roots a;
  cr_counter : txn_counter b = txn_counter a;
  cr_count : superblock_count b = superblock_count a;
  cr_marks : ∀ sp, sp ∈ savepoints b → sp ∈ savepoints a ∨ n ≤ sp_watermark sp
}.

#[export] Instance coreR_pre n : PreOrder (coreR n).
Proof.
  split; [intros a; split; first [reflexivity | by left] |]. intros a b c [] [? ? ? ? Hm].
  split; [by etransitivity | congruence.. |]. intros sp [? | ?]%Hm; auto.
Qed.

Lemma core_bounded n a b : coreR n a b → bounded n a → bounded n b.
Proof.
  intros [F E _ _ Hm] [B1 B2 B3]. split; [by apply (px_next _ _ _ F) | | by rewrite E].
  intros sp [? | ?]%Hm; auto.
Qed.

Abbreviation marked n := (λ w : Z, n ≤ w).
Abbreviation dataR n := (txnR (prefixR n) (marked n)).

Lemma data_core n a b : dataR n a b → coreR n a b.
Proof. intros [F [? ? ? ? ? ? ? ? ? ?]]. by split. Qed.

(** The guards around an inner call. *)
Lemma core_poison {A} n (m : M TM A) self : coreR n self (m self).2 → coreR n self (poison_on_fatal m self).2.
Proof.
  intros Hm. unfold poison_on_fatal. destruct (m self) as [[a | e | p] s]; cbn [snd] in *; [done | | done].
  destruct (is_fatal e); [| done]. etransitivity; [exact Hm |]. split; first [cbn; reflexivity | by left].
Qed.

Lemma core_guarded {A} n (m : M TM A) self : coreR n self (m self).2 → coreR n self (guarded m self).2.
Proof.
  intros Hm. destruct (poisoned self) eqn:E; [by rewrite guarded_dead |].
  unfold guarded. rewrite alive_run by done. by apply core_poison.
Qed.

Lemma core_reply {A} n (f : A → Reply) (m : M TM A) self : coreR n self (m self).2 → coreR n self (reply f m self).2.
Proof. intros Hm. rewrite reply_run. by destruct (m self) as [[] s]. Qed.

Lemma core_data {A} n (f : A → Reply) (m : M TM A) self : keeps (dataR n) m → coreR n self (reply f (guarded m) self).2.
Proof. intros Hm. apply core_reply, core_guarded, data_core, Hm. Qed.

(** Assignments that the committed state does not see. *)
Ltac core := split; cbn; first [reflexivity | assumption | intros ? []%elem_of_nil | intros ? ?; left; assumption].

Lemma core_begin n self : coreR n self (begin_inner self).2.
Proof.
  unfold begin_inner, bind, reads, writes. cbn [id]. destruct (tc_read_only _); [reflexivity |].
  destruct (active_txn self); [reflexivity |]. core.
Qed.

Lemma core_on_cache {A} n (m : M PageCache.PageCache A) : keeps (prefixR n) m → keeps (coreR n) (on_cache m).
Proof. intros Hm. eapply keeps_zoom; [exact Hm |]. intros s t Ht. core. Qed.

Lemma core_rollback n self : n ≤ total_pages (committed_roots self) → coreR n self (rollback_inner self).2.
Proof.
  intros Hn. unfold rollback_inner. rewrite need_run. destruct (active_txn self); [| reflexivity].
  rewrite reads_run. cbn [id]. generalize dependent (committed_roots self). intros r Hr.
  match goal with |- coreR n self (?m self).2 => enough (Hm : keeps (coreR n) m) by apply Hm end.
  apply keeps_bind; [apply _ | | intros []]; [intros s; split; cbn; first [apply prefix_discard | reflexivity | by left] |].
  apply keeps_bind; [apply _ | apply core_on_cache, prefix_truncate, Hr | intros []].
  apply keeps_bind; [apply _ | intros s; core | intros []].
  apply keeps_bind; [apply _ | intros s; apply data_core, txn_recover, _ | intros []].
  do 5 (apply keeps_bind; [apply _ | intros s; core | intros []]). intros s. core.
Qed.

Lemma core_call n c self : c ≠ CCommit → bounded n self → coreR n self (run_call c self).2.
Proof.
  intros Hc Hb. destruct c; try done; cbn [run_call]; try (apply core_data; keeps; fail).
  - apply core_reply, core_guarded, core_begin.
  - apply core_reply, core_guarded, core_rollback, Hb.
  - apply core_reply, core_guarded, data_core, txn_savepoint; [apply _ | apply Hb].
  - apply core_reply, core_guarded, data_core, txn_rollback_to; [apply _ |].
    intros sp Hsp. apply prefix_truncate. by apply Hb.
  - apply core_reply. unfold reclaim_freemap_orphans. destruct (poisoned self) eqn:E; [by rewrite alive_dead |].
    rewrite alive_run, need_run by done. destruct (active_txn self); [| reflexivity].
    apply core_poison. eapply (keeps_zoom (coreR n) (fstR (fstR (prefixR n)))); [apply al_orphans_keeps, _ |].
    intros s [[c' fm] r'] H. core.
  - apply core_reply. unfold set_cache_max_bytes. rewrite idle_run. destruct (poisoned self); [reflexivity |].
    destruct (active_txn self); [reflexivity |]. apply core_on_cache, keeps_prefix, file_cache_max.
  - apply core_reply. unfold set_spillway_max_bytes. rewrite idle_run. destruct (poisoned self); [reflexivity |].
    destruct (active_txn self); [reflexivity |]. 
    assert (H : prefixR n (cache self) (PageCache.set_spillway_limit bytes (cache self))) by (apply file_prefix; unfold PageCache.set_spillway_limit; case_match; by split).
    core.
  - apply core_reply. unfold set_drain_insertion. rewrite idle_run. destruct (poisoned self); [reflexivity |].
    destruct (active_txn self); [reflexivity |].
    assert (H : prefixR n (cache self) (PageCache.set_drain_insertion policy (cache self))) by (apply file_prefix; by split).
    core.
Qed.

Lemma core_calls n cs self : Forall (.≠ CCommit) cs → bounded n self → coreR n self (run_calls cs self).2.
Proof.
  revert self. induction cs as [| c cs IH]; intros self Hcs Hb; cbn [run_calls]; [reflexivity |].
  apply Forall_cons in Hcs as [Hc Hcs]. pose proof (core_call n c self Hc Hb) as Hr.
  destruct (run_call c self) as [r self1]. cbn [snd] in Hr. specialize (IH self1 Hcs (core_bounded n _ _ Hr Hb)).
  destruct (run_calls cs self1) as [rs self2]. cbn [snd] in *. by etransitivity.
Qed.

(** C6 Until the next commit the committed part of the page file is not written.  Over
    any history of the manager's calls but [commit] (begun, rolled back and failed
    transactions, savepoints, evictions, truncations, any errors of the operating
    system), the units below the committed page count stay in the file with the same
    bytes, and so do the roots and the transaction counter that the last commit left in
    memory: a crash at any point finds the last commit on disk. *)
Theorem committed_pages_untouched cs self :
  let n := total_pages (committed_roots self) in
  Forall (.≠ CCommit) cs → n ≤ PageCache.next_page_id (cache self) →
  (∀ sp, sp ∈ savepoints self → n ≤ sp_watermark sp) → in_file n (cache self) →
  let self' := (run_calls cs self).2 in
  in_file n (cache self') ∧ prefix n (cache self') = prefix n (cache self) ∧
  committed_roots self' = committed_roots self ∧ txn_counter self' = txn_counter self ∧
  n ≤ PageCache.next_page_id (cache self').
Proof.
  intros n Hcs Hn Hm Hf self'. assert (Hb : bounded n self) by by split.
  destruct (core_calls n cs self Hcs Hb) as [[S B N] E1 E2 _ _]. destruct (B Hf) as [H1 H2]. ands; auto.
Qed.

(** ** Rolling back *)

Lemma bind_inv {S A B} (m : M S A) (k : A → M S B) s b s' :
  bind m k s = (Ok b, s') → ∃ a s1, m s = (Ok a, s1) ∧ k a s1 = (Ok b, s').
Proof. unfold bind. destruct (m s) as [[a | |] s1]; [eauto | done | done]. Qed.

Lemma keeps_run {S A} (R : relation S) (m : M S A) s r s' : keeps R m → m s = (r, s') → R s s'.
Proof. intros Hm E. specialize (Hm s). by rewrite E in Hm. Qed.

Lemma guarded_ok {A} (m : M TM A) self a self' : guarded m self = (Ok a, self') → poisoned self = false ∧ m self = (Ok a, self').
Proof.
  destruct (poisoned self) eqn:E; [by rewrite guarded_dead |]. unfold guarded. rewrite alive_run by done.
  unfold poison_on_fatal. by destruct (m self) as [[] s].
Qed.

(** What [begin], [rollback] and the savepoints compare: the state of the last commit. *)
Record midR (a b : TM) : Prop := {
  mr_roots : committed_roots b = committed_roots a;
  mr_counter : txn_counter b = txn_counter a;
  mr_active : active_txn b = active_txn a;
  mr_slots : SlotPacker.committed_live_slots (packer b) = SlotPacker.committed_live_slots (packer a);
  mr_recycle : fixed_recycle (freemap b) = fixed_recycle (freemap a)
}.

#[export] Instance midR_pre : PreOrder midR.
Proof. split; [by intros a |]. intros a b c [] []. split; congruence. Qed.

Lemma mid_poison {A} (m : M TM A) self : midR self (m self).2 → midR self (poison_on_fatal m self).2.
Proof.
  intros Hm. unfold poison_on_fatal. destruct (m self) as [[a | e | p] s]; cbn [snd] in *; [done | | done].
  destruct (is_fatal e); [| done]. etransitivity; [exact Hm | by split].
Qed.

Lemma mid_guarded {A} (m : M TM A) self : midR self (m self).2 → midR self (guarded m self).2.
Proof.
  intros Hm. destruct (poisoned self) eqn:E; [by rewrite guarded_dead |].
  unfold guarded. rewrite alive_run by done. by apply mid_poison.
Qed.

Lemma data_mid n a b : dataR n a b → midR a b.
Proof. intros [_ []]. by split. Qed.

Lemma mid_reply {A} (f : A → Reply) (m : M TM A) self : midR self (m self).2 → midR self (reply f m self).2.
Proof. intros Hm. rewrite reply_run. by destruct (m self) as [[] s]. Qed.

Lemma recycle_orphans b n (sx : PageCache.PageCache * FreemapRecycle * Roots) :
  fixed_recycle (reclaim_orphans b n sx).2.1.2 = fixed_recycle sx.1.2.
Proof.
  set (RR := λ a b : PageCache.PageCache * FreemapRecycle * Roots, fixed_recycle b.1.2 = fixed_recycle a.1.2).
  assert (Hpre : PreOrder RR) by (split; [by intros a | unfold RR; intros x y z -> ->; done]).
  assert (Hl : ∀ A (m : M PageCache.PageCache A), keeps RR (lift (lift m))).
  { intros A m [[c fm] r]. unfold lift. cbn. by destruct (m c). }
  assert (Hp : ∀ ids, keeps RR (persist ids)).
  { induction ids as [| id ids IH]; cbn [persist]; keeps. eapply (keeps_zoom _ (λ _ _, True)); [by intros s |].
    by intros [[c fm] r] [[c' l'] t']. }
  assert (Hr : keeps RR (reclaim_orphans b n)) by (unfold reclaim_orphans; keeps). apply Hr.
Qed.

Lemma mid_call n c self :
  c ≠ CCommit → c ≠ CBegin → c ≠ CRollback → active_txn self = true → bounded n self → midR self (run_call c self).2.
Proof.
  intros H1 H2 H3 Ha Hb. destruct c; try done; cbn [run_call]; apply mid_reply;
    try (apply mid_guarded, (data_mid n); match goal with |- dataR n self (?m self).2 => enough (Hm : keeps (dataR n) m) by apply Hm end; keeps; fail).
  - apply mid_guarded, (data_mid n), txn_savepoint; [apply _ | apply Hb].
  - apply mid_guarded, (data_mid n), txn_rollback_to; [apply _ |]. intros sp Hsp. apply prefix_truncate. by apply Hb.
  - unfold reclaim_freemap_orphans. destruct (poisoned self) eqn:E; [by rewrite alive_dead |].
    rewrite alive_run, need_run by done. destruct (active_txn self); [| reflexivity]. apply mid_poison.
    unfold zoom. pose proof (recycle_orphans (negb (no_savepoints self)) (superblock_count self) (cache self, freemap self, current_roots self)) as Hr.
    destruct (reclaim_orphans _ _ _) as [r [[c' fm] roots]]. by split.
  - unfold set_cache_max_bytes. rewrite idle_run, Ha. by destruct (poisoned self).
  - unfold set_spillway_max_bytes. rewrite idle_run, Ha. by destruct (poisoned self).
  - unfold set_drain_insertion. rewrite idle_run, Ha. by destruct (poisoned self).
Qed.

Lemma mid_calls n cs self :
  Forall (λ c, c ≠ CCommit ∧ c ≠ CBegin ∧ c ≠ CRollback) cs → active_txn self = true → bounded n self →
  midR self (run_calls cs self).2.
Proof.
  revert self. induction cs as [| c cs IH]; intros self Hcs Ha Hb; cbn [run_calls]; [reflexivity |].
  apply Forall_cons in Hcs as [(Hc1 & Hc2 & Hc3) Hcs]. pose proof (core_call n c self Hc1 Hb) as Hr.
  pose proof (mid_call n c self Hc1 Hc2 Hc3 Ha Hb) as Hm.
  destruct (run_call c self) as [r self1]. cbn [snd] in *.
  specialize (IH self1 Hcs ltac:(rewrite (mr_active _ _ Hm); done) (core_bounded n _ _ Hr Hb)).
  destruct (run_calls cs self1) as [rs self2]. cbn [snd] in *. by etransitivity.
Qed.

(** Only the cache and the two depths differ. *)
Definition depthR (a b : TM) : Prop :=
  ∃ c mi ht, b = set_handle_table ht (set_membership_index mi (set_cache c a)).

#[export] Instance depthR_pre : PreOrder depthR.
Proof.
  split; [intros []; by do 3 eexists |]. intros a b c (c1 & m1 & h1 & ->) (c2 & m2 & h2 & ->). by exists c2, m2, h2.
Qed.

Lemma depth_cache {A} (m : M PageCache.PageCache A) : keeps depthR (on_cache m).
Proof. intros s. unfold on_cache, zoom. destruct (m (cache s)) as [r c]. exists c, (membership_index s), (handle_table s). by destruct s. Qed.

Lemma depth_recover : keeps depthR recover_depths.
Proof.
  assert (H1 : ∀ x, keeps depthR (writes (set_membership_index x))).
  { intros x s. exists (cache s), x, (handle_table s). by destruct s. }
  assert (H2 : ∀ x, keeps depthR (writes (set_handle_table x))).
  { intros x s. exists (cache s), (membership_index s), x. by destruct s. }
  pose proof @depth_cache. unfold recover_depths. keeps.
Qed.

(** What a successful rollback makes of the manager. *)
Definition rolled_back (self : TM) : TM :=
  set_txn_freed_pages [] (set_savepoints [] (set_active_txn false (set_packer (SlotPacker.rollback (packer self))
    (set_txn_pages pool_new (set_freemap (TxnAlloc.rollback (freemap self)) (set_current_roots (committed_roots self) self)))))).

Lemma rollback_run self self' : rollback self = (Ok tt, self') → poisoned self = false ∧ depthR (rolled_back self) self'.
Proof.
  intros [Hp H]%guarded_ok. split; [done |]. unfold rollback_inner in H. rewrite need_run in H.
  destruct (active_txn self); [| done]. rewrite reads_run in H. cbn [id] in H.
  apply bind_inv in H as ([] & s1 & [= <-] & H). apply bind_inv in H as ([] & s2 & H2 & H).
  apply bind_inv in H as ([] & s3 & [= <-] & H). apply bind_inv in H as ([] & s4 & H4 & H).
  apply (keeps_run _ _ _ _ _ (depth_cache _)) in H2 as (c1 & m1 & h1 & ->).
  apply (keeps_run _ _ _ _ _ depth_recover) in H4 as (c2 & m2 & h2 & ->).
  unfold bind, writes in H. injection H as <-. by exists c2, m2, h2.
Qed.

(** C7 Rollback restores the manager.  After [begin] and any history of calls of one
    transaction (neither [commit] nor [begin] nor [rollback]), whatever their outcomes,
    a successful [rollback] leaves an idle manager whose roots, slot counts, recycling
    state and counter are those before [begin]. *)
Theorem rollback_restores cs self self1 self3 :
  let n := total_pages (committed_roots self) in
  begin_txn self = (Ok tt, self1) →
  Forall (λ c, c ≠ CCommit ∧ c ≠ CBegin ∧ c ≠ CRollback) cs →
  rollback (run_calls cs self1).2 = (Ok tt, self3) →
  n ≤ PageCache.next_page_id (cache self) → in_file n (cache self) →
  active_txn self3 = false ∧ poisoned self3 = false ∧ savepoints self3 = [] ∧ txn_freed_pages self3 = [] ∧
  committed_roots self3 = committed_roots self ∧ current_roots self3 = committed_roots self ∧
  txn_counter self3 = txn_counter self ∧ txn_pages self3 = pool_new ∧
  packer self3 = SlotPacker.from_committed (SlotPacker.committed_live_slots (packer self)) ∧
  freemap self3 = {| hint := hint (freemap self); hint_at_begin := hint (freemap self); structural_reuse := [];
    structural_superseded := []; pending_structural_frees := pending_structural_frees (freemap self); recycle_owned := ∅ |} ∧
  prefix n (cache self3) = prefix n (cache self).
Proof.
  intros n Hbg Hcs Hrb Hn Hf. pose proof (guarded_ok _ _ _ _ Hbg) as [Hp Hbi].
  unfold begin_inner in Hbi. rewrite reads_run in Hbi. cbn [id] in Hbi.
  destruct (tc_read_only _); [done |]. destruct (active_txn self); [done |].
  unfold bind, writes in Hbi. injection Hbi as <-. set (self1 := set_txn_freed_pages [] _) in *.
  assert (Hb1 : bounded n self1) by (split; cbn; [done | intros ? []%elem_of_nil | done]).
  pose proof (mid_calls n cs self1 Hcs eq_refl Hb1) as Hm.
  assert (Hc : coreR n self1 (run_calls cs self1).2).
  { apply core_calls; [| done]. eapply Forall_impl; [exact Hcs |]. by intros c []. }
  set (self2 := (run_calls cs self1).2) in *.
  assert (Hr : coreR n self2 self3).
  { pose proof (core_guarded n rollback_inner self2 (core_rollback n self2 (bd_total _ _ (core_bounded n _ _ Hc Hb1)))) as Hr.
    unfold rollback in Hrb. by rewrite Hrb in Hr. }
  assert (Hpre : prefix n (cache self3) = prefix n (cache self)).
  { assert (Hall : coreR n self1 self3) by by etransitivity. exact (proj2 (px_bytes _ _ _ (cr_file _ _ _ Hall) Hf)). }
  destruct (rollback_run self2 self3 Hrb) as [Hp2 (c3 & m3 & h3 & ->)].
  destruct Hm as [M1 M2 M3 M4 M5]. injection M5 as M5 M6. cbn in *.
  rewrite M1, M2, Hp2. ands; try done.
  - unfold SlotPacker.rollback. by rewrite M4.
  - unfold TxnAlloc.rollback. by rewrite M5, M6.
Qed.
End history.

(** ** An example: a new file of two superblock pages, with room for two pages in memory *)

Import CryptoProps CacheProps CacheStore CacheReuse.

Definition demo_cache : PageCache.PageCache :=
  PageCache.new (PageIo.open (stamp_checksum zero_page ++ stamp_checksum zero_page) [] false) (2 * PAGE_SIZE) (10 * PAGE_SIZE)
    PageCache.LruTail PageCache.InMemory (λ _, zeros NONCE_LEN).

Definition demo_manager : TransactionManager PageCache.PageCache :=
  {| cache := demo_cache; committed_roots := NamedRoots.empty_roots; current_roots := NamedRoots.empty_roots;
     handle_table := HandleTable.new; membership_index := MembershipIndex.new; txn_counter := 1; superblock_count := 2;
     active_txn := false; savepoints := []; txn_freed_pages := []; txn_pages := pool_new; freemap := recycle_new;
     packer := SlotPacker.new; poisoned := false; cipher := None; crypto_header := None |}.

(** The calls of a transaction that fills the cache, sets a savepoint and returns to it. *)
Definition demo_calls : list Call :=
  [CAllocate [1; 2; 3]; CSetRoot "users" 1; CSavepoint "a"; CClearRoot "users"; CRead 1; CRollbackTo "a"; CDelete 9].


Lemma demo_in_file : in_file 2 demo_cache.
Proof. split; [done |]. split; vm_compute; done. Qed.

Lemma demo_no_commit : Forall (λ c, c ≠ CCommit ∧ c ≠ CBegin ∧ c ≠ CRollback) demo_calls.
Proof. by repeat constructor. Qed.

Lemma committed_pages_untouched_witness :
  prefix 2 (cache (run_calls demo_calls demo_manager).2) = prefix 2 demo_cache ∧
  committed_roots (run_calls demo_calls demo_manager).2 = NamedRoots.empty_roots.
Proof.
  assert (Hc : Forall (.≠ CCommit) demo_calls) by (eapply Forall_impl; [exact demo_no_commit | by intros c []]).
  assert (Hs : ∀ sp, sp ∈ savepoints demo_manager → 2 ≤ sp_watermark sp) by (intros sp []%elem_of_nil).
  assert (Hn : 2 ≤ PageCache.next_page_id demo_cache) by (vm_compute; done).
  destruct (committed_pages_untouched demo_calls demo_manager Hc Hn Hs demo_in_file) as (_ & H1 & H2 & _). by split.
Defined.

Lemma demo_ends : ∃ self1 self3, begin_txn demo_manager = (Ok tt, self1) ∧ rollback (run_calls demo_calls self1).2 = (Ok tt, self3).
Proof.
  assert (Hok : (begin_txn demo_manager).1 = Ok tt ∧ (rollback (run_calls demo_calls (begin_txn demo_manager).2).2).1 = Ok tt)
    by (vm_compute; done).
  destruct Hok as [H1 H2]. destruct (begin_txn demo_manager) as [r1 self1]. cbn [fst snd] in *. subst r1. exists self1.
  destruct (rollback _) as [r3 self3]. cbn [fst] in H2. subst r3. by exists self3.
Qed.

Lemma rollback_restores_witness :
  ∃ self1 self3, begin_txn demo_manager = (Ok tt, self1) ∧ rollback (run_calls demo_calls self1).2 = (Ok tt, self3) ∧
    current_roots self3 = NamedRoots.empty_roots ∧ active_txn self3 = false.
Proof.
  destruct demo_ends as (self1 & self3 & E1 & E3). exists self1, self3.
  assert (Hn : 2 ≤ PageCache.next_page_id demo_cache) by (vm_compute; done).
  destruct (rollback_restores demo_calls demo_manager self1 self3 E1 demo_no_commit E3 Hn demo_in_file)
    as (A & _ & _ & _ & _ & B & _).
  split; [exact E1 |]. split; [exact E3 |]. split; [exact B | exact A].
Defined.

(** A commit on a file whose first write fails: the manager is poisoned. *)
Definition broken_manager : TransactionManager PageCache.PageCache :=
  set_active_txn true (set_cache (PageCache.new (PageIo.open (stamp_checksum zero_page) [Some (PermissionDenied, 0%nat)] false)
    (2 * PAGE_SIZE) 0 PageCache.LruTail PageCache.InMemory (λ _, zeros NONCE_LEN)) demo_manager).

Lemma poison_exact_witness :
  ∃ e self', run_call CCommit broken_manager = (Err e, self') ∧ poisoned self' = true ∧
    run_call (CRead 1) self' = (Err Poisoned, self').
Proof.
  assert (Hok : ∃ e, (run_call CCommit broken_manager).1 = Err e) by (vm_compute; by eexists).
  destruct Hok as [e He]. destruct (run_call CCommit broken_manager) as [r self'] eqn:E. cbn [fst] in He. subst r.
  exists e, self'. split; [done |].
  destruct (poison_exact CCommit broken_manager (Err e) self' E) as [_ Hp]. specialize (Hp eq_refl). split; [exact Hp |].
  destruct (run_call (CRead 1) self') as [r2 self2] eqn:E2.
  destruct (poison_exact (CRead 1) self' r2 self2 E2) as [Hd _]. by destruct (Hd Hp) as [-> ->].
Defined.

Lemma calls_guarded_witness :
  run_call (CAllocate [1]) demo_manager = (Err NoActiveTransaction, demo_manager) ∧
  run_call CBegin (set_active_txn true demo_manager) = (Err TransactionAlreadyActive, set_active_txn true demo_manager).
Proof.
  destruct (calls_guarded (CAllocate [1]) demo_manager eq_refl) as (H1 & _).
  destruct (calls_guarded CBegin (set_active_txn true demo_manager) eq_refl) as (_ & _ & _ & H4).
  split; [by apply H1 | by apply H4].
Defined.
End TxnFile.
