(* ===== verification/FlushUnits.v ===== *)
(** * Which units a flush writes

    [flush] ([src/page_cache.rs]) writes the units of the pages that are dirty or spilled
    and no other, on every outcome: whatever the bytes of another unit are, a page or a
    superblock slot, they stay. *)

From S2P Require Export CacheFlush TxnFile.

Module FlushUnits.
Import PageCache PageIoFacts CacheInv CacheEvict CacheOps CacheFlush.

Section units.
Context `{HX : Xxh3} `{HO : HashOrder} `{HC : Primitives}.
Implicit Types (c : PageCache).
Variable j : Z.

Definition whole c : Prop :=
  0 ≤ j ∧ 0 < PageIo.stride (io c) ∧ j * PageIo.stride (io c) + PageIo.stride (io c) ≤ zlen (TxnFile.file_bytes c).

(** Unit [j] is as it was, and no page was spilled. *)
Record unitR c c' : Prop := {
  ur_stride : PageIo.stride (io c') = PageIo.stride (io c);
  ur_count : PageIo.cached_page_count (io c) ≤ PageIo.cached_page_count (io c');
  ur_unit : whole c → whole c' ∧ unit_at (io c') j = unit_at (io c) j;
  ur_res : ∀ i, resident c' i = true → resident c i = true
}.

#[local] Instance unitR_pre : PreOrder unitR.
Proof.
  split; [by intros c |]. intros a b c [S1 C1 U1 R1] [S2 C2 U2 R2]. split; [congruence | lia | | auto].
  intros [H E]%U1. destruct (U2 H) as [H2 E2]. split; [done | congruence].
Qed.

(** The file is the same. *)
Lemma unit_file c c' :
  TxnFile.fileR c c' → (∀ i, resident c' i = true → resident c i = true) → unitR c c'.
Proof.
  intros [B S C _ _] Hr. split; [done | lia | | done]. unfold whole, unit_at. unfold TxnFile.file_bytes in *. by rewrite B, S.
Qed.

Lemma unit_keeps {A} (m : M PageCache A) :
  keeps TxnFile.fileR m → keeps (λ c c', spillway c' = spillway c) m → keeps unitR m.
Proof. intros Hf Hs c. apply unit_file; [apply Hf |]. intros i. unfold resident. by rewrite (Hs c). Qed.

(** An assignment to the fields beside the files. *)
Lemma unit_writes (f : PageCache → PageCache) :
  (∀ c, io (f c) = io c) → (∀ c, spillway (f c) = spillway c) → keeps unitR (writes f).
Proof. intros Hi Hs c. cbn. split; [| rewrite Hi; lia | |]; unfold whole, TxnFile.file_bytes, resident; rewrite ?Hi, ?Hs; done. Qed.

Lemma unit_spillway {A} (m : M Spillway.Spillway A) :
  (∀ spw i, Spillway.is_resident (m spw).2 i = true → Spillway.is_resident spw i = true) → keeps unitR (on_spillway m).
Proof.
  intros Hm c. unfold on_spillway. destruct (spillway c) as [spw |] eqn:E; [| reflexivity].
  specialize (Hm spw). destruct (m spw) as [r spw']. split; [done | done | done |]. intros i. unfold resident. cbn. rewrite E. apply Hm.
Qed.

(** A write to another unit. *)
Lemma unit_write id blob : 0 ≤ id → id ≠ j → keeps unitR (on_io (PageIo.write_page_unit id blob)).
Proof.
  intros Hid Hne c. unfold on_io, PageIo.write_page_unit, bind, reads. cbn [Datatypes.id].
  destruct (PageIo.read_only (io c)); [by destruct c |].
  destruct (Z.eqb_spec (zlen blob) (PageIo.stride (io c))) as [Hl |]; cbn [negb]; [| by destruct c].
  destruct (u64_max <? _); [by destruct c |]. unfold PageIo.on_backing.
  pose proof (write_at_spec True True (PageIo.backing (io c)) (id * PageIo.stride (io c)) blob) as [(_ & n & Hb) _].
  assert (Hw : ∀ b, Backing.bytes b = overwrite (id * PageIo.stride (io c)) (take n blob) (Backing.bytes (PageIo.backing (io c))) ∨
      Backing.bytes b = Backing.bytes (PageIo.backing (io c)) → ∀ k,
    PageIo.cached_page_count (io c) ≤ k → unitR c (set_io (PageIo.set_count k (PageIo.set_backing b (io c))) c)).
  { intros b Hbb k Hk. split; [done | done | | done]. intros (H1 & H2 & H3). unfold whole, unit_at, TxnFile.file_bytes in *. cbn in *.
    destruct Hbb as [-> | ->]; [| done]. split; [do 2 (split; [done |]); etrans; [exact H3 | apply zlen_overwrite_ge; nia] |].
    pose proof (zlen_take_le n blob). apply slice_overwrite_out; [nia | lia | nia | lia |].
    destruct (Z.lt_ge_cases j id); [left | right]; nia. }
  destruct (Backing.write_at _ _ _) as [[[] | e | p] b]; cbn [snd] in Hb; [| exact (Hw b Hb (PageIo.cached_page_count (io c)) ltac:(lia))..].
  destruct (u64_max <? _); [exact (Hw b Hb (PageIo.cached_page_count (io c)) ltac:(lia)) |].
  unfold writes. cbn [PageIo.cached_page_count PageIo.set_backing]. destruct (Z.ltb_spec (PageIo.cached_page_count (io c)) (id + 1)); [exact (Hw b Hb (id + 1) ltac:(lia)) | exact (Hw b Hb (PageIo.cached_page_count (io c)) ltac:(lia))].
Qed.

#[local] Hint Resolve unit_write : keeps.

Lemma unit_rehydrate id : keeps unitR (on_spillway (Spillway.rehydrate id)).
Proof.
  apply unit_spillway. intros spw i.
  assert (Hs : ∀ k, Spillway.slots (Spillway.read_slot k spw).2 = Spillway.slots spw).
  { intros k. unfold Spillway.read_slot, bind, reads, Spillway.on_backing. cbn. repeat (case_match; cbn); simplify_eq; done. }
  unfold Spillway.rehydrate, bind, reads. cbn [Datatypes.id]. destruct (Spillway.slots spw !! id) as [k |]; [| done].
  specialize (Hs k). unfold Spillway.is_resident. destruct (Spillway.read_slot k spw) as [[[[a b] l] | |] spw']; cbn [snd] in Hs;
    repeat case_match; cbn [snd fail ret]; by rewrite Hs.
Qed.

Lemma unit_forget id : keeps unitR (on_spillway (writes (Spillway.forget id))).
Proof.
  apply unit_spillway. intros spw i. unfold Spillway.is_resident, writes, Spillway.forget. cbn.
  rewrite !bool_decide_eq_true, lookup_delete_is_Some. tauto.
Qed.

Lemma unit_truncate : keeps unitR (on_spillway Spillway.truncate).
Proof.
  apply unit_spillway. intros spw i Hr. exfalso. revert Hr. unfold Spillway.truncate, bind, writes, Spillway.on_backing, Spillway.is_resident.
  repeat (case_match; cbn); simplify_eq; cbn; rewrite bool_decide_eq_true; by intros [? ?%lookup_empty_Some].
Qed.

(** ** The loops *)

Lemma unit_bind {A B} (m : M PageCache A) (k : A → M PageCache B) c :
  unitR c (m c).2 → (∀ a c1, m c = (Ok a, c1) → unitR c c1 → unitR c1 (k a c1).2) → unitR c (bind m k c).2.
Proof.
  intros Hm Hk. unfold bind. destruct (m c) as [[a | |] c1] eqn:E; cbn [snd] in *; [| done | done].
  etransitivity; [exact Hm | by apply Hk].
Qed.

Ltac unit_step :=
  first [ lazymatch goal with |- keeps _ (writes _) => apply unit_writes; intros []; cbn; repeat case_match; done end | keeps_step ].
Ltac units := repeat unit_step.

Lemma unit_blob id p : keeps unitR (page_blob id p).
Proof. unfold page_blob, seal_page. units. Qed.

Lemma unit_open dek id b : keeps unitR (open_page dek id b).
Proof. unfold open_page. units. Qed.
#[local] Hint Resolve unit_blob unit_open unit_rehydrate unit_forget unit_truncate : keeps.

Lemma unit_evict : keeps unitR evict_clean_to_cap.
Proof.
  assert (Hl : ∀ n, keeps unitR (evict_clean_loop n)) by (induction n as [| n IH]; cbn [evict_clean_loop]; units).
  unfold evict_clean_to_cap. units.
Qed.

Lemma unit_flush_entry id : 0 ≤ id → id ≠ j → keeps unitR (flush_entry id).
Proof. intros H1 H2. unfold flush_entry, debug_assert_data_page_stamped, write_sealed. units. Qed.

Lemma unit_drain_page id : 0 ≤ id → id ≠ j → keeps unitR (drain_page id).
Proof. intros H1 H2. unfold drain_page, debug_assert_data_page_stamped. units. Qed.

Lemma unit_for_each f ids : (∀ id, id ∈ ids → keeps unitR (f id)) → keeps unitR (for_each f ids).
Proof.
  induction ids as [| id ids IH]; intros Hf; cbn [for_each]; [units |].
  apply keeps_bind; [apply _ | apply Hf; by left | intros []; apply IH; intros i Hi; apply Hf; by right].
Qed.

Definition elsewhere c : Prop := ∀ i, resident c i = true → 0 ≤ i ∧ i ≠ j.

Lemma batch_resident c i : i ∈ next_batch c → resident c i = true.
Proof.
  unfold next_batch, resident. destruct (spillway c) as [spw |]; [| by intros []%elem_of_nil].
  destruct (0 <? _); [| by intros []%elem_of_nil]. unfold Spillway.drain_batch. intros Hi.
  assert (Hk : i ∈ key_order (Spillway.slots spw)) by (rewrite <- (take_drop (Z.to_nat (max_pages c)) (key_order _)); apply elem_of_app; by left).
  apply bool_decide_eq_true. rewrite key_order_perm in Hk. apply list_elem_of_fmap in Hk as ([k v] & -> & Hkv%elem_of_map_to_list). eauto.
Qed.

Lemma unit_drain_loop fuel c : elsewhere c → unitR c (drain_loop fuel c).2.
Proof.
  revert c. induction fuel as [| fuel IH]; intros c He; cbn [drain_loop]; [reflexivity |].
  unfold bind at 1, reads at 1. cbn [Datatypes.id]. destruct (next_batch c) as [| i ids] eqn:E; [reflexivity |]. rewrite <- E.
  apply unit_bind.
  { apply unit_for_each. intros id Hid%batch_resident. destruct (He _ Hid). by apply unit_drain_page. }
  intros [] c1 _ H1. apply unit_bind; [apply unit_evict |]. intros [] c2 _ H2. apply IH. intros k Hk. apply He, H1, H2, Hk.
Qed.

(** A unit whose page is neither dirty nor spilled. *)
Lemma flush_unit c :
  cache_inv c → is_dirty c j = false → 0 ≤ j < PageIo.page_count (io c) →
  unit_at (io (flush c).2) j = unit_at (io c) j ∧ j < PageIo.page_count (io (flush c).2).
Proof.
  intros Hi Hd Hj. apply is_dirty_split in Hd as [Hd Hr]. pose proof (ci_io _ Hi) as Hio.
  assert (Hw : whole c).
  { pose proof (unit_range (io c) j Hio Hj) as Hu. split; [lia |]. split; [apply Hio | apply Hu]. }
  assert (He : elsewhere c).
  { intros i Hres. destruct (ci_spilled _ Hi i Hres). split; [lia |]. intros ->. congruence. }
  assert (Hf : unitR c (flush c).2); [| split; [by apply Hf | pose proof (ur_count _ _ Hf); unfold PageIo.page_count in *; lia]].
  unfold flush. unfold bind at 1, reads at 1. cbn [Datatypes.id]. apply unit_bind; [apply keeps_assert, _ |]. intros [] c0 _ H0.
  apply unit_bind.
  { apply unit_for_each. intros id (e & Hl & Hde)%dirty_ids_spec. apply unit_flush_entry.
    - apply (ci_entries _ Hi _ _ Hl).
    - intros ->. unfold dirty_at in Hd. rewrite Hl in Hd. congruence. }
  intros [] c1 _ H1. apply unit_bind; [apply unit_writes; done |]. intros [] c2 _ H2. unfold bind at 1, reads at 1. cbn [Datatypes.id].
  apply unit_bind.
  { apply unit_drain_loop. intros i Hk. apply He, H0, H1, H2, Hk. }
  intros [] c3 _ H3. unfold bind at 1, reads at 1. cbn [Datatypes.id].
  assert (Hs : keeps unitR (on_io PageIo.fsync)).
  { intros c4. unfold on_io. pose proof (fsync_spec (io c4)) as [Hsm _]. destruct (PageIo.fsync (io c4)) as [r io'].
    destruct Hsm as ([_ Hb] & _ & Hst & Hct). split; [done | cbn in *; lia | | done]. unfold whole, unit_at, TxnFile.file_bytes. cbn in *. by rewrite Hb, Hst. }
  match goal with |- unitR c3 (?m c3).2 => enough (keeps unitR m) by auto end. units.
Qed.
End units.
End FlushUnits.
