(* ===== verification/CommitStore.v ===== *)
(** * The store while a commit runs

    A commit ([src/transaction/commit.rs]) writes the freed pages to the freemap tree
    between two flushes.  What the last commit is made of must stay: [protected] is the
    page cache without those pages, again a page store, so that what is proved of the tree
    says that none of them is touched.  A call that fails may leave a page both cached and
    spilled; [calm] is the store in which it has no effect, and a run that succeeds is the
    same in both ([agrees]), so that a commit that goes on to its second flush has none. *)

From S2P Require Export FlushUnits AllocStore.

(** ** Runs that succeed *)

(** Where [m] succeeds, [m'] does the same. *)
Definition agrees {S A} (m m' : M S A) : Prop := ∀ s, is_ok (m s).1 = true → m' s = m s.

Lemma agrees_refl {S A} (m : M S A) : agrees m m.
Proof. by intros s. Qed.

Lemma agrees_bind {S A B} (m m' : M S A) (k k' : A → M S B) :
  agrees m m' → (∀ a, agrees (k a) (k' a)) → agrees (bind m k) (bind m' k').
Proof.
  intros Hm Hk s. unfold bind. specialize (Hm s). destruct (m s) as [[a | |] s1]; cbn [fst is_ok] in *; [| done | done].
  rewrite Hm by done. apply Hk.
Qed.

Lemma agrees_lift {S X A} (m m' : M S A) : agrees m m' → agrees (lift (X := X) m) (lift m').
Proof. intros Hm [s x]. specialize (Hm s). unfold lift. cbn [fst snd]. destruct (m s). cbn [fst] in *. intros Ho. by rewrite Hm. Qed.

Lemma agrees_zoom {S T A} (get : S → T) (put : T → S → S) (m m' : M T A) :
  agrees m m' → agrees (zoom get put m) (zoom get put m').
Proof. intros Hm s. specialize (Hm (get s)). unfold zoom. destruct (m (get s)). cbn [fst] in *. intros Ho. by rewrite Hm. Qed.

(** A failed call has no effect. *)
Definition calm {S A} (m : M S A) : M S A := λ s, let '(r, s') := m s in (r, if is_ok r then s' else s).

Lemma agrees_calm {S A} (m : M S A) : agrees m (calm m).
Proof. intros s. unfold calm. destruct (m s) as [r s']. cbn. by intros ->. Qed.

Lemma calm_spec {S A} `{Fault} (F : S → Prop) (m : M S A) s (Q : A → S → Prop) :
  F s → spec (λ _, True) m s (λ a s', F s' ∧ Q a s') → spec F (calm m) s Q.
Proof. intros HF [_ Hq]. unfold spec, calm, post in *. by destruct (m s) as [[a | |] s']. Qed.

Create HintDb agrees.
#[export] Hint Resolve agrees_refl agrees_lift agrees_zoom : agrees.

Ltac agrees_step :=
  first
    [ solve [eauto 4 with agrees nocore]
    | lazymatch goal with
      | |- agrees (bind _ _) (bind _ _) => apply agrees_bind; [| intros ?]
      | |- agrees (lift _) (lift _) => apply agrees_lift
      | |- agrees (if decide ?P then _ else _) _ => destruct (decide P)
      | |- agrees (match ?x with _ => _ end) _ => destruct x
      | |- agrees (let x := _ in _) _ => cbv zeta
      end ].
Ltac agrees := repeat agrees_step.

(** The freemap tree over two stores whose calls agree. *)
Section tree.
Import TxnAlloc FreeMapTree.
Context {St : Type} `{HX : Xxh3} (HP1 HP2 : PageStore St) (HR1 HR2 : PageReuse St).
Hypothesis Hget : ∀ id, agrees (ps_get (PageStore := HP1) id) (ps_get (PageStore := HP2) id).
Hypothesis Hmodify : ∀ id f, agrees (ps_modify (PageStore := HP1) id f) (ps_modify (PageStore := HP2) id f).
Hypothesis Hnew : agrees (ps_new_page (PageStore := HP1)) (ps_new_page (PageStore := HP2)).
Hypothesis Hclaim : ∀ id, agrees (ps_claim (PageReuse := HR1) id) (ps_claim (PageReuse := HR2) id).
Abbreviation SL := (St * list Z)%type.
Abbreviation ex1 := (structural_extend (HP := HP1) (HR := HR1)).
Abbreviation ex2 := (structural_extend (HP := HP2) (HR := HR2)).
Abbreviation L1 := (lift_store (X := list Z) (H := HP1)).
Abbreviation L2 := (lift_store (X := list Z) (H := HP2)).

Lemma extend_agrees : agrees ex1 ex2.
Proof. unfold structural_extend. agrees. Qed.

Lemma get_agrees id : agrees (ps_get (PageStore := L1) id) (ps_get (PageStore := L2) id).
Proof. apply agrees_lift, Hget. Qed.

Lemma modify_agrees id f : agrees (ps_modify (PageStore := L1) id f) (ps_modify (PageStore := L2) id f).
Proof. apply agrees_lift, Hmodify. Qed.
#[local] Hint Resolve extend_agrees get_agrees modify_agrees : agrees.

Lemma copy_agrees src dst : agrees (copy_page (H := L1) src dst) (copy_page (H := L2) src dst).
Proof. unfold copy_page. agrees. Qed.
#[local] Hint Resolve copy_agrees : agrees.

Lemma create_agrees : agrees (create (HP := L1) ex1) (create (HP := L2) ex2).
Proof. unfold create. agrees. Qed.

Lemma cow_agrees p t : agrees (cow_node (HP := L1) ex1 p t) (cow_node (HP := L2) ex2 p t).
Proof. unfold cow_node. agrees. Qed.
#[local] Hint Resolve create_agrees cow_agrees : agrees.

Lemma mark_agrees id : agrees (mark_free_growing (HP := L1) ex1 id) (mark_free_growing (HP := L2) ex2 id).
Proof.
  assert (Hd : ∀ op l p r, agrees (descend_loop (HP := L1) ex1 l p r op) (descend_loop (HP := L2) ex2 l p r op)).
  { intros op. induction l as [| l IH]; intros p r; cbn [descend_loop]; agrees. }
  assert (Hg : ∀ fuel, agrees (grow_loop (HP := L1) ex1 fuel id) (grow_loop (HP := L2) ex2 fuel id)).
  { induction fuel as [| fuel IH]; cbn [grow_loop]; unfold grow; agrees. }
  unfold mark_free_growing, mark_free, cow_descend. agrees.
Qed.
#[local] Hint Resolve mark_agrees : agrees.

Lemma persist_agrees ids : agrees (persist (HP := HP1) (HR := HR1) ids) (persist (HP := HP2) (HR := HR2) ids).
Proof.
  induction ids as [| id ids IH]; cbn [persist]; agrees. unfold mark_free_committed_path. apply agrees_zoom. unfold mark_free_body. agrees.
Qed.
End tree.

(** ** Marking the freed pages

    The tree copies its pages to the ids set aside for it and to new ones; every other
    page that is live stays, and those the tree does not own keep their contents. *)

Module Persist.
Import TxnAlloc FreeMapTree FreeMapTreeRead FreeMapTreeWrite FreeMapTreeSpec StructuralStore AllocStore.

Section persist.
Context {St : Type} `{HX : Xxh3} `{HF : Fault} `{HP : !PageStore St} `{HS : !StoreOk St} `{HR : !PageReuse St} `{HO : !ReuseOk St}.
Implicit Types (s : St) (r : list Z) (t : FreeMapTree).

Abbreviation none := (λ _ : Z, False).
Abbreviation L := (parked_store none none).
Abbreviation plive := (parked_live none).
Abbreviation tree_ok := (ft_ok (HS := L) (HV := any_ver)).

(** The state of the tree between two calls. *)
Record supplied s r t : Prop := {
  sp_parked : parked_inv none none (s, r);
  sp_owned : ∀ x, x ∈ session_owned t → plive (s, r) x;
  sp_tree : root t ≠ PAGE_ID_NONE → tree_ok (s, r) t
}.

(** What stays, from one state to another. *)
Record stays s r (o : gset Z) s' r' (o' : gset Z) : Prop := {
  ty_inv : st_inv s';
  ty_live : ∀ x, plive (s, r) x → plive (s', r') x;
  ty_keep : ∀ x, plive (s, r) x → x ∉ o → (x ∉ o') ∧ view s' !! x = view s !! x
}.

Lemma stays_refl s r o : st_inv s → stays s r o s r o.
Proof. by split. Qed.

Lemma stays_trans s1 r1 o1 s2 r2 o2 s3 r3 o3 : stays s1 r1 o1 s2 r2 o2 → stays s2 r2 o2 s3 r3 o3 → stays s1 r1 o1 s3 r3 o3.
Proof.
  intros [I1 L1 K1] [I2 L2 K2]. split; [done | auto |]. intros x Hx Ho. destruct (K1 x Hx Ho) as [Ho2 E2].
  destruct (K2 x (L1 x Hx) Ho2) as [Ho3 E3]. split; [done | congruence].
Qed.

(** A session of the tree. *)
Lemma sess_stays s r t (sx : St * list Z * FreeMapTree) :
  sess (HS := L) (s, r) t sx → stays s r (session_owned t) sx.1.1 sx.1.2 (session_owned sx.2).
Proof.
  destruct sx as [[s' r'] t']. intros [I Hl K _ M]. cbn [fst snd] in *. split; [apply I | exact Hl |].
  intros x Hx Ho. split; [| exact (K x Hx Ho)]. intros [_ [? | Hn]]%M; [done | by apply Hn].
Qed.

Lemma create_supplied s r t :
  supplied s r t →
  spec (λ sx, stays s r (session_owned t) sx.1 sx.2 ∅) (create structural_extend) (s, r)
    (λ t' sx, supplied sx.1 sx.2 {| root := root t'; depth := depth t'; pending_superseded := pending_superseded t';
        session_owned := session_owned t' ∪ session_owned t |} ∧
      root t' ≠ PAGE_ID_NONE ∧ stays s r (session_owned t) sx.1 sx.2 (session_owned t' ∪ session_owned t)).
Proof.
  intros [Hp Ho _]. eapply spec_conseq; [apply (create_run (HS := L) (HV := any_ver) any_stored structural_extend (structural_extend_ok _ _) (s, r) Hp) | |].
  - intros [s' r'] [I E]. split; [apply I | intros x Hx; by apply E |]. intros x Hx _. split; [apply not_elem_of_empty | by apply E].
  - intros t' [s' r'] [I E] (Hf & _ & _ & _ & Hown & Hn). cbn [fst snd] in *. destruct (fo_root _ _ Hf) as [_ Hru].
    assert (Hlive : plive (s', r') (root t')) by (apply (fo_owned _ _ Hf); rewrite Hown; by apply elem_of_singleton).
    assert (Hall : ∀ x, x ∈ session_owned t' ∪ session_owned t → plive (s', r') x).
    { intros x [Hx | Hx]%elem_of_union; [by apply (fo_owned _ _ Hf) | by apply E, Ho]. }
    split; [split; cbn [root depth session_owned]; [exact I | exact Hall |] |].
    + intros _. destruct Hf as [F1 F2 F3 F4 F5 _]. split; [exact F1 | exact F2 | exact F3 | exact F4 | exact F5 | exact Hall].
    + split; [pose proof (live_none (StoreOk := L) (s', r') (root t') I Hlive); lia |]. split; [apply I | intros x Hx; by apply E |].
      intros x Hx Hxo. split; [| by apply E]. rewrite Hown, elem_of_union, elem_of_singleton. intros [-> | ?]; [by apply Hn | done].
Qed.

Lemma mark_supplied s r t id :
  supplied s r t → root t ≠ PAGE_ID_NONE → 0 ≤ id < u64_max →
  spec (λ sx, stays s r (session_owned t) sx.1.1 sx.1.2 (session_owned sx.2)) (mark_free_growing structural_extend id) (s, r, t)
    (λ _ sx, supplied sx.1.1 sx.1.2 sx.2 ∧ tree_ok sx.1 sx.2).
Proof.
  intros [Hp Ho Ht] Hr Hid.
  eapply spec_conseq; [apply (mark_free_growing_run (HS := L) (HV := any_ver) any_stored structural_extend (structural_extend_ok _ _) (s, r) t id (Ht Hr) Hid) | |].
  - intros sx [Hs _]. by apply sess_stays.
  - intros [] [[s' r'] t'] [Hs _] (Hf & _). cbn [fst snd] in *. split; [| done]. split; [apply Hs | apply Hf | done].
Qed.

Lemma body_supplied s r t id :
  supplied s r t → 0 ≤ id < u64_max →
  spec (λ sx, stays s r (session_owned t) sx.1.1 sx.1.2 (session_owned sx.2)) (mark_free_body id) (s, r, t)
    (λ _ sx, supplied sx.1.1 sx.1.2 sx.2 ∧ tree_ok sx.1 sx.2).
Proof.
  intros Hs Hid. pose proof (sp_parked _ _ _ Hs) as Hp. unfold mark_free_body. apply bind_reads. cbn [snd].
  eapply (spec_bind _ _ _ _ (λ _ sx, supplied sx.1.1 sx.1.2 sx.2 ∧ root sx.2 ≠ PAGE_ID_NONE ∧
    stays s r (session_owned t) sx.1.1 sx.1.2 (session_owned sx.2))).
  - destruct (Z.eqb_spec (root t) PAGE_ID_NONE) as [E | E].
    + apply bind_writes. cbn [fst snd].
      eapply (bind_lift _ _ _ _ _ (λ t' sx, supplied sx.1 sx.2 {| root := root t'; depth := depth t'; pending_superseded := pending_superseded t';
          session_owned := session_owned t' ∪ session_owned t |} ∧
        root t' ≠ PAGE_ID_NONE ∧ stays s r (session_owned t) sx.1 sx.2 (session_owned t' ∪ session_owned t))).
      { eapply spec_conseq; [apply (create_supplied s r t Hs) | intros sx H; exact H | intros t' sx _ H; exact H]. }
      intros t' [s' r'] _ (H1 & H2 & H3). by apply spec_writes.
    + apply spec_ret; [apply stays_refl, Hp |]. cbn [fst snd]. ands; [done | done | apply stays_refl, Hp].
  - intros [] [[s1 r1] t1] _ (H1 & H2 & H3). cbn [fst snd] in *.
    eapply spec_conseq; [apply (mark_supplied s1 r1 t1 id H1 H2 Hid) | |].
    + intros sx H. by eapply stays_trans.
    + done.
Qed.
(** The tree of the roots, between two calls. *)
Definition ready (sx : St * FreemapRecycle * Roots) : Prop :=
  supplied sx.1.1 (structural_reuse sx.1.2) (take_tree sx.2 sx.1.2).1.

Definition rooted (r : Roots) : Prop := is_u64 (freemap_page r) ∧ (freemap_depth r ≤ MAX_DEPTH)%nat.

(** The superseded pages are written down elsewhere. *)
Lemma supplied_any s r t t' :
  root t' = root t → depth t' = depth t → session_owned t' = session_owned t → supplied s r t → supplied s r t'.
Proof.
  intros E1 E2 E3 [Hp Ho Ht]. split; [done | by rewrite E3 |]. rewrite E1. intros [F1 F2 F3 F4 F5 F6]%Ht.
  split; rewrite ?E1, ?E2, ?E3; try done. intros k Hk. specialize (F5 k Hk). unfold free in *. by rewrite E1, E2.
Qed.

(** On every outcome. *)
Record held_back (sx sx' : St * FreemapRecycle * Roots) : Prop := {
  hb_stays : stays sx.1.1 (structural_reuse sx.1.2) (recycle_owned sx.1.2) sx'.1.1 (structural_reuse sx'.1.2) (recycle_owned sx'.1.2);
  hb_roots : ∃ p d, sx'.2 = set_freemap p d sx.2
}.

Lemma held_back_trans a b c : held_back a b → held_back b c → held_back a c.
Proof.
  intros [S1 (p1 & d1 & E1)] [S2 (p2 & d2 & E2)]. split; [by eapply stays_trans |]. exists p2, d2. by rewrite E2, E1.
Qed.

Lemma path_run id (sx : St * FreemapRecycle * Roots) :
  ready sx → 0 ≤ id < u64_max →
  spec (held_back sx) (mark_free_committed_path id) sx (λ _ sx', ready sx' ∧ rooted sx'.2).
Proof.
  destruct sx as [[s fm] roots]. intros Hr Hid. apply spec_zoom. cbn [fst snd].
  eapply spec_conseq; [apply (body_supplied s (structural_reuse fm) _ id Hr Hid) | |].
  - intros [[s' r'] t'] H. split; [exact H |]. by eexists _, _.
  - intros [] [[s' r'] t'] _ [H1 H2]. cbn [fst snd] in *. split; [by eapply supplied_any; [.. | exact H1] |]. split; apply H2.
Qed.

Lemma persist_run ids (sx : St * FreemapRecycle * Roots) :
  ready sx → Forall (λ id, 0 ≤ id < u64_max) ids →
  spec (held_back sx) (persist ids) sx (λ _ sx', ready sx' ∧ (rooted sx.2 → rooted sx'.2)).
Proof.
  revert sx. induction ids as [| id ids IH]; intros sx Hr Hids; cbn [persist].
  { apply spec_ret; [| done]. split; [apply stays_refl, Hr |]. exists (freemap_page sx.2), (freemap_depth sx.2). by destruct sx as [? []]. }
  apply Forall_cons in Hids as [Hid Hids]. eapply spec_bind; [by apply path_run |]. intros [] sx1 H1 [Hr1 Hro].
  eapply spec_conseq; [by apply (IH sx1) | intros sx2 H2; by eapply held_back_trans |]. intros [] sx2 _ [Hr2 Hk]. auto.
Qed.
End persist.

(** The same pages in another store. *)
Section across.
Context {St : Type} `{HX : Xxh3} `{HF : Fault}.
Context (HP1 : PageStore St) (HS1 : StoreOk (H1 := HP1) St) (HR1 : PageReuse St) (HO1 : ReuseOk (HP := HP1) (HS := HS1) (HR := HR1) St).
Context (HP2 : PageStore St) (HS2 : StoreOk (H1 := HP2) St) (HR2 : PageReuse St) (HO2 : ReuseOk (HP := HP2) (HS := HS2) (HR := HR2) St).
Abbreviation L1 := (parked_store (HO := HO1) (λ _, False) (λ _, False)).
Abbreviation L2 := (parked_store (HO := HO2) (λ _, False) (λ _, False)).

Lemma supplied_across s1 s2 r t :
  (∀ x, live (StoreOk := HS1) s1 x → live (StoreOk := HS2) s2 x ∧ view (StoreOk := HS2) s2 !! x = view (StoreOk := HS1) s1 !! x) →
  parked_inv (HS := HS2) (HR := HR2) (λ _, False) (λ _, False) (s2, r) →
  supplied (HS := HS1) (HO := HO1) s1 r t → supplied (HS := HS2) (HO := HO2) s2 r t.
Proof.
  intros Hx Hp [P1 Ho Ht].
  assert (Hl : ∀ x, parked_live (HS := HS1) (λ _, False) (s1, r) x → parked_live (HS := HS2) (λ _, False) (s2, r) x).
  { intros x (Hlx & ? & ?). split; [by apply Hx | done]. }
  assert (Hc : ∀ x v, holds (H2 := L1) (s1, r) x v → holds (H2 := L2) (s2, r) x v).
  { intros x v [Hlx Hv]. split; [by apply Hl |]. destruct (Hx x (proj1 Hlx)) as [_ E]. exact (eq_trans E Hv). }
  split; [done | auto |]. intros [F1 F2 F3 F4 F5 F6]%Ht. split; [exact Hp | | done | done | | intros x Hxo; exact (Hl x (Ho x Hxo))].
  - eapply (across_wf (HV := any_ver) (HS1 := L1) (HS2 := L2) is_leaf is_int (s1, r) (s2, r)); [by apply carried_all | done].
  - intros k Hk. assert (0 ≤ k) by (unfold u64_max in Hk; lia). specialize (F5 k Hk). rewrite (free_key (HS := L1)) in F5 by done.
    rewrite (free_key (HS := L2)) by done. destruct (_ <=? _) eqn:E; [done |].
    etransitivity; [| exact F5]. apply (across_den (HV := any_ver) (HS1 := L1) (HS2 := L2) false LC is_leaf is_int leaf_val leaf_pos (s1, r) (s2, r));
      [by apply carried_all | apply F2 | lia].
Qed.
End across.
End Persist.

(** ** The cache without the pages that must stay *)

Module CommitStore.
Import TxnAlloc FreeMapTree PageCache CacheInv CacheEvict CacheOps CacheFlush CacheStore CacheReuse StructuralStore.

Section protect.
Context `{HX : Xxh3} `{HO : HashOrder} `{HC : Primitives}.
Implicit Types (c : PageCache).
#[local] Instance store_fault : Fault := cache_fault True True.

(** The pages that must stay. *)
Variable W : Z → Prop.

Record safe_inv c : Prop := {
  sf_inv : cache_inv c;
  sf_clean : ∀ j, W j → 0 ≤ j < next_page_id c ∧ is_dirty c j = false
}.

Definition open_live c (j : Z) : Prop := cache_live c j ∧ ¬ W j.

(** A step that makes no page dirty but [id]. *)
Lemma safe_step id c c' :
  safe_inv c → cache_inv c' → next_page_id c ≤ next_page_id c' → (W id → False) → clean_but id c c' → safe_inv c'.
Proof.
  intros [Hi Hw] Hi' Hn Hid Hc. split; [done |]. intros j Hj. destruct (Hw j Hj) as [Hr Hd]. split; [lia |].
  apply Hc; [intros ->; auto | done].
Qed.

Lemma safe_steady c c' : safe_inv c → steady c c' → safe_inv c'.
Proof.
  intros Hs Hst. eapply (safe_step (-1) c c'); [done | apply Hst | rewrite (sd_next _ _ Hst); lia | |].
  - intros Hw. destruct (sf_clean _ Hs _ Hw). lia.
  - intros j _ Hd. by apply (sd_clean _ _ Hst).
Qed.

Lemma same_open c c' : same cache_view cache_live c c' → same cache_view open_live c c'.
Proof. intros Hs j. destruct (Hs j) as [H1 H2]. unfold open_live. rewrite H1. split; [done |]. intros [? _]. auto. Qed.

#[local] Instance protected : StoreOk PageCache.
Proof.
  refine {| st_inv := safe_inv; view := cache_view; live := open_live |}.
  - intros c id Hi [Hl _]. exact (live_next (StoreOk := cache_store_ok) c id (sf_inv _ Hi) Hl).
  - intros c id Hi [Hl _]. exact (live_none (StoreOk := cache_store_ok) c id (sf_inv _ Hi) Hl).
  - intros c id v Hi. exact (view_wf (StoreOk := cache_store_ok) c id v (sf_inv _ Hi)).
  - intros c id Hs. pose proof (sf_inv _ Hs) as Hi. destruct (get_ok (StoreOk := cache_store_ok) c id Hi) as [[_ Hsm] Hp]. split; [| exact Hp].
    split; [| by apply same_open]. cbn [ps_get cache_store].
    destruct (get_spec True c (cast 64 id) Hi (cast_nonneg id) (λ _, I)) as [Hst _]. by eapply safe_steady.
  - intros c id f Hs [Hl Hn] Hf Hst. pose proof (sf_inv _ Hs) as Hi. destruct (modify_ok (StoreOk := cache_store_ok) c id f Hi Hl Hf Hst) as [[Hi' Ho] Hp].
    split; [| exact Hp]. split.
    + eapply (safe_step id c); [done | exact Hi' | | done | exact (modify_clean (ReuseOk := cache_reuse_ok) c id f Hi Hl Hf Hst)].
      destruct Hl as [v Hv]. cbn [ps_modify cache_store]. rewrite (cast_live c id v) by done.
      pose proof (page_at_range c id v Hi Hv) as Hrg.
      destruct (modify_spec True c id f Hi ltac:(lia) (λ _, I) Hf Hst) as [Hc _]. rewrite (cg_next _ _ _ Hc). lia.
    + intros j. destruct (Ho j) as [H1 H2]. unfold open_live. change (cache_live (ps_modify id f c).2 j ↔ cache_live c j) in H1. rewrite H1.
      split; [done |]. intros [? _]. auto.
  - intros c id f Hs [Hl Hn] Hr. apply same_open. exact (modify_fail (StoreOk := cache_store_ok) c id f (sf_inv _ Hs) Hl Hr).
  - intros c Hs. pose proof (sf_inv _ Hs) as Hi. destruct (new_page_ok (StoreOk := cache_store_ok) c Hi) as [[Hi' He] Hp].
    destruct (new_page_spec c Hi) as [Hr _]. split; [split |].
    + eapply (safe_step (next_page_id c) c); [done | exact Hi' | apply Hr | | exact (rn_clean _ _ _ Hr)].
      intros Hw. destruct (sf_clean _ Hs _ Hw). lia.
    + intros j [Hl Hw]. destruct (He j Hl). by split.
    + unfold post in *. destruct (ps_new_page c) as [[id | e | p] c'] eqn:E; cbn [fst snd] in *; [| done | done].
      destruct Hp as (Hn & Hl & Hid). split; [by intros [? _] |]. split; [| done]. split; [done |].
      intros Hw. cbn [ps_new_page cache_store] in E.
      pose proof (new_page_spec c Hi) as [_ Hq]. unfold post in Hq. rewrite E in Hq. destruct Hq as (-> & _). destruct (sf_clean _ Hs _ Hw). lia.
Defined.

#[local] Instance protected_reuse : ReuseOk PageCache (HS := protected).
Proof.
  split.
  - intros c id j Hs Hd. exact (get_clean (ReuseOk := cache_reuse_ok) c id j (sf_inv _ Hs) Hd).
  - intros c id f Hs [Hl _] Hf Hst. exact (modify_clean (ReuseOk := cache_reuse_ok) c id f (sf_inv _ Hs) Hl Hf Hst).
  - intros c j Hs [Hl _] Hd. exact (new_clean (ReuseOk := cache_reuse_ok) c j (sf_inv _ Hs) Hl Hd).
  - intros c id Hs [Hl Hn] Hd. pose proof (sf_inv _ Hs) as Hi. destruct (claim_ok (ReuseOk := cache_reuse_ok) c id Hi Hl Hd) as [(Hi' & Hl' & Hr & Hc) Hp].
    split; [| exact Hp]. ands; [| by split | | done].
    + eapply (safe_step id c); [done | exact Hi' | | done | exact Hc].
      cbn [ps_claim cache_reuse]. unfold claim_page, bind, reads, assert_that. destruct (negb _); [| cbn; lia]. cbn [ret].
      destruct Hl as [v Hv]. rewrite (cast_live c id v) by done.
      destruct (reissue_spec c id Hi (page_at_range c id v Hi Hv)) as [[Hrn _] _]. apply Hrn.
    + intros j Hj. destruct (Hr j Hj) as [H1 H2]. split; [| exact H2]. split; intros [? ?]; (split; [by apply H1 | done]).
  - intros c id Hs [Hl Hn]. pose proof (sf_inv _ Hs) as Hi. destruct (reclaim_ok (ReuseOk := cache_reuse_ok) c id Hi Hl) as [(Hi' & Hl' & Hr & Hc) Hp].
    split; [| exact Hp]. ands; [| by split | | done].
    + eapply (safe_step id c); [done | exact Hi' | | done | exact Hc].
      cbn [ps_reclaim cache_reuse]. unfold reclaim_dead_txn_page. destruct Hl as [v Hv]. rewrite (cast_live c id v) by done.
      destruct (reissue_spec c id Hi (page_at_range c id v Hi Hv)) as [[Hrn _] _]. apply Hrn.
    + intros j Hj. destruct (Hr j Hj) as [H1 H2]. split; [| exact H2]. split; intros [? ?]; (split; [by apply H1 | done]).
Defined.

(** ** Without the effects of failed calls *)

Definition tidy_inv c : Prop := safe_inv c ∧ tidy c.

Definition calm_store : PageStore PageCache := {|
  ps_get id := calm (get (cast 64 id));
  ps_modify id f := calm (modify (cast 64 id) f);
  ps_new_page := calm new_page;
  ps_next_page_id := next_page_id
|}.

Definition calm_reuse : PageReuse PageCache := {|
  ps_claim id := calm (claim_page (cast 64 id));
  ps_reclaim id := calm (reclaim_dead_txn_page (cast 64 id));
  ps_dirty c id := is_dirty c id
|}.

Lemma calm_rule {A} (F : PageCache → Prop) (m : M PageCache A) c (Q : A → PageCache → Prop) (T : A → PageCache → Prop) :
  spec F m c Q → spec (λ _, True) m c T → tidy_inv c → F c →
  (∀ a c', F c' → Q a c' → T a c' → tidy_inv c') → spec (λ c', tidy_inv c' ∧ F c') (calm m) c Q.
Proof.
  intros [HF HQ] [_ HT] Ht Hc Hk. apply calm_spec; [done |]. unfold spec, post in *. destruct (m c) as [[a | |] c']; cbn [fst snd] in *; [| done | done].
  split; [done |]. split; [split; [by eapply Hk | done] | done].
Qed.

(** What the calls of the cache say of [tidy]. *)
Lemma get_tidy c id : cache_inv c → spec (λ _, True) (get (cast 64 id)) c (λ _ c', tidy c → tidy c').
Proof. intros Hi. eapply spec_conseq; [exact (get_spec True c (cast 64 id) Hi (cast_nonneg id) (λ _, I)) | done | by intros a c' _ []]. Qed.

Lemma modify_tidy c id f :
  cache_inv c → cache_live c id → (∀ p, wf_page p → wf_page (f p)) → stamps f →
  spec (λ _, True) (modify (cast 64 id) f) c (λ _ c', tidy c → tidy c').
Proof.
  intros Hi [v Hv] Hf Hst. pose proof (page_at_range c id v Hi Hv). rewrite (cast_live c id v) by done.
  eapply spec_conseq; [exact (modify_spec True c id f Hi ltac:(lia) (λ _, I) Hf Hst) | done |]. intros a c' _ (_ & w & w' & _ & _ & _ & _ & _ & Ht). done.
Qed.

Lemma new_tidy c : cache_inv c → spec (λ _, True) new_page c (λ _ c', tidy c → tidy c').
Proof.
  intros Hi. eapply spec_conseq; [exact (cache_fault_mono False True True True _ _ _ _ (new_page_spec c Hi) (λ _, I) id) | done |].
  intros a c' _ (_ & _ & _ & _ & _ & Ht). done.
Qed.

Lemma reissue_tidy c id : cache_inv c → cache_live c id → spec (λ _, True) (reissue_page (cast 64 id)) c (λ _ c', tidy c → tidy c').
Proof.
  intros Hi [v Hv]. pose proof (page_at_range c id v Hi Hv) as Hid. rewrite (cast_live c id v) by done.
  eapply spec_conseq; [exact (cache_fault_mono False False True True _ _ _ _ (reissue_spec c id Hi Hid) (λ _, I) (λ _, I)) | done |].
  intros a c' _ (_ & _ & Ht). done.
Qed.

Lemma claim_tidy c id :
  cache_inv c → cache_live c id → is_dirty c id = false → spec (λ _, True) (claim_page (cast 64 id)) c (λ _ c', tidy c → tidy c').
Proof.
  intros Hi Hl Hd. unfold claim_page. apply bind_reads. apply bind_assert; [| done | by apply reissue_tidy].
  destruct Hl as [v Hv]. rewrite (cast_live c id v) by done. apply negb_true_iff. exact Hd.
Qed.

(** The instances: each call is the protected store's where it succeeds. *)
#[local] Instance calm_ok : StoreOk (H1 := calm_store) PageCache.
Proof.
  refine {| st_inv := tidy_inv : PageCache → Prop; view := cache_view; live := open_live |}.
  - intros c id [Hi _]. exact (live_next (StoreOk := protected) c id Hi).
  - intros c id [Hi _]. exact (live_none (StoreOk := protected) c id Hi).
  - intros c id v [Hi _]. exact (view_wf (StoreOk := protected) c id v Hi).
  - intros c id Ht. pose proof Ht as [Hs Ht0]. cbn [ps_get calm_store]. pose proof (get_ok (StoreOk := protected) c id Hs) as Hg.
    eapply spec_conseq; [eapply (calm_rule _ _ _ _ _ Hg (get_tidy c id (sf_inv _ Hs)) Ht) | |].
    + split; [done |]. intros j. done.
    + intros a c' [Hs' _] _ Ht'. split; [done | auto].
    + intros c' (Ht' & _ & Hsm). done.
    + done.
  - intros c id f Ht Hl Hf Hst. pose proof Ht as [Hs Ht0]. cbn [ps_modify calm_store].
    pose proof (modify_ok (StoreOk := protected) c id f Hs Hl Hf Hst) as Hg.
    eapply spec_conseq; [eapply (calm_rule _ _ _ _ _ Hg (modify_tidy c id f (sf_inv _ Hs) (proj1 Hl) Hf Hst) Ht) | |].
    + split; [done |]. intros j. done.
    + intros a c' [Hs' _] _ Ht'. split; [done | auto].
    + intros c' (Ht' & _ & Hsm). done.
    + done.
  - intros c id f Ht Hl. cbn [ps_modify calm_store]. unfold calm. destruct (modify (cast 64 id) f c) as [r c']. cbn. intros ->.
    intros j. done.
  - intros c Ht. pose proof Ht as [Hs Ht0]. cbn [ps_new_page calm_store]. pose proof (new_page_ok (StoreOk := protected) c Hs) as Hg.
    eapply spec_conseq; [eapply (calm_rule _ _ _ _ _ Hg (new_tidy c (sf_inv _ Hs)) Ht) | |].
    + split; [done |]. intros j. done.
    + intros a c' [Hs' _] _ Ht'. split; [done | auto].
    + intros c' (Ht' & _ & Hsm). done.
    + done.
Defined.

#[local] Instance calm_reuse_ok : ReuseOk (HP := calm_store) (HS := calm_ok) (HR := calm_reuse) PageCache.
Proof.
  split.
  - intros c id j [Hs _] Hd. cbn [ps_get calm_store]. pose proof (get_clean (ReuseOk := protected_reuse) c id j Hs Hd) as Hc. cbn [ps_get cache_store] in Hc.
    unfold calm. destruct (get (cast 64 id) c) as [r c']. by destruct (is_ok r).
  - intros c id f [Hs _] Hl Hf Hst j Hj Hd. cbn [ps_modify calm_store]. pose proof (modify_clean (ReuseOk := protected_reuse) c id f Hs Hl Hf Hst j Hj Hd) as Hc.
    cbn [ps_modify cache_store] in Hc. unfold calm. destruct (modify (cast 64 id) f c) as [r c']. by destruct (is_ok r).
  - intros c j [Hs _] Hl Hd. cbn [ps_new_page calm_store]. pose proof (new_clean (ReuseOk := protected_reuse) c j Hs Hl Hd) as Hc. cbn [ps_new_page cache_store] in Hc.
    unfold calm. destruct (new_page c) as [r c']. by destruct (is_ok r).
  - intros c id Ht Hl Hd. pose proof Ht as [Hs Ht0]. cbn [ps_claim calm_reuse].
    pose proof (claim_ok (ReuseOk := protected_reuse) c id Hs Hl Hd) as Hg.
    eapply spec_conseq; [eapply (calm_rule _ _ _ _ _ Hg (claim_tidy c id (sf_inv _ Hs) (proj1 Hl) Hd) Ht) | |].
    + split; [done |]. split; [done |]. split; [by intros j | by intros j].
    + intros a c' [Hs' _] _ Ht'. split; [done | auto].
    + intros c' (Ht' & _ & H). done.
    + done.
  - intros c id Ht Hl. pose proof Ht as [Hs Ht0]. cbn [ps_reclaim calm_reuse].
    pose proof (reclaim_ok (ReuseOk := protected_reuse) c id Hs Hl) as Hg.
    eapply spec_conseq; [eapply (calm_rule _ _ _ _ _ Hg (reissue_tidy c id (sf_inv _ Hs) (proj1 Hl)) Ht) | |].
    + split; [done |]. split; [done |]. split; [by intros j | by intros j].
    + intros a c' [Hs' _] _ Ht'. split; [done | auto].
    + intros c' (Ht' & _ & H). done.
    + done.
Defined.

(** ** The freed pages, over the cache *)

Definition prepared (sx : PageCache * FreemapRecycle * Roots) : Prop := Persist.ready (HS := protected) (HO := protected_reuse) sx.
Definition untouched (sx sx' : PageCache * FreemapRecycle * Roots) : Prop := Persist.held_back (HS := protected) sx sx'.

Lemma prepared_calm c fm roots :
  prepared (c, fm, roots) → tidy c → Persist.ready (HP := calm_store) (HS := calm_ok) (HR := calm_reuse) (HO := calm_reuse_ok) (c, fm, roots).
Proof.
  intros Hr Ht. apply (Persist.supplied_across _ protected _ protected_reuse calm_store calm_ok calm_reuse calm_reuse_ok c); [done | | exact Hr].
  destruct Hr as [[P1 P2 P3 P4 P5] _ _]. split; [by split | done | done | done | done].
Qed.

Lemma persist_cache ids c fm roots :
  prepared (c, fm, roots) → tidy c → Forall (λ id, 0 ≤ id < u64_max) ids →
  spec (untouched (c, fm, roots)) (persist ids) (c, fm, roots)
    (λ _ sx, prepared sx ∧ tidy sx.1.1 ∧ (Persist.rooted roots → Persist.rooted sx.2)).
Proof.
  intros Hr Ht Hids. pose proof (Persist.persist_run (HS := protected) (HO := protected_reuse) ids (c, fm, roots) Hr Hids) as [HF HQ].
  pose proof (Persist.persist_run (HP := calm_store) (HS := calm_ok) (HR := calm_reuse) (HO := calm_reuse_ok) ids (c, fm, roots)
    (prepared_calm c fm roots Hr Ht) Hids) as [_ HT].
  pose proof (persist_agrees cache_store calm_store cache_reuse calm_reuse (λ id, agrees_calm _) (λ id f, agrees_calm _) (agrees_calm _) (λ id, agrees_calm _)
    ids (c, fm, roots)) as Ha.
  split; [exact HF |]. unfold post in *. destruct (persist (HP := cache_store) (HR := cache_reuse) ids (c, fm, roots)) as [[[] | e | p] sx]; cbn [fst snd is_ok] in *; [| done | done].
  rewrite Ha in HT by done. destruct HQ as [Hr' Hro]. destruct HT as [[[[_ Ht'] _ _ _ _] _ _] _]. done.
Qed.
End protect.
End CommitStore.
