(* ===== verification/CommitProps.v ===== *)
(** * Commits: what a crash leaves, and what is on disk afterwards

    The order of [run_commit] ([src/transaction/commit.rs]): flush the pages, write the
    freed ids to the freemap tree, flush again, write one superblock slot, sync.  Whatever
    fails, the pages of the last commit and the other slots keep their bytes, and the slot
    is not touched before every page is in the file; so an opening finds the last commit
    or the new one, and after a success the new one. *)

From S2P Require Export Slots CommitStore.

Module CommitProps.
Import TxnAlloc Txn TxnCommit PageCache PageIoFacts CacheInv CacheEvict CacheOps CacheFlush CacheStore CacheReuse CryptoHeader CryptoHeaderFacts
  SuperblockFacts SuperblockBody SuperblockProps CryptoHeaderProps AllocStore Recovery Slots CommitStore TxnFile.

Section commit.
Context `{HX : Xxh3} `{HO : HashOrder} `{HC : Primitives}.
Abbreviation TM := (TransactionManager PageCache).
#[local] Existing Instance any_fault.
Implicit Types (c : PageCache) (self s : TM).

(** The pages that the last commit is made of, its superblock slots included. *)
Variable W : Z → Prop.

(** ** The two flushes *)

(** The protected units from one state of the cache to the next. *)
Definition unitsR c c' : Prop :=
  (∀ j, W j → j < PageIo.page_count (io c)) →
  ∀ j, W j → unit_at (io c') j = unit_at (io c) j ∧ j < PageIo.page_count (io c').

Lemma unitsR_trans c1 c2 c3 : unitsR c1 c2 → unitsR c2 c3 → unitsR c1 c3.
Proof.
  intros H1 H2 Hc j Hj. destruct (H1 Hc j Hj) as [E1 _]. destruct (H2 (λ i Hi, proj2 (H1 Hc i Hi)) j Hj) as [E2 ?]. split; [congruence | done].
Qed.

Lemma flow_safe c c' : safe_inv W c → flow c c' → safe_inv W c'.
Proof.
  intros [Hi Hw] Hf. split; [apply Hf |]. intros j Hj. destruct (Hw j Hj) as [Hr Hd]. rewrite (fw_next _ _ Hf). split; [done | by apply (fw_settled _ _ Hf)].
Qed.

Lemma flush_run c :
  safe_inv W c → tidy c →
  spec (λ c', flow c c' ∧ unitsR c c') flush c (λ _ c', kept c c' ∧ quiescent c').
Proof.
  intros [Hi Hw] Ht. pose proof (any_spec flush_fault _ _ _ _ (flush_spec c Hi Ht)) as [Hf Hq]. split; [| exact Hq]. split; [done |].
  intros Hc j Hj. destruct (Hw j Hj) as [Hr Hd]. apply FlushUnits.flush_unit; [done | done |]. specialize (Hc j Hj). lia.
Qed.

(** The tree and its supplies after a flush. *)
Lemma prepared_flush c c' fm roots :
  prepared W (c, fm, roots) → flow c c' → kept c c' → prepared W (c', fm, roots).
Proof.
  intros Hr Hf Hk. pose proof (Persist.sp_parked _ _ _ Hr) as [P1 P2 P3 P4 P5]. cbn [fst snd] in *.
  pose proof (flow_safe c c' P1 Hf) as Hs'.
  assert (Hl : ∀ x, open_live W c x → open_live W c' x ∧ cache_view c' !! x = cache_view c !! x).
  { intros x [[p Hp] Hx]. pose proof (Hk x p Hp) as Hp'. split; [split; [by exists p | done] |].
    rewrite !view_page by (apply Hs' || apply P1). congruence. }
  apply (Persist.supplied_across _ (protected W) _ (protected_reuse W) _ (protected W) _ (protected_reuse W) c); [exact Hl | | exact Hr].
  split; [exact Hs' | done | | done | done]. cbn [fst snd]. intros j Hj. destruct (P3 j Hj) as (Hlj & ? & Hd & ?). ands; [by apply Hl | done | | done].
  by apply (fw_settled _ _ Hf).
Qed.
(** The loop over the freed pages does not write the file. *)
Lemma persist_units ids c fm roots : unitsR c (persist ids (c, fm, roots)).2.1.1 ∧ PageCache.cipher (persist ids (c, fm, roots)).2.1.1 = PageCache.cipher c.
Proof.
  pose proof (al_persist_keeps TxnFile.fileR ids (c, fm, roots)) as [B S Ct Hci _]. cbn [fst snd] in *. split.
  - intros Hc j Hj. unfold unit_at, PageIo.page_count, TxnFile.file_bytes in *. rewrite B, S, Ct. split; [done | by apply Hc].
  - done.
Qed.
(** ** Up to the superblock *)

Record same_core self s : Prop := {
  sm_counter : txn_counter s = txn_counter self;
  sm_count : superblock_count s = superblock_count self;
  sm_cipher : Txn.cipher s = Txn.cipher self;
  sm_header : crypto_header s = crypto_header self
}.

(** The ids that are written to the freemap tree. *)
Definition freed_ids self : list Z :=
  (txn_freed_pages self ++ concat (sp_freed_pages <$> savepoints self)) ++ recyclable (txn_pages self).

Record commit_ready self : Prop := {
  cm_prepared : prepared W (cache self, Txn.freemap self, current_roots self);
  cm_tidy : tidy (cache self);
  cm_file : ∀ j, W j → j < PageIo.page_count (io (cache self));
  cm_slots : ∀ j, 0 ≤ j < superblock_count self → W j;
  cm_count : 2 ≤ superblock_count self ≤ Superblock.MAX_SUPERBLOCKS;
  cm_counter : 0 ≤ txn_counter self;
  cm_freed : Forall (λ id, 0 ≤ id < u64_max) (freed_ids self);
  cm_key : PageCache.cipher (cache self) = Txn.cipher self;
  cm_header : match Txn.cipher self, crypto_header self with
    | Some _, Some h => header_ok h ∧ algorithm h ≠ 0
    | None, None => True
    | _, _ => False
    end;
  cm_roots : sb_ok (commit_superblock self 0);
  cm_depth : (freemap_depth (current_roots self) ≤ FreeMapTree.MAX_DEPTH)%nat
}.

(** Pages that neither the tree nor the protected set has a say in. *)
Definition plain self (x : Z) : Prop :=
  ¬ W x ∧ (x ∉ structural_reuse (Txn.freemap self)) ∧ (x ∉ recycle_owned (Txn.freemap self)).

(** Everything is in the file, and the superblock is next. *)
Record stored self s : Prop := {
  sd_safe : safe_inv W (cache s);
  sd_quiet : quiescent (cache s);
  sd_units : unitsR (cache self) (cache s);
  sd_plain : ∀ x p, page_at (cache self) x = Some p → plain self x → page_at (cache s) x = Some p;
  sd_key : PageCache.cipher (cache s) = PageCache.cipher (cache self);
  sd_roots : ∃ p d, current_roots s = TxnAlloc.set_freemap p d (current_roots self) ∧ is_u64 p ∧ (d ≤ FreeMapTree.MAX_DEPTH)%nat;
  sd_core : same_core self s
}.

Definition early self s : Prop := unitsR (cache self) (cache s) ∧ same_core self s.

Lemma units_refl c : unitsR c c.
Proof. intros Hc j Hj. split; [done | by apply Hc]. Qed.

Lemma quiescent_tidy c : quiescent c → tidy c.
Proof. intros [_ Hq] j _. apply Hq. Qed.

(** A flush of the manager's cache. *)
Lemma manager_flush self s :
  safe_inv W (cache s) → tidy (cache s) → early self s →
  spec (early self) (on_cache tc_flush) s (λ _ s', ∃ c', s' = set_cache c' s ∧ flow (cache s) c' ∧ unitsR (cache s) c' ∧ kept (cache s) c' ∧ quiescent c').
Proof.
  intros Hs Ht [Hu Hc]. unfold on_cache. cbn [tc_flush]. apply spec_zoom.
  eapply spec_conseq; [exact (flush_run (cache s) Hs Ht) | |].
  - intros c' [_ Hu']. split; [cbn; by eapply unitsR_trans | destruct Hc; by split].
  - intros [] c' [Hf Hu'] [Hk Hq]. by exists c'.
Qed.

Definition stage : M TM unit :=
  writes (λ self, set_savepoints (sp_emptied <$> savepoints self)
    (set_txn_freed_pages (txn_freed_pages self ++ concat (sp_freed_pages <$> savepoints self)) self)) ;;;
  drain_pool ;;;
  on_cache tc_flush ;;;
  persist_freed ;;;
  on_cache tc_flush.

Lemma stage_spec self : commit_ready self → spec (early self) stage self (λ _ s, stored self s).
Proof.
  intros Hr. pose proof (Persist.sp_parked _ _ _ (cm_prepared _ Hr)) as [Hs0 _ _ _ _]. cbn [fst snd] in Hs0.
  unfold stage. apply bind_writes.
  match goal with |- spec _ (bind drain_pool ?k) ?s _ => set (s1 := (drain_pool s).2); change (drain_pool s) with (Ok tt, s1) end.
  match goal with |- spec ?F (bind drain_pool ?k) ?s ?Q => change (spec F (k tt) s1 Q) end. cbv beta.
  assert (He1 : early self s1) by (split; [apply units_refl | by split]).
  eapply spec_bind; [by apply (manager_flush self s1 Hs0 (cm_tidy _ Hr)) |].
  intros [] s2 He2 (c2 & -> & Hf2 & Hu2 & Hk2 & Hq2). change (cache s1) with (cache self) in *.
  pose proof (flow_safe _ _ Hs0 Hf2) as Hs2. pose proof (prepared_flush _ _ _ _ (cm_prepared _ Hr) Hf2 Hk2) as Hp2.
  eapply (spec_bind _ _ _ _ (λ _ s3, ∃ c3 fm3 r3, s3 = set_current_roots r3 (set_freemap fm3 (set_cache c3 (set_cache c2 s1))) ∧
    untouched W (c2, Txn.freemap self, current_roots self) (c3, fm3, r3) ∧ prepared W (c3, fm3, r3) ∧ tidy c3 ∧
    unitsR c2 c3 ∧ PageCache.cipher c3 = PageCache.cipher c2 ∧ Persist.rooted r3)).
  { unfold persist_freed. apply bind_reads. apply spec_zoom. cbn [cache Txn.freemap current_roots set_cache].
    change (txn_freed_pages (set_cache c2 s1)) with (freed_ids self). change (Txn.freemap s1) with (Txn.freemap self). change (current_roots s1) with (current_roots self).
    pose proof (persist_units (freed_ids self) c2 (Txn.freemap self) (current_roots self)) as [Hu3 Hc3].
    pose proof (any_spec _ _ _ _ _ (persist_cache W (freed_ids self) c2 (Txn.freemap self) (current_roots self) Hp2 (quiescent_tidy _ Hq2) (cm_freed _ Hr))) as [Hh Hp3].
    unfold spec. destruct (persist (freed_ids self) (c2, Txn.freemap self, current_roots self)) as [r [[c3 fm3] r3]]. cbn [fst snd] in *.
    split; [split; [cbn; by eapply unitsR_trans; [apply Hu2 |] | by split] |].
    unfold post in *. destruct r; [| done | done]. destruct Hp3 as (Hpr & Htd & Hro). exists c3, fm3, r3. split; [reflexivity |]. split; [exact Hh |]. split; [exact Hpr |]. split; [exact Htd |].
    split; [exact Hu3 |]. split; [exact Hc3 |]. apply Hro.
    pose proof (cm_roots _ Hr) as (_ & _ & _ & _ & Hfp & _). split; [exact Hfp | exact (cm_depth _ Hr)]. }
  intros [] s3 He3 (c3 & fm3 & r3 & -> & Hh3 & Hp3 & Ht3 & Hu3 & Hc3 & Hro). pose proof (Persist.sp_parked _ _ _ Hp3) as [Hs3 _ _ _ _]. cbn [fst snd] in Hs3.
  eapply spec_conseq; [apply (manager_flush self); [exact Hs3 | exact Ht3 | exact He3] | done |].
  intros [] s4 He4 (c4 & -> & Hf4 & Hu4 & Hk4 & Hq4). cbn [cache set_current_roots set_freemap set_cache] in *.
  destruct Hh3 as [[_ Hl Hkp] (p & d & Er)]. cbn [fst snd] in Er. subst r3. split; cbn [cache set_current_roots set_freemap set_cache current_roots].
  - by eapply flow_safe.
  - done.
  - eapply unitsR_trans; [exact Hu2 |]. by eapply unitsR_trans.
  - intros x v Hx (Hw & Hxr & Hxo). apply Hk4. pose proof (Hk2 x v Hx) as Hx2.
    assert (Hpl : StructuralStore.parked_live (HS := protected W) (λ _, False) (c2, structural_reuse (Txn.freemap self)) x).
    { split; [split; [by exists v | done] |]. by split; [| intros []]. }
    destruct (Hkp x Hpl Hxo) as [_ Ev]. cbn [fst snd] in Ev. change (cache_view c3 !! x = cache_view c2 !! x) in Ev.
    rewrite !view_page in Ev by (apply Hs3 || apply Hs2). congruence.
  - rewrite (fw_cipher _ _ Hf4), Hc3. apply (fw_cipher _ _ Hf2).
  - exists p, d. destruct Hro as [? ?]. done.
  - by split.
Qed.
(** ** The superblock *)

Definition target self : Z := (txn_counter self + 1) mod superblock_count self.

(** What is written for an image. *)
Definition slot_unit (cph : option (list Z)) (raw : list Z) : list Z :=
  match cph with Some _ => splice 0 raw (zeros ENC_PAGE_SIZE) | None => raw end.

(** An opening sees [seen] in the image, and with the key it has the superblock [sb]. *)
Definition reads_as (cph : option (list Z)) (raw : list Z) (sb seen : Superblock.Superblock) : Prop :=
  Superblock.deserialize raw = Some seen ∧
  match cph with Some dek => seen = locked sb ∧ Superblock.decrypt_body seen dek raw = COk sb | None => seen = sb end.

Lemma unit_ok_slot cph raw : wf_page raw → zlen (slot_unit cph raw) = unit_size cph ∧ bytes_ok (slot_unit cph raw) ∧ slice 0 PAGE_SIZE (slot_unit cph raw) = raw.
Proof.
  intros [Hl Hb]. destruct cph as [dek |]; cbn [slot_unit unit_size].
  - rewrite zlen_splice; [| done | by rewrite Hl, zlen_zeros]. split; [by apply zlen_zeros |].
    split; [apply bytes_ok_splice; [done | apply bytes_ok_zeros] |].
    rewrite slice_splice_in; [| done | by rewrite Hl, zlen_zeros | done | done | by rewrite Hl]. rewrite Z.sub_0_r. by apply slice_full.
  - split; [done |]. split; [done |]. by apply slice_full.
Qed.

(** One unit of the file is written, and may be torn. *)
Lemma write_one io t blob :
  io_inv io → 0 ≤ t < PageIo.cached_page_count io → zlen blob = PageIo.stride io → bytes_ok blob →
  spec (λ io', within (.= t) io io' ∧ torn blob (unit_at io t) (unit_at io' t))
    (PageIo.write_page_unit t blob ;;; PageIo.fsync) io (λ _ io', unit_at io' t = blob).
Proof.
  intros Hi Ht Hl Hb. pose proof (any_spec (io_fault True) _ _ _ _ (write_unit_spec True io t blob Hi ltac:(lia) Hb)) as [Hw Hu].
  pose proof (write_torn io t blob Hi Ht Hl) as Htn. unfold bind, spec, post in *. destruct (PageIo.write_page_unit t blob io) as [[[] | e | p] io1]; cbn [fst snd] in *.
  - pose proof (any_spec flush_fault _ _ _ _ (fsync_spec io1)) as [Hsm _]. pose proof (within_wrote t io io1 Hw Ht) as Hw1.
    destruct (PageIo.fsync io1) as [r io2]. cbn [fst snd] in *. rewrite (io_same_unit _ _ _ Hsm).
    split; [split; [eapply within_trans; [exact Hw1 | apply within_same; [apply Hw1 | done]] | done] |]. destruct r; [apply Hu | done | done].
  - split; [| done]. split; [by apply within_wrote | done].
  - split; [| done]. split; [by apply within_wrote | done].
Qed.

Lemma disk_other cph io io' t j : within (.= t) io io' → j ≠ t → disk_page cph io' j = disk_page cph io j.
Proof.
  intros Hw Hj. unfold disk_page, PageIo.page_count. rewrite (wn_count _ _ _ Hw). destruct (Z.leb_spec 0 j), (Z.ltb_spec j (PageIo.cached_page_count io)); cbn [andb]; [| done..].
  by rewrite (wn_other _ _ _ Hw).
Qed.

(** The pages of a cache that has nothing to write, after a write to slot [t]. *)
Lemma txn_quiet_pages c io' n t j :
  cache_inv c → quiescent c → within (.= t) (io c) io' → j ≠ t →
  let c' := set_io io' (set_drawn n c) in page_at c' j = page_at c j ∧ disk_at c' j = page_at c j.
Proof.
  intros Hi Hq Hw Hj c'. pose proof (quiescent_disk c j Hi Hq) as E.
  assert (Ed : disk_at c' j = disk_at c j) by exact (disk_other _ _ _ _ _ Hw Hj). split; [| congruence].
  unfold page_at. change (entries c') with (entries c). change (resident c' j) with (resident c j). change (spill_at c' j) with (spill_at c j). by rewrite Ed.
Qed.
Definition new_superblock s : Superblock.Superblock := commit_superblock s (PageIo.page_count (io (cache s))).

(** The slot is being written: every page is in the file. *)
Record late self (raw : list Z) (seen : Superblock.Superblock) s : Prop := {
  lt_raw : wf_page raw;
  lt_reads : reads_as (Txn.cipher self) raw (new_superblock s) seen;
  lt_slot : torn (slot_unit (Txn.cipher self) raw) (unit_at (io (cache self)) (target self)) (unit_at (io (cache s)) (target self));
  lt_units : ∀ j, W j → j < PageIo.page_count (io (cache s)) ∧ (j ≠ target self → unit_at (io (cache s)) j = unit_at (io (cache self)) j);
  lt_pages : ∀ j, j ≠ target self → page_at (cache s) j = disk_at (cache s) j;
  lt_plain : ∀ x p, page_at (cache self) x = Some p → plain self x → disk_at (cache s) x = Some p;
  lt_roots : ∃ p d, current_roots s = TxnAlloc.set_freemap p d (current_roots self) ∧ (d ≤ FreeMapTree.MAX_DEPTH)%nat;
  lt_counter : txn_counter s = txn_counter self + 1;
  lt_header : crypto_header s = crypto_header self;
  lt_count : superblock_count s = superblock_count self;
  lt_key : PageCache.cipher (cache s) = Txn.cipher self
}.

Definition progress self s : Prop := unitsR (cache self) (cache s) ∨ ∃ raw seen, late self raw seen s.

(** The state at the end. *)
Record committed self s : Prop := {
  cd_image : ∃ raw seen, late self raw seen s ∧ unit_at (io (cache s)) (target self) = slot_unit (Txn.cipher self) raw;
  cd_roots : committed_roots s = set_total_pages (PageIo.page_count (io (cache s))) (current_roots s);
  cd_idle : active_txn s = false ∧ savepoints s = [] ∧ txn_freed_pages s = []
}.

Definition finish : M TM unit :=
  let* self := reads id in
  let total := tc_file_page_count (cache self) in
  let* buf := superblock_image self (commit_superblock self total) in
  assert_that PanicOverflow (negb (superblock_count self =? 0)) ;;;
  TxnCommit.write_slot self (txn_counter self mod superblock_count self) buf ;;;
  on_cache tc_fsync ;;;
  writes (publish total).

(** The image of the superblock; a nonce is drawn for an encrypted one. *)
Lemma image_run s sb :
  sb_ok sb → sb_valid sb → Superblock.encryption sb = crypto_header s → (∀ k, array NONCE_LEN (nonces (cache s) k)) →
  match Txn.cipher s, crypto_header s with
  | Some _, Some h => header_ok h ∧ algorithm h ≠ 0
  | None, None => True
  | _, _ => False
  end →
  ∃ raw seen n, superblock_image s sb s = (Ok raw, set_cache (set_drawn n (cache s)) s) ∧ wf_page raw ∧ reads_as (Txn.cipher s) raw sb seen.
Proof.
  intros Hok Hv He Hn Hh. unfold superblock_image. destruct (Txn.cipher s) as [dek |], (crypto_header s) as [h |]; try done.
  - destruct Hh as [Hh Ha]. destruct (encrypted_image sb h dek (nonces (cache s) (drawn (cache s))) Hok Hv He Hh Ha (Hn _)) as (raw & E & Hd & Hb & Hw).
    exists raw, (locked sb), (S (drawn (cache s))). set (nonce := nonces (cache s) (drawn (cache s))) in *. set (s1 := set_cache (set_drawn (S (drawn (cache s))) (cache s)) s).
    assert (Hnc : on_cache tc_nonce s = (Ok nonce, s1)) by reflexivity. unfold bind. rewrite Hnc. unfold of_outcome. rewrite E. split; [reflexivity | done].
  - exists (Superblock.serialize sb), sb, (drawn (cache s)). split; [| split; [| split; [by apply deserialize_plain | done]]].
    + unfold ret. f_equal. by destruct s as [[]].
    + rewrite serialize_eq. apply wf_stamp. apply plain_tail_wf, write_roots_wf; [apply Hok | apply Hok | apply plain_head_wf].
Qed.
Lemma commit_sb_ok self s :
  commit_ready self → stored self s → txn_counter self + 1 ≤ Superblock.MAX_TXN_COUNTER →
  let s' := set_txn_counter (txn_counter self + 1) s in
  sb_ok (new_superblock s') ∧ sb_valid (new_superblock s') ∧ Superblock.encryption (new_superblock s') = crypto_header s'.
Proof.
  intros Hr [Hs _ _ _ _ (p & d & Er & Hp & Hd) [_ S2 S3 S4]] Hm s'. pose proof (cm_roots _ Hr) as (O1 & O2 & O3 & O4 & O5 & O6 & O7 & O8 & O9 & O10 & O11 & O12).
  pose proof (cm_counter _ Hr). pose proof (cm_count _ Hr) as Hc. pose proof (io_count _ (ci_io _ (sf_inv _ _ Hs))) as [Hn0 _].
  pose proof (ci_count _ (sf_inv _ _ Hs)) as Hn1. pose proof (ci_next _ (sf_inv _ _ Hs)) as Hn2.
  assert (Hmx : Superblock.MAX_TXN_COUNTER < 2 ^ 64) by done. assert (Hdm : Z.of_nat FreeMapTree.MAX_DEPTH < 2 ^ 32) by done.
  split; [| split; [| done]].
  - unfold new_superblock, commit_superblock. subst s'. cbn [current_roots set_txn_counter cache crypto_header superblock_count txn_counter]. rewrite Er, S2, S4.
    unfold sb_ok. cbn in *. unfold u64_max, PageIo.page_count in *. ands; try done; try (unfold is_u64; lia); [exact (proj2 O9) | unfold is_u32; lia].
  - split; [done |]. split; [| exact Hm]. unfold Superblock.count_in_range. cbn [Superblock.superblock_count new_superblock commit_superblock s' set_txn_counter superblock_count]. rewrite S2.
    apply andb_true_iff. split; [apply Z.leb_le | apply Z.leb_le]; unfold Superblock.MIN_SUPERBLOCKS; lia.
Qed.

(** The write of the slot and the sync, on the page file. *)
Lemma write_slot_run s t raw (k : unit → M TM unit) :
  (Txn.cipher s = None → PageIo.stride (io (cache s)) = PAGE_SIZE) → ∀ s', Txn.cipher s' = Txn.cipher s → PageIo.stride (io (cache s')) = PageIo.stride (io (cache s)) →
  bind (TxnCommit.write_slot s t raw) (λ _, bind (on_cache tc_fsync) k) s' =
  bind (on_cache (on_io (PageIo.write_page_unit t (slot_unit (Txn.cipher s) raw) ;;; PageIo.fsync))) k s'.
Proof.
  intros Hst s' _ Es. rewrite <- on_file_bind. unfold TxnCommit.write_slot, slot_unit. destruct (Txn.cipher s); [reflexivity |].
  cbn [tc_write_page page_cache_txn]. unfold bind at 1 2. unfold on_cache at 1 3, zoom, on_io at 1 3.
  assert (Hw : PageIo.write_page t raw (io (cache s')) = PageIo.write_page_unit t raw (io (cache s'))).
  { unfold PageIo.write_page, bind, reads, assert_that. cbn [id]. rewrite Es, Hst by done. reflexivity. }
  by rewrite Hw.
Qed.
(** The state while the slot is written, from what is known of the file. *)
Lemma late_state self s n io' raw seen :
  commit_ready self → stored self s → wf_page raw → 
  let s1 := set_cache (set_io io' (set_drawn n (cache s))) (set_txn_counter (txn_counter self + 1) s) in
  reads_as (Txn.cipher self) raw (new_superblock (set_txn_counter (txn_counter self + 1) s)) seen →
  within (.= target self) (io (cache s)) io' →
  torn (slot_unit (Txn.cipher self) raw) (unit_at (io (cache s)) (target self)) (unit_at io' (target self)) →
  late self raw seen s1.
Proof.
  intros Hr Hst Hw s1 Hrd Hin Htn. pose proof Hst as [Hs Hq Hu Hpl Hk (p & d & Er & _ & Hdm) [S1 S2 S3 S4]].
  pose proof (wn_count _ _ _ Hin) as Hcn. pose proof (cm_count _ Hr).
  assert (Ht : W (target self)) by (apply (cm_slots _ Hr), Z.mod_pos_bound; lia).
  assert (Hpg : ∀ j, j ≠ target self → page_at (cache s1) j = page_at (cache s) j ∧ disk_at (cache s1) j = page_at (cache s) j).
  { intros j Hj. exact (txn_quiet_pages (cache s) io' n (target self) j (sf_inv _ _ Hs) Hq Hin Hj). }
  split.
  - done.
  - assert (new_superblock s1 = new_superblock (set_txn_counter (txn_counter self + 1) s)) as ->; [| done].
    unfold new_superblock, s1, PageIo.page_count. cbn [cache set_cache io set_io set_txn_counter]. by rewrite Hcn.
  - change (io (cache s1)) with io'. destruct (Hu (cm_file _ Hr) _ Ht) as [E _]. by rewrite <- E.
  - intros j Hj. change (io (cache s1)) with io'. destruct (Hu (cm_file _ Hr) j Hj) as [E Hlt]. unfold PageIo.page_count in *. rewrite Hcn.
    split; [done |]. intros Hne. rewrite <- E. pose proof (sf_clean _ _ Hs j Hj) as [[? _] _]. apply (wn_other _ _ _ Hin); [lia | done].
  - intros j Hj. destruct (Hpg j Hj). congruence.
  - intros x v Hx Hp. destruct (Hpg x) as [_ ->]; [| by apply Hpl]. intros ->. by destruct Hp as [Hnw _].
  - by exists p, d.
  - done.
  - exact S4.
  - exact S2.
  - etrans; [exact Hk | exact (cm_key _ Hr)].
Qed.

Lemma finish_spec self s :
  commit_ready self → stored self s → txn_counter self + 1 ≤ Superblock.MAX_TXN_COUNTER →
  spec (progress self) finish (set_txn_counter (txn_counter self + 1) s) (λ _ s', committed self s').
Proof.
  intros Hr Hst Hm. pose proof (commit_sb_ok self s Hr Hst Hm) as (Hok & Hv & He). pose proof Hst as [Hs Hq Hu _ Hk _ [S1 S2 S3 S4]].
  pose proof (sf_inv _ _ Hs) as Hi. pose proof (cm_count _ Hr) as Hcn. set (s1 := set_txn_counter (txn_counter self + 1) s) in *.
  assert (Hsz : PageIo.stride (io (cache s)) = unit_size (Txn.cipher self)) by (rewrite (ci_stride _ Hi), Hk; f_equal; apply Hr).
  unfold finish. apply bind_reads. cbv zeta. cbn [id]. change (tc_file_page_count (cache s1)) with (PageIo.page_count (io (cache s1))).
  fold (new_superblock s1).
  destruct (image_run s1 (new_superblock s1) Hok Hv He (ci_nonce _ Hi)) as (raw & seen & n & Hrun & Hw & Hrd).
  { unfold s1. cbn [Txn.cipher crypto_header set_txn_counter]. rewrite S3, S4. apply Hr. }
  change (Txn.cipher s1) with (Txn.cipher s) in Hrd. rewrite S3 in Hrd.
  eapply SpillwayFacts.bind_run; [exact Hrun |]. set (s2 := set_cache (set_drawn n (cache s1)) s1).
  apply bind_assert; [apply negb_true_iff, Z.eqb_neq; unfold s1; cbn; lia | by left |].
  assert (Htg : txn_counter s1 mod superblock_count s1 = target self) by (unfold s1, target; cbn [txn_counter superblock_count set_txn_counter]; by rewrite S2).
  rewrite Htg. unfold spec. rewrite (write_slot_run s1); [| | done | done].
  2:{ intros E. change (Txn.cipher s1) with (Txn.cipher s) in E. change (io (cache s1)) with (io (cache s)). rewrite Hsz, <- S3, E. done. }
  change (Txn.cipher s1) with (Txn.cipher s). rewrite S3. set (blob := slot_unit (Txn.cipher self) raw).
  destruct (unit_ok_slot (Txn.cipher self) raw Hw) as (Hbl & Hbb & _).
  assert (Htr : 0 ≤ target self < superblock_count self) by (apply Z.mod_pos_bound; lia).
  assert (Htc : target self < PageIo.page_count (io (cache s))) by (apply (Hu (cm_file _ Hr)), (cm_slots _ Hr); lia).
  pose proof (write_one (io (cache s)) (target self) blob (ci_io _ Hi) ltac:(unfold PageIo.page_count in Htc; lia) (eq_trans Hbl (eq_sym Hsz)) Hbb) as Hwr.
  match goal with |- progress _ (bind ?m ?k ?s).2 ∧ _ => change (spec (progress self) (bind m k) s (λ _ s', committed self s')) end.
  eapply (spec_bind _ _ _ _ (λ _ s3, ∃ io3, s3 = set_cache (set_io io3 (set_drawn n (cache s))) s1 ∧ late self raw seen s3 ∧ unit_at io3 (target self) = blob ∧
    PageIo.cached_page_count io3 = PageIo.cached_page_count (io (cache s)))).
  - apply on_file_spec. eapply spec_conseq; [exact Hwr | |].
    + intros io3 [Hin Htn]. right. exists raw, seen. exact (late_state self s n io3 raw seen Hr Hst Hw Hrd Hin Htn).
    + intros [] io3 [Hin Htn] Hub. exists io3. split; [done |]. split; [exact (late_state self s n io3 raw seen Hr Hst Hw Hrd Hin Htn) | split; [done | apply Hin]].
  - intros [] s3 _ (io3 & -> & Hl & Hub & Hct).
    match goal with |- spec _ (writes (publish ?n0)) ?x _ => set (s3 := x) in *; assert (Hl' : late self raw seen (publish n0 s3)) by (destruct Hl; by split);
      assert (Hn0 : n0 = PageIo.page_count (io (cache s3))) end.
    { symmetry. exact Hct. }
    apply spec_writes; [right; by exists raw, seen |]. split; [by exists raw, seen | | done]. rewrite Hn0. done.
Qed.
(** The steps of [run_commit], grouped. *)
Lemma chain_run {S B} (m1 m2 m3 m4 m5 : M S unit) (k : M S B) (x : S) :
  (m1 ;;; m2 ;;; m3 ;;; m4 ;;; m5 ;;; k) x = ((m1 ;;; m2 ;;; m3 ;;; m4 ;;; m5) ;;; k) x.
Proof. unfold bind. repeat (case_match; simplify_eq; try done). Qed.

Lemma run_commit_spec self : commit_ready self → spec (progress self) run_commit self (λ _ s, committed self s).
Proof.
  intros Hr. unfold run_commit. apply bind_reads. cbn [id].
  destruct (Superblock.next_txn_counter (txn_counter self)) as [nc | e | p] eqn:En; [| split; [left; apply units_refl | done]..].
  destruct (next_counter_run _ (cm_counter _ Hr) _ En) as [-> Hm].
  match goal with |- spec ?F (bind (of_outcome (Ok ?x)) ?k) ?s ?Q => change (spec F (k x) s Q) end. cbv beta.
  unfold spec. rewrite chain_run.
  change (spec (progress self) (stage ;;; writes (set_txn_counter (txn_counter self + 1)) ;;; finish) self (λ _ s, committed self s)).
  eapply (spec_bind _ _ _ _ (λ _ s, stored self s)); [eapply spec_conseq; [by apply stage_spec | intros s [Hu _]; by left | intros [] s _ Hs; exact Hs] |].
  intros [] s _ Hs. apply bind_writes. by apply finish_spec.
Qed.

(** A refusal changes nothing; a failure poisons the manager and changes nothing else. *)
Lemma commit_cases self r self' :
  commit_ready self → commit_txn self = (r, self') → progress self self' ∧ (r = Ok tt → committed self self').
Proof.
  intros Hr. assert (H0 : progress self self) by (left; apply units_refl).
  unfold commit_txn, bind at 1, check_alive, bind at 1, reads at 1. destruct (poisoned self); [by intros [= <- <-] |]. cbn [ret].
  unfold bind at 1, need_txn, bind at 1, reads at 1. destruct (active_txn self); cbn [ret]; [| by intros [= <- <-]].
  pose proof (run_commit_spec self Hr) as [Hp Hq]. unfold on_err, post in *.
  destruct (run_commit self) as [[[] | e | p] s]; cbn [fst snd] in *; intros [= <- <-]; [done | | done].
  split; [| done]. destruct Hp as [Hu | (raw & seen & [])]; [by left | right; exists raw, seen; by split].
Qed.
End commit.

(** ** The theorem *)

Section atomic.
Context `{HX : Xxh3} `{HO : HashOrder} `{HC : Primitives}.
Abbreviation TM := (TransactionManager PageCache).
Implicit Types (self : TM).

Lemma progress_units W self self' :
  commit_ready W self → progress W self self' →
  ∀ j, W j → j < PageIo.page_count (io (cache self')) ∧ (j ≠ target self → unit_at (io (cache self')) j = unit_at (io (cache self)) j).
Proof.
  intros Hr [Hu | (raw & seen & Hl)] j Hj; [| by apply (lt_units _ _ _ _ _ Hl)]. destruct (Hu (cm_file _ _ Hr) j Hj). auto.
Qed.

(** The protected pages have room for the slots. *)
Lemma slots_range W self self' :
  commit_ready W self → progress W self self' →
  superblock_count self ≤ Superblock.MAX_SUPERBLOCKS ∧ superblock_count self ≤ PageIo.page_count (io (cache self)) ∧
  superblock_count self ≤ PageIo.page_count (io (cache self')).
Proof.
  intros Hr Hp. pose proof (cm_count _ _ Hr) as Hc. assert (Hl : W (superblock_count self - 1)) by (apply (cm_slots _ _ Hr); lia).
  pose proof (cm_file _ _ Hr _ Hl). destruct (progress_units W self self' Hr Hp _ Hl). lia.
Qed.

Lemma commit_target W self : commit_ready W self → 0 ≤ target self < superblock_count self.
Proof. intros Hr. pose proof (cm_count _ _ Hr). apply Z.mod_pos_bound. lia. Qed.

(** What an opening finds when the slot is complete. *)
Lemma found_commit W self self' w sbw raww raw seen :
  commit_ready W self → winner (candidates (io (cache self))) = Some (w, sbw, raww) → Superblock.txn_counter sbw = txn_counter self →
  late W self raw seen self' → (∀ j, superblock_count self ≤ j < Superblock.MAX_SUPERBLOCKS → Superblock.deserialize (image_at (io (cache self')) j) = None) →
  image_at (io (cache self')) (target self) = raw → winner (candidates (io (cache self'))) = Some (target self, seen, raw).
Proof.
  intros Hr Hw Hcw Hl Ho Hi. assert (Hp : progress W self self') by (right; by exists raw, seen).
  pose proof (commit_target W self Hr) as Ht. pose proof (lt_reads _ _ _ _ _ Hl) as [Hd Hrd].
  assert (Hcs : Superblock.txn_counter seen = txn_counter self + 1).
  { assert (Superblock.txn_counter seen = Superblock.txn_counter (new_superblock self')) as ->.
    { destruct (Txn.cipher self); [destruct Hrd as [-> _]; done | by subst seen]. }
    exact (lt_counter _ _ _ _ _ Hl). }
  apply (found_fresh (io (cache self)) (io (cache self')) (superblock_count self) (target self) w sbw raww);
    [by eapply slots_range | done | done | | done | done | done | rewrite Hcw, Hcs; lia].
  intros j Hj Hne. apply (progress_units W self self' Hr Hp); [by apply (cm_slots _ _ Hr) | done].
Qed.

End atomic.

(** ** An example: a file of two slots and a page that the transaction has freed *)

Section examples.
Import CryptoProps CacheProps CacheStore CacheReuse.
#[local] Existing Instance sum_hash.

Definition demo_sb (n : Z) : Superblock.Superblock :=
  {| Superblock.magic := MAGIC; Superblock.format_version := FORMAT_VERSION; Superblock.txn_counter := n;
     Superblock.root_handle_table_page := PAGE_ID_NONE; Superblock.root_freemap_page := PAGE_ID_NONE; Superblock.total_pages := 3;
     Superblock.next_handle := 1; Superblock.page_size := PAGE_SIZE; Superblock.named_roots := replicate 8 Superblock.EMPTY_ROOT;
     Superblock.superblock_count := 2; Superblock.root_membership_index_page := PAGE_ID_NONE; Superblock.freemap_depth := 0;
     Superblock.encryption := None |}.

Definition demo_file : list Z :=
  Superblock.serialize (demo_sb 0) ++ Superblock.serialize (demo_sb 1) ++ stamp_checksum zero_page.

Definition demo_pages : PageCache :=
  PageCache.new (PageIo.open demo_file [] false) (16 * PAGE_SIZE) 0 LruTail InMemory (λ _, zeros NONCE_LEN).

(** Page 2 is freed by the transaction. *)
Definition freeing (c : PageCache) : TransactionManager PageCache :=
  set_txn_freed_pages [2] (set_active_txn true (set_cache c TxnFile.demo_manager)).
Definition demo_txn : TransactionManager PageCache := freeing demo_pages.

Definition demo_slots (j : Z) : Prop := 0 ≤ j < 2.

(** What is needed of the file, evaluated once. *)
Definition file_check (c : PageCache) : bool :=
  forallb byte_ok (Backing.bytes (PageIo.backing (io c))) && (zlen (Backing.bytes (PageIo.backing (io c))) =? 3 * PAGE_SIZE) &&
  (PageIo.cached_page_count (io c) =? 3) && (next_page_id c =? 3) &&
  match winner (candidates (io c)) with Some (w, sb, _) => (w =? 1) && (Superblock.txn_counter sb =? 1) | None => false end.

Record file_facts (c : PageCache) : Prop := {
  ff_bytes : bytes_ok (Backing.bytes (PageIo.backing (io c)));
  ff_len : zlen (Backing.bytes (PageIo.backing (io c))) = 3 * PAGE_SIZE;
  ff_count : PageIo.cached_page_count (io c) = 3 ∧ next_page_id c = 3;
  ff_winner : ∃ sbw raww, winner (candidates (io c)) = Some (1, sbw, raww) ∧ Superblock.txn_counter sbw = 1
}.

Lemma check_file c : file_check c = true → file_facts c.
Proof.
  unfold file_check. rewrite !andb_true_iff, !Z.eqb_eq. intros ((((H1 & H2) & H3) & H4) & H5). split; [by apply byte_ok_spec | done | done |].
  destruct (winner _) as [[[w sb] raw] |]; [| done]. apply andb_true_iff in H5 as [->%Z.eqb_eq H5%Z.eqb_eq]. by exists sb, raw.
Qed.

Lemma demo_file_facts : file_facts demo_pages.
Proof. apply check_file. vm_compute. reflexivity. Qed.

Lemma demo_pages_inv : cache_inv demo_pages ∧ tidy demo_pages.
Proof.
  destruct demo_file_facts as [Hb Hz [Hn _] _]. apply (reopen_inv demo_pages (16 * PAGE_SIZE) 0 LruTail InMemory).
  - assert (Hst : PageIo.stride (io demo_pages) = PAGE_SIZE) by reflexivity. split; [rewrite Hst; reflexivity | exact Hb |].
    rewrite Hn, Hz, Hst. clear. lia.
  - reflexivity.
  - unfold PageIo.page_count. rewrite Hn. clear. unfold u64_max. lia.
  - intros n. split; [reflexivity | apply bytes_ok_zeros].
Qed.

Lemma freeing_ready c :
  cache_inv c → tidy c → PageCache.cipher c = None → PageIo.cached_page_count (io c) = 3 ∧ next_page_id c = 3 →
  (∀ j, is_dirty c j = false) → commit_ready demo_slots (freeing c).
Proof.
  intros Hi Ht Hk [Hn Hnx] Hd. split.
  - split; [split; [split; [done |] | apply NoDup_nil_2 | intros j []%elem_of_nil | done | done] | | done].
    + intros j [H1 H2]. cbn. rewrite Hnx. split; [lia | done].
    + intros x []%elem_of_empty.
  - exact Ht.
  - intros j [H1 H2]. unfold PageIo.page_count. cbn. lia.
  - done.
  - done.
  - done.
  - apply Forall_singleton. split; done.
  - done.
  - done.
  - repeat split; try done. apply Forall_replicate, empty_root_ok.
  - cbn. lia.
Qed.

Lemma demo_ready : commit_ready demo_slots demo_txn.
Proof.
  destruct demo_pages_inv as [Hi Ht]. apply freeing_ready; [exact Hi | exact Ht | reflexivity | exact (ff_count _ demo_file_facts) | intros j; reflexivity].
Qed.

Lemma demo_commits : is_ok (commit_txn demo_txn).1 = true.
Proof. by vm_compute. Qed.

Lemma demo_numbers : superblock_count demo_txn = 2 ∧ txn_counter demo_txn = 1.
Proof. split; reflexivity. Qed.

End examples.
End CommitProps.
