(* ===== verification/OpenProps.v ===== *)
(** * Opening a file: which superblock it comes back with

    Properties of [open_existing] ([src/transaction/recovery.rs]) on a file that the
    operating system reads: the stride is found, the slots are read at it, and the manager
    has the roots of the slot with the highest counter, decrypted where the file is
    encrypted. *)

From S2P Require Export CommitProps.

Module OpenProps.
Import TxnAlloc Txn TxnCommit PageCache CacheInv CacheStore CacheReuse PageIoFacts CryptoHeader SuperblockFacts SuperblockBody SuperblockProps Recovery Slots CommitProps.

Section opening.
Context `{HX : Xxh3} `{HO : HashOrder} `{HC : Primitives}.
Implicit Types (c : PageCache).

(** A file of these bytes, read at stride [s]. *)
Definition file_io (ro : bool) (bs : list Z) (s : Z) : PageIo.PageIo :=
  {| PageIo.backing := {| Backing.file_backed := true; Backing.bytes := bs; Backing.answers := [] |};
     PageIo.read_only := ro; PageIo.stride := s; PageIo.fsync_calls := 0; PageIo.cached_page_count := zlen bs / s |}.

Lemma open_file_io ro bs : PageIo.open bs [] ro = file_io ro bs PAGE_SIZE.
Proof. done. Qed.

Lemma set_io_id c : set_io (io c) c = c.
Proof. by destruct c. Qed.

Section read.
Variables (ro : bool) (bs : list Z) (s : Z).
Hypothesis Hs : PAGE_SIZE ≤ s ≤ ENC_PAGE_SIZE.

Lemma file_io_inv : bytes_ok bs → io_inv (file_io ro bs s).
Proof.
  intros Hb. unfold PAGE_SIZE in Hs. split; cbn; [lia | done |]. pose proof (zlen_nonneg bs).
  split; [apply Z.div_pos; lia |]. pose proof (Z.mul_div_le (zlen bs) s). lia.
Qed.

Lemma read_unit_run c k :
  io c = file_io ro bs s → 0 ≤ k < Superblock.MAX_SUPERBLOCKS →
  on_io (PageIo.read_page_unit k) c =
    (if PageIo.page_count (io c) <=? k then Err (InvalidPageId k) else Ok (unit_at (io c) k), c).
Proof.
  intros E Hk. unfold on_io, PageIo.read_page_unit, bind, reads. rewrite E. cbn [id]. unfold PageIo.page_count. cbn [PageIo.cached_page_count file_io].
  destruct (Z.leb_spec (zlen bs / s) k); cbn [fail]; [by rewrite <- E, set_io_id |]. cbn [PageIo.stride file_io].
  unfold PAGE_SIZE, ENC_PAGE_SIZE, Superblock.MAX_SUPERBLOCKS in *.
  assert (Hov : (u64_max <? k * s) = false) by (apply Z.ltb_ge; unfold u64_max; nia). rewrite Hov.
  unfold PageIo.on_backing, Backing.read_at, bind, Backing.ask, reads. cbn [Backing.file_backed Backing.answers PageIo.backing file_io Backing.bytes].
  assert (Hin : (zlen bs <? k * s + s) = false).
  { apply Z.ltb_ge. pose proof (Z.mul_div_le (zlen bs) s). nia. }
  cbn [id Backing.bytes]. rewrite Hin. unfold ret. f_equal. change (set_io (file_io ro bs s) c = c). rewrite <- E. apply set_io_id.
Qed.

Lemma read_slots_all c k n :
  io c = file_io ro bs s → 0 ≤ k → k + Z.of_nat n ≤ Superblock.MAX_SUPERBLOCKS →
  read_slots (seqZ k (Z.of_nat n)) c = (Ok (image_at (io c) <$> seqZ k (Z.min (Z.of_nat n) (Z.max 0 (PageIo.page_count (io c) - k)))), c).
Proof.
  intros E. revert k. induction n as [| n IH]; intros k Hk Hn; [by rewrite (Z.min_l 0) by lia |].
  rewrite seqZ_cons by lia. cbn [read_slots]. rewrite (read_unit_run c k E) by lia.
  destruct (Z.leb_spec (PageIo.page_count (io c)) k); [by rewrite Z.min_r, Z.max_l by lia |].
  assert (Hlen : zlen (unit_at (io c) k) = s).
  { rewrite E in *. unfold unit_at, PageIo.page_count in *. cbn in *. pose proof (Z.mul_div_le (zlen bs) s). unfold PAGE_SIZE in Hs.
    apply length_slice; nia. }
  rewrite Hlen. destruct (Z.ltb_spec s PAGE_SIZE); [lia |]. replace (Z.pred (Z.of_nat (S n))) with (Z.of_nat n) by lia.
  rewrite IH by lia.
  replace (Z.min (Z.of_nat (S n)) (Z.max 0 (PageIo.page_count (io c) - k)))
    with (Z.succ (Z.min (Z.of_nat n) (Z.max 0 (PageIo.page_count (io c) - Z.succ k)))) by lia.
  rewrite (seqZ_cons k) by lia. rewrite Z.pred_succ. done.
Qed.

Lemma read_candidates_all c : io c = file_io ro bs s → read_candidates c = (Ok (candidates (file_io ro bs s)), c).
Proof.
  intros E. unfold read_candidates. change Superblock.MAX_SUPERBLOCKS with (Z.of_nat 16). rewrite (read_slots_all c 0 16 E) by done.
  rewrite E. unfold candidates. change Superblock.MAX_SUPERBLOCKS with (Z.of_nat 16). f_equal. f_equal. f_equal. f_equal.
  unfold PageIo.page_count. cbn. pose proof (zlen_nonneg bs). unfold PAGE_SIZE in Hs. pose proof (Z.div_pos (zlen bs) s). lia.
Qed.
End read.
(** ** The stride *)

Abbreviation shown ro bs s := (candidates (file_io ro bs s)).
Definition first_page (bs : list Z) : list Z := slice 0 PAGE_SIZE bs.

(** The slots of the file, and of no other stride, have an encryption header: or none has
    in a file that is not encrypted.  Where the first slot can be read it decides; else the
    bytes read at the wrong stride must not pass for an encrypted superblock. *)
Definition stride_shows ro bs (s : Z) : Prop :=
  (s = PAGE_SIZE ∧ encrypted_stride (shown ro bs PAGE_SIZE) = None ∧
    (Superblock.deserialize (first_page bs) = None → encrypted_stride (shown ro bs ENC_PAGE_SIZE) = None)) ∨
  (s = ENC_PAGE_SIZE ∧ is_Some (encrypted_stride (shown ro bs ENC_PAGE_SIZE)) ∧
    match Superblock.deserialize (first_page bs) with
    | Some sb => stride_of sb = Some ENC_PAGE_SIZE
    | None => encrypted_stride (shown ro bs PAGE_SIZE) = None
    end).

Lemma plain_slot cs x sb : encrypted_stride cs = None → x ∈ cs → Superblock.deserialize x = Some sb → stride_of sb = None.
Proof.
  unfold encrypted_stride. intros He Hx Hd. apply head_None in He. destruct (stride_of sb) as [s |] eqn:E; [| done]. exfalso.
  assert (Hin : s ∈ omap stride_of (omap Superblock.deserialize cs)).
  { apply list_elem_of_omap. exists sb. split; [| done]. apply list_elem_of_omap. by exists x. }
  rewrite He in Hin. by apply elem_of_nil in Hin.
Qed.

Lemma set_stride_run ro bs s s' c :
  io c = file_io ro bs s → on_io (PageIo.set_stride s') c = (Ok tt, set_io (file_io ro bs s') c).
Proof. intros E. unfold on_io. rewrite E. done. Qed.

Lemma first_run ro bs c :
  io c = file_io ro bs PAGE_SIZE → PAGE_SIZE ≤ zlen bs → on_io (PageIo.read_page 0) c = (Ok (first_page bs), c).
Proof.
  intros E Hl. assert (Hr : on_io (PageIo.read_page_unit 0) c = (Ok (first_page bs), c)).
  { rewrite (read_unit_run ro bs PAGE_SIZE) by done. rewrite E. unfold PageIo.page_count. cbn [PageIo.cached_page_count file_io].
    destruct (Z.leb_spec (zlen bs / PAGE_SIZE) 0) as [H0 |]; [| done]. exfalso.
    assert (1 ≤ zlen bs / PAGE_SIZE) by (apply Z.div_le_lower_bound; [done | lia]). lia. }
  rewrite <- Hr. unfold on_io, PageIo.read_page, bind, reads. by rewrite E.
Qed.

Lemma find_run ro bs s c :
  io c = file_io ro bs PAGE_SIZE → PAGE_SIZE ≤ zlen bs → stride_shows ro bs s →
  find_candidates c = (Ok (shown ro bs s), set_io (file_io ro bs s) c).
Proof.
  intros E Hl Hst. unfold find_candidates. unfold bind at 1. rewrite (first_run ro bs c E Hl).
  assert (Hp : PAGE_SIZE ≤ PAGE_SIZE ≤ ENC_PAGE_SIZE ∧ PAGE_SIZE ≤ ENC_PAGE_SIZE ≤ ENC_PAGE_SIZE) by done. destruct Hp as [Hp He].
  assert (Hid : set_io (file_io ro bs PAGE_SIZE) c = c) by (rewrite <- E; apply set_io_id).
  destruct Hst as [(-> & Hno & Hz) | (-> & Hen & Hz)].
  - assert (Hs0 : Superblock.deserialize (first_page bs) ≫= stride_of = None).
    { destruct (Superblock.deserialize (first_page bs)) as [sb |] eqn:Ed; [| done]. cbn [mbind option_bind]. eapply plain_slot; [exact Hno | | exact Ed].
      apply list_elem_of_fmap. exists 0. split; [unfold first_page, image_at, unit_at; cbn [PageIo.stride PageIo.backing Backing.bytes file_io]; by rewrite slice_slice by done |]. apply elem_of_seqZ. unfold PageIo.page_count. cbn [PageIo.cached_page_count file_io].
      assert (1 ≤ zlen bs / PAGE_SIZE) by (apply Z.div_le_lower_bound; [done | lia]). unfold Superblock.MAX_SUPERBLOCKS. lia. }
    rewrite Hs0. unfold bind at 1. cbn [ret]. unfold bind at 1. rewrite (read_candidates_all ro bs PAGE_SIZE Hp c E), Hno, Hid.
    destruct (Superblock.deserialize (first_page bs)) as [sb |]; [done |]. unfold bind at 1. rewrite (set_stride_run ro bs PAGE_SIZE) by done.
    unfold bind at 1. rewrite (read_candidates_all ro bs ENC_PAGE_SIZE He) by done. rewrite Hz by done. unfold bind. rewrite (set_stride_run ro bs ENC_PAGE_SIZE) by done.
    cbn [ret]. f_equal. rewrite <- Hid at 2. by destruct c.
  - destruct (Superblock.deserialize (first_page bs)) as [sb |] eqn:Ed; cbn [mbind option_bind].
    + rewrite Hz. cbn [negb]. change (ENC_PAGE_SIZE =? ENC_PAGE_SIZE) with true. cbn [negb]. unfold bind at 1. rewrite (set_stride_run ro bs PAGE_SIZE) by done.
      unfold bind at 1. rewrite (read_candidates_all ro bs ENC_PAGE_SIZE He) by done. by destruct (encrypted_stride (shown ro bs ENC_PAGE_SIZE)).
    + unfold bind at 1. cbn [ret]. unfold bind at 1. rewrite (read_candidates_all ro bs PAGE_SIZE Hp c E), Hz. unfold bind at 1. rewrite (set_stride_run ro bs PAGE_SIZE) by done.
      unfold bind at 1. rewrite (read_candidates_all ro bs ENC_PAGE_SIZE He) by done. by destruct Hen as [x ->].
Qed.
(** ** The manager *)

(** What the key makes of the slot. *)
Definition opens_with (key : option Key) (seen : Superblock.Superblock) (raw : list Z) (sb : Superblock.Superblock) (dek : option (list Z)) : Prop :=
  match Superblock.encryption seen, key with
  | None, None => sb = seen ∧ dek = None
  | Some h, Some k =>
      algorithm h = ALGO_XCHACHA20POLY1305 ∧ stride h = ENC_PAGE_SIZE ∧
      ∃ i d, unlock h k = Ok (i, d) ∧ Superblock.decrypt_body seen d raw = COk sb ∧ dek = Some d
  | _, _ => False
  end.

(** Fields that this version accepts, in a file of [count] pages. *)
Record accepted (sb : Superblock.Superblock) (count : Z) : Prop := {
  ac_version : Superblock.format_version sb = match Superblock.encryption sb with Some _ => format_version_encrypted | None => FORMAT_VERSION end;
  ac_page_size : Superblock.page_size sb = PAGE_SIZE;
  ac_depth : Superblock.freemap_depth sb ≤ Z.of_nat FreeMapTree.MAX_DEPTH;
  ac_handle : Superblock.next_handle sb ≤ Superblock.MAX_NEXT_HANDLE;
  ac_total : Superblock.total_pages sb ≤ count
}.

Lemma check_fields_run sb c : accepted sb (PageIo.page_count (io c)) → check_fields sb c = (Ok tt, c).
Proof.
  intros [Hv Hp Hd Hh Ht]. unfold check_fields. cbv zeta. rewrite Hv, Hp.
  destruct (Z.ltb_spec (Z.of_nat FreeMapTree.MAX_DEPTH) (Superblock.freemap_depth sb)); [lia |].
  destruct (Z.ltb_spec Superblock.MAX_NEXT_HANDLE (Superblock.next_handle sb)); [lia |].
  assert (Hf : (PageIo.page_count (io c) <? Superblock.total_pages sb) = false) by lia.
  destruct (Superblock.encryption sb).
  - change (format_major format_version_encrypted =? FORMAT_MAJOR_VERSION_ENCRYPTED) with true. change (PAGE_SIZE =? PAGE_SIZE) with true.
    change (FORMAT_MINOR_VERSION_ENCRYPTED <? format_minor format_version_encrypted) with false. cbn [negb]. unfold bind, reads, ret. cbn [id]. by rewrite Hf.
  - change (format_major FORMAT_VERSION =? FORMAT_MAJOR_VERSION) with true. change (PAGE_SIZE =? PAGE_SIZE) with true.
    change (FORMAT_MINOR_VERSION <? format_minor FORMAT_VERSION) with false. cbn [negb]. unfold bind, reads, ret. cbn [id]. by rewrite Hf.
Qed.

Definition keyed (dek : option (list Z)) c : PageCache := match dek with Some d => set_cipher (Some d) c | None => c end.

Lemma unlock_run key w seen raw sb dek c :
  opens_with key seen raw sb dek → (check_header seen ;;; unlock_body w seen raw key) c = (Ok (sb, dek), keyed dek c).
Proof.
  unfold opens_with, check_header, unlock_body, bind. destruct (Superblock.encryption seen) as [h |], key as [k |]; try done.
  - intros (-> & -> & i & d & Hu & Hd & ->). change (ALGO_XCHACHA20POLY1305 =? ALGO_XCHACHA20POLY1305) with true. change (ENC_PAGE_SIZE =? ENC_PAGE_SIZE) with true.
    cbn [negb ret of_outcome]. unfold of_outcome. rewrite Hu, Hd. done.
  - intros [-> ->]. done.
Qed.

Lemma open_run ro bs s c key w seen raw sb dek :
  io c = file_io ro bs PAGE_SIZE → PAGE_SIZE ≤ zlen bs → stride_shows ro bs s → winner (shown ro bs s) = Some (w, seen, raw) →
  opens_with key seen raw sb dek → accepted sb (zlen bs / s) →
  open_existing key c = rebuild sb dek (keyed dek (set_io (file_io ro bs s) c)).
Proof.
  intros E Hl Hst Hw Ho Ha. unfold open_existing. unfold bind at 1. rewrite (find_run ro bs s c E Hl Hst), Hw.
  set (c1 := set_io (file_io ro bs s) c). pose proof (unlock_run key w seen raw sb dek c1 Ho) as Hu. unfold bind in Hu. unfold bind at 1.
  destruct (check_header seen c1) as [[[] | |] c2]; [| discriminate Hu | discriminate Hu]. unfold bind at 1. rewrite Hu. unfold bind.
  rewrite check_fields_run; [done |]. replace (PageIo.page_count (io (keyed dek c1))) with (zlen bs / s) by (by destruct dek). done.
Qed.

(** The manager that comes back. *)
Lemma rebuild_fields sb dek c m c' :
  rebuild sb dek c = (Ok m, c') →
  committed_roots m = roots_of sb ∧ current_roots m = roots_of sb ∧ txn_counter m = Superblock.txn_counter sb ∧
  superblock_count m = Superblock.superblock_count sb ∧ Txn.cipher m = dek ∧ crypto_header m = Superblock.encryption sb ∧
  active_txn m = false ∧ poisoned m = false.
Proof.
  unfold rebuild. intros H. do 4 (apply TxnFile.bind_inv in H as (? & ? & _ & H)). apply TxnFile.bind_inv in H as (? & ? & [= -> ->] & H).
  injection H as <- _. by ands.
Qed.
(** ** A commit and the next opening *)

(** The key that opens the manager's file. *)
Definition key_for (self : TransactionManager PageCache) (key : option Key) : Prop :=
  match Txn.cipher self, crypto_header self, key with
  | None, None, None => True
  | Some dek, Some h, Some k => algorithm h = ALGO_XCHACHA20POLY1305 ∧ stride h = ENC_PAGE_SIZE ∧ ∃ i, unlock h k = Ok (i, dek)
  | _, _, _ => False
  end.

Lemma reads_open self self' key raw sb seen :
  key_for self key → crypto_header self' = crypto_header self → sb = new_superblock self' → reads_as (Txn.cipher self) raw sb seen →
  opens_with key seen raw sb (Txn.cipher self).
Proof.
  intros Hk Hh -> [_ Hr]. unfold key_for, opens_with in *. destruct (Txn.cipher self) as [dek |], (crypto_header self) as [h |] eqn:Eh, key as [k |]; try done.
  - destruct Hr as [-> Hd], Hk as (Ha & Hst & i & Hu). cbn [Superblock.encryption locked new_superblock commit_superblock]. rewrite Hh. ands; [done | done |].
    by exists i, dek.
  - subst seen. cbn [Superblock.encryption new_superblock commit_superblock]. by rewrite Hh.
Qed.

(** The pages of a file that is read anew. *)
Lemma fresh_page ro io1 dek mb spb drain loc non j :
  PageIo.page_count io1 = zlen (Backing.bytes (PageIo.backing io1)) / PageIo.stride io1 →
  let bs := Backing.bytes (PageIo.backing io1) in
  page_at (keyed dek (set_io (file_io ro bs (PageIo.stride io1)) (PageCache.new (PageIo.open bs [] ro) mb spb drain loc non))) j = disk_page dek io1 j.
Proof.
  intros Hc bs. unfold page_at. replace (entries _) with (∅ : gmap Z CacheEntry) by (by destruct dek). rewrite lookup_empty.
  replace (resident _ j) with false by (by destruct dek). unfold disk_at, disk_page, PageIo.page_count in *.
  destruct dek; cbn [keyed io set_io set_cipher PageCache.cipher PageCache.new PageIo.cached_page_count file_io]; by rewrite Hc.
Qed.

Lemma committed_accepted W self raw seen self' :
  late W self raw seen self' → next_handle (current_roots self) ≤ Superblock.MAX_NEXT_HANDLE →
  accepted (new_superblock self') (PageIo.page_count (io (cache self'))).
Proof.
  intros [_ _ _ _ _ _ (p & d & Er & Hd) _ _ _ _] Hn. unfold new_superblock, commit_superblock. rewrite Er. split; cbn in *; [done | done | lia | done | lia].
Qed.
Lemma roots_of_new self' :
  membership_index_page (current_roots self') ≠ 0 →
  roots_of (new_superblock self') = set_total_pages (PageIo.page_count (io (cache self'))) (current_roots self').
Proof.
  intros Hm. unfold roots_of, new_superblock, commit_superblock, set_total_pages.
  cbn [Superblock.root_handle_table_page Superblock.root_freemap_page Superblock.freemap_depth Superblock.next_handle Superblock.total_pages
    Superblock.named_roots Superblock.root_membership_index_page]. rewrite Nat2Z.id.
  destruct (Z.eqb_spec (membership_index_page (current_roots self')) 0); [done | done].
Qed.

(** C1 What is committed is found again.  After a successful [commit] (under the
    conditions of its atomicity), [open_existing] on the bytes of the file, with a key
    that opens it and an operating system that reads it, passes every check and
    rebuilds the manager from the superblock of the commit, over a cache that shows every
    page as the transaction left it; the manager that comes back has the committed
    roots, the counter, the data key and the key-slot table.  The bytes at the wrong stride
    and the pages behind the slots must not pass for superblocks. *)
Theorem commit_survives_reopen W (self : TransactionManager PageCache) w sbw raww self' key ro mb spb drain loc non :
  commit_ready W self → winner (candidates (io (cache self))) = Some (w, sbw, raww) → Superblock.txn_counter sbw = txn_counter self →
  commit_txn self = (Ok tt, self') →
  let io1 := io (cache self') in let bs := Backing.bytes (PageIo.backing io1) in
  (∀ j, superblock_count self ≤ j < Superblock.MAX_SUPERBLOCKS → Superblock.deserialize (image_at io1 j) = None) →
  PageIo.page_count io1 = zlen bs / PageIo.stride io1 → PAGE_SIZE ≤ zlen bs → stride_shows ro bs (PageIo.stride io1) → key_for self key →
  next_handle (current_roots self) ≤ Superblock.MAX_NEXT_HANDLE → membership_index_page (current_roots self) ≠ 0 →
  let c := PageCache.new (PageIo.open bs [] ro) mb spb drain loc non in
  ∃ c1, open_existing key c = rebuild (new_superblock self') (Txn.cipher self) c1 ∧
    (∀ j, j ≠ target self → page_at c1 j = page_at (cache self') j) ∧
    (∀ x p, page_at (cache self) x = Some p → plain W self x → page_at c1 x = Some p) ∧
    ∀ m c2, open_existing key c = (Ok m, c2) →
      committed_roots m = committed_roots self' ∧ current_roots m = committed_roots self' ∧ txn_counter m = txn_counter self' ∧
      superblock_count m = superblock_count self' ∧ Txn.cipher m = Txn.cipher self ∧ crypto_header m = crypto_header self' ∧
      active_txn m = false ∧ poisoned m = false.
Proof.
  intros Hr Hw Hcw E io1 bs Hno Hct Hln Hst Hk Hnh Hmi c. destruct (commit_cases W self _ self' Hr E) as [_ Hc].
  destruct (Hc eq_refl) as [(raw & seen & Hl & Hub) Hro _]. destruct (unit_ok_slot (Txn.cipher self) raw (lt_raw _ _ _ _ _ Hl)) as (_ & _ & Him).
  assert (Hi : image_at io1 (target self) = raw) by (unfold image_at, io1; by rewrite Hub).
  pose proof (found_commit W self self' w sbw raww raw seen Hr Hw Hcw Hl Hno Hi) as Hfound.
  pose proof (lt_roots _ _ _ _ _ Hl) as (p & d & Er & _).
  set (c1 := keyed (Txn.cipher self) (set_io (file_io ro bs (PageIo.stride io1)) c)).
  assert (Hsame : candidates (file_io ro bs (PageIo.stride io1)) = candidates io1).
  { unfold candidates, PageIo.page_count in *. rewrite Hct. done. }
  assert (Hopen : open_existing key c = rebuild (new_superblock self') (Txn.cipher self) c1).
  { apply (open_run ro bs (PageIo.stride io1) c key (target self) seen raw); [done | exact Hln | exact Hst | by rewrite Hsame | |].
    - eapply reads_open; [exact Hk | apply Hl | done | apply Hl].
    - rewrite <- Hct. by eapply committed_accepted. }
  exists c1. split; [exact Hopen |].
  assert (Hpg : ∀ j, page_at c1 j = disk_at (cache self') j).
  { intros j. unfold c1, c. rewrite (fresh_page ro io1 _ mb spb drain loc non j Hct). unfold disk_at. by rewrite (lt_key _ _ _ _ _ Hl). }
  split; [intros j Hj; rewrite Hpg; symmetry; by apply (lt_pages _ _ _ _ _ Hl) |].
  split; [intros x v Hx Hp; rewrite Hpg; by apply (lt_plain _ _ _ _ _ Hl) |].
  intros m c2 Hm. rewrite Hopen in Hm. apply rebuild_fields in Hm as (R1 & R2 & R3 & R4 & R5 & R6 & R7 & R8).
  rewrite roots_of_new in R1, R2 by (by rewrite Er). rewrite Hro. ands; done.
Qed.
End opening.

(** ** An example: the commit of a file of two slots, and its opening *)

Section examples.
Import CryptoProps CacheProps.
#[local] Existing Instance sum_hash.

(** What the file must show, evaluated once. *)
Definition reopen_check (self : TransactionManager PageCache) : bool :=
  let io1 := io (cache self) in let bs := Backing.bytes (PageIo.backing io1) in
  forallb (λ j, match Superblock.deserialize (image_at io1 j) with None => true | _ => false end) (seqZ 2 14) &&
  (PageIo.page_count io1 =? zlen bs / PageIo.stride io1) && (PAGE_SIZE <=? zlen bs) && (PageIo.stride io1 =? PAGE_SIZE) &&
  match encrypted_stride (candidates (file_io false bs PAGE_SIZE)), Superblock.deserialize (first_page bs) with None, Some _ => true | _, _ => false end.

Lemma check_reopen self :
  reopen_check self = true →
  let io1 := io (cache self) in let bs := Backing.bytes (PageIo.backing io1) in
  (∀ j, 2 ≤ j < Superblock.MAX_SUPERBLOCKS → Superblock.deserialize (image_at io1 j) = None) ∧
  PageIo.page_count io1 = zlen bs / PageIo.stride io1 ∧ PAGE_SIZE ≤ zlen bs ∧ stride_shows false bs (PageIo.stride io1).
Proof.
  unfold reopen_check. cbv zeta. rewrite !andb_true_iff, !Z.eqb_eq, Z.leb_le. intros ((((H1 & H2) & H3) & H4) & H5).
  split; [| split; [done |]; split; [done |]].
  - intros j Hj. rewrite forallb_forall in H1. specialize (H1 j). destruct (Superblock.deserialize _); [| done]. exfalso.
    assert (Hin : j ∈ seqZ 2 14) by (apply elem_of_seqZ; unfold Superblock.MAX_SUPERBLOCKS in Hj; lia). apply list_elem_of_In in Hin. discriminate (H1 Hin).
  - left. rewrite H4. split; [done |]. destruct (encrypted_stride _); [done |]. split; [done |]. destruct (Superblock.deserialize (first_page _)); [| done]. intros [=].
Qed.

Lemma demo_reopens : match commit_txn demo_txn with (Ok _, self') => reopen_check self' | _ => false end = true.
Proof. vm_compute. reflexivity. Qed.

Lemma commit_survives_reopen_witness :
  ∃ self' c1, commit_txn demo_txn = (Ok tt, self') ∧
    open_existing None (PageCache.new (PageIo.open (Backing.bytes (PageIo.backing (io (cache self')))) [] false) (16 * PAGE_SIZE) 0 LruTail InMemory (λ _, zeros NONCE_LEN)) =
      rebuild (new_superblock self') (Txn.cipher demo_txn) c1.
Proof.
  destruct (ff_winner _ demo_file_facts) as (sbw & raww & Hw & Hc). pose proof demo_reopens as Hok. destruct demo_numbers as [Hn Hk].
  destruct (commit_txn demo_txn) as [[[] | |] self'] eqn:E; [| discriminate Hok | discriminate Hok]. apply check_reopen in Hok as (H1 & H2 & H3 & H4).
  rewrite <- Hk in Hc. rewrite <- Hn in H1.
  assert (Hkey : key_for demo_txn None) by exact I. assert (Hnh : next_handle (current_roots demo_txn) ≤ Superblock.MAX_NEXT_HANDLE) by done.
  assert (Hmi : membership_index_page (current_roots demo_txn) ≠ 0) by done.
  destruct (commit_survives_reopen demo_slots demo_txn 1 sbw raww self' None false (16 * PAGE_SIZE) 0 LruTail InMemory (λ _, zeros NONCE_LEN)
    demo_ready Hw Hc E H1 H2 H3 H4 Hkey Hnh Hmi) as (c1 & Hopen & _).
  exists self', c1. split; [reflexivity | exact Hopen].
Defined.
End examples.
End OpenProps.
