(* ===== verification/RekeyPath.v ===== *)
(** * What a rotation of the data key leaves at the path when it fails

    Opening ([Chisel::open] of [src/lib.rs]) reads the file and writes nothing of one that
    exists, so that [rekey] ([src/rekey.rs]) changes the database only by its rename. *)

From S2P Require Export Rekey OpenProps.

Module RekeyPath.
Import TxnAlloc Txn PageCache CacheStore CacheReuse Recovery Api Rekey TxnFile.

Section path.
Context `{HX : Xxh3} `{HO : HashOrder} `{HC : Primitives}.

(** ** Opening a database writes nothing *)

Definition bytesR (c c' : PageCache) : Prop := file_bytes c' = file_bytes c.

#[local] Instance bytesR_pre : PreOrder bytesR.
Proof. split; unfold bytesR; [by intros c | congruence]. Qed.

Lemma file_bytesR {A} (m : M PageCache A) : keeps fileR m → keeps bytesR m.
Proof. intros Hm c. apply (Hm c). Qed.

Lemma bytes_unit id : keeps bytesR (on_io (PageIo.read_page_unit id)).
Proof.
  intros c. unfold on_io, PageIo.read_page_unit, bind, reads, PageIo.on_backing. cbn [Datatypes.id].
  destruct (_ <=? _); [by destruct c |]. destruct (_ <? _); [by destruct c |].
  pose proof (file_read (id * PageIo.stride (io c)) (PageIo.stride (io c)) (crash PanicSlice) (λ b, eq_refl) (PageIo.backing (io c))) as Hr.
  destruct (Backing.read_at _ _ _ _) as [r b]. exact Hr.
Qed.

Lemma bytes_page id : keeps bytesR (on_io (PageIo.read_page id)).
Proof.
  intros c. pose proof (bytes_unit id c) as Hu. revert Hu. unfold on_io, PageIo.read_page, bind, reads, assert_that. cbn [Datatypes.id].
  destruct (_ =? _); [done | by destruct c].
Qed.

Lemma bytes_stride n : keeps bytesR (on_io (PageIo.set_stride n)).
Proof.
  intros c. unfold on_io, PageIo.set_stride, bind, PageIo.on_backing, Backing.ask, writes, bytesR, file_bytes.
  destruct (Backing.file_backed _); [| done]. by destruct (Backing.answers _).
Qed.

Lemma bytes_slots idx : keeps bytesR (read_slots idx).
Proof.
  induction idx as [| i idx IH]; cbn [read_slots]; [intros c; reflexivity |]. intros c. pose proof (bytes_unit i c) as Hu.
  destruct (on_io _ c) as [[u | [] | p] c1]; cbn [snd] in *; try done. destruct (_ <? _); [done |]. specialize (IH c1).
  destruct (read_slots idx c1) as [[out | |] c2]; cbn [snd] in *; by etransitivity.
Qed.

#[local] Hint Resolve bytes_page bytes_stride bytes_slots : keeps.

Lemma bytes_writes (f : PageCache → PageCache) : (∀ c, file_bytes (f c) = file_bytes c) → keeps bytesR (writes f).
Proof. intros Hf c. apply Hf. Qed.

Lemma bytes_count_slots es m : keeps bytesR (count_slots es m).
Proof. revert m. induction es as [| [x e] es IH]; intros m; cbn [count_slots]; keeps. Qed.

Lemma bytes_rebuild sb dek : keeps bytesR (rebuild sb dek).
Proof.
  pose proof (λ r, file_bytesR _ (ht_recover_keeps fileR r)) as H1. pose proof (λ t r, file_bytesR _ (ht_iter_keeps fileR t r)) as H2.
  pose proof (λ r, file_bytesR _ (rx_recover_keeps fileR r)) as H3. pose proof bytes_count_slots.
  unfold rebuild. apply keeps_bind; [apply _ | by apply bytes_writes |]. intros _. cbv zeta. keeps.
Qed.

Lemma open_existing_reads key : keeps bytesR (open_existing key).
Proof.
  pose proof bytes_rebuild. unfold open_existing, find_candidates, read_candidates, check_header, unlock_body, check_fields, fail.
  repeat (cbv zeta; lazymatch goal with |- keeps _ (writes _) => apply bytes_writes; by intros [] | _ => keeps_step end).
Qed.
(** ** Opening a path *)

Definition contentsR (p p' : Path) : Prop := contents p' = contents p.

#[local] Instance contentsR_pre : PreOrder contentsR.
Proof. split; unfold contentsR; [by intros p | congruence]. Qed.

Lemma call_keeps : keeps contentsR os_call.
Proof. intros p. unfold os_call, bind, reads. cbn [id]. by destruct (os_answers p) as [| [[k n] |] rest]. Qed.

(** A file of some bytes stays, and is what was opened. *)
Lemma open_file_reads bs ro p :
  contents p = Some bs →
  let '(r, p') := open_file ro p in contents p' = Some bs ∧ ∀ i, r = Ok i → Backing.bytes (PageIo.backing i) = bs.
Proof.
  intros Hp. assert (Hk : ∀ p1, contents p1 = Some bs → contents (os_call p1).2 = Some bs) by (intros p1 <-; apply call_keeps).
  unfold open_file. unfold bind at 1. pose proof (Hk p Hp) as H1. destruct (os_call p) as [[[] | |] p1]; cbn [fst snd] in *; [| done | done].
  unfold bind at 1, reads at 1. cbn [id]. rewrite H1. unfold bind at 1. cbn [ret]. unfold bind at 1.
  match goal with |- context [match ?m p1 with _ => _ end] => assert (H2 : contents (m p1).2 = Some bs); [| destruct (m p1) as [[[] | |] p2]] end; cbn [fst snd] in *; try done.
  { destruct ro; [done |]. unfold bind at 1. pose proof (Hk p1 H1) as H2. destruct (os_call p1) as [[[] | |] p2]; cbn [snd] in *; [| done | done].
    unfold bind, reads. cbn [id]. destruct (_ =? 0); [by apply Hk | done]. }
  unfold bind at 1, reads. cbn [id]. destruct (locked p2); [done |]. unfold bind at 1. pose proof (Hk p2 H2) as H3.
  destruct (os_call p2) as [[[] | |] p3]; cbn [fst snd] in *; [| done | done]. unfold bind, ret. cbn [id]. split; [done |]. intros i [= <-]. cbn. by rewrite H3.
Qed.

Lemma byte_len_bytes i : Backing.bytes (PageIo.backing (PageIo.byte_len i).2) = Backing.bytes (PageIo.backing i).
Proof.
  unfold PageIo.byte_len, bind, PageIo.on_backing, Backing.ask. destruct (Backing.file_backed _); [| done].
  by destruct (Backing.answers _) as [| [[k n] |] rest].
Qed.

Lemma validate_keeps {S} params (s : S) : (validate_argon2_params params s).2 = s.
Proof. unfold validate_argon2_params. destruct params as [a |]; [| done]. by destruct (Crypto.argon2_params_out_of_range a). Qed.

(** Where nothing may be created, opening leaves the contents of the path, on every outcome. *)
Lemma open_keeps options rnd nonces p :
  create_if_missing options = false → contents (Api.open options rnd nonces p).2 = contents p.
Proof.
  intros Hc. unfold Api.open, validate_superblock_count. unfold bind at 1. destruct (_ || _); [done |]. cbn [ret].
  unfold bind at 1. pose proof (validate_keeps (argon2_params options) p) as Ev.
  destruct (validate_argon2_params _ p) as [[[] | |] p0]; cbn [snd] in *; subst p0; [| done | done].
  unfold bind at 1, reads at 1. cbn [id]. rewrite Hc. cbn [negb]. rewrite andb_true_r.
  destruct (contents p) as [bs |] eqn:Ep; [| done]. destruct (0 <? zlen bs); [| done]. cbn [negb].
  pose proof (open_file_reads bs (opt_read_only options) p Ep) as Hi. unfold bind at 1.
  destruct (open_file _ p) as [[i | |] p1]; destruct Hi as [Hf Hi]; cbn [fst snd] in *; [| done | done]. specialize (Hi i eq_refl). unfold bind at 1.
  destruct (0 <? PageIo.page_count i); cbn [ret].
  2:{ unfold bind at 1, on_file. cbn [id]. pose proof (byte_len_bytes i) as Hb. destruct (PageIo.byte_len i) as [[len | |] i1]; cbn [snd] in *.
    - destruct (0 <? len); [cbn; congruence |]. cbn. congruence.
    - cbn. congruence.
    - cbn. congruence. }
  unfold bind at 1, reads. cbn [id]. unfold bind at 1, on_file.
  match goal with |- context [open_existing _ ?c] => pose proof (open_existing_reads (encryption_key options) c) as Hr; destruct (open_existing (encryption_key options) c) as [[t | |] c1] end;
    unfold bytesR, file_bytes in Hr; cbn in *; congruence.
Qed.

(** ** A rotation that fails *)

(** A failed rotation of the key leaves the contents of the path as they were. *)
Lemma rekey_fails key params rnd nonces p s r p' s' :
  rekey key params rnd nonces (p, s) = (r, (p', s')) → r ≠ Ok tt → contents p' = contents p.
Proof.
  intros E Hr. pose proof (open_keeps (rekey_options key) rnd nonces p eq_refl) as Ho. revert E. unfold rekey. unfold bind at 1.
  pose proof (validate_keeps params (p, s)) as Ev.
  destruct (validate_argon2_params params (p, s)) as [[[] | |] x]; cbn [snd] in *; subst x; [| by intros [= <- <- <-] | by intros [= <- <- <-]].
  unfold bind at 1, zoom at 1. cbn [fst snd]. destruct (Api.open _ _ _ p) as [[db | |] p1]; cbn [fst snd] in *; [| intros [= <- <- <-]; done | intros [= <- <- <-]; done].
  unfold bind at 1, zoom at 1. cbn [fst snd]. destruct (rotate _ _ _ _ s) as [[[] | |] s1]; cbn [fst snd]; [| intros [= <- <- <-]; done | intros [= <- <- <-]; done].
  unfold rename, bind at 1, zoom at 1. cbn [fst snd]. destruct (scratch_call s1) as [[[] | |] s2]; [| intros [= <- <- <-]; done | intros [= <- <- <-]; done].
  unfold bind, reads. cbn [snd]. destruct (entry s2); [intros [= <- <- <-]; done | intros [= <- <- <-]; done].
Qed.
End path.
End RekeyPath.
