(* ===== verification/RekeyBuild.v ===== *)
(** * The file that a rotation of the data key builds

    [build_rotated_file] of [src/rekey.rs]: what is in the scratch file once it is
    complete, unit by unit.  [trouble] stands for an operating system that reports errors:
    without it nothing here fails. *)

From S2P Require Export RekeyPath.

(** ** Units of a byte array *)

Definition unit_of (bs : list Z) (j : Z) : list Z := slice (j * ENC_PAGE_SIZE) ENC_PAGE_SIZE bs.

(** The units [ids] were written, each to what [R] says, and no other was changed. *)
Record wrote (R : Z → list Z → Prop) (ids : list Z) (bs bs' : list Z) : Prop := {
  wt_bytes : bytes_ok bs → bytes_ok bs';
  wt_grows : zlen bs ≤ zlen bs';
  wt_end : ∀ n, zlen bs ≤ n * ENC_PAGE_SIZE → (∀ j, j ∈ ids → j < n) → zlen bs' ≤ n * ENC_PAGE_SIZE;
  wt_new : ∀ j, j ∈ ids → (j + 1) * ENC_PAGE_SIZE ≤ zlen bs' ∧ R j (unit_of bs' j);
  wt_old : ∀ j, 0 ≤ j → (j + 1) * ENC_PAGE_SIZE ≤ zlen bs → (j ∉ ids) → unit_of bs' j = unit_of bs j
}.

Lemma wrote_nil R bs : wrote R [] bs bs.
Proof. split; [done | done | done | by intros j ?%elem_of_nil | done]. Qed.

Lemma wrote_unit (R : Z → list Z → Prop) j u bs :
  0 ≤ j → array ENC_PAGE_SIZE u → R j u → wrote R [j] bs (overwrite (j * ENC_PAGE_SIZE) u bs).
Proof.
  intros Hj [Hl Hb] Hr. assert (Hn : u ≠ []) by (intros ->; done). assert (Hz := zlen_overwrite (j * ENC_PAGE_SIZE) u bs ltac:(unfold ENC_PAGE_SIZE; lia) Hn).
  rewrite Hl in Hz. unfold ENC_PAGE_SIZE in *. split.
  - intros Hbs. by apply overwrite_bytes.
  - lia.
  - intros n Hn1 Hlt. specialize (Hlt j ltac:(set_solver)). unfold ENC_PAGE_SIZE in *. lia.
  - intros i ->%list_elem_of_singleton. split; [unfold ENC_PAGE_SIZE; lia |]. unfold unit_of, ENC_PAGE_SIZE. by rewrite slice_overwrite_same by (done || lia).
  - intros i Hi Hle Hne. assert (i ≠ j) by set_solver. unfold unit_of, ENC_PAGE_SIZE in *. apply slice_overwrite_out; [lia | lia | lia | lia |]. rewrite Hl. lia.
Qed.

Lemma wrote_app R ids js bs bs1 bs2 :
  (∀ j, j ∈ ids → 0 ≤ j ∧ (j ∉ js)) → wrote R ids bs bs1 → wrote R js bs1 bs2 → wrote R (ids ++ js) bs bs2.
Proof.
  intros Hd [A1 A2 A3 A4 A5] [B1 B2 B3 B4 B5]. split.
  - auto.
  - lia.
  - intros n Hn Hlt. apply B3; [apply A3; [done |] |]; intros j Hj; apply Hlt, elem_of_app; auto.
  - intros j [Hj | Hj]%elem_of_app; [| auto]. destruct (A4 j Hj) as [H1 H2], (Hd j Hj) as [H3 H4]. split; [lia |]. by rewrite B5.
  - intros j Hj Hle Hni. rewrite not_elem_of_app in Hni. destruct Hni as [N1 N2]. rewrite B5; [by apply A5 | done | lia | done].
Qed.

(** ** What a superblock that was read can be *)

Section opened.
Import CryptoHeader Superblock SuperblockFacts SuperblockBody SuperblockProps.
Context `{HX : Xxh3} `{HC : Primitives}.

Lemma get_le_u32 off l : bytes_ok l → is_u32 (get_u32 off l).
Proof.
  intros Hb. pose proof (le_decode_bound _ (slice_bytes off 4 l Hb)) as [H1 H2]. unfold is_u32, get_le. change (Z.of_nat 4) with 4.
  assert (Hl : zlen (slice off 4 l) ≤ 4) by (unfold slice, zlen; rewrite length_take; lia).
  assert (256 ^ zlen (slice off 4 l) ≤ 256 ^ 4) by (apply Z.pow_le_mono_r; lia). lia.
Qed.

Lemma read_roots_ok n base b :
  bytes_ok b → 0 ≤ base → base + Z.of_nat n * NAMED_ROOT_ENTRY_SIZE ≤ zlen b → Forall root_ok (read_roots base n b).
Proof.
  intros Hb. revert base. induction n as [| n IH]; intros base H0 Hl; [constructor |]. unfold NAMED_ROOT_ENTRY_SIZE, NAMED_ROOT_NAME_LEN in *.
  constructor; [| apply IH; unfold NAMED_ROOT_ENTRY_SIZE, NAMED_ROOT_NAME_LEN; lia]. split; [split |].
  - apply length_slice; unfold NAMED_ROOT_NAME_LEN; lia.
  - by apply slice_bytes.
  - by apply get_le_u64.
Qed.

(** A superblock that opens under a key has fields of their widths and the identity of
    the page. *)
Lemma opened_ok raw seen dek sb :
  wf_page raw → deserialize raw = Some seen → decrypt_body seen dek raw = COk sb →
  sb_ok sb ∧ sb_valid sb ∧ txn_counter sb = txn_counter seen ∧ superblock_count sb = superblock_count seen ∧
  format_version sb = format_version seen ∧ page_size sb = page_size seen ∧ encryption sb = encryption seen.
Proof.
  intros [Hl Hb] Hd Ho. unfold decrypt_body in Ho. destruct (_ <? _); [done |]. unfold Crypto.open_body, Crypto.open_detached in Ho.
  destruct (aead_decrypt _ _ _ _ _) as [body |] eqn:Ea; [| done]. apply aead_opened in Ea as [_ Hbb]. unfold load_body in Ho.
  destruct (Z.eqb_spec (zlen body) BODY_LEN) as [Hbl |]; [| done]. injection Ho as <-.
  assert (Hn : length (named_roots seen) = 8%nat).
  { unfold deserialize in Hd. destruct (validate raw); [done |]. destruct (CryptoHeader.deserialize raw); injection Hd as <-; reflexivity. }
  assert (Hs : is_u32 (magic seen) ∧ is_u32 (format_version seen) ∧ is_u64 (txn_counter seen) ∧ is_u32 (page_size seen) ∧ is_u32 (superblock_count seen) ∧
    sb_valid seen).
  { unfold deserialize in Hd. destruct (validate raw) eqn:Ev; [done |].
    assert (Hv : get_u32 0 raw = MAGIC ∧ count_in_range (get_u32 SUPERBLOCK_COUNT_OFFSET raw) = true ∧ get_u64 8 raw ≤ MAX_TXN_COUNTER).
    { unfold validate in Ev. destruct (verify_checksum raw); [| done]. destruct (Z.eqb_spec (get_u32 0 raw) MAGIC); [| done].
      destruct (count_in_range _); [| done]. cbn [negb] in Ev. destruct (Z.ltb_spec MAX_TXN_COUNTER (get_u64 8 raw)); [done | by ands]. }
    destruct (CryptoHeader.deserialize raw); injection Hd as <-; ands; solve [by apply get_le_u32 | by apply get_le_u64 | exact Hv]. }
  destruct Hs as (S1 & S2 & S3 & S4 & S5 & S6). unfold sb_ok. cbn. rewrite Hn. ands; try done; try (by apply get_le_u64); try (by apply get_le_u32).
  apply read_roots_ok; [done | done | by rewrite Hbl].
Qed.
End opened.

(** A header with a wrapped key is one that can be written. *)
Section wrapped.
Import CryptoHeader CryptoHeaderFacts.
Context `{HC : Primitives}.

Lemma wrapped_ok self slot key dek ov rs rn h' :
  header_ok self → array DEK_LEN dek → array SALT_LEN rs → array NONCE_LEN rn → (∀ p, ov = Some p → u32_params p) →
  wrap_into self slot key dek ov rs rn = COk h' →
  header_ok h' ∧ algorithm h' = algorithm self ∧ stride h' = stride self.
Proof.
  intros (H1 & H2 & H3 & H4) [Ld Bd] Hs Hn Ho. unfold wrap_into.
  destruct (match key with Raw _ => _ | _ => _ end) as [kdf params] eqn:Ek. cbn [salt argon2 wrap_nonce].
  assert (Hp : u32_params params).
  { destruct key; injection Ek as <- <-; [done |]. destruct ov as [p |]; [by apply Ho | done]. }
  destruct (Crypto.derive_kek key kdf rs params) as [kek | |]; [| done | done]. unfold Crypto.wrap_dek.
  match goal with |- context [Crypto.seal_detached kek rn ?a dek] => destruct (CryptoProps.seal_open_detached kek rn a dek Bd) as (ct & tag & -> & [Lc Bc] & Ht & _) end.
  destruct (Nat.ltb_spec slot (length (slots self))); [| done]. cbn [negb]. intros [= <-]. split; [| done]. unfold header_ok. cbn [algorithm stride slots]. ands; [done | done | |].
  - cbn [slots]. unfold zlen. rewrite length_insert. exact H3.
  - cbn [slots]. apply Forall_insert; [done |]. unfold slot_ok. cbn. ands; [done | by destruct kdf | done | done | done | split; [congruence | done] | done].
Qed.
End wrapped.

(** ** The steps *)

Module RekeyBuild.
Import Txn TxnCommit PageCache CacheStore CryptoHeader CryptoHeaderFacts Recovery Rekey Slots PageIoFacts SuperblockFacts SuperblockBody SuperblockProps.

Section build.
Context `{HX : Xxh3} `{HO : HashOrder} `{HC : Primitives}.
Variable trouble : Prop.
#[local] Instance rekey_fault : Fault := {| may_err _ := trouble; may_panic _ := trouble |}.

(** The operating system has no error pending. *)
Definition hushed {A} (answers : list A) : Prop := trouble ∨ answers = [].

Lemma spec_reads_step {S A B} (F : S → Prop) (f : S → A) (k : A → M S B) s (Q : B → S → Prop) :
  spec F (k (f s)) s Q → spec F (bind (reads f) k) s Q.
Proof. done. Qed.

(** *** The scratch file *)

Abbreviation quiet s := (hushed (scratch_answers s)).

Lemma answer_spec s :
  quiet s → spec (λ s', entry s' = entry s ∧ quiet s') answer s (λ a _, match a with Some _ => trouble | None => True end).
Proof.
  intros Hq. unfold spec, answer, bind, reads. cbn [id]. destruct (scratch_answers s) as [| a rest] eqn:E; [split; [split; [done | right; exact E] | exact I] |].
  destruct Hq as [Ht | Hq]; [| congruence]. split; [split; [done | by left] |]. by destruct a.
Qed.

Lemma scratch_call_spec s : quiet s → spec (λ s', entry s' = entry s ∧ quiet s') scratch_call s (λ _ _, True).
Proof.
  intros Hq. unfold scratch_call. eapply spec_bind; [apply answer_spec, Hq |]. intros [[k n] |] s' Hs Ha; [apply spec_fail; [exact Hs | exact Ha] | apply spec_ret; [exact Hs | exact I]].
Qed.

(** An entry that may be removed, or none. *)
Definition removable s : Prop :=
  match entry s with None => True | Some e => trouble ∨ is_file e && sole_link e && own e = true end.

Lemma create_scratch_spec s : quiet s → removable s → spec (λ s', quiet s') create_scratch s (λ _ s', entry s' = Some new_entry).
Proof.
  intros Hq Hr. assert (Hc : ∀ s1, quiet s1 → spec (λ s', quiet s') scratch_call s1 (λ _ s', entry s' = entry s1)).
  { intros s1 H1. eapply spec_conseq; [by apply scratch_call_spec | by intros s' [] |]. intros _ s' [? ?] _. done. }
  unfold create_scratch. eapply spec_bind; [by apply Hc |]. intros [] s1 H1 E1. apply spec_reads_step. cbn [id].
  destruct (entry s1) as [e |] eqn:Ee; [| by apply spec_writes].
  apply (spec_bind _ _ _ _ (λ _ _, True)).
  - unfold reclaim_scratch. eapply spec_bind; [by apply Hc |]. intros [] s2 H2 E2. apply spec_reads_step. cbn [id]. rewrite E2, Ee.
    destruct (is_file e && sole_link e && own e) eqn:Eo; cbn [negb].
    + eapply spec_bind; [by apply Hc |]. intros [] s3 H3 _. by apply spec_writes.
    + apply spec_fail; [done |]. unfold removable in Hr. rewrite <- E1, Eo in Hr. by destruct Hr.
  - intros [] s2 H2 _. eapply spec_bind; [by apply Hc |]. intros [] s3 H3 _. by apply spec_writes.
Qed.

Definition holds s (bs : list Z) : Prop := ∃ e, entry s = Some e ∧ data e = bs.

Lemma seek_write_spec (R : Z → list Z → Prop) s j u bs :
  quiet s → holds s bs → 0 ≤ j → j * ENC_PAGE_SIZE ≤ u64_max → array ENC_PAGE_SIZE u → R j u →
  spec (λ s', quiet s') (seek_write_unit j u) s (λ _ s', ∃ bs', holds s' bs' ∧ wrote R [j] bs bs').
Proof.
  intros Hq (e & He & Hd) Hj Hu Ha Hr. unfold seek_write_unit. destruct (Z.ltb_spec u64_max (j * ENC_PAGE_SIZE)); [lia |].
  apply (spec_bind _ _ _ _ (λ _ s', entry s' = entry s)); [eapply spec_conseq; [by apply scratch_call_spec | by intros s1 [_ ?] | by intros [] s1 [E1 _] _] |].
  intros [] s1 H1 E1. pose proof (answer_spec s1 H1) as [[E2 H2] Hans]. unfold bind at 1, spec. destruct (answer s1) as [[[[k n] |] | |] s2]; cbn [fst snd post] in *.
  - unfold bind, writes, fail. by split.
  - unfold writes. split; [done |]. rewrite E2, E1, He. cbn. exists (overwrite (j * ENC_PAGE_SIZE) u (data e)). split; [eexists; by split |].
    rewrite Hd. by apply wrote_unit.
  - by split.
  - by split.
Qed.
(** *** The database that is read *)

Section db.
Variable self : TransactionManager PageCache.
Abbreviation io0 := (io (cache self)).
Hypothesis Hi : io_inv io0.
Hypothesis Hst : PageIo.stride io0 = ENC_PAGE_SIZE.
Hypothesis Hlen : zlen (Backing.bytes (PageIo.backing io0)) ≤ u64_max.

Definition io_ok (i : PageIo.PageIo) : Prop := io_same io0 i ∧ hushed (Backing.answers (PageIo.backing i)).

Lemma ask_quiet b :
  hushed (Backing.answers b) →
  spec (λ b', same_bytes b b' ∧ hushed (Backing.answers b')) Backing.ask b (λ a _, match a with Some _ => trouble | None => True end).
Proof.
  intros Hq. unfold spec, Backing.ask. destruct (Backing.file_backed b) eqn:Ef; [| done].
  destruct (Backing.answers b) as [| a rest] eqn:E; [split; [split; [done | right; exact E] | exact I] |].
  destruct Hq as [Ht | Hq]; [| discriminate Hq]. split; [split; [by split | by left] |]. by destruct a.
Qed.

Lemma unit_spec i j :
  io_ok i → 0 ≤ j < PageIo.page_count io0 →
  spec io_ok (PageIo.read_page_unit_into j ENC_PAGE_SIZE) i (λ u _, u = unit_at io0 j).
Proof.
  intros [Hs Hq] Hj. unfold PageIo.read_page_unit_into. apply spec_reads_step. cbn [id]. pose proof Hs as ([_ Hb] & _ & Es & Ec).
  unfold PageIo.page_count in *. rewrite Ec. destruct (Z.leb_spec (PageIo.cached_page_count io0) j); [lia |].
  rewrite Es, Hst. change (ENC_PAGE_SIZE =? ENC_PAGE_SIZE) with true. unfold assert_that, bind at 1. unfold spec at 1. cbn [ret].
  pose proof (unit_range _ _ Hi Hj) as Hr. rewrite Hst in Hr.
  destruct (Z.ltb_spec u64_max (j * ENC_PAGE_SIZE)); [unfold ENC_PAGE_SIZE in *; lia |].
  apply io_backing. unfold Backing.read_at. eapply spec_bind; [eapply spec_conseq; [by apply ask_quiet | | intros a b' _ Hx; exact Hx] |].
  { intros b [[B1 B2] B3]. split; [| exact B3]. split; [split; cbn; [rewrite B1; apply Hs | congruence] | apply Hs]. }
  intros [[k n] |] b' H1 Ha; [by apply spec_fail |]. apply spec_reads_step. cbn [id]. assert (Hb' : Backing.bytes b' = Backing.bytes (PageIo.backing io0)) by apply H1.
  rewrite Hb'. destruct (Z.ltb_spec (zlen (Backing.bytes (PageIo.backing io0))) (j * ENC_PAGE_SIZE + ENC_PAGE_SIZE)); [lia |].
  apply spec_ret; [exact H1 |]. unfold unit_at. by rewrite Hst.
Qed.

Record db_ok (x : TransactionManager PageCache) : Prop := {
  db_io : io_ok (io (cache x));
  db_nonces : ∀ k, array NONCE_LEN (nonces (cache x) k)
}.

Lemma read_db_spec {A} (m : M PageIo.PageIo A) x (Q : A → Prop) :
  db_ok x → spec io_ok m (io (cache x)) (λ a _, Q a) → spec db_ok (on_cache (on_io m)) x (λ a _, Q a).
Proof.
  intros [_ Hn] [H1 H2]. unfold spec, on_cache, zoom, on_io. destruct (m (io (cache x))) as [r i]. by split.
Qed.

Lemma nonce_spec x : db_ok x → spec db_ok (on_cache tc_nonce) x (λ n _, array NONCE_LEN n).
Proof. intros [H1 H2]. split; [by split | apply H2]. Qed.

(** *** The superblock that is carried over *)

(** Slot [j] holds a superblock with the counter of the manager that opens to [sb]. *)
Definition source (dek : list Z) (j : Z) (sb : Superblock.Superblock) : Prop :=
  ∃ seen, Superblock.deserialize (image_at io0 j) = Some seen ∧ Superblock.txn_counter seen = txn_counter self ∧
    Superblock.decrypt_body seen dek (image_at io0 j) = COk sb.

(** Without trouble one of the slots opens, and none panics. *)
Definition opens_some (dek : list Z) (order : list Z) : Prop :=
  trouble ∨ ((∃ j sb, j ∈ order ∧ source dek j sb) ∧
    ∀ j seen p, j ∈ order → Superblock.deserialize (image_at io0 j) = Some seen → Superblock.decrypt_body seen dek (image_at io0 j) ≠ CPanic p).

Lemma find_spec dek order i :
  io_ok i → (∀ j, j ∈ order → 0 ≤ j < PageIo.page_count io0) → opens_some dek order →
  spec io_ok (find_superblock (txn_counter self) dek order) i (λ sb _, ∃ j, j ∈ order ∧ source dek j sb).
Proof.
  revert i. induction order as [| j order IH]; intros i Hok Hin Hop; cbn [find_superblock].
  - apply spec_fail; [done |]. destruct Hop as [Ht | [(j & sb & []%elem_of_nil & _) _]]; done.
  - eapply spec_bind; [apply unit_spec; [done | by apply Hin, list_elem_of_here] |]. intros u i1 H1 ->.
    cbv zeta. assert (Ei : slice 0 PAGE_SIZE (unit_at io0 j) = image_at io0 j) by (unfold image_at; reflexivity). rewrite !Ei. clear Ei.
    assert (Hnext : (∀ sb, ¬ source dek j sb) → spec io_ok (find_superblock (txn_counter self) dek order) i1 (λ sb _, ∃ j0, j0 ∈ j :: order ∧ source dek j0 sb)).
    { intros Hno. eapply spec_conseq; [apply IH | done |].
      - done.
      - intros j0 Hj0. by apply Hin, list_elem_of_further.
      - destruct Hop as [Ht | [(j0 & sb & [-> | Hj0]%elem_of_cons & Hs) Hp]]; [by left | by destruct (Hno sb) |]. right. split; [eauto |].
        intros j1 seen p Hj1. by apply Hp, list_elem_of_further.
      - intros sb i2 _ (j0 & Hj0 & Hs). exists j0. split; [by apply list_elem_of_further | done]. }
    destruct (Superblock.deserialize (image_at io0 j)) as [seen |] eqn:Ed; [| apply Hnext; intros sb (x & E & _); congruence].
    destruct (Z.eqb_spec (Superblock.txn_counter seen) (txn_counter self)) as [Et |]; [| apply Hnext; intros sb (x & E & Ex & _); congruence].
    destruct (Superblock.decrypt_body seen dek (image_at io0 j)) as [sb | e | p] eqn:Eb.
    + apply spec_ret; [done |]. exists j. split; [apply list_elem_of_here |]. by exists seen.
    + apply Hnext. intros sb (x & E & _ & Ex). congruence.
    + split; [done |]. destruct Hop as [Ht | [_ Hp]]; [done |]. by destruct (Hp j seen p (list_elem_of_here _ _) Ed).
Qed.
(** *** The new file *)

Definition both_ok (x : TransactionManager PageCache * Scratch) : Prop := db_ok x.1 ∧ quiet x.2.

Lemma on_db_spec {A} (m : M (TransactionManager PageCache) A) x (Q : A → Prop) :
  quiet x.2 → spec db_ok m x.1 (λ a _, Q a) → spec both_ok (on_db m) x (λ a x', Q a ∧ x'.2 = x.2).
Proof.
  intros Hq [H1 H2]. unfold spec, on_db, zoom. destruct (m x.1) as [r y]. split; [by split |]. unfold post in *. by destruct r.
Qed.

Lemma on_scratch_spec {A} (m : M Scratch A) x (Q : A → Scratch → Prop) :
  db_ok x.1 → spec (λ s', quiet s') m x.2 Q → spec both_ok (on_scratch m) x (λ a x', Q a x'.2).
Proof. intros Hd [H1 H2]. unfold spec, on_scratch, zoom. destruct (m x.2) as [r y]. by split. Qed.

(** The unit of a slot with counter [n]. *)
Definition carries (w : Superblock.Superblock) (h : CryptoHeader) (dek : list Z) (n : Z) (u : list Z) : Prop :=
  ∃ raw, u = splice 0 raw (zeros ENC_PAGE_SIZE) ∧ wf_page raw ∧
    Superblock.deserialize raw = Some (locked (with_header n h w)) ∧
    Superblock.decrypt_body (locked (with_header n h w)) dek raw = COk (with_header n h w).

Lemma padded_unit raw : wf_page raw → array ENC_PAGE_SIZE (splice 0 raw (zeros ENC_PAGE_SIZE)).
Proof.
  intros [Hl Hb]. split; [rewrite zlen_splice, zlen_zeros; [done | done | done |]; rewrite Hl, zlen_zeros; [done | done] |]. apply bytes_ok_splice; [done | apply bytes_ok_zeros].
Qed.

Lemma padded_image raw : wf_page raw → slice 0 PAGE_SIZE (splice 0 raw (zeros ENC_PAGE_SIZE)) = raw.
Proof. intros [Hl _]. apply slice_splice_same; [done | rewrite Hl, zlen_zeros; [done | done] | done]. Qed.

Section slots.
Variables (w : Superblock.Superblock) (h : CryptoHeader) (dek : list Z) (n : Z).
Hypothesis Hw : sb_ok w ∧ sb_valid w.
Hypothesis Hh : header_ok h ∧ algorithm h ≠ 0.
Hypothesis Hn : 0 < n ≤ Superblock.MAX_SUPERBLOCKS.
Abbreviation top := (Superblock.txn_counter w).

Definition slot_of (k : Z) : Z := (top - k) mod n.
Definition slot_unit (j : Z) (u : list Z) : Prop := ∃ k, 0 ≤ k < n ∧ j = slot_of k ∧ carries w h dek (Z.max (top - k) 0) u.

Lemma slot_of_range k : 0 ≤ slot_of k < n.
Proof. apply Z.mod_pos_bound. lia. Qed.

Lemma slot_of_inj k k' : 0 ≤ k < n → 0 ≤ k' < n → slot_of k = slot_of k' → k = k'.
Proof.
  unfold slot_of. intros Hk Hk' He. pose proof (Z.div_mod (top - k) n). pose proof (Z.div_mod (top - k') n).
  assert ((top - k) / n = (top - k') / n ∨ (top - k) / n ≠ (top - k') / n) as [E | E] by lia; [nia |].
  assert (Hd : k' - k = n * ((top - k) / n - (top - k') / n)) by lia. nia.
Qed.

Lemma slot_of_onto j : 0 ≤ j < n → ∃ k, 0 ≤ k < n ∧ slot_of k = j.
Proof.
  intros Hj. exists ((top - j) mod n). split; [apply Z.mod_pos_bound; lia |]. unfold slot_of.
  rewrite Zminus_mod_idemp_r. replace (top - (top - j)) with j by lia. by apply Z.mod_small.
Qed.

Lemma with_header_ok c : 0 ≤ c ≤ top → sb_ok (with_header c h w) ∧ sb_valid (with_header c h w).
Proof.
  intros Hc. destruct Hw as [Ho (V1 & V2 & V3)]. destruct Ho as (? & ? & Ht & Ho). split; [| split; [done | split; [done | cbn; lia]]].
  unfold sb_ok. cbn. split; [done |]. split; [done |]. split; [unfold is_u64 in *; lia | exact Ho].
Qed.

Lemma top_range : 0 ≤ top ≤ Superblock.MAX_TXN_COUNTER.
Proof. destruct Hw as [(_ & _ & Ht & _) (_ & _ & Hv)]. unfold is_u64 in Ht. lia. Qed.

Lemma write_superblocks_spec ks x bs :
  both_ok x → holds x.2 bs → NoDup ks → (∀ k, k ∈ ks → 0 ≤ k < n) →
  spec both_ok (write_superblocks w h dek n ks) x (λ _ x', ∃ bs', holds x'.2 bs' ∧ wrote slot_unit (slot_of <$> ks) bs bs').
Proof.
  pose proof top_range as Ht. revert x bs. induction ks as [| k ks IH]; intros x bs Hx Hb Hnd Hin; cbn [write_superblocks].
  { apply spec_ret; [done |]. exists bs. split; [done | apply wrote_nil]. }
  apply NoDup_cons in Hnd as [Hk Hnd]. assert (Hkn : 0 ≤ k < n) by apply Hin, list_elem_of_here. pose proof (slot_of_range k) as Hr.
  cbv zeta. eapply (spec_bind _ _ _ _ (λ _ x', x' = x)).
  { apply spec_assert; [| done | done]. apply Z.leb_le. unfold Superblock.MAX_TXN_COUNTER, Superblock.MAX_SUPERBLOCKS, Superblock.TXN_COUNTER_RESERVE in *.
    change (Z.shiftl 1 32) with 4294967296 in Ht. lia. }
  intros [] ? _ ->. assert (Es : (top + n - k) mod n = slot_of k).
  { unfold slot_of. replace (top + n - k) with (top - k + 1 * n) by lia. apply Z.mod_add. lia. }
  rewrite Es. eapply spec_bind; [apply on_db_spec; [apply Hx | apply nonce_spec, Hx] |]. intros nonce x1 H1 [Hnon Ex].
  destruct (with_header_ok (Z.max (top - k) 0) ltac:(lia)) as [Ho Hv].
  destruct (encrypted_image (with_header (Z.max (top - k) 0) h w) h dek nonce Ho Hv eq_refl (proj1 Hh) (proj2 Hh) Hnon) as (raw & E & Hd & Hdec & Hwf).
  eapply (spec_bind _ _ _ _ (λ r x', r = raw ∧ x' = x1)); [unfold of_outcome; rewrite E; by split |]. intros ? ? _ [-> ->].
  eapply spec_bind; [apply on_scratch_spec; [apply H1 |]; eapply (seek_write_spec slot_unit _ (slot_of k) _ bs) |].
  - apply H1.
  - by rewrite Ex.
  - lia.
  - unfold ENC_PAGE_SIZE, Superblock.MAX_SUPERBLOCKS, u64_max in *. nia.
  - by apply padded_unit.
  - exists k. split; [done |]. split; [done |]. exists raw. by ands.
  - intros [] x2 H2 (bs1 & Hb1 & Hw1). eapply spec_conseq; [apply (IH x2 bs1); [done | done | done |] | done |].
    + intros k' Hk'. by apply Hin, list_elem_of_further.
    + intros [] x3 _ (bs2 & Hb2 & Hw2). exists bs2. split; [done |]. rewrite fmap_cons. apply (wrote_app _ [slot_of k] _ bs bs1); [| done | done].
      intros j ->%list_elem_of_singleton. split; [lia |]. intros (k' & He & Hk')%list_elem_of_fmap. apply slot_of_inj in He; [by subst | done |]. by apply Hin, list_elem_of_further.
Qed.
End slots.

(** A page of the new file: sealed anew, or carried over where it did not open. *)
Definition resealed (old new : list Z) (j : Z) (u : list Z) : Prop :=
  match Crypto.open old j (unit_at io0 j) with
  | COk p => Crypto.open new j u = COk p
  | _ => u = unit_at io0 j
  end.

Lemma reseal_spec old new ids x bs :
  both_ok x → holds x.2 bs → NoDup ids → (∀ j, j ∈ ids → 0 ≤ j < PageIo.page_count io0) →
  spec both_ok (reseal_pages old new ids) x (λ _ x', ∃ bs', holds x'.2 bs' ∧ wrote (resealed old new) ids bs bs').
Proof.
  revert x bs. induction ids as [| j ids IH]; intros x bs Hx Hb Hnd Hin; cbn [reseal_pages].
  { apply spec_ret; [done |]. exists bs. split; [done | apply wrote_nil]. }
  apply NoDup_cons in Hnd as [Hj Hnd]. assert (Hjn : 0 ≤ j < PageIo.page_count io0) by apply Hin, list_elem_of_here.
  pose proof (unit_range _ _ Hi Hjn) as Hr. rewrite Hst in Hr. destruct (PageIoFacts.unit_ok _ _ Hi Hjn) as [Hul Hub]. rewrite Hst in Hul.
  assert (Hput : ∀ y u, both_ok y → holds y.2 bs → array ENC_PAGE_SIZE u → resealed old new j u →
    spec both_ok (on_scratch (seek_write_unit j u)) y (λ _ y', ∃ bs1, holds y'.2 bs1 ∧ wrote (resealed old new) [j] bs bs1)).
  { intros y u Hy Hyb Hu Hru. apply (on_scratch_spec _ _ (λ _ s', ∃ bs1, holds s' bs1 ∧ wrote (resealed old new) [j] bs bs1)); [apply Hy |]. apply seek_write_spec; [apply Hy | done | lia | unfold ENC_PAGE_SIZE in *; lia | done | done]. }
  eapply spec_bind; [apply on_db_spec; [apply Hx |]; apply read_db_spec; [apply Hx |]; apply unit_spec; [apply Hx | done] |].
  intros u x1 H1 [-> Ex]. eapply (spec_bind _ _ _ _ (λ _ y', ∃ bs1, holds y'.2 bs1 ∧ wrote (resealed old new) [j] bs bs1)).
  - destruct (Crypto.open old j (unit_at io0 j)) as [p | e | q] eqn:Eo.
    + eapply spec_bind; [apply on_db_spec; [apply H1 | apply nonce_spec, H1] |]. intros nonce x2 H2 [Hnon Ex2].
      destruct (CryptoProps.seal_open new nonce j p) as [Ha Hop]; [| done |].
      { revert Eo. unfold Crypto.open, Crypto.open_detached. destruct (aead_decrypt _ _ _ _ _) as [pt |] eqn:Ea; [| done].
        apply aead_opened in Ea as [_ Hpb]. destruct (Z.eqb_spec (zlen pt) 8192); [| done]. intros [= <-]. by split. }
      apply Hput; [done | by rewrite Ex2, Ex | done |]. unfold resealed. by rewrite Eo.
    + apply Hput; [done | by rewrite Ex | done |]. unfold resealed. by rewrite Eo.
    + exfalso. revert Eo. unfold Crypto.open, Crypto.open_detached. destruct (aead_decrypt _ _ _ _ _) as [pt |] eqn:Ea; [| done].
      apply aead_opened in Ea as [Hpl _]. rewrite length_slice in Hpl by (try rewrite Hul; unfold ENC_PAGE_SIZE; lia). by rewrite Hpl.
  - intros [] x2 H2 (bs1 & Hb1 & Hw1). eapply spec_conseq; [apply (IH x2 bs1); [done | done | done |] | done |].
    + intros i Hii. by apply Hin, list_elem_of_further.
    + intros [] x3 _ (bs2 & Hb2 & Hw2). exists bs2. split; [done |]. apply (wrote_app _ [j] _ bs bs1); [| done | done].
      intros i ->%list_elem_of_singleton. split; [lia | done].
Qed.
(** The file once it is complete. *)
Record rotated (old new : list Z) (w : Superblock.Superblock) (h : CryptoHeader) (n : Z) (bs : list Z) : Prop := {
  rt_len : zlen bs = PageIo.page_count io0 * ENC_PAGE_SIZE;
  rt_bytes : bytes_ok bs;
  rt_slots : ∀ j, 0 ≤ j < n → slot_unit w h new n j (unit_of bs j);
  rt_pages : ∀ j, n ≤ j < PageIo.page_count io0 → resealed old new j (unit_of bs j)
}.

Lemma wrote_rotated old new w h n bs1 bs2 :
  0 < n ≤ Superblock.MAX_SUPERBLOCKS → n ≤ PageIo.page_count io0 → wrote (slot_unit w h new n) (slot_of w n <$> seqZ 0 n) [] bs1 →
  wrote (resealed old new) (seqZ n (PageIo.page_count io0 - n)) bs1 bs2 → rotated old new w h n bs2.
Proof.
  intros Hn Hnc H1 H2. assert (Hin : ∀ j, 0 ≤ j < n → j ∈ slot_of w n <$> seqZ 0 n).
  { intros j Hj. destruct (slot_of_onto w n Hn j Hj) as (k & Hk & <-). apply list_elem_of_fmap. exists k. split; [done |]. apply elem_of_seqZ. lia. }
  assert (Hl1 : zlen bs1 = n * ENC_PAGE_SIZE).
  { apply Z.le_antisymm.
    - apply (wt_end _ _ _ _ H1); [unfold zlen, ENC_PAGE_SIZE; cbn; lia |]. intros j (k & -> & _)%list_elem_of_fmap. apply slot_of_range. lia.
    - destruct (wt_new _ _ _ _ H1 (n - 1)) as [Hle _]; [apply Hin; lia |]. by replace (n - 1 + 1) with n in Hle by lia. }
  split.
  - apply Z.le_antisymm.
    + apply (wt_end _ _ _ _ H2); [rewrite Hl1; unfold ENC_PAGE_SIZE; lia |]. intros j Hj%elem_of_seqZ. lia.
    + destruct (decide (PageIo.page_count io0 = n)) as [-> |]; [rewrite <- Hl1; apply H2 |].
      destruct (wt_new _ _ _ _ H2 (PageIo.page_count io0 - 1)) as [Hle _]; [apply elem_of_seqZ; lia |]. by replace (PageIo.page_count io0 - 1 + 1) with (PageIo.page_count io0) in Hle by lia.
  - apply (wt_bytes _ _ _ _ H2), (wt_bytes _ _ _ _ H1). constructor.
  - intros j Hj. rewrite (wt_old _ _ _ _ H2); [by apply (wt_new _ _ _ _ H1), Hin | lia | rewrite Hl1; unfold ENC_PAGE_SIZE; lia |].
    intros Hs%elem_of_seqZ. lia.
  - intros j Hj. apply (wt_new _ _ _ _ H2), elem_of_seqZ. lia.
Qed.

Lemma build_spec old new w h n x :
  both_ok x → removable x.2 → sb_ok w ∧ sb_valid w → header_ok h ∧ algorithm h ≠ 0 →
  0 < n ≤ Superblock.MAX_SUPERBLOCKS → n ≤ PageIo.page_count io0 →
  spec both_ok (build_rotated_file (PageIo.page_count io0) n w h old new) x (λ _ x', ∃ bs, holds x'.2 bs ∧ rotated old new w h n bs).
Proof.
  intros Hx Hr Hw Hh Hn Hnc. unfold build_rotated_file.
  eapply spec_bind; [apply on_scratch_spec; [apply Hx | apply create_scratch_spec; [apply Hx | done]] |]. intros [] x1 H1 E1.
  assert (Hb1 : holds x1.2 []) by by exists new_entry.
  eapply spec_bind; [apply (write_superblocks_spec w h new n Hw Hh Hn (seqZ 0 n) x1 [] H1 Hb1 (NoDup_seqZ _ _)) |].
  { intros k Hk%elem_of_seqZ. lia. }
  intros [] x2 H2 (bs1 & Hb2 & W1).
  eapply spec_bind; [apply (reseal_spec old new (seqZ n (PageIo.page_count io0 - n)) x2 bs1 H2 Hb2 (NoDup_seqZ _ _)) |].
  { intros j Hj%elem_of_seqZ. lia. }
  intros [] x3 H3 (bs2 & Hb3 & W2). assert (Hrot := wrote_rotated old new w h n bs1 bs2 Hn Hnc W1 W2).
  assert (Hcall : ∀ y, both_ok y → holds y.2 bs2 → spec both_ok (on_scratch scratch_call) y (λ _ y', holds y'.2 bs2)).
  { intros y Hy (e & He & Hd). apply (on_scratch_spec _ _ (λ _ s', holds s' bs2)); [apply Hy |].
    eapply spec_conseq; [apply scratch_call_spec, Hy | by intros ? [] |]. intros [] s' [E _] _. exists e. by rewrite E. }
  eapply spec_bind; [by apply Hcall |]. intros [] x4 H4 Hb4. eapply spec_conseq; [by apply Hcall | done |].
  intros [] x5 _ Hb5. by exists bs2.
Qed.
End db.
End build.
End RekeyBuild.
