(* ===== verification/KeyProps.v ===== *)
(** * Key changes: what a crash leaves, and what a removed key still opens

    Properties of [src/transaction/keys.rs].  The new key-slot table is complete in one
    superblock slot before any other slot is written, so whatever the operating system
    does to the writes, an opening finds the old superblock or the new one. *)

From S2P Require Export Keys Slots TxnFile.

Module KeyProps.
Import TxnAlloc Txn TxnCommit PageCache CacheFlush CryptoHeader CryptoHeaderFacts Recovery Keys Slots PageIoFacts SuperblockFacts SuperblockBody SuperblockProps CryptoHeaderProps TxnFile.

Section keys.
Context `{HX : Xxh3} `{HO : HashOrder} `{HC : Primitives}.
Abbreviation TM := (TransactionManager PageCache).
#[local] Existing Instance any_fault.

(** ** A cache with nothing to write *)

Record at_rest (c : PageCache) : Prop := {
  ar_io : io_inv (io c);
  ar_dirty : dirty_ids c = [];
  ar_count : dirty_count c = 0;
  ar_spill : spill_size c = 0%nat
}.

Lemma flush_rest c : at_rest c → io_same (io c) (io (flush c).2) ∧ nonces (flush c).2 = nonces c.
Proof.
  intros [Hi Hd Hn Hs].
  assert (Hf : ∀ c2, io c2 = io c → nonces c2 = nonces c → io_same (io c) (io (on_io PageIo.fsync c2).2) ∧ nonces (on_io PageIo.fsync c2).2 = nonces c).
  { intros c2 E1 E2. unfold on_io. pose proof (fsync_spec (io c2)) as [Hsm _]. rewrite E1 in *. destruct (PageIo.fsync (io c)) as [r io']. by split. }
  unfold flush, bind, reads, assert_that. cbn [id]. rewrite Hd, Hn. cbn [zlen length Z.of_nat Z.eqb ret for_each writes].
  change (zlen (@nil Z)) with 0. cbn [ret]. set (c1 := set_dirty_count 0 c). assert (spill_size c1 = 0%nat) as -> by exact Hs. cbn [drain_loop ret].
  destruct (spillway c1) as [spw |] eqn:Es; [| cbn [ret]; by apply Hf].
  unfold on_spillway. rewrite Es. destruct (Spillway.truncate spw) as [[] spw']; [by apply Hf | done | done].
Qed.

(** ** Rewriting the table of a slot *)

(** The unit of a slot after the rewrite. *)
Definition scrubbed (h : CryptoHeader) (u : list Z) : list Z :=
  match Superblock.overwrite_slot_table h (slice 0 PAGE_SIZE u) with
  | Some image => splice 0 image u
  | None => u
  end.

Lemma slice_torn off n a b k :
  length a = length b → slice off n a = slice off n b → slice off n (take k a ++ drop k b) = slice off n b.
Proof.
  intros Hl He. apply list_eq. intros i. pose proof (f_equal (lookup i) He) as Hx. unfold slice in *.
  destruct (decide (i < Z.to_nat n)%nat); [| by rewrite !lookup_take_ge by lia].
  rewrite !lookup_take_lt, !lookup_drop in * by done. destruct (decide (Z.to_nat off + i < k)%nat).
  - destruct (decide (Z.to_nat off + i < length a)%nat).
    + rewrite lookup_app_l by (rewrite length_take; lia). by rewrite lookup_take_lt.
    + rewrite !lookup_ge_None_2; [done | lia | rewrite length_app, length_take, length_drop; lia].
  - destruct (decide (k ≤ length a)%nat).
    + rewrite lookup_app_r by (rewrite length_take; lia). rewrite length_take, lookup_drop. f_equal. lia.
    + rewrite !lookup_ge_None_2; [done | lia | rewrite length_app, length_take, length_drop; lia].
Qed.

Section scrub.
Variable h : CryptoHeader.
Hypothesis Hz : zlen (slots h) = KEY_SLOT_COUNT.
Hypothesis Hs : Forall slot_ok (slots h).

Definition unit_ok (u : list Z) : Prop := zlen u = ENC_PAGE_SIZE ∧ bytes_ok u.

Lemma image_wf u : unit_ok u → wf_page (slice 0 PAGE_SIZE u).
Proof.
  intros [Hl Hb]. split; [rewrite length_slice; [done | done | done | rewrite Hl; done] | by apply slice_bytes].
Qed.

Lemma scrubbed_ok u : unit_ok u → unit_ok (scrubbed h u).
Proof.
  intros Hu. pose proof (image_wf u Hu) as Hw. unfold scrubbed, Superblock.overwrite_slot_table.
  destruct (Superblock.deserialize _) as [sb |]; [| done]. destruct (wf_stamp _ (slots_written_wf h _ Hw Hz Hs)) as [Hl Hb].
  destruct Hu as [Hlu Hbu]. split; [rewrite zlen_splice; [done | done | rewrite Hl, Hlu; done] | by apply bytes_ok_splice].
Qed.

Lemma counter_kept u : unit_ok u → slice 8 8 (splice 0 (rewritten h (slice 0 PAGE_SIZE u)) u) = slice 8 8 u.
Proof.
  intros Hu. pose proof (image_wf u Hu) as Hw. destruct (wf_stamp _ (slots_written_wf h _ Hw Hz Hs)) as [Hli Hbi].
  destruct Hu as [Hlu _]. change (zlen (rewritten h (slice 0 PAGE_SIZE u)) = PAGE_SIZE) in Hli.
  rewrite slice_splice_in; [| done | by rewrite Hli, Hlu | done | done | by rewrite Hli].
  rewrite Z.sub_0_r. unfold rewritten. rewrite (rewritten_slice h _ 8 8 Hw Hz Hs); [| done | done | done | by left].
  rewrite slice_slice by done. done.
Qed.

Lemma scrubbed_cases u :
  scrubbed h u = match Superblock.deserialize (slice 0 PAGE_SIZE u) with
    | Some _ => splice 0 (rewritten h (slice 0 PAGE_SIZE u)) u
    | None => u
    end.
Proof. unfold scrubbed, Superblock.overwrite_slot_table, rewritten. by destruct (Superblock.deserialize _). Qed.

Lemma torn_kept u k :
  unit_ok u → get_u64 8 (slice 0 PAGE_SIZE (take k (splice 0 (rewritten h (slice 0 PAGE_SIZE u)) u) ++ drop k u)) = get_u64 8 (slice 0 PAGE_SIZE u).
Proof.
  intros Hu. pose proof (image_wf u Hu) as Hw. destruct (wf_stamp _ (slots_written_wf h _ Hw Hz Hs)) as [Hli _].
  change (zlen (rewritten h (slice 0 PAGE_SIZE u)) = PAGE_SIZE) in Hli.
  unfold get_le. f_equal. rewrite !slice_slice by done. apply slice_torn; [| by apply counter_kept].
  apply zlen_length, zlen_splice; [done |]. by rewrite Hli, (proj1 Hu).
Qed.

Lemma torn_reads u k sb' sb :
  unit_ok u → Superblock.deserialize (slice 0 PAGE_SIZE (take k (scrubbed h u) ++ drop k u)) = Some sb' →
  Superblock.deserialize (slice 0 PAGE_SIZE u) = Some sb → Superblock.txn_counter sb' = Superblock.txn_counter sb.
Proof.
  intros Hu. rewrite scrubbed_cases. intros Hd E. rewrite E in Hd.
  rewrite (deserialize_counter _ _ Hd), (deserialize_counter _ _ E). apply (torn_kept u k Hu).
Qed.

Lemma torn_none u k sb' :
  Superblock.deserialize (slice 0 PAGE_SIZE (take k (scrubbed h u) ++ drop k u)) = Some sb' →
  Superblock.deserialize (slice 0 PAGE_SIZE u) = None → False.
Proof. rewrite scrubbed_cases. intros Hd E. rewrite E in Hd. rewrite take_drop, E in Hd. discriminate Hd. Qed.

(** A slot torn on the way to its rewritten form reads as nothing, or with the counter it
    had. *)
Lemma torn_counter u u' sb' :
  unit_ok u → torn (scrubbed h u) u u' → Superblock.deserialize (slice 0 PAGE_SIZE u') = Some sb' →
  ∃ sb, Superblock.deserialize (slice 0 PAGE_SIZE u) = Some sb ∧ Superblock.txn_counter sb' = Superblock.txn_counter sb.
Proof.
  intros Hu [k ->] Hd. destruct (Superblock.deserialize (slice 0 PAGE_SIZE u)) as [sb |] eqn:E.
  - exists sb. split; [reflexivity |]. exact (torn_reads u k sb' sb Hu Hd E).
  - destruct (torn_none u k sb' Hd E).
Qed.

Lemma scrubbed_some u image : Superblock.overwrite_slot_table h (slice 0 PAGE_SIZE u) = Some image → scrubbed h u = splice 0 image u.
Proof. intros E. unfold scrubbed. by rewrite E. Qed.

Lemma scrubbed_none u : Superblock.overwrite_slot_table h (slice 0 PAGE_SIZE u) = None → scrubbed h u = u.
Proof. intros E. unfold scrubbed. by rewrite E. Qed.

Lemma unit_at_ok io j : io_inv io → PageIo.stride io = ENC_PAGE_SIZE → 0 ≤ j < PageIo.cached_page_count io → unit_ok (unit_at io j).
Proof. intros Hi He Hj. destruct (PageIoFacts.unit_ok io j Hi Hj). split; [congruence | done]. Qed.

Lemma scrub_slot_spec io j :
  io_inv io → PageIo.stride io = ENC_PAGE_SIZE → 0 ≤ j < PageIo.cached_page_count io →
  spec (λ io', within (.= j) io io' ∧ torn (scrubbed h (unit_at io j)) (unit_at io j) (unit_at io' j))
    (scrub_slot h j) io (λ _ io', unit_at io' j = scrubbed h (unit_at io j)).
Proof.
  intros Hi He Hj. pose proof (unit_at_ok io j Hi He Hj) as Hu. unfold scrub_slot.
  eapply (spec_bind _ _ _ _ (λ u io', io_same io io' ∧ u = unit_at io j)).
  { assert (Hrd := any_spec (io_fault True) _ _ _ _ (read_unit_spec True io j ENC_PAGE_SIZE Hi ltac:(lia) ltac:(done) ltac:(done))).
    eapply spec_conseq; [exact Hrd | |].
    - intros io' Hsm. split; [by apply within_same |]. rewrite (io_same_unit _ _ _ Hsm). apply torn_old.
    - intros u io' Hsm [_ ->]. done. }
  intros u io' [Hw1 _] [Hsm ->]. pose proof (io_same_inv _ _ Hsm Hi) as Hi'. pose proof Hsm as (_ & _ & Hst & Hct).
  pose proof (scrubbed_ok _ Hu) as [Hl Hb].
  destruct (Superblock.overwrite_slot_table h (slice 0 PAGE_SIZE (unit_at io j))) as [image |] eqn:E.
  - rewrite (scrubbed_some _ _ E) in *. assert (Hsp : spec (io_wrote j io') (PageIo.write_page_unit j (splice 0 image (unit_at io j))) io'
      (λ _ io2, unit_at io2 j = splice 0 image (unit_at io j) ∧ PageIo.cached_page_count io2 = Z.max (PageIo.cached_page_count io') (j + 1))).
    { exact (any_spec (io_fault True) _ _ _ _ (write_unit_spec True io' j _ Hi' ltac:(lia) Hb)). }
    pose proof (write_torn io' j (splice 0 image (unit_at io j)) Hi' ltac:(lia) ltac:(congruence)) as Ht.
    rewrite (io_same_unit _ _ _ Hsm) in Ht. destruct Hsp as [Hfr Hp]. split.
    + split; [| done]. eapply within_trans; [exact Hw1 |]. apply within_wrote; [done | lia].
    + unfold post in *. destruct (PageIo.write_page_unit _ _ io').1; [apply Hp | done | done].
  - rewrite (scrubbed_none _ E) in *. apply spec_ret; [split; [done |]; rewrite (io_same_unit _ _ _ Hsm); apply torn_old | by rewrite (io_same_unit _ _ _ Hsm)].
Qed.
(** The slots of a list, all but [t], each after the other. *)
Definition scrub_frame (t : Z) (idx : list Z) (io io' : PageIo.PageIo) : Prop :=
  within (λ j, j ∈ idx ∧ j ≠ t) io io' ∧
  ∀ j, j ∈ idx → j ≠ t → torn (scrubbed h (unit_at io j)) (unit_at io j) (unit_at io' j).

Lemma scrub_frame_refl t idx io : io_inv io → scrub_frame t idx io io.
Proof. intros Hi. split; [by apply within_refl |]. intros j _ _. apply torn_old. Qed.

(** One slot, then the rest. *)
Lemma scrub_frame_step t j idx io io1 io2 :
  (j ∉ idx) → 0 ≤ j < PageIo.cached_page_count io → (∀ i, i ∈ idx → 0 ≤ i < PageIo.cached_page_count io) →
  within (λ i, i = j ∧ j ≠ t) io io1 → (j ≠ t → torn (scrubbed h (unit_at io j)) (unit_at io j) (unit_at io1 j)) →
  scrub_frame t idx io1 io2 → scrub_frame t (j :: idx) io io2.
Proof.
  intros Hj Hr Hall H1 Ht1 [H2 Ht2]. split.
  - eapply within_trans; (eapply within_weaken; [eassumption |]); intros i; rewrite elem_of_cons; [| tauto]. intros [-> ?]. auto.
  - intros i. rewrite elem_of_cons. intros [-> | Hi] Hit.
    + rewrite (wn_other _ _ _ H2); [auto | rewrite (wn_count _ _ _ H1); done | by intros [? _]].
    + specialize (Ht2 i Hi Hit). rewrite (wn_other _ _ _ H1 i (Hall i Hi)) in Ht2; [done |]. by intros [-> _].
Qed.

Lemma scrub_slots_spec t idx io :
  io_inv io → PageIo.stride io = ENC_PAGE_SIZE → NoDup idx → (∀ j, j ∈ idx → 0 ≤ j < PageIo.cached_page_count io) →
  spec (scrub_frame t idx io) (scrub_slots h t idx) io
    (λ _ io', ∀ j, j ∈ idx → j ≠ t → unit_at io' j = scrubbed h (unit_at io j)).
Proof.
  revert io. induction idx as [| j idx IH]; intros io Hi He Hnd Hall; cbn [scrub_slots].
  { apply spec_ret; [by apply scrub_frame_refl |]. intros j []%elem_of_nil. }
  apply NoDup_cons in Hnd as [Hj Hnd]. assert (Hjr : 0 ≤ j < PageIo.cached_page_count io) by (apply Hall; by left).
  assert (Hall' : ∀ i, i ∈ idx → 0 ≤ i < PageIo.cached_page_count io) by (intros i Hi'; apply Hall; by right).
  eapply (spec_bind _ _ _ _ (λ _ io1, within (λ i, i = j ∧ j ≠ t) io io1 ∧ (j ≠ t → unit_at io1 j = scrubbed h (unit_at io j)))).
  - destruct (Z.eqb_spec j t) as [-> | Hne]; [apply spec_ret; [by apply scrub_frame_refl | split; [by apply within_refl | done]] |].
    eapply spec_conseq; [apply (scrub_slot_spec io j Hi He Hjr) | |].
    + intros io1 [Hw Ht]. eapply (scrub_frame_step t j idx io io1 io1); [done | done | done | | done | apply scrub_frame_refl, Hw].
      eapply within_weaken; [exact Hw | auto].
    + intros [] io1 [Hw Ht] Hu. split; [eapply within_weaken; [exact Hw | auto] | done].
  - intros [] io1 [_ Ht1] [Hw1 Hu1].
    assert (Hstep : ∀ io2, scrub_frame t idx io1 io2 → scrub_frame t (j :: idx) io io2).
    { intros io2. apply scrub_frame_step; [done | done | done | done |]. intros Hne. apply Ht1; [by left | done]. }
    eapply spec_conseq; [apply (IH io1) | exact Hstep |].
    + apply Hw1.
    + destruct (wn_mode _ _ _ Hw1). congruence.
    + done.
    + rewrite (wn_count _ _ _ Hw1). done.
    + intros [] io2 [Hw2 _] Hu2 i. rewrite elem_of_cons. intros [-> | Hi2] Hne.
      * rewrite (wn_other _ _ _ Hw2); [auto | rewrite (wn_count _ _ _ Hw1); done | by intros [? _]].
      * rewrite (Hu2 i Hi2 Hne). rewrite (wn_other _ _ _ Hw1 i (Hall' i Hi2)); [done |]. by intros [-> _].
Qed.
(** ** The writes of a key change, in their order *)

Definition switch_io (t n : Z) (blob : list Z) : M PageIo.PageIo unit :=
  ((PageIo.write_page_unit t blob ;;; PageIo.fsync) ;;; scrub_slots h t (seqZ 0 n)) ;;; PageIo.fsync.

(** The slot [t] is complete before another is touched. *)
Definition switch_frame (t n : Z) (blob : list Z) (io io' : PageIo.PageIo) : Prop :=
  within (.= t) io io' ∨
  (within (λ j, 0 ≤ j < n) io io' ∧ unit_at io' t = blob ∧
   ∀ j, 0 ≤ j < n → j ≠ t → torn (scrubbed h (unit_at io j)) (unit_at io j) (unit_at io' j)).

(** The target is written, and the others have come as far as [scrub_frame] says. *)
Lemma switch_late t n blob io io1 io2 :
  0 ≤ t < n → n ≤ PageIo.cached_page_count io → within (.= t) io io1 → unit_at io1 t = blob →
  scrub_frame t (seqZ 0 n) io1 io2 → switch_frame t n blob io io2.
Proof.
  intros Ht Hn H1 Hb [H2 Ht2]. right. split; [| split].
  - eapply within_trans; (eapply within_weaken; [eassumption |]); intros j; [intros ->; done | intros [Hj _]; apply elem_of_seqZ in Hj; lia].
  - rewrite (wn_other _ _ _ H2); [done | rewrite (wn_count _ _ _ H1); lia | by intros [_ ?]].
  - intros j Hj Hne. specialize (Ht2 j ltac:(apply elem_of_seqZ; lia) Hne).
    rewrite (wn_other _ _ _ H1 j) in Ht2; [done | lia | done].
Qed.

Lemma switch_io_spec t n blob io :
  io_inv io → PageIo.stride io = ENC_PAGE_SIZE → 0 ≤ t < n → n ≤ PageIo.cached_page_count io → unit_ok blob →
  spec (switch_frame t n blob io) (switch_io t n blob) io
    (λ _ io', unit_at io' t = blob ∧ ∀ j, 0 ≤ j < n → j ≠ t → unit_at io' j = scrubbed h (unit_at io j)).
Proof.
  intros Hi He Ht Hn [Hl Hb]. unfold switch_io. do 2 apply spec_assoc.
  assert (Hwr := any_spec (io_fault True) _ _ _ _ (write_unit_spec True io t blob Hi ltac:(lia) Hb)).
  eapply (spec_bind _ _ _ _ (λ _ io1, within (.= t) io io1 ∧ unit_at io1 t = blob)).
  { eapply spec_conseq; [exact Hwr | |]; [intros io1 Hw; left | intros [] io1 Hw [Hu _]; split; [| done]]; (apply within_wrote; [done | lia]). }
  intros [] io1 _ [Hw1 Hu1]. pose proof (wn_inv _ _ _ Hw1) as Hi1.
  eapply (spec_bind _ _ _ _ (λ _ io2, within (.= t) io io2 ∧ unit_at io2 t = blob)).
  { eapply spec_conseq; [apply (sync_within (.= t) io1 Hi1) | |].
    - intros io2 Hw. left. by eapply within_trans.
    - intros [] io2 Hw Hsm. split; [by eapply within_trans |]. by rewrite (io_same_unit _ _ _ Hsm). }
  intros [] io2 _ [Hw2 Hu2]. pose proof (wn_inv _ _ _ Hw2) as Hi2.
  assert (Hfin : ∀ io3, scrub_frame t (seqZ 0 n) io2 io3 → switch_frame t n blob io io3) by (intros io3; by apply switch_late).
  eapply (spec_bind _ _ _ _ (λ _ io3, scrub_frame t (seqZ 0 n) io2 io3 ∧ ∀ j, 0 ≤ j < n → j ≠ t → unit_at io3 j = scrubbed h (unit_at io j))).
  { eapply spec_conseq; [apply (scrub_slots_spec t (seqZ 0 n) io2 Hi2) | exact Hfin |].
    - destruct (wn_mode _ _ _ Hw2). congruence.
    - apply NoDup_seqZ.
    - intros j Hj%elem_of_seqZ. rewrite (wn_count _ _ _ Hw2). lia.
    - intros [] io3 Hs3 Hu3. split; [done |]. intros j Hj Hne. rewrite (Hu3 j ltac:(apply elem_of_seqZ; lia) Hne).
      by rewrite (wn_other _ _ _ Hw2 j ltac:(lia) Hne). }
  intros [] io3 _ [Hs3 Hu3]. pose proof (wn_inv _ _ _ (proj1 Hs3)) as Hi3.
  assert (Hs4 : ∀ io4, io_same io3 io4 → scrub_frame t (seqZ 0 n) io2 io4).
  { intros io4 Hsm. destruct Hs3 as [A B]. split; [eapply within_trans; [exact A | by apply within_same] |].
    intros j Hj Hne. rewrite (io_same_unit _ _ _ Hsm). auto. }
  assert (Hf := any_spec flush_fault _ _ _ _ (fsync_spec io3)).
  eapply spec_conseq; [exact Hf | intros io4 Hsm; auto |]. intros [] io4 Hsm _. split.
  - destruct (Hs4 io4 Hsm) as [A _]. rewrite (wn_other _ _ _ A); [done | rewrite (wn_count _ _ _ Hw2); lia | by intros [_ ?]].
  - intros j Hj Hne. rewrite (io_same_unit _ _ _ Hsm). auto.
Qed.
End scrub.

(** ** The manager *)

(** A manager between transactions, on an encrypted file that has its slots. *)
Record key_ready (self : TM) : Prop := {
  kr_rest : at_rest (cache self);
  kr_stride : PageIo.stride (io (cache self)) = ENC_PAGE_SIZE;
  kr_nonces : ∀ k, array NONCE_LEN (nonces (cache self) k);
  kr_count : 2 ≤ superblock_count self ≤ Superblock.MAX_SUPERBLOCKS;
  kr_slots : superblock_count self ≤ PageIo.cached_page_count (io (cache self));
  kr_counter : 0 ≤ txn_counter self
}.

(** The superblock a key change writes, and where. *)
Definition next_superblock (self : TM) (h : CryptoHeader) : Superblock.Superblock :=
  key_superblock (set_txn_counter (txn_counter self + 1) self) (PageIo.page_count (io (cache self))) h.
Definition target (self : TM) : Z := (txn_counter self + 1) mod superblock_count self.

Definition switched (h : CryptoHeader) (dek : list Z) (self self' : TM) : Prop :=
  within (.= target self) (io (cache self)) (io (cache self')) ∨
  ∃ raw, Superblock.deserialize raw = Some (locked (next_superblock self h)) ∧
    Superblock.decrypt_body (locked (next_superblock self h)) dek raw = COk (next_superblock self h) ∧
    zlen raw = PAGE_SIZE ∧
    switch_frame h (target self) (superblock_count self) (splice 0 raw (zeros ENC_PAGE_SIZE)) (io (cache self)) (io (cache self')).

Record switched_all (h : CryptoHeader) (dek : list Z) (self self' : TM) : Prop := {
  sa_file : ∃ raw, Superblock.deserialize raw = Some (locked (next_superblock self h)) ∧
    Superblock.decrypt_body (locked (next_superblock self h)) dek raw = COk (next_superblock self h) ∧
    zlen raw = PAGE_SIZE ∧ unit_at (io (cache self')) (target self) = splice 0 raw (zeros ENC_PAGE_SIZE);
  sa_others : ∀ j, 0 ≤ j < superblock_count self → j ≠ target self →
    unit_at (io (cache self')) j = scrubbed h (unit_at (io (cache self)) j);
  sa_header : crypto_header self' = Some h;
  sa_roots : committed_roots self' = set_total_pages (PageIo.page_count (io (cache self))) (committed_roots self);
  sa_counter : txn_counter self' = txn_counter self + 1
}.

Lemma rewrite_inner_spec h dek self :
  key_ready self → header_ok h → algorithm h ≠ 0 → Txn.cipher self = Some dek → sb_ok (next_superblock self h) →
  spec (switched h dek self) (rewrite_crypto_header_inner h) self (λ _ self', switched_all h dek self self').
Proof.
  intros Hk Hh Ha Hdek Hok. pose proof Hk as [Hrest Hst Hnon Hcnt Hsl Hc0]. pose proof (ar_io _ Hrest) as Hi.
  pose proof Hh as (_ & _ & Hz & Hs).
  destruct (flush_rest (cache self) Hrest) as [Hsm Hnn]. unfold rewrite_crypto_header_inner.
  eapply (spec_bind _ _ _ _ (λ _ s1, ∃ c1, s1 = set_cache c1 self ∧ io_same (io (cache self)) (io c1) ∧ nonces c1 = nonces (cache self))).
  { unfold spec, on_cache, zoom. destruct (flush (cache self)) as [r c1] eqn:E. cbn [fst snd] in *. split; [left; by apply within_same |].
    destruct r; [by exists c1 | done | done]. }
  intros [] s1 Hs1 (c1 & -> & Hsm1 & Hn1). clear Hsm Hnn.
  assert (Hi1 : io_inv (io c1)) by by eapply io_same_inv.
  assert (Hst1 : PageIo.stride (io c1) = ENC_PAGE_SIZE) by (destruct Hsm1 as (_ & _ & ? & _); congruence).
  assert (Hct1 : PageIo.cached_page_count (io c1) = PageIo.cached_page_count (io (cache self))) by apply Hsm1.
  apply bind_reads. cbn [id txn_counter set_cache].
  destruct (Superblock.next_txn_counter (txn_counter self)) as [nc | e | p] eqn:En; [| by split | by split].
  destruct (next_counter_run _ Hc0 _ En) as [-> Hmax]. 
  match goal with |- spec ?F (bind (of_outcome (Ok ?x)) ?k) ?s ?Q => change (spec F (k x) s Q) end. cbv beta.
  apply bind_writes, bind_reads. cbn [id set_txn_counter set_cache Txn.cipher]. rewrite Hdek.
  cbn [cache superblock_count]. set (nonce := nonces c1 (drawn c1)).
  assert (Hna : array NONCE_LEN nonce) by (unfold nonce; rewrite Hn1; auto).
  set (c2 := set_drawn (S (drawn c1)) c1).
  match goal with |- spec ?F (bind (on_cache tc_nonce) ?k) ?s ?Q => change (spec F (k nonce) (set_cache c2 s) Q) end. cbv beta.
  destruct (encrypted_image (next_superblock self h) h dek nonce Hok) as (raw & Eraw & Hdes & Hdec & [Hlr Hbr]); [| done | done | done | done |].
  { split; [done |]. split; [| done]. apply andb_true_iff. cbn. unfold Superblock.MIN_SUPERBLOCKS. lia. }
  match goal with |- context [Superblock.serialize_encrypted ?sb _ _] => assert (sb = next_superblock self h) as -> end.
  { unfold next_superblock, key_superblock, PageCache.file_page_count, PageIo.page_count. cbn. by rewrite Hct1. }
  rewrite Eraw. match goal with |- spec ?F (bind (of_outcome (Ok ?x)) ?k) ?s ?Q => change (spec F (k x) s Q) end. cbv beta.
  apply bind_assert; [apply negb_true_iff, Z.eqb_neq; cbn; lia | left; by apply within_same |].
  cbn [txn_counter superblock_count set_cache set_txn_counter]. fold (target self).
  set (s3 := set_cache c2 _). set (blob := splice 0 raw (zeros ENC_PAGE_SIZE)).
  assert (Hblob : unit_ok blob).
  { split; [unfold blob; rewrite zlen_splice; [by apply zlen_zeros | done | by rewrite Hlr, zlen_zeros] | apply bytes_ok_splice; [done | apply bytes_ok_zeros]]. }
  match goal with |- spec ?F ?m ?s ?Q => assert (Hrun : m s = bind (on_cache (on_io (switch_io h (target self) (superblock_count self) blob))) (λ _, writes (λ self1,
    set_crypto_header (Some h) (set_committed_roots (set_total_pages (PageCache.file_page_count c1) (committed_roots self1)) self1))) s) end.
  { unfold switch_io. by rewrite !on_file_bind. }
  unfold spec. rewrite Hrun. change (spec (switched h dek self) (bind (on_cache (on_io (switch_io h (target self) (superblock_count self) blob)))
    (λ _, writes (λ self1, set_crypto_header (Some h) (set_committed_roots (set_total_pages (PageCache.file_page_count c1) (committed_roots self1)) self1)))) s3
    (λ _ self', switched_all h dek self self')). clear Hrun.
  assert (Ht : 0 ≤ target self < superblock_count self) by (apply Z.mod_pos_bound; lia).
  assert (Hpre : ∀ io', switch_frame h (target self) (superblock_count self) blob (io c1) io' →
    switch_frame h (target self) (superblock_count self) blob (io (cache self)) io').
  { intros io' [Hw | (Hw & Hu & Hto)]; [left | right; split; [| split; [done |]]].
    - eapply within_trans; [by apply (within_same _ _ (io c1)) | done].
    - eapply within_trans; [by apply (within_same _ _ (io c1)) | done].
    - intros j Hj Hne. rewrite <- (io_same_unit _ _ j Hsm1). auto. }
  eapply (spec_bind _ _ _ _ (λ _ s4, ∃ io4, s4 = set_cache (set_io io4 c2) s3 ∧ unit_at io4 (target self) = blob ∧
    ∀ j, 0 ≤ j < superblock_count self → j ≠ target self → unit_at io4 j = scrubbed h (unit_at (io (cache self)) j))).
  - apply on_file_spec. eapply spec_conseq; [apply (switch_io_spec h Hz Hs (target self) (superblock_count self) blob (io c1)) | |]; [done | done | done | lia | done | |].
    + intros io4 Hf. right. exists raw. ands; [done | done | done |]. apply Hpre, Hf.
    + intros [] io4 _ [Hu Ho]. exists io4. split; [done |]. split; [done |]. intros j Hj Hne.
      rewrite <- (io_same_unit _ _ j Hsm1). auto.
  - intros [] s4 Hs4 (io4 & -> & Hu4 & Ho4). apply spec_writes; [exact Hs4 |]. split.
    + exists raw. done.
    + done.
    + done.
    + cbn. unfold PageCache.file_page_count, PageIo.page_count. by rewrite Hct1.
    + done.
Qed.
(** ** What an opening finds *)

Section found.
Variables (h : CryptoHeader) (dek : list Z) (self : TM) (w : Z) (sbw : Superblock.Superblock) (raww : list Z).
Hypothesis Hk : key_ready self.
Hypothesis Hh : header_ok h.
Hypothesis Hw : winner (candidates (io (cache self))) = Some (w, sbw, raww).
Hypothesis Hcw : Superblock.txn_counter sbw = txn_counter self.
Hypothesis Hslot : w ≠ target self.

Lemma target_range : 0 ≤ target self < superblock_count self.
Proof. pose proof (kr_count _ Hk). apply Z.mod_pos_bound. lia. Qed.

(** Only the target was written. *)
Lemma found_old io' :
  within (.= target self) (io (cache self)) io' →
  image_at io' (target self) = image_at (io (cache self)) (target self) ∨ Superblock.deserialize (image_at io' (target self)) = None →
  winner (candidates io') = Some (w, sbw, raww).
Proof.
  intros Hio Ht. pose proof (wn_count _ _ _ Hio) as Hc.
  assert (Hsame : ∀ j, 0 ≤ j → (j ≠ target self ∨ image_at io' (target self) = image_at (io (cache self)) (target self)) →
    candidates io' !! Z.to_nat j = candidates (io (cache self)) !! Z.to_nat j).
  { intros j Hj Hne. apply option_eq. intros x. rewrite !candidates_lookup by done. unfold PageIo.page_count. rewrite Hc.
    split; intros [Hl ->]; (split; [done |]); destruct (decide (j = target self)) as [-> | Hn];
      try (destruct Hne; [done | by rewrite H]); unfold image_at; rewrite (wn_other _ _ _ Hio j); auto; lia. }
  destruct Ht as [Ht | Ht].
  - rewrite <- Hw. f_equal. apply list_eq. intros i. rewrite <- (Nat2Z.id i). apply Hsame; [lia | by right].
  - eapply (winner_old _ _ (target self)); [exact Hw | split; [unfold zlen, candidates; rewrite !length_fmap, !length_seqZ; unfold PageIo.page_count; by rewrite Hc | intros j Hj Hne; apply Hsame; auto] | exact Hslot |].
    intros raw' sb' [_ ->]%candidates_lookup Hd; [| apply target_range]. congruence.
Qed.

(** The target is complete. *)
Lemma found_new io' raw :
  within (λ j, 0 ≤ j < superblock_count self) (io (cache self)) io' →
  unit_at io' (target self) = splice 0 raw (zeros ENC_PAGE_SIZE) → zlen raw = PAGE_SIZE →
  Superblock.deserialize raw = Some (locked (next_superblock self h)) →
  (∀ j, 0 ≤ j < superblock_count self → j ≠ target self →
    torn (scrubbed h (unit_at (io (cache self)) j)) (unit_at (io (cache self)) j) (unit_at io' j)) →
  winner (candidates io') = Some (target self, locked (next_superblock self h), raw).
Proof.
  intros Hio Hu Hl Hd Ht. pose proof (wn_count _ _ _ Hio) as Hc. destruct Hk as [Hrest Hst Hnon Hcnt Hsl Hc0].
  pose proof target_range as Htr. destruct Hh as (_ & _ & Hz & Hs).
  assert (Him : image_at io' (target self) = raw).
  { unfold image_at. rewrite Hu, slice_splice_in; [| done | by rewrite Hl, zlen_zeros | done | done | by rewrite Hl].
    rewrite Z.sub_0_r. by apply slice_full. }
  apply winner_new; [lia | apply candidates_lookup; [lia |]; split; [unfold PageIo.page_count; rewrite Hc; unfold Superblock.MAX_SUPERBLOCKS in *; lia | done] | done |].
  intros j raw' sb' Hj Hne [Hlt ->]%candidates_lookup Hdj; [| done]. cbn [Superblock.txn_counter locked next_superblock key_superblock].
  assert (Hjc : 0 ≤ j < PageIo.cached_page_count (io (cache self))) by (unfold PageIo.page_count in Hlt; rewrite Hc in Hlt; lia).
  assert (Hold : ∃ sb, Superblock.deserialize (image_at (io (cache self)) j) = Some sb ∧ Superblock.txn_counter sb' = Superblock.txn_counter sb).
  { destruct (decide (j < superblock_count self)) as [Hjn | Hjn].
    - eapply (torn_counter h Hz Hs); [| apply (Ht j); lia | exact Hdj]. apply unit_at_ok; [apply Hrest | done | done].
    - unfold image_at in *. rewrite (wn_other _ _ _ Hio j) in Hdj by lia. eauto. }
  destruct Hold as (sb & Hsb & ->). apply winner_chosen in Hw. destruct Hw as [_ _ Hm].
  destruct (Hm j (image_at (io (cache self)) j) sb Hj) as [Hle _]; [| done |].
  { apply candidates_lookup; [done |]. unfold PageIo.page_count in *. rewrite Hc in Hlt. done. }
  rewrite Hcw in Hle. cbn. lia.
Qed.
End found.
(** A refusal changes nothing; otherwise the writes went as far as [switched] says. *)
Lemma rewrite_cases h dek self r self' :
  key_ready self → header_ok h → algorithm h ≠ 0 → Txn.cipher self = Some dek → sb_ok (next_superblock self h) →
  rewrite_crypto_header h self = (r, self') →
  (self' = self ∧ r ≠ Ok tt) ∨ (switched h dek self self' ∧ (r = Ok tt → switched_all h dek self self')).
Proof.
  intros Hk Hh Ha Hdek Hok. unfold rewrite_crypto_header, bind at 1, check_alive, bind at 1, reads at 1.
  destruct (poisoned self); [intros [= <- <-]; by left |]. cbn [ret]. unfold bind at 1, reads. cbn [id].
  destruct (active_txn self); [intros [= <- <-]; by left |]. rewrite Hdek.
  destruct (PageIo.is_read_only _); [intros [= <- <-]; by left |].
  pose proof (rewrite_inner_spec h dek self Hk Hh Ha Hdek Hok) as [Hf Hp]. unfold on_err.
  destruct (rewrite_crypto_header_inner h self) as [[[] | e | p] s1]; intros [= <- <-]; right; done.
Qed.

Lemma switched_in h dek self self' :
  key_ready self → switched h dek self self' → within (λ j, 0 ≤ j < superblock_count self) (io (cache self)) (io (cache self')).
Proof.
  intros Hk Hf. pose proof (target_range self Hk).
  destruct Hf as [Hf | (raw & _ & _ & _ & [Hf | [Hf _]])]; [| | done]; (eapply within_weaken; [exact Hf |]); intros j ->; done.
Qed.

Lemma scrubbed_torn h self j :
  key_ready self → header_ok h → 0 ≤ j < superblock_count self →
  torn (scrubbed h (unit_at (io (cache self)) j)) (unit_at (io (cache self)) j) (scrubbed h (unit_at (io (cache self)) j)).
Proof.
  intros Hk (_ & _ & Hz & Hs) Hj. pose proof (kr_slots _ Hk). pose proof (ar_io _ (kr_rest _ Hk)) as Hi.
  pose proof (unit_at_ok (io (cache self)) j Hi (kr_stride _ Hk) ltac:(lia)) as Hu.
  apply torn_full, zlen_length. rewrite (proj1 Hu). symmetry. exact (proj1 (scrubbed_ok h Hz Hs _ Hu)).
Qed.

(** ** Which keys open the database after a change *)

Lemma rewrite_header h self self' : rewrite_crypto_header h self = (Ok tt, self') → crypto_header self' = Some h.
Proof.
  unfold rewrite_crypto_header. intros ([] & s0 & _ & E)%bind_inv. revert E. rewrite reads_step. cbn [id].
  destruct (active_txn s0); [done |]. destruct (Txn.cipher s0); [| done]. destruct (PageIo.is_read_only _); [done |].
  unfold on_err. destruct (rewrite_crypto_header_inner h s0) as [[[] | e | p] s1] eqn:E; [| done | done]. intros [= <-].
  revert E. unfold rewrite_crypto_header_inner. intros ([] & s2 & _ & E)%bind_inv. revert E. rewrite reads_step.
  intros (n & s3 & _ & E)%bind_inv. apply bind_inv in E as ([] & s4 & _ & E). revert E. rewrite reads_step. cbn [id].
  destruct (Txn.cipher s4); [| done]. intros (n1 & s5 & _ & E)%bind_inv. apply bind_inv in E as (buf & s6 & _ & E).
  apply bind_inv in E as ([] & s7 & _ & E). do 4 (apply bind_inv in E as ([] & ? & _ & E)). by injection E as <-.
Qed.

(** A slot that does not open with the key can be left out. *)
Lemma unlock_clear key i slots j dek :
  unlock_loop key i slots = Ok (j, dek) → (i ≤ j)%nat ∧
  unlock_loop key i (<[(j - i)%nat := EMPTY]> slots) = unlock_loop key (S j) (drop (S (j - i)) slots).
Proof.
  revert i. induction slots as [| s slots IH]; intros i; [done |]. rewrite unlock_loop_cons.
  destruct (open_slot key s) as [[k d] | e | p] eqn:Es; [| | done].
  - intros [= -> ->]. split; [done |]. rewrite Nat.sub_diag. cbn [insert list_insert drop]. by rewrite unlock_loop_cons.
  - intros H. destruct (IH (S i) H) as [Hij E]. split; [lia |]. replace (j - i)%nat with (S (j - S i)) by lia.
    change (<[S (j - S i) := EMPTY]> (s :: slots)) with (s :: <[(j - S i)%nat := EMPTY]> slots). by rewrite unlock_loop_cons, Es, E.
Qed.

(** Some slot of a list opens. *)
Lemma unlock_some key i slots :
  Forall slot_ok slots → is_ok (unlock_loop key i slots) = true ↔ ∃ k s, slots !! k = Some s ∧ is_ok (open_slot key s) = true.
Proof.
  revert i. induction slots as [| s slots IH]; intros i Hok; [by split; [| intros (k & s & Hk & _)] |].
  apply Forall_cons in Hok as [Hs Hok]. rewrite unlock_loop_cons.
  destruct (open_slot_cases key s Hs) as [(d & Ed & _) | Ed]; rewrite Ed.
  - split; [| done]. intros _. exists 0%nat, s. by rewrite Ed.
  - rewrite (IH (S i) Hok). split; intros (k & x & Hk & Hx); [by exists (S k), x |]. destruct k as [| k]; [| by exists k, x].
    injection Hk as ->. by rewrite Ed in Hx.
Qed.

(** C40 [remove_key] revokes one slot.  When it succeeds the key opened slot [i] first,
    another slot was active, and the manager's table is the old one with slot [i]
    emptied; and the key still opens the table exactly when a later slot of it opens with
    the same key, as after [add_key] of a key that is there already. *)
Theorem remove_key_exact key self self' h :
  crypto_header self = Some h → header_ok h → remove_key key self = (Ok tt, self') →
  ∃ i dek, unlock h key = Ok (i, dek) ∧ 1 < active_count h ∧ crypto_header self' = Some (clear_slot i h) ∧
    (∀ j, j ≠ i → slots (clear_slot i h) !! j = slots h !! j) ∧
    (is_ok (unlock (clear_slot i h) key) = true ↔ ∃ j s, (i < j)%nat ∧ slots h !! j = Some s ∧ is_ok (open_slot key s) = true).
Proof.
  intros Hh (_ & _ & _ & Hok). unfold remove_key. intros (h1 & s1 & E1 & E)%bind_inv.
  assert (h1 = h) as ->.
  { revert E1. unfold need_header. intros ([] & s0 & Ea & E1)%bind_inv. revert Ea. unfold check_alive. rewrite reads_step.
    destruct (poisoned self); [done |]. intros [= <-]. revert E1. rewrite reads_step, Hh. by intros [= <- _]. }
  apply bind_inv in E as ([i dek] & s2 & E2 & E). injection E2 as E2 _. cbn beta iota in E.
  destruct (Z.leb_spec (active_count h) 1) as [| Ha]; [done |]. apply rewrite_header in E.
  exists i, dek. split; [done |]. split; [done |]. split; [done |].
  split; [intros j Hj; cbn; by apply list_lookup_insert_ne |]. unfold unlock in *. cbn [slots clear_slot].
  destruct (unlock_clear key 0 (slots h) i dek E2) as [_ Ec]. rewrite Nat.sub_0_r in Ec. rewrite Ec.
  rewrite unlock_some by (by apply Forall_drop). split.
  - intros (k & s & Hk & Hs). rewrite lookup_drop in Hk. exists (S i + k)%nat, s. split; [lia | done].
  - intros (j & s & Hij & Hj & Hs). exists (j - S i)%nat, s. rewrite lookup_drop. replace (S i + (j - S i))%nat with j by lia. done.
Qed.
End keys.

(** ** Examples: an encrypted store in memory after its first commit *)

Section examples.
Import CryptoProps CacheProps CacheStore CacheReuse.
#[local] Existing Instance sum_hash.

Definition demo_key : Key := Raw (replicate 32 9).

Definition demo_rnd : Random :=
  {| rnd_dek := replicate 32 7; rnd_salt := replicate 16 1; rnd_nonce := replicate 24 2 |}.

Definition demo_store : PageCache :=
  PageCache.new PageIo.open_in_memory (16 * PAGE_SIZE) 0 LruTail InMemory (λ _, zeros NONCE_LEN).

Definition demo_db : TransactionManager PageCache :=
  match create_new 2 (Some demo_key) None demo_rnd demo_store with
  | (Ok t, _) => ((begin_txn ;;; commit_txn) t).2
  | _ => TxnFile.demo_manager
  end.

(** What the examples need of it, evaluated once. *)
Definition ready_check (self : TransactionManager PageCache) : bool :=
  let c := cache self in
  forallb byte_ok (Backing.bytes (PageIo.backing (io c))) && (PageIo.stride (io c) =? ENC_PAGE_SIZE) &&
  (PageIo.cached_page_count (io c) =? 2) && (PageIo.cached_page_count (io c) * ENC_PAGE_SIZE <=? zlen (Backing.bytes (PageIo.backing (io c)))) &&
  bool_decide (dirty_ids c = []) && (dirty_count c =? 0) && (spill_size c =? 0)%nat && (superblock_count self =? 2) && (txn_counter self =? 2) &&
  bool_decide (Txn.cipher self = Some (replicate 32 7)) &&
  match winner (candidates (io c)) with Some (w, sb, _) => (w =? 0) && (Superblock.txn_counter sb =? 2) | None => false end.

Lemma demo_db_check : ready_check demo_db = true.
Proof. vm_compute. reflexivity. Qed.

Lemma demo_db_nonces : nonces (cache demo_db) = λ _, zeros NONCE_LEN.
Proof. vm_compute. reflexivity. Qed.

Lemma check_ready self :
  ready_check self = true → nonces (cache self) = (λ _, zeros NONCE_LEN) →
  key_ready self ∧ txn_counter self = 2 ∧ superblock_count self = 2 ∧ Txn.cipher self = Some (replicate 32 7) ∧
  ∃ sbw raww, winner (candidates (io (cache self))) = Some (0, sbw, raww) ∧ Superblock.txn_counter sbw = txn_counter self.
Proof.
  unfold ready_check. cbv zeta. rewrite !andb_true_iff. intros ((((((((((B & S) & C) & L) & D) & N) & P) & K) & T) & E) & W) Hn.
  apply Z.eqb_eq in S, C, N, K, T. apply Z.leb_le in L. apply Nat.eqb_eq in P. apply bool_decide_eq_true in D, E.
  split; [| split; [done |]; split; [done |]; split; [done |]].
  - split; [| done | | | |].
    + split; [| done | done | done]. split; [by rewrite S | by apply byte_ok_spec |]. rewrite S. lia.
    + intros k. rewrite Hn. split; [done | apply bytes_ok_zeros].
    + rewrite K. done.
    + lia.
    + lia.
  - destruct (winner _) as [[[w sb] raw] |]; [| done]. apply andb_true_iff in W as [->%Z.eqb_eq W%Z.eqb_eq]. exists sb, raw. split; [done | lia].
Qed.

Definition demo_next : Superblock.Superblock :=
  {| Superblock.magic := MAGIC; Superblock.format_version := format_version_encrypted; Superblock.txn_counter := 3;
     Superblock.root_handle_table_page := PAGE_ID_NONE; Superblock.root_freemap_page := PAGE_ID_NONE; Superblock.total_pages := 2;
     Superblock.next_handle := 1; Superblock.page_size := PAGE_SIZE; Superblock.named_roots := replicate 8 Superblock.EMPTY_ROOT;
     Superblock.superblock_count := 2; Superblock.root_membership_index_page := PAGE_ID_NONE; Superblock.freemap_depth := 0;
     Superblock.encryption := Some demo_header |}.

Lemma demo_db_next : sb_ok (next_superblock demo_db demo_header).
Proof.
  assert (next_superblock demo_db demo_header = demo_next) as -> by (vm_compute; reflexivity).
  repeat split; try done. apply Forall_replicate, empty_root_ok.
Qed.

Lemma demo_db_ok : is_ok (rewrite_crypto_header demo_header demo_db).1 = true.
Proof. by vm_compute. Qed.


(** The same key in two slots. *)
Definition demo_twice : TransactionManager PageCache := (add_key demo_key demo_key (replicate 16 3) (replicate 24 4) demo_db).2.

Definition slot_check (s : KeySlot) : bool :=
  (0 <=? state s) && (state s <=? 255) && (0 <=? kdf_id s) && (kdf_id s <=? 255) &&
  (0 <=? m_cost (argon2 s)) && (m_cost (argon2 s) <=? u32_max) && (0 <=? t_cost (argon2 s)) && (t_cost (argon2 s) <=? u32_max) &&
  (0 <=? p_cost (argon2 s)) && (p_cost (argon2 s) <=? u32_max) &&
  (zlen (salt s) =? SALT_LEN) && forallb byte_ok (salt s) && (zlen (wrap_nonce s) =? NONCE_LEN) && forallb byte_ok (wrap_nonce s) &&
  (zlen (wrapped_dek s) =? DEK_LEN) && forallb byte_ok (wrapped_dek s) && (zlen (wrap_tag s) =? TAG_LEN) && forallb byte_ok (wrap_tag s).

Lemma slot_check_ok s : slot_check s = true → slot_ok s.
Proof.
  unfold slot_check. rewrite !andb_true_iff, !Z.eqb_eq, !Z.leb_le.
  intros H. unfold u32_max in *. decompose [and] H. repeat split; try done; first [lia | by apply byte_ok_spec].
Qed.

Definition header_check (h : CryptoHeader) : bool :=
  (0 <=? algorithm h) && (algorithm h <=? 255) && (0 <=? stride h) && (stride h <=? u32_max) &&
  (zlen (slots h) =? KEY_SLOT_COUNT) && forallb slot_check (slots h).

Lemma header_check_ok h : header_check h = true → header_ok h.
Proof.
  unfold header_check. rewrite !andb_true_iff, !Z.leb_le, Z.eqb_eq. intros (((((A1 & A2) & A3) & A4) & A5) & A6). unfold u32_max in *.
  split; [split; lia |]. split; [split; lia |]. split; [done |]. apply Forall_forall. intros x Hin. apply slot_check_ok.
  rewrite forallb_forall in A6. by apply A6, list_elem_of_In.
Qed.

Definition twice_check (self : TransactionManager PageCache) : bool :=
  match crypto_header self with
  | Some h =>
      header_check h && is_ok (remove_key demo_key self).1 &&
      match unlock h demo_key with Ok (i, _) => Nat.eqb i 0 | _ => false end &&
      match slots h !! 1%nat with Some s => is_ok (open_slot demo_key s) | None => false end
  | None => false
  end.

Lemma demo_twice_check : twice_check demo_twice = true.
Proof. vm_compute. reflexivity. Qed.

Lemma check_twice self :
  twice_check self = true → is_ok (remove_key demo_key self).1 = true ∧
  ∃ h s, crypto_header self = Some h ∧ header_ok h ∧ (∀ i dek, unlock h demo_key = Ok (i, dek) → i = 0%nat) ∧
    slots h !! 1%nat = Some s ∧ is_ok (open_slot demo_key s) = true.
Proof.
  unfold twice_check. destruct (crypto_header self) as [h |]; [| done].
  rewrite !andb_true_iff. intros (((Hh & Hr) & Hu) & Hs). split; [done |].
  destruct (slots h !! 1%nat) as [s |] eqn:E1; [| done]. exists h, s. split; [done |]. split; [by apply header_check_ok | split; [| done]].
  - intros i dek Hi. rewrite Hi in Hu. by apply Nat.eqb_eq in Hu.
Qed.

Lemma remove_key_exact_witness :
  ∃ self' h', remove_key demo_key demo_twice = (Ok tt, self') ∧ crypto_header self' = Some h' ∧ is_ok (unlock h' demo_key) = true.
Proof.
  destruct (check_twice demo_twice demo_twice_check) as (Hr & h & s & Hh & Hok & H0 & Hs & Ho).
  destruct (remove_key demo_key demo_twice) as [[[] | |] self'] eqn:E; [| discriminate Hr | discriminate Hr].
  destruct (remove_key_exact demo_key demo_twice self' h Hh Hok E) as (i & dek & Hi & _ & Hs' & _ & Hiff).
  exists self', (clear_slot i h). split; [reflexivity |]. split; [exact Hs' |]. apply Hiff.
  rewrite (H0 i dek Hi). exists 1%nat, s. split; [lia | split; [exact Hs | exact Ho]].
Defined.
End examples.
End KeyProps.
