(* ===== verification/RekeyProps.v ===== *)
(** * Rotating the data key

    [rekey] of [src/rekey.rs] as a whole: a rotation that succeeds leaves a file that opens
    with the same key to the same database under the fresh data key; one that fails leaves
    the file as it was; and where the operating system reports no error it succeeds. *)

From S2P Require Export RekeyBuild KeyProps.

Module RekeyProps.
Import TxnAlloc Txn TxnCommit PageCache CacheInv CacheStore CryptoHeader CryptoHeaderFacts Recovery Api Rekey Slots PageIoFacts SuperblockFacts SuperblockBody
  SuperblockProps OpenProps RekeyPath RekeyBuild.

Section rekey.
Context `{HX : Xxh3} `{HO : HashOrder} `{HC : Primitives}.
Abbreviation TM := (TransactionManager PageCache).

(** The costs of the key derivation, and the header with the one wrapped key. *)
Definition effective (self : TM) (key : Key) (params : option Argon2Params) : outcome (option Argon2Params) :=
  match params with Some p => Ok (Some p) | None => inherited_argon2 self key end.

Definition blank : CryptoHeader :=
  {| algorithm := ALGO_XCHACHA20POLY1305; stride := ENC_PAGE_SIZE; slots := replicate (Z.to_nat KEY_SLOT_COUNT) EMPTY |}.

Definition wraps (self : TM) (key : Key) (params : option Argon2Params) (rnd : Random) (h : CryptoHeader) : Prop :=
  ∃ eff, effective self key params = Ok eff ∧
    wrap_into blank 0 key (rnd_dek rnd) eff (rnd_salt rnd) (rnd_nonce rnd) = COk h.

(** The open database: its file at the stride of encrypted files, its slots within it. *)
Record rekeyable (self : TM) (old : list Z) (rnd : Random) : Prop := {
  rk_cipher : Txn.cipher self = Some old;
  rk_io : io_inv (io (cache self));
  rk_stride : PageIo.stride (io (cache self)) = ENC_PAGE_SIZE;
  rk_len : zlen (Backing.bytes (PageIo.backing (io (cache self)))) ≤ u64_max;
  rk_nonces : ∀ k, array NONCE_LEN (nonces (cache self) k);
  rk_count : 0 < superblock_count self ≤ Superblock.MAX_SUPERBLOCKS ∧ superblock_count self ≤ PageIo.page_count (io (cache self));
  rk_random : array DEK_LEN (rnd_dek rnd) ∧ array SALT_LEN (rnd_salt rnd) ∧ array NONCE_LEN (rnd_nonce rnd);
  rk_header : ∀ h, crypto_header self = Some h → header_ok h
}.

Lemma blank_ok : header_ok blank.
Proof. repeat split; try done. apply Forall_replicate. repeat split; try done; by apply Forall_replicate. Qed.

(** ** The header *)

Lemma inherited_ok self key eff :
  (∀ h, crypto_header self = Some h → header_ok h) → inherited_argon2 self key = Ok eff → ∀ p, eff = Some p → u32_params p.
Proof.
  intros Hh. unfold inherited_argon2. destruct (crypto_header self) as [h |]; [| by intros [= <-]].
  destruct (unlock h key) as [[i d] | |]; [| by intros [= <-] | done]. destruct (slots h !! i) as [slot |] eqn:Es; [| done].
  destruct (_ =? _); [| by intros [= <-]]. intros [= <-] p [= <-]. destruct (Hh h eq_refl) as (_ & _ & _ & Hs). by apply (Forall_lookup_1 _ _ _ _ Hs Es).
Qed.

(** The header opens with the key to the fresh data key and has no other slot. *)
Lemma wraps_ok self key params rnd old h :
  rekeyable self old rnd → (∀ p, params = Some p → u32_params p) → wraps self key params rnd h →
  header_ok h ∧ algorithm h = ALGO_XCHACHA20POLY1305 ∧ stride h = ENC_PAGE_SIZE ∧ unlock h key = Ok (0%nat, rnd_dek rnd) ∧
  ∀ i s, slots h !! S i = Some s → is_active s = false.
Proof.
  intros Hk Hp (eff & He & Hw). destruct (rk_random _ _ _ Hk) as (R1 & R2 & R3).
  assert (Hu : ∀ p, eff = Some p → u32_params p).
  { unfold effective in He. destruct params as [p |]; [injection He as <-; intros q [= <-]; by apply Hp |]. eapply inherited_ok; [apply Hk | exact He]. }
  destruct (wrapped_ok blank 0 key _ eff _ _ h blank_ok R1 R2 R3 Hu Hw) as (Ho & Ha & Hst). split; [exact Ho |]. split; [exact Ha |]. split; [exact Hst |].
  destruct (CryptoHeaderProps.wrap_into_slot _ _ _ _ _ _ _ _ R1 Hw) as (_ & s & Es & Hos). unfold unlock. rewrite Es.
  assert (Hr : slots blank = EMPTY :: replicate 7 EMPTY) by reflexivity. rewrite Hr. split.
  - change (<[0%nat:=s]> (EMPTY :: replicate 7 EMPTY)) with (s :: replicate 7 EMPTY). rewrite unlock_loop_cons, Hos. reflexivity.
  - intros i t Ht. change (<[0%nat:=s]> (EMPTY :: replicate 7 EMPTY)) with (s :: replicate 7 EMPTY) in Ht. cbn [lookup list_lookup] in Ht.
    apply lookup_replicate in Ht as [-> _]. reflexivity.
Qed.
(** ** The rotation *)

Section rotate.
Variables (trouble : Prop) (self : TM) (old : list Z) (key : Key) (params : option Argon2Params) (rnd : Random).
Hypothesis Hk : rekeyable self old rnd.
#[local] Existing Instance rekey_fault.
Abbreviation n := (superblock_count self).
Abbreviation io0 := (io (cache self)).
Abbreviation fresh := (rnd_dek rnd).

(** Without trouble the file can be read, a slot opens, and the key can be wrapped. *)
Record favourable : Prop := {
  fv_reads : hushed trouble (Backing.answers (PageIo.backing io0));
  fv_opens : opens_some trouble self old (seqZ 0 n);
  fv_wraps : trouble ∨ ∃ h, wraps self key params rnd h
}.
Hypothesis Hf : favourable.

Lemma self_ok : db_ok trouble self self.
Proof. split; [split; [apply io_same_refl | apply Hf] | apply Hk]. Qed.

Lemma current_spec : spec (H := rekey_fault trouble) (db_ok trouble self) (current_superblock old) self (λ w _, ∃ j, 0 ≤ j < n ∧ source self old j w).
Proof.
  pose proof Hk as [_ Hi Hst Hln _ [Hn Hnc] _ _]. unfold current_superblock. apply spec_reads_step. cbn [id]. cbv zeta.
  destruct (Z.eqb_spec n 0) as [| Hne]; [lia |]. cbn [negb]. unfold assert_that, bind at 1. unfold spec. cbn [ret]. apply read_db_spec; [apply self_ok |].
  set (order := _ :: _). assert (Hor : ∀ j, j ∈ order ↔ 0 ≤ j < n).
  { intros j. unfold order. rewrite elem_of_cons, list_elem_of_filter, elem_of_seqZ. pose proof (Z.mod_pos_bound (txn_counter self) n). destruct (decide (j = txn_counter self mod n)); [subst; split; [lia | by left] |].
    split; [intros [? | ?]; [done | lia] | intros ?; right; split; [done | lia]]. }
  eapply spec_conseq; [apply find_spec | done |].
  - exact Hi.
  - exact Hst.
  - exact Hln.
  - apply self_ok.
  - intros j Hj%Hor. lia.
  - destruct (fv_opens Hf) as [Ht | [(j & sb & Hj%elem_of_seqZ & Hs) Hp]]; [by left | right]. split; [exists j, sb; split; [apply Hor; lia | done] |].
    intros j' seen p Hj'%Hor. apply Hp, elem_of_seqZ. lia.
  - intros w i _ (j & Hj%Hor & Hs). by exists j.
Qed.

Lemma slot_wf j : 0 ≤ j < PageIo.page_count io0 → wf_page (image_at io0 j).
Proof.
  intros Hj. destruct (PageIoFacts.unit_ok _ _ (rk_io _ _ _ Hk) Hj) as [Hl Hb]. rewrite (rk_stride _ _ _ Hk) in Hl.
  split; [apply length_slice; [done | done | by rewrite Hl] | by apply slice_bytes].
Qed.

(** The rotation ends before a scratch file is made, or goes on to build it. *)
Lemma rotate_start s r s' :
  hushed trouble (scratch_answers s) → rotate self key params rnd s = (r, s') →
  (trouble ∧ s' = s ∧ r ≠ Ok tt) ∨
  ∃ w h j x, both_ok trouble self x ∧ x.2 = s ∧ 0 ≤ j < n ∧ source self old j w ∧ wraps self key params rnd h ∧
    (let '(r, x') := on_err (build_rotated_file (PageIo.page_count io0) n w h old fresh) (λ x, (x.1, remove_scratch x.2)) x in (r, x'.2)) = (r, s').
Proof.
  intros Hq. pose proof Hk as [Hc Hi Hst Hln _ [Hn Hnc] _ _]. unfold rotate. unfold bind at 1, on_db at 1, zoom at 1, reads at 1. cbn [fst snd id].
  rewrite Hc. cbv zeta. rewrite Hst. change (ENC_PAGE_SIZE =? ENC_PAGE_SIZE) with true. unfold bind at 1, assert_that at 1. cbn [ret].
  pose proof (on_db_spec trouble self _ (self, s) (λ w, ∃ j, 0 ≤ j < n ∧ source self old j w) Hq current_spec) as [Hx Hp].
  unfold bind at 1. destruct (on_db (current_superblock old) (self, s)) as [[w | e | p] x] eqn:Ew; cbn [fst snd post] in *.
  2, 3: assert (x.2 = s) as -> by (revert Ew; unfold on_db, zoom; destruct (current_superblock old _); by intros [= _ <-]); intros [= <- <-]; by left.
  destruct Hp as [(j & Hj & Hs) Ex]. unfold bind at 1.
  assert (He : (match params with Some p => ret (Some p) | None => of_outcome (inherited_argon2 self key) end) x = (effective self key params, x)) by (by destruct params).
  rewrite He. clear He. pose proof (fv_wraps Hf) as Hwr.
  destruct (effective self key params) as [eff | e | p] eqn:Ee.
  2, 3: destruct Hwr as [Ht | (h & ? & E & _)]; [| congruence]; rewrite Ex; intros [= <- <-]; by left.
  fold blank. unfold bind at 1, of_crypto. destruct (wrap_into blank 0 key fresh eff (rnd_salt rnd) (rnd_nonce rnd)) as [h | e | p] eqn:Eh; cbn [ret].
  - intros E. right. exists w, h, j, x. split; [exact Hx |]. split; [exact Ex |]. split; [exact Hj |]. split; [exact Hs |]. split; [exists eff; by split | exact E].
  - destruct Hwr as [Ht | (h & eff' & E & E')]; [| congruence]. unfold fail. rewrite Ex. intros [= <- <-]; by left.
  - destruct Hwr as [Ht | (h & eff' & E & E')]; [| congruence]. unfold crash. rewrite Ex. intros [= <- <-]; by left.
Qed.
(** What a rotation that ended leaves in the scratch file. *)
Lemma rotate_built s r s' :
  hushed trouble (scratch_answers s) → removable trouble s → (∀ p, params = Some p → u32_params p) → rotate self key params rnd s = (r, s') →
  match r with
  | Ok _ => hushed trouble (scratch_answers s') ∧
      ∃ w h j bs, 0 ≤ j < n ∧ source self old j w ∧ wraps self key params rnd h ∧ holds s' bs ∧ rotated self old fresh w h n bs
  | _ => trouble
  end.
Proof.
  intros Hq Hr Hp E. pose proof Hk as [_ Hi Hst Hln _ [Hn Hnc] _ _].
  destruct (rotate_start s r s' Hq E) as [(Ht & _ & Hno) | (w & h & j & x & Hx & Ex & Hj & Hs & Hw & Eb)]; [by destruct r as [[] | |] |].
  pose proof Hs as (seen & Hd & _ & Ho). pose proof (opened_ok _ _ _ _ (slot_wf j (conj (proj1 Hj) (Z.lt_le_trans _ _ _ (proj2 Hj) Hnc))) Hd Ho) as (Wo & Wv & _).
  destruct (wraps_ok self key params rnd old h Hk Hp Hw) as (Hho & Hha & _). assert (Ha : algorithm h ≠ 0) by by rewrite Hha.
  pose proof (build_spec trouble self Hi Hst Hln old fresh w h n x Hx ltac:(by rewrite Ex) (conj Wo Wv) (conj Hho Ha) Hn Hnc) as [Hb1 Hb2].
  revert Eb. unfold on_err. destruct (build_rotated_file _ _ _ _ _ _ x) as [[[] | e | p] x'] eqn:Eb; cbn [fst snd post] in *; intros [= <- <-]; [| exact Hb2 | exact Hb2].
  destruct Hb2 as (bs & Hh & Hro). split; [apply Hb1 |]. exists w, h, j, bs. split; [exact Hj |]. split; [exact Hs |]. split; [exact Hw |]. by split.
Qed.
End rotate.

(** ** Opening the new file *)

Section reopen.
Variables (self : TM) (old fresh : list Z) (w : Superblock.Superblock) (h : CryptoHeader) (bs : list Z) (key : Key).
Abbreviation n := (superblock_count self).
Abbreviation io0 := (io (cache self)).
Abbreviation top := (Superblock.txn_counter w).
Abbreviation final := (with_header top h w).
Hypothesis Hn : 0 < n ≤ Superblock.MAX_SUPERBLOCKS ∧ n ≤ PageIo.page_count io0.
Hypothesis Hw : 0 ≤ top.
Hypothesis Hh : algorithm h = ALGO_XCHACHA20POLY1305 ∧ stride h = ENC_PAGE_SIZE ∧ unlock h key = Ok (0%nat, fresh).
Hypothesis Hr : rotated self old fresh w h n bs.
Hypothesis Hbehind : ∀ j, n ≤ j < Superblock.MAX_SUPERBLOCKS → Superblock.deserialize (slice 0 PAGE_SIZE (unit_of bs j)) = None.

Lemma new_count : zlen bs / ENC_PAGE_SIZE = PageIo.page_count io0.
Proof. rewrite (rt_len _ _ _ _ _ _ _ Hr). by apply Z.div_mul. Qed.

Lemma new_image ro j : image_at (file_io ro bs ENC_PAGE_SIZE) j = slice 0 PAGE_SIZE (unit_of bs j).
Proof. unfold image_at, unit_at, unit_of. reflexivity. Qed.

(** Every slot is a superblock of the new header, with no counter above [top]. *)
Lemma new_slot j :
  0 ≤ j < n → ∃ c, 0 ≤ c ≤ top ∧ (j = slot_of w n 0 → c = top) ∧
    Superblock.deserialize (slice 0 PAGE_SIZE (unit_of bs j)) = Some (locked (with_header c h w)) ∧
    Superblock.decrypt_body (locked (with_header c h w)) fresh (slice 0 PAGE_SIZE (unit_of bs j)) = COk (with_header c h w).
Proof.
  intros Hj. destruct (rt_slots _ _ _ _ _ _ _ Hr j Hj) as (k & Hk & Ej & raw & -> & Hwf & Hd & Ho). rewrite padded_image by done.
  exists (Z.max (top - k) 0). split; [lia |]. split; [| done]. intros E0. rewrite Ej in E0. apply slot_of_inj in E0; [lia | apply Hn | done | lia].
Qed.

Lemma new_winner ro :
  ∃ i raw, winner (candidates (file_io ro bs ENC_PAGE_SIZE)) = Some (i, locked final, raw) ∧ Superblock.decrypt_body (locked final) fresh raw = COk final.
Proof.
  assert (Hcand : ∀ j x, 0 ≤ j → candidates (file_io ro bs ENC_PAGE_SIZE) !! Z.to_nat j = Some x ↔
    j < Z.min Superblock.MAX_SUPERBLOCKS (PageIo.page_count io0) ∧ x = slice 0 PAGE_SIZE (unit_of bs j)).
  { intros j x Hj. rewrite candidates_lookup by done. unfold PageIo.page_count at 1. cbn [PageIo.cached_page_count file_io]. by rewrite new_count, new_image. }
  pose proof (slot_of_range w n (proj1 Hn) 0) as H0. destruct (new_slot _ H0) as (c0 & _ & Et & Hd0 & _). rewrite (Et eq_refl) in Hd0.
  assert (Hin : candidates (file_io ro bs ENC_PAGE_SIZE) !! Z.to_nat (slot_of w n 0) = Some (slice 0 PAGE_SIZE (unit_of bs (slot_of w n 0)))) by (apply Hcand; [lia | split; [lia | done]]).
  pose proof (winner_cases (candidates (file_io ro bs ENC_PAGE_SIZE))) as Hwin. destruct (winner _) as [[[i sb] raw] |].
  - destruct Hwin as [[Hi Hl] Hd Hm]. apply Hcand in Hl as [Hlt ->]; [| done]. destruct (Hm _ _ _ (proj1 H0) Hin Hd0) as [Hle _].
    destruct (Z.lt_ge_cases i n) as [Hin' | Hge]; [| rewrite Hbehind in Hd by lia; discriminate Hd].
    destruct (new_slot i ltac:(lia)) as (c & Hc & _ & Hdi & Hoi). rewrite Hdi in Hd. injection Hd as <-. cbn in Hle. assert (c = top) as -> by lia.
    by eexists _, _.
  - rewrite (Hwin _ _ Hin) in Hd0. discriminate Hd0.
Qed.

Lemma new_stride ro : stride_shows ro bs ENC_PAGE_SIZE.
Proof.
  destruct (new_slot 0 ltac:(lia)) as (c & _ & _ & Hd & _). destruct Hh as (_ & Hs & _).
  assert (Hso : stride_of (locked (with_header c h w)) = Some ENC_PAGE_SIZE) by (rewrite <- Hs; reflexivity).
  right. split; [done |]. split.
  - unfold encrypted_stride, candidates, PageIo.page_count. cbn [PageIo.cached_page_count file_io]. rewrite new_count.
    rewrite seqZ_cons by (unfold Superblock.MAX_SUPERBLOCKS; lia). rewrite fmap_cons, new_image. cbn [omap list_omap]. rewrite Hd. cbn [omap list_omap]. rewrite Hso. by eexists.
  - assert (Ef : first_page bs = slice 0 PAGE_SIZE (unit_of bs 0)) by (unfold first_page, unit_of; by rewrite slice_slice by done). by rewrite Ef, Hd.
Qed.

Lemma new_opens ro mb spb drain loc non :
  accepted final (PageIo.page_count io0) →
  let c := PageCache.new (PageIo.open bs [] ro) mb spb drain loc non in
  ∃ c1, open_existing (Some key) c = rebuild final (Some fresh) c1 ∧
    ∀ j p, n ≤ j → disk_page (Some old) io0 j = Some p → page_at c1 j = Some p.
Proof.
  intros Ha c. destruct (new_winner ro) as (i & raw & Hwin & Hdec). destruct Hh as (Hal & Hs & Hu).
  exists (keyed (Some fresh) (set_io (file_io ro bs ENC_PAGE_SIZE) c)). split.
  - apply (open_run ro bs ENC_PAGE_SIZE c (Some key) i (locked final) raw); [done | | apply new_stride | exact Hwin | | by rewrite new_count].
    + rewrite (rt_len _ _ _ _ _ _ _ Hr). unfold PAGE_SIZE, ENC_PAGE_SIZE. lia.
    + unfold opens_with. cbn [Superblock.encryption locked with_header]. ands; [done | done |]. by exists 0%nat, fresh.
  - intros j p Hj Hp. unfold c. rewrite (fresh_page ro (file_io ro bs ENC_PAGE_SIZE) (Some fresh) mb spb drain loc non j eq_refl).
    revert Hp. unfold disk_page. unfold PageIo.page_count at 2. cbn [PageIo.cached_page_count file_io]. rewrite new_count.
    destruct ((0 <=? j) && (j <? PageIo.page_count io0)) eqn:Ej; [| done]. apply andb_true_iff in Ej as [_ Ej%Z.ltb_lt].
    pose proof (rt_pages _ _ _ _ _ _ _ Hr j (conj Hj Ej)) as Hres. unfold resealed in Hres.
    assert (Eu : unit_at (file_io ro bs ENC_PAGE_SIZE) j = unit_of bs j) by (unfold unit_at, unit_of; reflexivity). rewrite Eu. unfold decode.
    assert (Hul : zlen (unit_of bs j) = ENC_PAGE_SIZE).
    { unfold unit_of. pose proof (rt_len _ _ _ _ _ _ _ Hr). unfold ENC_PAGE_SIZE in *. apply length_slice; lia. }
    rewrite Hul. change (ENC_PAGE_SIZE =? ENC_PAGE_SIZE) with true. cbv iota. destruct (zlen (unit_at io0 j) =? ENC_PAGE_SIZE); [| done].
    destruct (Crypto.open old j (unit_at io0 j)); [| done | done]. by rewrite Hres.
Qed.
End reopen.
(** ** The whole call *)

Lemma range_params p : Crypto.argon2_params_out_of_range p = false → u32_params p.
Proof.
  unfold Crypto.argon2_params_out_of_range, Crypto.MIN_ARGON2_M_COST, Crypto.MAX_ARGON2_M_COST, Crypto.MIN_ARGON2_T_COST, Crypto.MAX_ARGON2_T_COST,
    Crypto.MIN_ARGON2_P_COST, Crypto.MAX_ARGON2_P_COST. rewrite !orb_false_iff, !Z.ltb_ge. intros H. decompose [and] H. unfold u32_params, is_u32. lia.
Qed.

(** After the opening: the rotation and the rename. *)
Lemma rekey_run key params rnd nonces p s db p1 :
  Api.open (rekey_options key) rnd nonces p = (Ok db, p1) → (∀ a, params = Some a → Crypto.argon2_params_out_of_range a = false) →
  rekey key params rnd nonces (p, s) =
    match rotate (txm db) key params rnd s with
    | (Ok tt, s1) => rename (p1, s1)
    | (Err e, s1) => (Err e, (p1, s1))
    | (Panic q, s1) => (Panic q, (p1, s1))
    end.
Proof.
  intros Eo Hp. unfold rekey. unfold bind at 1.
  assert (Ev : validate_argon2_params params (p, s) = (Ok tt, (p, s))) by (unfold validate_argon2_params; destruct params as [a |]; [by rewrite Hp | done]).
  rewrite Ev. unfold bind at 1, zoom at 1. cbn [fst snd]. rewrite Eo. unfold bind, zoom. cbn [fst snd]. by destruct (rotate _ _ _ _ s) as [[[] | |] s1].
Qed.

Lemma rekey_valid key params rnd nonces p s x : rekey key params rnd nonces (p, s) = (Ok tt, x) → ∀ a, params = Some a → Crypto.argon2_params_out_of_range a = false.
Proof.
  intros E a ->. revert E. unfold rekey. unfold bind at 1. cbn [validate_argon2_params]. by destruct (Crypto.argon2_params_out_of_range a).
Qed.

Lemma rename_cases p s :
  rename (p, s) =
    match scratch_call s with
    | (Ok _, s1) =>
        match entry s1 with
        | Some e => (Ok tt, (set_contents (Some (data e)) p, set_entry None s1))
        | None => (Err (IoError NotFound), (p, s1))
        end
    | (Err e, s1) => (Err e, (p, s1))
    | (Panic q, s1) => (Panic q, (p, s1))
    end.
Proof.
  unfold rename. unfold bind at 1, zoom. cbn [fst snd]. destruct (scratch_call s) as [[[] | |] s1]; [| done | done]. unfold bind, reads. cbn [snd].
  by destruct (entry s1).
Qed.

(** The slots with the counter of the manager hold what it was opened with. *)
Definition slots_agree (self : TM) (old : list Z) : Prop :=
  ∀ j sb, 0 ≤ j < superblock_count self → source self old j sb →
    roots_of sb = committed_roots self ∧ Superblock.superblock_count sb = superblock_count self ∧ Superblock.encryption sb ≠ None ∧
    accepted sb (PageIo.page_count (io (cache self))).

Lemma accepted_final sb h n : Superblock.encryption sb ≠ None → accepted sb n → accepted (with_header (Superblock.txn_counter sb) h sb) n.
Proof. intros He [H1 H2 H3 H4 H5]. split; try done. cbn. by destruct (Superblock.encryption sb). Qed.

(** The new file: under the same key the same database. *)
Definition same_database (self : TM) (old : list Z) (key : Key) (dek : list Z) (bs : list Z) : Prop :=
  ∃ h, unlock h key = Ok (0%nat, dek) ∧ (∀ i s, slots h !! S i = Some s → is_active s = false) ∧
    zlen bs = PageIo.page_count (io (cache self)) * ENC_PAGE_SIZE ∧
    ((∀ j, superblock_count self ≤ j < Superblock.MAX_SUPERBLOCKS → Superblock.deserialize (slice 0 PAGE_SIZE (unit_of bs j)) = None) →
     ∀ ro mb spb drain loc non, ∃ sb c,
      open_existing (Some key) (PageCache.new (PageIo.open bs [] ro) mb spb drain loc non) = rebuild sb (Some dek) c ∧
      roots_of sb = committed_roots self ∧ Superblock.txn_counter sb = txn_counter self ∧
      Superblock.superblock_count sb = superblock_count self ∧ Superblock.encryption sb = Some h ∧
      ∀ j q, superblock_count self ≤ j → disk_page (Some old) (io (cache self)) j = Some q → page_at c j = Some q).

(** C37 Rotating the data key.  A call of [rekey] that fails, for whatever reason, leaves the
    contents of the path as they were.  A successful one removes the scratch entry and puts
    at the path a file of the same number of pages that the key opens, now to the fresh data
    key and by the first key slot, the others being empty.  Opening it passes every
    check and rebuilds the manager from a superblock with the same roots and counter,
    over a cache that shows every page that opened under the old data key.
    The pages behind the slots must not pass for superblocks. *)
Theorem rekey_same_database key params rnd nonces p s db p1 old r p' s' :
  Api.open (rekey_options key) rnd nonces p = (Ok db, p1) → rekeyable (txm db) old rnd → slots_agree (txm db) old →
  rekey key params rnd nonces (p, s) = (r, (p', s')) →
  (r ≠ Ok tt → contents p' = contents p) ∧
  (r = Ok tt → entry s' = None ∧ ∃ bs, contents p' = Some bs ∧ same_database (txm db) old key (rnd_dek rnd) bs).
Proof.
  intros Eo Hk Hag E. split; [intros Hr; by eapply rekey_fails |]. intros ->. pose proof (rekey_valid _ _ _ _ _ _ _ E) as Hv.
  rewrite (rekey_run key params rnd nonces p s db p1 Eo Hv) in E. set (self := txm db) in *.
  assert (Hp : ∀ a, params = Some a → u32_params a) by (intros a Ha; by apply range_params, Hv).
  destruct (rotate self key params rnd s) as [r s1] eqn:Er.
  assert (Hfv : favourable True self old key params rnd) by (split; by left).
  pose proof (rotate_built True self old key params rnd Hk Hfv s r s1 (or_introl I)
    ltac:(unfold removable; destruct (entry s); [by left | done]) Hp Er) as Hb.
  destruct r as [[] | |]; [| discriminate E | discriminate E]. destruct Hb as (_ & w & h & j & bs & Hj & Hs & Hw & (e & He & Hd) & Hro).
  rewrite rename_cases in E. pose proof (scratch_call_spec True s1 (or_introl I)) as [[Ee _] _].
  destruct (scratch_call s1) as [[[] | |] s2]; cbn [fst snd] in *; [| discriminate E | discriminate E]. rewrite Ee, He in E. injection E as <- <-.
  split; [done |]. exists bs. split; [cbn; by rewrite Hd |].
  destruct (wraps_ok self key params rnd old h Hk Hp Hw) as (_ & Ha & Hst & Hu & Hem). destruct (rk_count _ _ _ Hk) as [Hn Hnc].
  exists h. split; [exact Hu |]. split; [exact Hem |]. split; [apply Hro |]. intros Hbe ro mb spb drain loc non.
  destruct (Hag j w Hj Hs) as (R1 & R2 & R3 & R4). pose proof Hs as (seen & Hds & Hct & Ho).
  pose proof (opened_ok _ _ _ _ (slot_wf self old rnd Hk j (conj (proj1 Hj) (Z.lt_le_trans _ _ _ (proj2 Hj) Hnc))) Hds Ho) as (Wo & _ & Wc & _).
  assert (Hw0 : 0 ≤ Superblock.txn_counter w) by apply Wo.
  destruct (new_opens self old (rnd_dek rnd) w h bs key (conj Hn Hnc) Hw0 (conj Ha (conj Hst Hu)) Hro Hbe ro mb spb drain loc non
    (accepted_final _ _ _ R3 R4)) as (c & Hop & Hpg).
  exists (with_header (Superblock.txn_counter w) h w), c. split; [exact Hop |]. split; [exact R1 |]. split; [cbn; congruence |]. split; [exact R2 |]. split; [done | exact Hpg].
Qed.
(** C38 The rotation completes.  Where the operating system reports no error, the scratch path
    is free or holds a file of our own, a slot opens under the data key, and the
    key can be wrapped, [rekey] succeeds. *)
Theorem rekey_completes key params rnd nonces p s db p1 old :
  Api.open (rekey_options key) rnd nonces p = (Ok db, p1) → rekeyable (txm db) old rnd → favourable False (txm db) old key params rnd →
  (∀ a, params = Some a → Crypto.argon2_params_out_of_range a = false) → scratch_answers s = [] → removable False s →
  ∃ p' s', rekey key params rnd nonces (p, s) = (Ok tt, (p', s')).
Proof.
  intros Eo Hk Hf Hv Ha Hr. rewrite (rekey_run key params rnd nonces p s db p1 Eo Hv).
  assert (Hp : ∀ a, params = Some a → u32_params a) by (intros a E; by apply range_params, Hv).
  destruct (rotate (txm db) key params rnd s) as [r s1] eqn:Er.
  pose proof (rotate_built False _ old key params rnd Hk Hf s r s1 (or_intror Ha) Hr Hp Er) as Hb. destruct r as [[] | |]; [| done | done].
  destruct Hb as ([[] | Hq] & w & h & j & bs & _ & _ & _ & (e & He & Hd) & _). rewrite rename_cases.
  assert (Ec : scratch_call s1 = (Ok tt, s1)) by (unfold scratch_call, answer, bind, reads; cbn [id]; by rewrite Hq). rewrite Ec, He. by eexists _, _.
Qed.

Lemma hushed_call s : scratch_answers s = [] → scratch_call s = (Ok tt, s).
Proof. intros Hq. unfold scratch_call, answer, bind, reads. cbn [id]. by rewrite Hq. Qed.

Lemma create_refused s e :
  scratch_answers s = [] → entry s = Some e → is_file e && sole_link e && own e = false →
  create_scratch s = (Err (IoError PermissionDenied), s).
Proof.
  intros Ha He Ho. unfold create_scratch. unfold bind at 1. rewrite (hushed_call s Ha). unfold bind at 1, reads. cbn [id]. rewrite He.
  unfold bind at 1, reclaim_scratch. unfold bind at 1. rewrite (hushed_call s Ha). unfold bind at 1, reads. cbn [id]. by rewrite He, Ho.
Qed.

(** C39 What failures leave at the scratch path.  An entry there that is not a file of our own
    with one link makes [rekey] fail with [PermissionDenied], and is removed all
    the same: the cleanup after a failed build unlinks what the build refused to unlink.
    A rename that fails, on the other hand, leaves the complete scratch file
    in place. *)
Theorem rekey_scratch key params rnd nonces p s db p1 old :
  Api.open (rekey_options key) rnd nonces p = (Ok db, p1) → rekeyable (txm db) old rnd →
  (∀ a, params = Some a → Crypto.argon2_params_out_of_range a = false) →
  (∀ e, favourable False (txm db) old key params rnd → scratch_answers s = [] → entry s = Some e → is_file e && sole_link e && own e = false →
    rekey key params rnd nonces (p, s) = (Err (IoError PermissionDenied), (p1, set_entry None s))) ∧
  (∀ s1 e p' s', rotate (txm db) key params rnd s = (Ok tt, s1) → rekey key params rnd nonces (p, s) = (Err e, (p', s')) →
    ∃ w h bs, holds s' bs ∧ rotated (txm db) old (rnd_dek rnd) w h (superblock_count (txm db)) bs).
Proof.
  intros Eo Hk Hv. split.
  2:{ intros s1 e p' s' Er. rewrite (rekey_run key params rnd nonces p s db p1 Eo Hv), Er, rename_cases.
    assert (Hp : ∀ a, params = Some a → u32_params a) by (intros a E; by apply range_params, Hv).
    destruct (rotate_built True (txm db) old key params rnd Hk ltac:(split; by left) s _ s1 (or_introl I)
      ltac:(unfold removable; destruct (entry s); [by left | done]) Hp Er) as (_ & w & h & j & bs & _ & _ & _ & (x & Hx & Hd) & Hro).
    pose proof (scratch_call_spec True s1 (or_introl I)) as [[Ee _] _]. destruct (scratch_call s1) as [[[] | |] s2]; cbn [fst snd] in *.
    - by rewrite Ee, Hx.
    - intros [= _ _ <-]. exists w, h, bs. split; [exists x; by rewrite Ee | exact Hro].
    - done. }
  intros e Hf Ha He Ho. rewrite (rekey_run key params rnd nonces p s db p1 Eo Hv).
  destruct (rotate (txm db) key params rnd s) as [r s1] eqn:Er.
  destruct (rotate_start False _ old key params rnd Hk Hf s r s1 (or_intror Ha) Er) as [([] & _) | (w & h & j & x & Hx & Ex & _ & _ & _ & Eb)].
  assert (Ebuild : ∀ pc n w h o f, build_rotated_file pc n w h o f x = (Err (IoError PermissionDenied), x)).
  { intros. unfold build_rotated_file. unfold bind at 1, on_scratch at 1, zoom at 1. rewrite Ex, (create_refused s e Ha He Ho). f_equal. rewrite <- Ex. by destruct x. }
  revert Eb. unfold on_err. rewrite Ebuild. cbn [snd]. rewrite Ex. unfold remove_scratch, answer, bind, reads. cbn [id]. rewrite Ha.
  intros [= <- <-]. reflexivity.
Qed.
End rekey.

(** ** Examples: a file of an encrypted database with one value, rotated *)

Section examples.
Import CryptoProps CacheProps KeyProps CacheReuse.
#[local] Existing Instance sum_hash.

Definition demo_old : list Z := replicate 32 7.
Definition demo_fresh : Random := {| rnd_dek := replicate 32 8; rnd_salt := replicate 16 3; rnd_nonce := replicate 24 4 |}.

Definition demo_disk : list Z :=
  match create_new 2 (Some demo_key) None demo_rnd demo_store with
  | (Ok t, _) => TxnFile.file_bytes (cache ((begin_txn ;;; TxnOps.allocate [1; 2; 3] ;;; commit_txn) t).2)
  | _ => []
  end.

Definition demo_at : Path :=
  {| contents := Some demo_disk; Api.locked := false; os_answers := []; spill_creation := None; spill_answers := [] |}.

Abbreviation demo_open := (Api.open (rekey_options demo_key) demo_fresh (λ _, zeros NONCE_LEN) demo_at).

#[local] Instance named_root_eq : EqDecision Superblock.NamedRoot := ltac:(solve_decision).
#[local] Instance roots_eq : EqDecision Roots := ltac:(solve_decision).

(** What slot [j] opens to where it has the counter of the manager. *)
Definition source_at (self : TransactionManager PageCache) (dek : list Z) (j : Z) : option Superblock.Superblock :=
  match Superblock.deserialize (image_at (io (cache self)) j) with
  | Some seen =>
      if Superblock.txn_counter seen =? txn_counter self
      then match Superblock.decrypt_body seen dek (image_at (io (cache self)) j) with COk sb => Some sb | _ => None end else None
  | None => None
  end.

Lemma source_at_some self dek j sb : source self dek j sb ↔ source_at self dek j = Some sb.
Proof.
  unfold source, source_at. split.
  - intros (seen & -> & <- & ->). by rewrite Z.eqb_refl.
  - destruct (Superblock.deserialize _) as [seen |]; [| done]. destruct (Z.eqb_spec (Superblock.txn_counter seen) (txn_counter self)); [| done].
    destruct (Superblock.decrypt_body _ _ _) as [x | |] eqn:E; [| done | done]. intros [= <-]. by exists seen.
Qed.

Definition accepted_check (sb : Superblock.Superblock) (count : Z) : bool :=
  (Superblock.format_version sb =? format_version_encrypted) && (Superblock.page_size sb =? PAGE_SIZE) &&
  (Superblock.freemap_depth sb <=? Z.of_nat FreeMapTree.MAX_DEPTH) && (Superblock.next_handle sb <=? Superblock.MAX_NEXT_HANDLE) &&
  (Superblock.total_pages sb <=? count) && match Superblock.encryption sb with Some _ => true | None => false end.

Lemma accepted_check_ok sb count : accepted_check sb count = true → Superblock.encryption sb ≠ None ∧ accepted sb count.
Proof.
  unfold accepted_check. rewrite !andb_true_iff, !Z.leb_le, !Z.eqb_eq. intros (((((H1 & H2) & H3) & H4) & H5) & H6).
  destruct (Superblock.encryption sb) eqn:E; [| done]. split; [done |]. split; rewrite ?E; done.
Qed.

Definition agree_check (self : TransactionManager PageCache) (found : option Superblock.Superblock) : bool :=
  match found with
  | Some sb => bool_decide (roots_of sb = committed_roots self) && (Superblock.superblock_count sb =? 2) && accepted_check sb (PageIo.page_count (io (cache self)))
  | None => true
  end.

Definition no_panic (raw : list Z) (found : option Superblock.Superblock) : bool :=
  match found with
  | Some seen => match Superblock.decrypt_body seen demo_old raw with CPanic _ => false | _ => true end
  | None => true
  end.

Abbreviation no_panic_at self j := (no_panic (image_at (io (cache self)) j) (Superblock.deserialize (image_at (io (cache self)) j))).

Lemma no_panic_some raw seen p : no_panic raw (Some seen) = true → Superblock.decrypt_body seen demo_old raw ≠ CPanic p.
Proof. unfold no_panic. by destruct (Superblock.decrypt_body seen demo_old raw). Qed.

Definition is_found (a b : option Superblock.Superblock) : bool := match a, b with None, None => false | _, _ => true end.

Definition file_check (self : TransactionManager PageCache) : bool :=
  let i := io (cache self) in let bs := Backing.bytes (PageIo.backing i) in
  bool_decide (Txn.cipher self = Some demo_old) && forallb byte_ok bs && (PageIo.stride i =? ENC_PAGE_SIZE) && (zlen bs <=? u64_max) &&
  (2 <=? PageIo.page_count i) && (PageIo.page_count i * ENC_PAGE_SIZE <=? zlen bs) && (superblock_count self =? 2) &&
  match crypto_header self with Some h => header_check h | None => true end.

Definition favour_check (self : TransactionManager PageCache) : bool :=
  bool_decide (Backing.answers (PageIo.backing (io (cache self))) = []) && agree_check self (source_at self demo_old 0) && agree_check self (source_at self demo_old 1) && no_panic_at self 0 && no_panic_at self 1 &&
  is_found (source_at self demo_old 0) (source_at self demo_old 1) &&
  match effective self demo_key None with
  | Ok eff => match wrap_into blank 0 demo_key (rnd_dek demo_fresh) eff (rnd_salt demo_fresh) (rnd_nonce demo_fresh) with COk _ => true | _ => false end
  | _ => false
  end.

Lemma file_check_ok self : file_check self = true → nonces (cache self) = (λ _, zeros NONCE_LEN) → rekeyable self demo_old demo_fresh.
Proof.
  unfold file_check. cbv zeta. rewrite !andb_true_iff, !Z.leb_le, !Z.eqb_eq, bool_decide_eq_true. intros (((((((H1 & H2) & H3) & H4) & H5) & H6) & H7) & H8) Hn.
  split; [done | | done | done | | | |].
  - split; [by rewrite H3 | by apply byte_ok_spec |]. rewrite H3. unfold PageIo.page_count in *. lia.
  - intros k. rewrite Hn. split; [done | apply bytes_ok_zeros].
  - rewrite H7. split; [done | lia].
  - repeat split; done || by apply Forall_replicate.
  - intros h Hh. rewrite Hh in H8. by apply header_check_ok.
Qed.

Lemma two_slots j : 0 ≤ j < 2 → j = 0 ∨ j = 1.
Proof. lia. Qed.

Lemma agree_check_some self sb :
  agree_check self (Some sb) = true →
  roots_of sb = committed_roots self ∧ Superblock.superblock_count sb = 2 ∧ Superblock.encryption sb ≠ None ∧ accepted sb (PageIo.page_count (io (cache self))).
Proof.
  unfold agree_check. intros Ha. apply andb_true_iff in Ha as [[H1%bool_decide_eq_true H2%Z.eqb_eq]%andb_true_iff [H3 H4]%accepted_check_ok].
  split; [exact H1 |]. split; [exact H2 |]. split; [exact H3 | exact H4].
Qed.

Lemma agree_check_ok self :
  superblock_count self = 2 → agree_check self (source_at self demo_old 0) = true → agree_check self (source_at self demo_old 1) = true → slots_agree self demo_old.
Proof.
  intros Hn A0 A1 j sb Hj Hs. apply source_at_some in Hs. rewrite Hn in Hj |- *. apply agree_check_some.
  destruct (two_slots j Hj) as [E | E]; rewrite E in Hs; [rewrite Hs in A0; exact A0 | rewrite Hs in A1; exact A1].
Qed.

Lemma opens_check self :
  is_found (source_at self demo_old 0) (source_at self demo_old 1) = true → no_panic_at self 0 = true → no_panic_at self 1 = true →
  opens_some False self demo_old (seqZ 0 2).
Proof.
  intros Hs N0 N1. right. split.
  - assert (Hin : 0 ∈ seqZ 0 2 ∧ 1 ∈ seqZ 0 2) by (clear; split; apply elem_of_seqZ; lia). destruct Hin as [H0 H1].
    destruct (source_at self demo_old 0) as [sb |] eqn:E0; [exists 0, sb; split; [exact H0 | apply source_at_some; exact E0] |].
    destruct (source_at self demo_old 1) as [sb |] eqn:E1; [exists 1, sb; split; [exact H1 | apply source_at_some; exact E1] | discriminate Hs].
  - intros j seen p Hj Hd. apply no_panic_some. assert (Hj2 : j = 0 ∨ j = 1) by (clear - Hj; apply elem_of_seqZ in Hj; lia).
    destruct Hj2 as [E | E]; rewrite E in Hd |- *; [rewrite Hd in N0; exact N0 | rewrite Hd in N1; exact N1].
Qed.

Lemma wraps_check self :
  match effective self demo_key None with
  | Ok eff => match wrap_into blank 0 demo_key (rnd_dek demo_fresh) eff (rnd_salt demo_fresh) (rnd_nonce demo_fresh) with COk _ => true | _ => false end
  | _ => false
  end = true → ∃ h, wraps self demo_key None demo_fresh h.
Proof.
  intros Hw. destruct (effective self demo_key None) as [eff | |] eqn:E; [| discriminate Hw | discriminate Hw].
  destruct (wrap_into _ _ _ _ _ _ _) as [h | |] eqn:Ew; [| discriminate Hw | discriminate Hw]. exists h, eff. split; [exact E | exact Ew].
Qed.

Lemma favour_check_ok self :
  superblock_count self = 2 → favour_check self = true → slots_agree self demo_old ∧ favourable False self demo_old demo_key None demo_fresh.
Proof.
  unfold favour_check. rewrite !andb_true_iff, bool_decide_eq_true. intros Hn ((((((H1 & A0) & A1) & N0) & N1) & Hs) & Hw).
  split; [exact (agree_check_ok self Hn A0 A1) |].
  split; [right; exact H1 | rewrite Hn; exact (opens_check self Hs N0 N1) | right; exact (wraps_check self Hw)].
Qed.

Definition demo_scratch (e : option Entry) : Scratch := {| entry := e; scratch_answers := [] |}.

Lemma demo_open_check :
  match demo_open with
  | (Ok db, _) => file_check (txm db) && favour_check (txm db) = true ∧ nonces (cache (txm db)) = (λ _, zeros NONCE_LEN)
  | _ => False
  end.
Proof. vm_compute. split; reflexivity. Qed.

(** The database opens, and is as the theorems want it. *)
Lemma demo_opened :
  ∃ db p1, demo_open = (Ok db, p1) ∧ rekeyable (txm db) demo_old demo_fresh ∧ slots_agree (txm db) demo_old ∧
    favourable False (txm db) demo_old demo_key None demo_fresh.
Proof.
  pose proof demo_open_check as Hc. destruct demo_open as [[db | |] p1]; [destruct Hc as [Hc Hn] | destruct Hc | destruct Hc].
  apply andb_true_iff in Hc as [Hf Hv]. exists db, p1. split; [reflexivity |]. split; [by apply file_check_ok |].
  apply favour_check_ok; [| exact Hv]. unfold file_check in Hf. cbv zeta in Hf. rewrite !andb_true_iff, !Z.eqb_eq in Hf. apply Hf.
Qed.

Abbreviation demo_rekey e := (rekey demo_key None demo_fresh (λ _, zeros NONCE_LEN) (demo_at, demo_scratch e)).

Lemma demo_rekey_ok : is_ok (demo_rekey None).1 = true.
Proof. vm_compute. reflexivity. Qed.

Lemma rekey_same_database_witness :
  ∃ db p1 p' s' bs, demo_open = (Ok db, p1) ∧ demo_rekey None = (Ok tt, (p', s')) ∧ contents p' = Some bs ∧
    same_database (txm db) demo_old demo_key (rnd_dek demo_fresh) bs.
Proof.
  destruct demo_opened as (db & p1 & Ho & Hk & Hag & _). pose proof demo_rekey_ok as Hok.
  destruct (demo_rekey None) as [[[] | |] [p' s']] eqn:E; [| discriminate Hok | discriminate Hok].
  destruct (rekey_same_database demo_key None demo_fresh (λ _, zeros NONCE_LEN) demo_at (demo_scratch None) db p1 demo_old (Ok tt) p' s' Ho Hk Hag E) as [_ H].
  destruct (H eq_refl) as (_ & bs & Hb & Hsame). exists db, p1, p', s', bs. split; [exact Ho |]. split; [reflexivity |]. split; [exact Hb | exact Hsame].
Defined.

Lemma rekey_completes_witness : ∃ p' s', demo_rekey (Some new_entry) = (Ok tt, (p', s')).
Proof.
  destruct demo_opened as (db & p1 & Ho & Hk & _ & Hf).
  apply (rekey_completes demo_key None demo_fresh (λ _, zeros NONCE_LEN) demo_at (demo_scratch (Some new_entry)) db p1 demo_old Ho Hk Hf); [discriminate | reflexivity |].
  right. reflexivity.
Defined.

Definition demo_link : Entry := {| is_file := false; sole_link := true; own := false; data := [] |}.

Lemma rekey_scratch_witness : ∃ p', demo_rekey (Some demo_link) = (Err (IoError PermissionDenied), (p', demo_scratch None)).
Proof.
  destruct demo_opened as (db & p1 & Ho & Hk & _ & Hf). exists p1. assert (Hv : ∀ a, @None Argon2Params = Some a → Crypto.argon2_params_out_of_range a = false) by discriminate.
  destruct (rekey_scratch demo_key None demo_fresh (λ _, zeros NONCE_LEN) demo_at (demo_scratch (Some demo_link)) db p1 demo_old Ho Hk Hv) as [H _].
  exact (H demo_link Hf eq_refl eq_refl eq_refl).
Defined.
End examples.
End RekeyProps.
